(** * elektronn3.data.transformations: warping and resampling engine

    A shallow embedding of [elektronn3/data/transformations.py] and the
    properties its specification states about it.

    Numbers.  The source computes in [float32]/[float64] and casts indices
    to [int32]/[int64].  Here every float is an exact rational ([Q]) and
    every integer is an unbounded [Z]: rounding error, overflow, [inf] and
    [nan] are outside the model.  Equality of computed values is therefore
    [Qeq] ([==]), the equality of rationals as numbers.  Where rounding
    could change which exception is raised or which stored value comes
    out, a statement carries the hypothesis under which the floats compute
    exactly ([exact_arith], [float32_dataset]).

    Arrays.  An on-disk dataset ([h5py.Dataset]) is a shape with a read
    function; arrays built by the code are nested lists, indexed in the
    source's order (channel, z, x, y).

    Failure.  Every exception the source raises is a constructor of [exn];
    a function that can raise returns a [result]. *)

From Stdlib Require Import String.
From Stdlib Require Import ZArith QArith Qround Qminmax Qabs.
From Stdlib Require Import List Bool Lia Lqa Setoid Morphisms.
Import ListNotations.

Set Implicit Arguments.
Local Open Scope Z_scope.

(* ================================================================== *)
(** ** Exceptions and the error monad *)

Inductive exn : Type :=
| NotImplementedError (msg : string)
| ValueError (msg : string)
| WarpingOOBError (msg : string)      (* class WarpingOOBError(ValueError) *)
| AssertionError
| LinAlgError                         (* numpy.linalg.inv on a matrix that is not square *)
| IndexError
| TypeError
| AttributeError
| ZeroDivisionError
| Undefined (what : string).          (* no outcome in this model: unchecked
                                         read in nopython code, x/0 in an
                                         array, inverse of a singular matrix *)

Inductive result (A : Type) : Type :=
| Ok (a : A)
| Raise (e : exn).
Arguments Ok {A} a.
Arguments Raise {A} e.

Definition bind {A B : Type} (r : result A) (k : A -> result B) : result B :=
  match r with
  | Ok a => k a
  | Raise e => Raise e
  end.

Notation "x <- c1 ;; c2" := (bind c1 (fun x => c2))
  (at level 61, c1 at next level, right associativity).
Notation "' pat <- c1 ;; c2" := (bind c1 (fun x => match x with pat => c2 end))
  (at level 61, pat pattern, c1 at next level, right associativity).

Definition assert_ (b : bool) : result unit :=
  if b then Ok tt else Raise AssertionError.

Definition is_ok {A : Type} (r : result A) : bool :=
  match r with Ok _ => true | Raise _ => false end.

(** [isinstance(e, ValueError)]: the out-of-bounds error is a subclass. *)
Definition is_ValueError (e : exn) : bool :=
  match e with
  | ValueError _ | WarpingOOBError _ => true
  | _ => false
  end.

Fixpoint mapM {A B : Type} (f : A -> result B) (l : list A) : result (list B) :=
  match l with
  | [] => Ok []
  | a :: l' => b <- f a ;; bs <- mapM f l' ;; Ok (b :: bs)
  end.

(* ================================================================== *)
(** ** Numbers *)

Definition Qltb (a b : Q) : bool := negb (Qle_bool b a).

(** [np.int32(x)] on a float: truncation toward zero. *)
Definition Qtrunc (q : Q) : Z :=
  if Qle_bool 0 q then Qfloor q else Qceiling q.

(** [np.round]: to the nearest integer, ties to the even one. *)
Definition Qround_even (q : Q) : Z :=
  let f := Qfloor q in
  let d := (q - inject_Z f)%Q in
  if Qltb d (1 # 2) then f
  else if Qltb (1 # 2) d then f + 1
  else if Z.even f then f else f + 1.

Definition QofZ (z : Z) : Q := inject_Z z.

(** [range(n)] and [range(a, a + n)] over [Z]. *)
Definition zrange (a n : Z) : list Z :=
  map (fun i => a + Z.of_nat i) (seq 0 (Z.to_nat n)).

Definition zlen {A : Type} (l : list A) : Z := Z.of_nat (length l).

(** Indexing a Python sequence that checks its bounds: negative indices
    count from the end, anything else raises [IndexError]. *)
Definition py_index {A : Type} (l : list A) (i : Z) : result A :=
  let n := zlen l in
  let j := if i <? 0 then i + n else i in
  if (0 <=? j) && (j <? n) then
    match nth_error l (Z.to_nat j) with
    | Some a => Ok a
    | None => Raise IndexError
    end
  else Raise IndexError.

(** Indexing inside [numba] nopython code: negative indices wrap around,
    bounds are not checked, so a read outside the array has no meaning. *)
Definition nb_index {A : Type} (l : list A) (i : Z) : result A :=
  let n := zlen l in
  let j := if i <? 0 then i + n else i in
  if (0 <=? j) && (j <? n) then
    match nth_error l (Z.to_nat j) with
    | Some a => Ok a
    | None => Raise (Undefined "unchecked read")
    end
  else Raise (Undefined "unchecked read").

(** The bounds of a slice [a:b] of a sequence of length [n]. *)
Definition slice_bound (n i : Z) : Z :=
  if i <? 0 then Z.max 0 (i + n) else Z.min i n.

Definition slice_indices (n a b : Z) : list Z :=
  let a' := slice_bound n a in
  let b' := slice_bound n b in
  zrange a' (b' - a').

Definition slice {A : Type} (l : list A) (a b : Z) : list A :=
  let n := zlen l in
  let a' := slice_bound n a in
  let b' := slice_bound n b in
  firstn (Z.to_nat (b' - a')) (skipn (Z.to_nat a') l).

(* ================================================================== *)
(** ** Vectors and matrices *)

Definition vec := list Q.
Definition matrix := list (list Q).

Definition qsum (l : list Q) : Q := fold_left Qplus l 0%Q.

Definition vdot (a b : vec) : Q :=
  qsum (map (fun p => (fst p * snd p)%Q) (combine a b)).

Definition column (m : matrix) (j : nat) : vec :=
  map (fun r => nth j r 0%Q) m.

Definition ncols (m : matrix) : nat :=
  match m with [] => O | r :: _ => length r end.

Definition transpose (m : matrix) : matrix :=
  map (column m) (seq 0 (ncols m)).

(** [np.dot(a, b)] on two 2-D arrays. *)
Definition dot (a b : matrix) : matrix :=
  map (fun r => map (fun j => vdot r (column b j)) (seq 0 (ncols b))) a.

Definition eye (n : nat) : matrix :=
  map (fun i => map (fun j => if Nat.eqb i j then 1%Q else 0%Q) (seq 0 n)) (seq 0 n).

Definition mget (m : matrix) (i j : nat) : Q := nth j (nth i m []) 0%Q.

(** Equality of vectors and matrices as arrays of numbers. *)
Definition veq (a b : vec) : Prop := Forall2 Qeq a b.
Definition meq (a b : matrix) : Prop := Forall2 veq a b.

(** *** Matrix builders *)

Definition identity : matrix := eye 4.

Definition translate (dz dy dx : Q) : matrix :=
  [ [1; 0; 0; dz];
    [0; 1; 0; dy];
    [0; 0; 1; dx];
    [0; 0; 0; 1] ]%Q.

(** [a / b] on Python numbers. *)
Definition py_div (a b : Q) : result Q :=
  if Qeq_bool b 0 then Raise ZeroDivisionError else Ok (a / b)%Q.

Definition scale_inv (mz my mx : Q) : result matrix :=
  a <- py_div 1 mz ;; b <- py_div 1 my ;; c <- py_div 1 mx ;;
  Ok [ [a; 0; 0; 0];
       [0; b; 0; 0];
       [0; 0; c; 0];
       [0; 0; 0; 1] ]%Q.

Definition scale (mz my mx : Q) : matrix :=
  [ [mz; 0; 0; 0];
    [0; my; 0; 0];
    [0; 0; mx; 0];
    [0; 0; 0; 1] ]%Q.

(** [reduce(np.dot, mat_list, identity())]. *)
Definition chain_matrices (mat_list : list matrix) : matrix :=
  fold_left dot mat_list identity.

(** *** Inverse

    [np.linalg.inv] is a library routine; it is modelled by what it
    computes, the inverse as adjugate over determinant, and by its failure
    on a matrix that is not square.  On a matrix whose determinant is 0 the
    routine raises [LinAlgError] when its factorisation meets a pivot that
    is exactly zero, and returns a matrix of rounding noise when the pivot
    is only close to zero: which of the two happens depends on the rounding
    of the floats, so the model gives that case no outcome. *)

Definition remove_nth {A : Type} (n : nat) (l : list A) : list A :=
  firstn n l ++ skipn (S n) l.

Definition minor (m : matrix) (i j : nat) : matrix :=
  map (remove_nth j) (remove_nth i m).

Definition sign (k : nat) : Q := if Nat.even k then 1%Q else (-1)%Q.

(** Laplace expansion along the first row of an [n] x [n] matrix. *)
Fixpoint det (n : nat) (m : matrix) : Q :=
  match n with
  | O => 1%Q
  | S n' =>
      qsum (map (fun j => (sign j * mget m 0 j * det n' (minor m 0 j))%Q)
                (seq 0 (S n')))
  end.

Definition is_shape (r c : nat) (m : matrix) : bool :=
  Nat.eqb (length m) r && forallb (fun x => Nat.eqb (length x) c) m.

Definition is_square (n : nat) (m : matrix) : bool := is_shape n n m.

Definition inv (m : matrix) : result matrix :=
  let n := length m in
  if negb (is_square n m) then Raise LinAlgError
  else
    let d := det n m in
    if Qeq_bool d 0 then Raise (Undefined "inverse of a singular matrix")
    else
      Ok (map (fun i =>
                 map (fun j => (sign (i + j) * det (pred n) (minor m j i) / d)%Q)
                     (seq 0 n))
              (seq 0 n)).

(* ================================================================== *)
(** ** Arrays *)

(** A dataset on disk: its shape and the value stored at a full index. *)
Record Dataset : Type := {
  shape : list Z;
  read : list Z -> Q
}.

Definition arr3 := list (list (list Q)).
Definition arr4 := list arr3.
(** A dense grid holding one coordinate vector per voxel. *)
Definition grid := list (list (list vec)).

(** [d[:, a0:b0, a1:b1, a2:b2]] on a dataset with a channel axis.  The
    source then casts the cut to [float32] (lines 486 and 560); the cast
    is not modelled: it is the identity on the values [float32] holds, and
    what is stated of the values of a cut is up to it. *)
Definition read_region (d : Dataset) (a b : list Z) : arr4 :=
  match shape d with
  | [c; s0; s1; s2] =>
      map (fun k =>
        map (fun z =>
          map (fun x =>
            map (fun y => read d [k; z; x; y])
                (slice_indices s2 (nth 2 a 0) (nth 2 b 0)))
              (slice_indices s1 (nth 1 a 0) (nth 1 b 0)))
            (slice_indices s0 (nth 0 a 0) (nth 0 b 0)))
          (zrange 0 c)
  | _ => []
  end.

Definition gridM {A B : Type} (f : A -> result B)
  (g : list (list (list A))) : result (list (list (list B))) :=
  mapM (mapM (mapM f)) g.

Definition grid_map {A B : Type} (f : A -> B)
  (g : list (list (list A))) : list (list (list B)) :=
  map (map (map f)) g.

Definition grid_flat {A : Type} (g : list (list (list A))) : list A :=
  concat (concat g).

(** Reductions; [numpy] refuses an empty array. *)
Definition reduce (A : Type) (op : A -> A -> A) (l : list A) : result A :=
  match l with
  | [] => Raise (ValueError "zero-size array to reduction operation")
  | x :: l' => Ok (fold_left op l' x)
  end.

(* ================================================================== *)
(** ** Resampling kernels *)

(** The three kernels are compiled by [numba]; each is given here by its
    body at one output voxel ([nearest_at], [linear_at], [max_kernel_at])
    and by the loop over the output grid. *)

(** [src[u, v, w]]. *)
Definition nb_index3 (src : arr3) (u v w : Z) : result Q :=
  p <- nb_index src u ;; r <- nb_index p v ;; nb_index r w.

Definition coord (c : vec) (i : nat) : Q := nth i c 0%Q.

(** [map_coordinates_nearest] (lines 83-89). *)
Definition nearest_at (src : arr3) (lo : vec) (coords : vec) : result Q :=
  let u := Qround_even (coord coords 0 - coord lo 0) in
  let v := Qround_even (coord coords 1 - coord lo 1) in
  let w := Qround_even (coord coords 2 - coord lo 2) in
  nb_index3 src u v w.

Definition map_coordinates_nearest (src : arr3) (coords : grid) (lo : vec)
  : result arr3 :=
  gridM (nearest_at src lo) coords.

(** [map_coordinates_linear] (lines 92-115). *)
Definition linear_at (src : arr3) (lo : vec) (coords : vec) : result Q :=
  let u := (coord coords 0 - coord lo 0)%Q in
  let v := (coord coords 1 - coord lo 1)%Q in
  let w := (coord coords 2 - coord lo 2)%Q in
  let u0 := Qtrunc u in
  let u1 := u0 + 1 in
  let du := (u - QofZ u0)%Q in
  let v0 := Qtrunc v in
  let v1 := v0 + 1 in
  let dv := (v - QofZ v0)%Q in
  let w0 := Qtrunc w in
  let w1 := w0 + 1 in
  let dw := (w - QofZ w0)%Q in
  s000 <- nb_index3 src u0 v0 w0 ;;
  s100 <- nb_index3 src u1 v0 w0 ;;
  s010 <- nb_index3 src u0 v1 w0 ;;
  s001 <- nb_index3 src u0 v0 w1 ;;
  s101 <- nb_index3 src u1 v0 w1 ;;
  s011 <- nb_index3 src u0 v1 w1 ;;
  s110 <- nb_index3 src u1 v1 w0 ;;
  s111 <- nb_index3 src u1 v1 w1 ;;
  Ok (s000 * (1 - du) * (1 - dv) * (1 - dw) +
      s100 * du * (1 - dv) * (1 - dw) +
      s010 * (1 - du) * dv * (1 - dw) +
      s001 * (1 - du) * (1 - dv) * dw +
      s101 * du * (1 - dv) * dw +
      s011 * (1 - du) * dv * dw +
      s110 * du * dv * (1 - dw) +
      s111 * du * dv * dw)%Q.

Definition map_coordinates_linear (src : arr3) (coords : grid) (lo : vec)
  : result arr3 :=
  gridM (linear_at src lo) coords.

(** Shape of the source sub-array, as [src.shape]. *)
Definition shape3 (src : arr3) : Z * Z * Z :=
  let p := hd [] src in
  (zlen src, zlen p, zlen (hd [] p)).

(** [np.int32(np.round(max(0, min(n, x))))]. *)
Definition clamp_round (n : Z) (x : Q) : Z :=
  Qround_even (Qmax 0 (Qmin (QofZ n) x)).

(** [map_coordinates_max_kernel] (lines 118-140); the maximum of an empty
    window is an error. *)
Definition max_kernel_at (src : arr3) (lo : vec) (k : Q) (coords : vec)
  : result Q :=
  let kz := Qmin (1 # 2) (k / 2) in
  let '(s0, s1, s2) := shape3 src in
  let u := (coord coords 0 - coord lo 0)%Q in
  let v := (coord coords 1 - coord lo 1)%Q in
  let w := (coord coords 2 - coord lo 2)%Q in
  let u0 := clamp_round s0 (u - kz) in
  let u1 := clamp_round s0 (u + kz) in
  let v0 := clamp_round s1 (v - k) in
  let v1 := clamp_round s1 (v + k) in
  let w0 := clamp_round s2 (w - k) in
  let w1 := clamp_round s2 (w + k) in
  reduce Qmax
    (grid_flat (map (fun p => map (fun r => slice r w0 w1) (slice p v0 v1))
                    (slice src u0 u1))).

Definition map_coordinates_max_kernel (src : arr3) (coords : grid) (lo : vec)
  (k : Q) : result arr3 :=
  gridM (max_kernel_at src lo k) coords.

(* ================================================================== *)
(** ** Destination coordinates *)

(** The eight triples of [itertools.product] over [[0,1]], in its order. *)
Definition unit_corners : list (list Z) :=
  [ [0;0;0]; [0;0;1]; [0;1;0]; [0;1;1];
    [1;0;0]; [1;0;1]; [1;1;0]; [1;1;1] ].

(** The eight corners of a patch whose last indices are [sh1]. *)
Definition corner_rows (sh1 : list Z) : matrix :=
  map (fun c => map (fun p => QofZ (fst p * snd p)) (combine sh1 c) ++ [1%Q])
      unit_corners.

(** Lines 314-323: the corners of the patch, homogeneous.  [np.multiply]
    spreads a patch size of one entry over the three axes, and refuses
    every length other than one and three. *)
Definition make_dest_corners (sh : list Z) : result matrix :=
  match map (fun s => s - 1) sh with
  | [s] => Ok (corner_rows [s; s; s])
  | [s0; s1; s2] => Ok (corner_rows [s0; s1; s2])
  | _ => Raise (ValueError "operands could not be broadcast together")
  end.

(** Lines 302-311: the coordinate [(z, x, y, 1)] of every voxel.  The
    three entries [sh[0]], [sh[1]], [sh[2]] are read; with more entries
    the array of ones has more axes than the three grids. *)
Definition make_dest_coords (sh : list Z) : result grid :=
  match sh with
  | [n0; n1; n2] =>
      Ok (map (fun z =>
            map (fun x =>
              map (fun y => [QofZ z; QofZ x; QofZ y; 1%Q]) (zrange 0 n2))
                (zrange 0 n1))
              (zrange 0 n0))
  | _ :: _ :: _ :: _ =>
      Raise (ValueError "all the input arrays must have same number of dimensions")
  | _ => Raise IndexError
  end.

(** [np.any(M[3,:3] != 0)]. *)
Definition needs_divide (M : matrix) : bool :=
  existsb (fun j => negb (Qeq_bool (mget M 3 j) 0)) (seq 0 3).

(** [v /= v[3]]: an array division by zero gives [inf] or [nan], whose
    later cast to an integer has no defined value. *)
Definition homogeneous_divide (v : vec) : result vec :=
  let h := coord v 3 in
  if Qeq_bool h 0 then Raise (Undefined "division by zero")
  else Ok (map (fun x => (x / h)%Q) v).

(** [np.allclose(M[3,:3], 0.0)]: [|x| <= atol] with [atol = 1e-8]. *)
Definition allclose0 (v : vec) : bool :=
  forallb (fun x => Qle_bool (Qabs x) (1 # 100000000)) v.

(* ================================================================== *)
(** ** Bounding box *)

Definition floor_vec (v : vec) : list Z := map Qfloor v.
Definition ceil1_vec (v : vec) : list Z := map (fun x => Qceiling (x + 1)) v.

(** [np.min(a, 0)] and [np.max(a, 0)] of a list of rows with [n] columns. *)
Definition min_axis0 (n : nat) (rows : list (list Z)) : result (list Z) :=
  mapM (fun j => reduce Z.min (map (fun r => nth j r 0) rows)) (seq 0 n).

Definition max_axis0 (n : nat) (rows : list (list Z)) : result (list Z) :=
  mapM (fun j => reduce Z.max (map (fun r => nth j r 0) rows)) (seq 0 n).

Definition qmin_axis0 (n : nat) (rows : list vec) : result vec :=
  mapM (fun j => reduce Qmin (map (fun r => coord r j) rows)) (seq 0 n).

Definition qmax_axis0 (n : nat) (rows : list vec) : result vec :=
  mapM (fun j => reduce Qmax (map (fun r => coord r j) rows)) (seq 0 n).

(** [np.any(lo < 0) or np.any(hi >= sh)]. *)
Definition out_of_bounds (lo hi sh : list Z) : bool :=
  existsb (fun l => l <? 0) lo ||
  existsb (fun p => snd p <=? fst p) (combine hi sh).

(** Lines 461-467: the source-space corners of the output patch, first
    three components. *)
Definition src_corners (M M_inv : matrix) (ps : list Z) : result (list vec) :=
  dest_corners <- make_dest_corners ps ;;
  if negb (Nat.eqb (length M_inv) 4) then
    Raise (ValueError "shapes not aligned")
  else
  let sc := transpose (dot M_inv (transpose dest_corners)) in
  sc' <- (if needs_divide M then mapM homogeneous_divide sc else Ok sc) ;;
  Ok (map (firstn 3) sc').

(** Lines 468-469: [lo] and [hi]. *)
Definition corner_box (corners : list vec) : result (list Z * list Z) :=
  lo <- min_axis0 3 (map floor_vec corners) ;;
  hi <- max_axis0 3 (map ceil1_vec corners) ;;
  Ok (lo, hi).

(** Lines 473-478: the dense source-space coordinates of the output
    patch. *)
Definition src_coords_of (M M_inv : matrix) (ps : list Z) : result grid :=
  dest_coords <- make_dest_coords ps ;;
  let sc := grid_map (fun c => map (fun r => vdot c r) M_inv) dest_coords in
  sc' <- (if needs_divide M then gridM homogeneous_divide sc else Ok sc) ;;
  Ok (grid_map (firstn 3) sc').

(* ================================================================== *)
(** ** Target handling *)

Definition centered_msg : string := "targets must be centered w.r.t. images".

(** [np.subtract(a, b)] on two shapes, then the parity check and [//= 2]. *)
Definition centering_offset (a b : list Z) : result (list Z) :=
  if negb (Nat.eqb (length a) (length b)) then
    Raise (ValueError "operands could not be broadcast together")
  else
    let off := map (fun p => fst p - snd p) (combine a b) in
    if existsb (fun o => negb (o mod 2 =? 0)) off then
      Raise (ValueError centered_msg)
    else Ok (map (fun o => o / 2) off).

(** [[True for i in range(n)]] or [[i in ix for i in range(n)]]. *)
Definition discrete_flags (target_discrete_ix : option (list Z)) (n : Z)
  : list bool :=
  match target_discrete_ix with
  | None => map (fun _ => true) (zrange 0 n)
  | Some ix => map (fun i => existsb (Z.eqb i) ix) (zrange 0 n)
  end.

Definition add3 (a b c : arr3) : arr3 :=
  map (fun p =>
    map (fun q =>
      map (fun r => (fst (fst r) + snd (fst r) + snd r)%Q)
          (combine (combine (fst (fst q)) (snd (fst q))) (snd q)))
        (combine (combine (fst (fst p)) (snd (fst p))) (snd p)))
      (combine (combine a b) c).

Definition scale3 (m : Q) (a : arr3) : arr3 := grid_map (Qmult m) a.

(** [target[i] = v], Python indexing. *)
Definition set_channel (target : arr4) (i : Z) (v : arr3) : result arr4 :=
  let n := zlen target in
  let j := if i <? 0 then i + n else i in
  if (0 <=? j) && (j <? n) then
    Ok (firstn (Z.to_nat j) target ++ v :: skipn (S (Z.to_nat j)) target)
  else Raise IndexError.

(** [l[i] = v], Python indexing. *)
Definition py_set {A : Type} (l : list A) (i : Z) (v : A) : result (list A) :=
  let n := zlen l in
  let j := if i <? 0 then i + n else i in
  if (0 <=? j) && (j <? n) then
    Ok (firstn (Z.to_nat j) l ++ v :: skipn (S (Z.to_nat j)) l)
  else Raise IndexError.

(** An entry of [target_vec_ix].  [numpy] reads a list of integers as a
    selection along the first axis and a tuple of integers as one index
    per axis: [target[[0, 1, 2]]] is the three channels 0, 1 and 2, and
    [target[(0, 1, 2)]] is [target[0, 1, 2]], one row of channel 0. *)
Inductive vec_index : Type :=
| IxList (ix : list Z)
| IxTuple (ix : list Z).

Definition ix_entries (ix : vec_index) : list Z :=
  match ix with IxList l | IxTuple l => l end.

(** Lines 578-580 for a list of three channel indices: the three channels
    are read, each new channel is a row of [M_lin] applied to them, then
    they are written back in order. *)
Definition reproject_list (M : matrix) (target : arr4) (ix : list Z)
  : result arr4 :=
  t0 <- py_index target (nth 0 ix 0) ;;
  t1 <- py_index target (nth 1 ix 0) ;;
  t2 <- py_index target (nth 2 ix 0) ;;
  let new i :=
    add3 (scale3 (mget M i 0) t0) (scale3 (mget M i 1) t1)
         (scale3 (mget M i 2) t2) in
  a <- set_channel target (nth 0 ix 0) (new 0%nat) ;;
  b <- set_channel a (nth 1 ix 0) (new 1%nat) ;;
  set_channel b (nth 2 ix 0) (new 2%nat).

(** [np.tensordot(M_lin, r, axes=[[1],[0]])] for a row [r] of three
    entries. *)
Definition lin_vec (M : matrix) (r : vec) : vec :=
  map (fun i => (mget M i 0 * coord r 0 + mget M i 1 * coord r 1
                 + mget M i 2 * coord r 2)%Q) (seq 0 3).

(** Lines 578-580 for a tuple of three integers: [target[ix]] is the row
    [target[i, j, k]]; [np.tensordot] sums over its entries against the
    three columns of [M_lin], so the row must have three entries, and the
    product takes its place. *)
Definition reproject_tuple (M : matrix) (target : arr4) (ix : list Z)
  : result arr4 :=
  ch <- py_index target (nth 0 ix 0) ;;
  p <- py_index ch (nth 1 ix 0) ;;
  r <- py_index p (nth 2 ix 0) ;;
  if negb (Nat.eqb (length r) 3) then
    Raise (ValueError "shape-mismatch for sum")
  else
    let new := lin_vec M r in
    p' <- py_set p (nth 2 ix 0) new ;;
    ch' <- py_set ch (nth 1 ix 0) p' ;;
    py_set target (nth 0 ix 0) ch'.

(** [assert len(ix)==3] and
    [target[ix] = np.tensordot(M_lin, target[ix], axes=[[1],[0]])]. *)
Definition reproject (M : matrix) (target : arr4) (ix : vec_index)
  : result arr4 :=
  _ <- assert_ (Nat.eqb (length (ix_entries ix)) 3) ;;
  match ix with
  | IxList l => reproject_list M target l
  | IxTuple l => reproject_tuple M target l
  end.

Fixpoint reproject_all (M : matrix) (target : arr4) (ixs : list vec_index)
  : result arr4 :=
  match ixs with
  | [] => Ok target
  | ix :: rest => t <- reproject M target ix ;; reproject_all M t rest
  end.

(** [g[o0:o0+n0, o1:o1+n1, o2:o2+n2]]. *)
Definition crop_axis {A : Type} (off n : list Z) (i : nat) (l : list A)
  : list A :=
  slice l (nth i off 0) (nth i off 0 + nth i n 0).

Definition crop_grid {A : Type} (off n : list Z) (g : list (list (list A)))
  : list (list (list A)) :=
  map (fun p => map (crop_axis off n 2) (crop_axis off n 1 p))
      (crop_axis off n 0 g).

(** The kernels write into [np.zeros((n,) + target_ps)]: the coordinate
    grid handed to them must have that shape. *)
Definition fits {A : Type} (n : list Z) (g : list (list (list A))) : bool :=
  forallb (fun p =>
    forallb (fun r => zlen r =? nth 2 n 0) p && (zlen p =? nth 1 n 0)) g
  && (zlen g =? nth 0 n 0).

Definition oob_msg : string := "Out of bounds".
Definition oob_target_msg : string := "Out of bounds for target_src".

(** Lines 498-518: the target's coordinate sub-grid, its bounding box and
    the centring offset of the two volumes. *)
Record target_window : Type := {
  tw_coords : grid;
  tw_lo : list Z;
  tw_hi : list Z;
  tw_off : list Z
}.

Definition target_window_of (sh ps : list Z) (src_coords : grid)
  (t_sh target_ps : list Z) : result target_window :=
  off <- centering_offset sh t_sh ;;
  off_ps <- centering_offset ps target_ps ;;
  let src_coords_target := crop_grid off_ps target_ps src_coords in
  let flat := grid_flat src_coords_target in
  mn <- qmin_axis0 3 flat ;;
  mx <- qmax_axis0 3 flat ;;
  let lo_targ :=
    map (fun p => Qfloor (fst p - QofZ (snd p))) (combine mn off) in
  let hi_targ :=
    map (fun p => Qceiling (fst p - QofZ (snd p) + 1)) (combine mx off) in
  if out_of_bounds lo_targ hi_targ t_sh then
    Raise (WarpingOOBError oob_target_msg)
  else
    Ok {| tw_coords := src_coords_target; tw_lo := lo_targ;
          tw_hi := hi_targ; tw_off := off |}.

(** Lines 569-573: one kernel per target channel, nearest where the flag
    is set, linear otherwise. *)
Definition resample_target (target_ps : list Z) (target_cut : arr4)
  (coords : grid) (lo : vec) (flags : list bool) : result arr4 :=
  mapM (fun kd =>
          src_k <- py_index target_cut (fst kd) ;;
          if negb (fits target_ps coords) then
            Raise (ValueError "output operand shape mismatch")
          else if snd kd : bool then
            map_coordinates_nearest src_k coords lo
          else
            map_coordinates_linear src_k coords lo)
       (combine (zrange 0 (zlen flags)) flags).

(** Lines 494-580: the branch of [warp_slice] for a target volume. *)
Definition warp_target (sh ps : list Z) (M : matrix) (src_coords : grid)
  (target_src : Dataset) (target_ps : option (list Z))
  (target_vec_ix : option (list vec_index))
  (target_discrete_ix : option (list Z)) : result arr4 :=
  match target_ps with
  | None => Raise TypeError
  | Some target_ps =>
      let n_f_t := hd 0 (shape target_src) in
      let t_sh := tl (shape target_src) in
      tw <- target_window_of sh ps src_coords t_sh target_ps ;;
      let target_cut :=
        read_region target_src (tw_lo tw) (map (fun h => h + 1) (tw_hi tw)) in
      let lo_f :=
        map (fun p => QofZ (fst p + snd p)) (combine (tw_lo tw) (tw_off tw)) in
      let flags := discrete_flags target_discrete_ix n_f_t in
      target <- resample_target target_ps target_cut (tw_coords tw) lo_f flags ;;
      match target_vec_ix with
      | None => Ok target
      | Some ixs =>
          _ <- assert_ (allclose0 (map (mget M 3) (seq 0 3))) ;;
          reproject_all M target ixs
      end
  end.

(* ================================================================== *)
(** ** The orchestrator *)

(** Lines 489-493: one kernel per input channel, linear, or the maximum
    kernel on the last channel when it is asked for and [ksize] exceeds one
    half. *)
Definition resample_input (img_cut : arr4) (src_coords : grid) (lo : vec)
  (n_f : Z) (last_ch_max_interp : bool) (ksize : Q) : result arr4 :=
  mapM (fun k =>
          src_k <- py_index img_cut k ;;
          if Qltb (1 # 2) ksize && last_ch_max_interp && (k =? n_f - 1)
          then map_coordinates_max_kernel src_k src_coords lo ksize
          else map_coordinates_linear src_k src_coords lo)
       (zrange 0 n_f).

(** Lines 397-583. *)
Definition warp_slice (inp_src : Dataset) (ps : list Z) (M : matrix)
  (target_src : option Dataset) (target_ps : option (list Z))
  (target_vec_ix : option (list vec_index))
  (target_discrete_ix : option (list Z))
  (last_ch_max_interp : bool) (ksize : Q)
  : result (arr4 * option arr4) :=
  match shape inp_src with
  | [_; _; _] =>
      Raise (NotImplementedError
        "elektronn3 has dropped support for data stored in raw 3D form without a channel axis.")
  | [n_f; s0; s1; s2] =>
      let sh := [s0; s1; s2] in
      M_inv <- inv M ;;
      corners <- src_corners M M_inv ps ;;
      '(lo, hi) <- corner_box corners ;;
      if out_of_bounds lo hi sh then Raise (WarpingOOBError oob_msg)
      else
        src_coords <- src_coords_of M M_inv ps ;;
        let img_cut := read_region inp_src lo (map (fun h => h + 1) hi) in
        let lo_f := map QofZ lo in
        inp <- resample_input img_cut src_coords lo_f n_f
                 last_ch_max_interp ksize ;;
        match target_src with
        | Some t =>
            target <- warp_target sh ps M src_coords t target_ps
                        target_vec_ix target_discrete_ix ;;
            Ok (inp, Some target)
        | None => Ok (inp, None)
        end
  | _ => Raise (ValueError "inp_src wrong dim/shape")
  end.

(* ================================================================== *)
(** ** What the code takes from its libraries *)

(** The elementary functions of [numpy] the code calls.  Their values are
    not rational in general, so they are an interface. *)
Class Math : Type := {
  cos : Q -> Q;
  sin : Q -> Q;
  arctan2 : Q -> Q -> Q;
  arccos : Q -> Q;
  arcsin : Q -> Q;
  sqrt : Q -> Q;
  pi : Q
}.

(** A [np.random.RandomState]: each draw returns a value and the state
    that follows. *)
Class RandomSource : Type := {
  rng_state : Type;
  rand : rng_state -> Q * rng_state;
  binomial : Z -> Q -> nat -> rng_state -> list Z * rng_state;
  randint : Q -> Q -> rng_state -> Z * rng_state;
  uniform : Q -> Q -> nat -> nat -> rng_state -> matrix * rng_state
}.

(** What the library documents of [uniform(low, high, size)]: the shape of
    the draw and the interval of its entries. *)
Class UniformLaws {random : RandomSource} : Prop := {
  uniform_shape : forall lo hi r c s,
    is_shape r c (fst (uniform lo hi r c s)) = true;
  uniform_range : forall lo hi r c s i j,
    (lo <= hi)%Q -> (i < r)%nat -> (j < c)%nat ->
    (lo <= mget (fst (uniform lo hi r c s)) i j <= hi)%Q
}.

Section Samplers.
Context {math : Math} {random : RandomSource}.

(** What lives outside the arguments: the generator behind the functions
    of the module [np.random], and the states that [np.random.RandomState()]
    seeds from the operating system, one per call. *)
Record World : Type := {
  np_random : rng_state;
  os_seed : nat -> rng_state;
  os_count : nat
}.

(** [rng = np.random.RandomState() if rng is None else rng]. *)
Definition default_rng (rng : option rng_state) (w : World)
  : rng_state * World :=
  match rng with
  | Some s => (s, w)
  | None =>
      (os_seed w (os_count w),
       {| np_random := np_random w; os_seed := os_seed w;
          os_count := S (os_count w) |})
  end.

(** The caller's generator after the call: advanced if it was supplied. *)
Definition rng_after (rng : option rng_state) (s : rng_state)
  : option rng_state :=
  match rng with Some _ => Some s | None => None end.

Definition rotate_z (a : Q) : matrix :=
  [ [1; 0; 0; 0];
    [0; cos a; - sin a; 0];
    [0; sin a; cos a; 0];
    [0; 0; 0; 1] ]%Q.

Definition rotate_y (a : Q) : matrix :=
  [ [cos a; - sin a; 0; 0];
    [sin a; cos a; 0; 0];
    [0; 0; 1; 0];
    [0; 0; 0; 1] ]%Q.

Definition rotate_x (a : Q) : matrix :=
  [ [cos a; 0; sin a; 0];
    [0; 1; 0; 0];
    [- sin a; 0; cos a; 0];
    [0; 0; 0; 1] ]%Q.

(** [np.linalg.norm] of a 3-vector. *)
Definition norm (v : Q * Q * Q) : Q :=
  let '(a, b, c) := v in sqrt (a * a + b * b + c * c)%Q.

Definition get_euler_angles (direc : Q * Q * Q) (gamma : Q)
  : result (Q * Q * Q) :=
  _ <- assert_ (Qltb (Qabs (norm direc - 1)) (1 # 1000)) ;;
  let '(d0, d1, d2) := direc in
  let phi := arctan2 d2 d1 in
  let theta := arccos d0 in
  Ok (phi, theta, gamma).

(** The argument [gamma]: [None], the string ['rand'], or an angle. *)
Inductive gamma_arg : Type :=
| GammaNone
| GammaRand
| GammaVal (g : Q).

(** The angle the rotation is built with, and the states after drawing it. *)
Definition resolve_gamma (gamma : gamma_arg) (rng : option rng_state)
  (w : World) : Q * option rng_state * World :=
  match gamma with
  | GammaNone => (0%Q, rng, w)
  | GammaVal g => (g, rng, w)
  | GammaRand =>
      match rng with
      | None =>
          let '(r, g') := rand (np_random w) in
          ((r * 2 * pi)%Q, None,
           {| np_random := g'; os_seed := os_seed w; os_count := os_count w |})
      | Some s =>
          let '(r, s') := rand s in
          ((r * 2 * pi)%Q, Some s', w)
      end
  end.

Definition get_rotmat_from_direc (direc : Q * Q * Q) (gamma : gamma_arg)
  (rng : option rng_state) (w : World)
  : result (matrix * option rng_state * World) :=
  let '(gamma, rng', w') := resolve_gamma gamma rng w in
  '(phi, theta, gamma) <- get_euler_angles direc gamma ;;
  let R1 := rotate_z (- phi) in
  let R2 := rotate_y (- theta) in
  let R3 := rotate_z gamma in
  let R := chain_matrices [R3; R2; R1] in
  Ok (R, rng', w').

Definition get_random_rotmat (lock_z : bool) (amount : Q)
  (rng : option rng_state) (w : World) : matrix * option rng_state * World :=
  let '(s, w) := default_rng rng w in
  let '(r, s) := rand s in
  let gamma := (r * 2 * pi * amount)%Q in
  if lock_z then (rotate_z gamma, rng_after rng s, w)
  else
    let '(r, s) := rand s in
    let phi := (r * 2 * pi * amount)%Q in
    let '(r, s) := rand s in
    let theta := (arcsin r * amount)%Q in
    let R1 := rotate_z (- phi) in
    let R2 := rotate_y (- theta) in
    let R3 := rotate_z gamma in
    let R := chain_matrices [R3; R2; R1] in
    (R, rng_after rng s, w).

(** [l[i] = v] on a list that is long enough. *)
Definition set_nth {A : Type} (i : nat) (v : A) (l : list A) : list A :=
  firstn i l ++ v :: skipn (S i) l.

(** [np.fill_diagonal(F, d)]. *)
Definition fill_diagonal (F : matrix) (d : list Q) : matrix :=
  map (fun p => set_nth (fst p) (nth (fst p) d 0%Q) (snd p))
      (combine (seq 0 (length F)) F).

Definition get_random_flipmat (no_x_flip : bool)
  (rng : option rng_state) (w : World) : matrix * option rng_state * World :=
  let '(s, w) := default_rng rng w in
  let F := eye 4 in
  let '(b, s) := binomial 1 (1 # 2) 4 s in
  let flips := map (fun x => x * 2 - 1) b in
  let flips := set_nth 3 1 flips in
  let flips := if no_x_flip then set_nth 2 1 flips else flips in
  (fill_diagonal F (map QofZ flips), rng_after rng s, w).

Definition swaps_locked : list (list Z) :=
  [ [0; 1; 2; 3];
    [0; 2; 1; 3] ].

Definition swaps_free : list (list Z) :=
  [ [0; 1; 2; 3];
    [0; 2; 1; 3];
    [1; 0; 2; 3];
    [1; 2; 0; 3];
    [2; 0; 1; 3];
    [2; 1; 0; 3] ].

Definition get_random_swapmat (lock_z : bool)
  (rng : option rng_state) (w : World)
  : result (matrix * option rng_state * World) :=
  let '(s, w) := default_rng rng w in
  let S := eye 4 in
  let swaps := if lock_z then swaps_locked else swaps_free in
  let '(i, s) := randint 0 (QofZ (zlen swaps)) s in
  perm <- py_index swaps i ;;
  S' <- mapM (py_index S) perm ;;
  Ok (S', rng_after rng s, w).

Definition clip (lo hi x : Q) : Q := Qmin (Qmax x lo) hi.

Definition madd (a b : matrix) : matrix :=
  map (fun p => map (fun q => (fst q + snd q)%Q) (combine (fst p) (snd p)))
      (combine a b).

(** [m[i, j] = f(m[i, j])]. *)
Definition update_entry (i j : nat) (f : Q -> Q) (m : matrix) : matrix :=
  set_nth i (set_nth j (f (mget m i j)) (nth i m [])) m.

Definition zero_row (i : nat) (m : matrix) : matrix :=
  set_nth i (map (fun _ => 0%Q) (nth i m [])) m.

Definition zero_column (j : nat) (m : matrix) : matrix :=
  map (set_nth j 0%Q) m.

(** The perturbation is drawn with [np.random.uniform], the module-level
    function: it reads the generator of the module, not [rng]. *)
Definition get_random_warpmat (lock_z perspective : bool) (amount : Q)
  (rng : option rng_state) (w : World) : matrix * option rng_state * World :=
  let W := eye 4 in
  let amount := (amount * (1 # 10))%Q in
  let '(perturb, g) := uniform (- amount) amount 4 4 (np_random w) in
  let w' := {| np_random := g; os_seed := os_seed w; os_count := os_count w |} in
  let perturb := update_entry 3 3 (fun _ => 0%Q) perturb in
  let perturb :=
    if lock_z then zero_column 0 (zero_row 0 perturb) else perturb in
  let perturb := if perspective then perturb else zero_row 3 perturb in
  let scaled j m := update_entry 3 j (fun x => (x * (5 # 100))%Q) m in
  let perturb := scaled 2%nat (scaled 1%nat (scaled 0%nat perturb)) in
  let clipped j m :=
    update_entry 3 j (clip (- (3 # 1000)) (3 # 1000)) m in
  let perturb := clipped 2%nat (clipped 1%nat (clipped 0%nat perturb)) in
  (madd W perturb, rng, w').

End Samplers.

(* ================================================================== *)
(** ** The two assemblers *)

Section Assemblers.
Context {math : Math} {random : RandomSource}.

(** The kernel half-size [get_tracing_slice] hands to [warp_slice]. *)
Definition tracing_ksize (scale_factor : Q) : result Q :=
  q <- py_div (1 # 2) scale_factor ;; Ok (Qmin (1 # 2) q).

Definition get_tracing_slice (img : Dataset) (ps : list Z) (pos : Q * Q * Q)
  (z_shift : Q) (aniso_factor : Q) (sample_aniso : bool) (gamma : gamma_arg)
  (scale_factor : Q) (direction_iso : Q * Q * Q)
  (target : option Dataset) (target_ps : option (list Z))
  (target_vec_ix : option (list vec_index))
  (target_discrete_ix : option (list Z))
  (rng : option rng_state) (last_ch_max_interp : bool) (w : World)
  : result (arr4 * option arr4 * matrix) :=
  let '(s, w) := default_rng rng w in
  let dest_center := map (fun p => (QofZ p / 2)%Q) ps in
  let dest_center :=
    set_nth 0 (coord dest_center 0 - z_shift)%Q dest_center in
  '(R, _, _) <- get_rotmat_from_direc direction_iso gamma (Some s) w ;;
  let '(p0, p1, p2) := pos in
  let T_src := translate (- p0) (- p1) (- p2) in
  let S_src := scale aniso_factor 1 1 in
  let S_zoom := scale scale_factor scale_factor scale_factor in
  S_dest <- (if sample_aniso then scale_inv aniso_factor 1 1
             else Ok identity) ;;
  let T_dest :=
    translate (coord dest_center 0) (coord dest_center 1)
              (coord dest_center 2) in
  let M := chain_matrices [T_dest; S_zoom; S_dest; R; S_src; T_src] in
  ksize <- tracing_ksize scale_factor ;;
  '(img_new, target_new) <-
    warp_slice img ps M target target_ps target_vec_ix target_discrete_ix
               last_ch_max_interp ksize ;;
  Ok (img_new, target_new, M).

(** The matrices [get_warped_slice] composes, in the order of the chain. *)
Record warp_parts : Type := {
  T_dest : matrix;
  S_dest : matrix;
  R_rot : matrix;
  W_warp : matrix;
  F_flip : matrix;
  S_swap : matrix;
  S_src : matrix;
  T_src : matrix
}.

Definition compose_parts (p : warp_parts) : matrix :=
  chain_matrices [T_dest p; S_dest p; R_rot p; W_warp p; F_flip p;
                  S_swap p; S_src p; T_src p].

Definition sub_vec (a b : vec) : vec :=
  map (fun p => (fst p - snd p)%Q) (combine a b).
Definition add_vec (a b : vec) : vec :=
  map (fun p => (fst p + snd p)%Q) (combine a b).
Definition max_vec (a b : vec) : vec :=
  map (fun p => Qmax (fst p) (snd p)) (combine a b).
Definition min_vec (a b : vec) : vec :=
  map (fun p => Qmin (fst p) (snd p)) (combine a b).

(** [np.isclose(x, 0)]. *)
Definition isclose0 (x : Q) : bool := Qle_bool (Qabs x) (1 # 100000000).

(** The range of valid patch centres, per axis. *)
Definition center_range (inp_src : Dataset) (ps : list Z)
  (target_src : option Dataset) (target_ps : option (list Z))
  : result (vec * vec) :=
  let dest_center := map (fun p => (QofZ p / 2)%Q) ps in
  let sh := map QofZ (tl (shape inp_src)) in
  match target_ps with
  | Some tps =>
      match target_src with
      | None => Raise AttributeError
      | Some t =>
          let t_center := map (fun p => (QofZ p / 2)%Q) tps in
          let off :=
            map (fun p => QofZ ((fst p - snd p) / 2))
                (combine (tl (shape inp_src)) (tl (shape t))) in
          let t_sh := map QofZ (tl (shape t)) in
          Ok (max_vec dest_center (add_vec t_center off),
              min_vec (sub_vec sh dest_center)
                      (add_vec (sub_vec t_sh t_center) off))
      end
  | None => Ok (dest_center, sub_vec sh dest_center)
  end.

(** The random transform of [get_warped_slice]: its parts and the states
    after sampling them.  [ps] has three entries here. *)
Definition sample_warp (inp_src : Dataset) (ps : list Z)
  (aniso_factor : Q) (sample_aniso : bool) (warp_amount : Q)
  (lock_z no_x_flip perspective : bool)
  (target_src : option Dataset) (target_ps : option (list Z))
  (s : rng_state) (w : World) : result (warp_parts * rng_state * World) :=
  let dest_center := map (fun p => (QofZ p / 2)%Q) ps in
  let src_remainder := map (fun p => (QofZ (p mod 2) / 2)%Q) ps in
  '(lo_pos, hi_pos) <- center_range inp_src ps target_src target_ps ;;
  _ <- assert_ (forallb (fun i => Qltb (coord lo_pos i) (coord hi_pos i))
                        (seq 0 3)) ;;
  let '(r, s) := randint (coord lo_pos 0) (coord hi_pos 0) s in
  let z := (QofZ r + coord src_remainder 0)%Q in
  let '(r, s) := randint (coord lo_pos 1) (coord hi_pos 1) s in
  let y := (QofZ r + coord src_remainder 1)%Q in
  let '(r, s) := randint (coord lo_pos 2) (coord hi_pos 2) s in
  let x := (QofZ r + coord src_remainder 2)%Q in
  let '(F, rng, w) := get_random_flipmat no_x_flip (Some s) w in
  let s := match rng with Some s' => s' | None => s end in
  '(Sw, s, w) <-
    (if no_x_flip then Ok (eye 4, s, w)
     else
       '(Sw, rng, w) <- get_random_swapmat lock_z (Some s) w ;;
       Ok (Sw, match rng with Some s' => s' | None => s end, w)) ;;
  let '(R, W, s, w) :=
    if isclose0 warp_amount then (eye 4, eye 4, s, w)
    else
      let '(R, rng, w) := get_random_rotmat lock_z warp_amount (Some s) w in
      let s := match rng with Some s' => s' | None => s end in
      let '(W, rng, w) :=
        get_random_warpmat lock_z perspective warp_amount (Some s) w in
      (R, W, match rng with Some s' => s' | None => s end, w) in
  let T_src := translate (- z) (- y) (- x) in
  let S_src := scale aniso_factor 1 1 in
  S_dest <- (if sample_aniso then
               q <- py_div 1 aniso_factor ;; Ok (scale q 1 1)
             else Ok identity) ;;
  let T_dest :=
    translate (coord dest_center 0) (coord dest_center 1)
              (coord dest_center 2) in
  Ok ({| T_dest := T_dest; S_dest := S_dest; R_rot := R; W_warp := W;
         F_flip := F; S_swap := Sw; S_src := S_src; T_src := T_src |}, s, w).

(** A patch with its depth axis, or stripped of it for 2-D patch sizes. *)
Inductive patch : Type :=
| Patch3 (a : arr4)
| Patch2 (a : list (list (list Q))).

(** [a[:, 0]]. *)
Definition strip_depth (a : arr4) : result patch :=
  l <- mapM (fun ch => py_index ch 0) a ;; Ok (Patch2 l).

Definition get_warped_slice (inp_src : Dataset) (ps : list Z)
  (aniso_factor : Q) (sample_aniso : bool) (warp_amount : Q)
  (lock_z no_x_flip perspective : bool)
  (target_src : option Dataset) (target_ps : option (list Z))
  (target_vec_ix : option (list vec_index))
  (target_discrete_ix : option (list Z))
  (rng : option rng_state) (w : World)
  : result (patch * option patch) :=
  let '(s, w) := default_rng rng w in
  let strip_2d := Nat.eqb (length ps) 2 in
  ps' <- Ok (if strip_2d then 1 :: ps else ps) ;;
  target_ps' <-
    (if strip_2d then
       match target_src, target_ps with
       | Some _, None => Raise TypeError
       | Some _, Some tps => Ok (Some (1 :: tps))
       | None, tps => Ok tps
       end
     else Ok target_ps) ;;
  '(parts, _, _) <-
    sample_warp inp_src ps' aniso_factor sample_aniso warp_amount
                lock_z no_x_flip perspective target_src target_ps' s w ;;
  let M := compose_parts parts in
  '(inp, target) <-
    warp_slice inp_src ps' M target_src target_ps' target_vec_ix
               target_discrete_ix false (1 # 2) ;;
  if strip_2d then
    inp' <- strip_depth inp ;;
    target' <- match target with
               | Some t => t' <- strip_depth t ;; Ok (Some t')
               | None => Ok None
               end ;;
    Ok (inp', target')
  else Ok (Patch3 inp, option_map Patch3 target).

End Assemblers.

(* ================================================================== *)
(** ** Flat arrays *)

(** [a.reshape((rows, cols))] of a 1-D array: the rows in order; the size
    must match. *)
Fixpoint chunks {A : Type} (rows cols : nat) (l : list A) : list (list A) :=
  match rows with
  | O => []
  | S r => firstn cols l :: chunks r cols (skipn cols l)
  end.

Definition reshape {A : Type} (rows cols : nat) (l : list A)
  : result (list (list A)) :=
  if Nat.eqb (length l) (rows * cols) then Ok (chunks rows cols l)
  else Raise (ValueError "cannot reshape array").

(** [np.dot(m, v)] of a 2-D and a 1-D array. *)
Definition dot_vec (m : matrix) (v : vec) : result vec :=
  if forallb (fun r => Nat.eqb (length r) (length v)) m
  then Ok (map (fun r => vdot r v) m)
  else Raise (ValueError "shapes not aligned").

(** Adding a 1-D array [p] to a 3-vector, with broadcasting: [p] has three
    entries, or one that is added everywhere. *)
Definition broadcast3 (p : option vec) : result vec :=
  match p with
  | None => Raise TypeError
  | Some [s] => Ok [s; s; s]
  | Some [a; b; c] => Ok [a; b; c]
  | Some _ => Raise (ValueError "operands could not be broadcast together")
  end.

(* ================================================================== *)
(** ** The class [Transform] (lines 331-387) *)

(** Coordinates handed to the methods: one vector (a 1-D array) or the rows
    of an [(n, 3)] array. *)
Inductive coords : Type :=
| Vec1 (v : vec)
| Vec2 (rows : list vec).

Definition coords_map (f : vec -> vec) (c : coords) : coords :=
  match c with
  | Vec1 v => Vec1 (f v)
  | Vec2 rows => Vec2 (map f rows)
  end.

Definition coords_flat (c : coords) : list Q :=
  match c with
  | Vec1 v => v
  | Vec2 rows => concat rows
  end.

Module Transform.

Record t : Type := {
  M : matrix;
  M_inv : matrix;
  position_l : option vec;
  aniso_factor : Q;
  is_projective : bool
}.

Definition projective_msg : string :=
  "This transform requires homogeneous coordinates".

(** [__init__]; [M[3,:3]] needs a fourth row. *)
Definition init (M : matrix) (position_l : option vec) (aniso_factor : Q)
  : result t :=
  M_inv <- inv M ;;
  row3 <- py_index M 3 ;;
  Ok {| M := M; M_inv := M_inv; position_l := position_l;
        aniso_factor := aniso_factor;
        is_projective := negb (allclose0 (firstn 3 row3)) |}.

(** [m[:3,:3]]. *)
Definition block3 (m : matrix) : matrix := map (firstn 3) (firstn 3 m).

Definition M_lin (T : t) : result matrix :=
  if is_projective T then Raise (ValueError projective_msg)
  else Ok (block3 (M T)).

Definition M_lin_inv (T : t) : result matrix :=
  if is_projective T then Raise (ValueError projective_msg)
  else Ok (block3 (M_inv T)).

(** [np.hstack([self.M.ravel(), self.position_l, self.aniso_factor])]; a
    position that is [None] becomes one entry [None] of the array. *)
Definition to_array (T : t) : list (option Q) :=
  map Some (concat (M T)) ++
  match position_l T with
  | None => [None]
  | Some p => map Some p
  end ++ [Some (aniso_factor T)].

Definition lab_coord2cnn_coord (T : t) (vec_l : coords) : result coords :=
  _ <- assert_ (negb (is_projective T)) ;;
  match vec_l with
  | Vec1 v =>
      m <- M_lin T ;; vec_c <- dot_vec m v ;; Ok (Vec1 vec_c)
  | Vec2 rows =>
      _ <- assert_ (forallb (fun r => Nat.eqb (length r) 3) rows) ;;
      m <- M_lin T ;; Ok (Vec2 (dot rows (transpose m)))
  end.

Definition cnn_coord2lab_coord (T : t) (vec_c : coords) (add_offset_l : bool)
  : result coords :=
  _ <- assert_ (negb (is_projective T)) ;;
  vec_l <-
    match vec_c with
    | Vec1 v =>
        m <- M_lin_inv T ;; vec_l <- dot_vec m v ;; Ok (Vec1 vec_l)
    | Vec2 rows =>
        _ <- assert_ (forallb (fun r => Nat.eqb (length r) 3) rows) ;;
        m <- M_lin_inv T ;; Ok (Vec2 (dot rows (transpose m)))
    end ;;
  if add_offset_l then
    p <- broadcast3 (position_l T) ;; Ok (coords_map (fun v => add_vec v p) vec_l)
  else Ok vec_l.

End Transform.

(** Lines 390-394. *)
Definition trafo_from_array (a : vec) : result Transform.t :=
  M <- reshape 4 4 (slice a 0 16) ;;
  let offset_l := slice a 16 19 in
  aniso_factor <- py_index a 19 ;;
  Transform.init M (Some offset_l) aniso_factor.

Definition sumsq (l : list Q) : Q := qsum (map (fun x => (x * x)%Q) l).

Section TransformNorm.
Context {math : Math}.

(** [np.linalg.norm]: the root of the sum of the squares of all entries. *)
Definition norm_all (c : coords) : Q := sqrt (sumsq (coords_flat c)).

Definition cnn_pred2lab_position (T : Transform.t) (prediction_c : coords)
  : result (coords * coords) :=
  _ <- assert_ (negb (Transform.is_projective T)) ;;
  tracin_direc_l <- Transform.cnn_coord2lab_coord T prediction_c false ;;
  p <- broadcast3 (Transform.position_l T) ;;
  let new_position_l := coords_map (fun v => add_vec v p) tracin_direc_l in
  let tracing_direc_il :=
    coords_map
      (fun v => map (fun q => (fst q * snd q)%Q)
                    (combine v [Transform.aniso_factor T; 1; 1]%Q))
      tracin_direc_l in
  let n := norm_all tracing_direc_il in
  _ <- assert_ (Qltb 0 n) ;;
  Ok (new_position_l, coords_map (map (fun x => (x / n)%Q)) tracing_direc_il).

End TransformNorm.

(* ================================================================== *)
(** ** Border treatment (lines 37-80) *)

(** [data.shape] of a 4-D array.  Nested lists do not record the extents
    below an empty axis; they are read as 0. *)
Definition shape4 (data : arr4) : list Z :=
  let c := hd [] data in
  let p := hd [] c in
  [zlen data; zlen c; zlen p; zlen (hd [] p)].

(** *** [np.pad]

    The two modes the code uses, axis by axis.  ['constant'] puts the
    value before and after; ['symmetric'] continues the axis by its mirror
    image, the edge value included, and again from the image when the pad
    is longer than the axis. *)

Inductive pad_mode : Type :=
| Symmetric
| Constant (c : Q).

Definition pad_constant {A : Type} (fill : A) (w : Z * Z) (l : list A)
  : list A :=
  repeat fill (Z.to_nat (fst w)) ++ l ++ repeat fill (Z.to_nat (snd w)).

(** The index in an axis of length [n] that position [q], counted from the
    start of the axis, mirrors. *)
Definition sym_index (n q : Z) : Z :=
  let m := q mod (2 * n) in
  if m <? n then m else 2 * n - 1 - m.

Definition pad_symmetric {A : Type} (w : Z * Z) (l : list A) : list A :=
  let n := zlen l in
  flat_map (fun p =>
              match nth_error l (Z.to_nat (sym_index n (p - fst w))) with
              | Some a => [a]
              | None => []
              end)
           (zrange 0 (fst w + n + snd w)).

(** One axis whose entries are numbers. *)
Definition pad_inner (mode : pad_mode) (w : Z * Z) (l : list Q) : list Q :=
  match mode with
  | Constant c => pad_constant c w l
  | Symmetric => pad_symmetric w l
  end.

(** One axis whose entries are arrays; [like c x] is [x] filled with [c]. *)
Definition pad_outer {A : Type} (like : Q -> A -> A) (mode : pad_mode)
  (w : Z * Z) (l : list A) : list A :=
  match mode with
  | Constant c =>
      match l with
      | [] => []
      | x :: _ => pad_constant (like c x) w l
      end
  | Symmetric => pad_symmetric w l
  end.

Definition full1 (c : Q) (r : list Q) : list Q := map (fun _ => c) r.
Definition full2 (c : Q) (p : list (list Q)) : list (list Q) :=
  map (full1 c) p.
Definition full3 (c : Q) (a : arr3) : arr3 := map (full2 c) a.

(** The two inner axes of a plane and the three of a channel. *)
Definition pad2 (mode : pad_mode) (w2 w3 : Z * Z) (p : list (list Q))
  : list (list Q) :=
  pad_outer full1 mode w2 (map (pad_inner mode w3) p).

Definition pad3 (mode : pad_mode) (w1 w2 w3 : Z * Z) (ch : arr3) : arr3 :=
  pad_outer full2 mode w1 (map (pad2 mode w2 w3) ch).

(** [np.pad(data, pad_with, mode=...)] on a 4-D array: negative widths
    are refused, and so is mirroring an empty axis. *)
Definition np_pad (data : arr4) (pad_with : list (Z * Z)) (mode : pad_mode)
  : result arr4 :=
  if existsb (fun w => (fst w <? 0) || (snd w <? 0)) pad_with then
    Raise (ValueError "index can't contain negative values")
  else
    match pad_with with
    | [w0; w1; w2; w3] =>
        if match mode with
           | Symmetric =>
               existsb (fun nw =>
                          (fst nw =? 0) &&
                          negb ((fst (snd nw) =? 0) && (snd (snd nw) =? 0)))
                       (combine (shape4 data) pad_with)
           | Constant _ => false
           end
        then Raise (ValueError "can't extend empty axis")
        else Ok (pad_outer full3 mode w0 (map (pad3 mode w1 w2 w3) data))
    | _ => Raise (ValueError "operands could not be broadcast together")
    end.

(** [data[:, a0:b0, a1:b1, a2:b2]]. *)
Definition crop3 (data : arr4) (a0 b0 a1 b1 a2 b2 : Z) : arr4 :=
  map (fun ch =>
         map (fun p => map (fun r => slice r a2 b2) (slice p a1 b1))
             (slice ch a0 b0)) data.

(** [data[:, :, a0:b0, a1:b1]]. *)
Definition crop2 (data : arr4) (a0 b0 a1 b1 : Z) : arr4 :=
  map (fun ch => map (fun p => map (fun r => slice r a1 b1) (slice p a0 b0)) ch)
      data.

Definition treat_array (ps : list Z) (border_mode : string) (ndim : Z)
  (data : arr4) : result arr4 :=
  if String.eqb border_mode "keep" then Ok data
  else
    let sh := tl (shape4 data) in
    if String.eqb border_mode "crop" then
      let excess := map (fun x => (fst x - snd x) / 2) (combine sh ps) in
      if ndim =? 3 then
        e0 <- py_index excess 0 ;; p0 <- py_index ps 0 ;;
        e1 <- py_index excess 1 ;; p1 <- py_index ps 1 ;;
        e2 <- py_index excess 2 ;; p2 <- py_index ps 2 ;;
        Ok (crop3 data e0 (e0 + p0) e1 (e1 + p1) e2 (e2 + p2))
      else if ndim =? 2 then
        e0 <- py_index excess 0 ;; p0 <- py_index ps 0 ;;
        e1 <- py_index excess 1 ;; p1 <- py_index ps 1 ;;
        Ok (crop2 data e0 (e0 + p0) e1 (e1 + p1))
      else Ok data
    else
      let excess_l :=
        map (fun x => Qceiling (QofZ (fst x - snd x) / 2)) (combine ps sh) in
      let excess_r :=
        map (fun x => Qfloor (QofZ (fst x - snd x) / 2)) (combine ps sh) in
      pad_with <-
        (if ndim =? 3 then
           l0 <- py_index excess_l 0 ;; r0 <- py_index excess_r 0 ;;
           l1 <- py_index excess_l 1 ;; r1 <- py_index excess_r 1 ;;
           l2 <- py_index excess_l 2 ;; r2 <- py_index excess_r 2 ;;
           Ok [(0, 0); (l0, r0); (l1, r1); (l2, r2)]
         else
           l0 <- py_index excess_l 0 ;; r0 <- py_index excess_r 0 ;;
           l1 <- py_index excess_l 1 ;; r1 <- py_index excess_r 1 ;;
           Ok [(0, 0); (0, 0); (l0, r0); (l1, r1)]) ;;
      data <- (if String.eqb border_mode "mirror"
               then np_pad data pad_with Symmetric else Ok data) ;;
      if String.eqb border_mode "0-pad"
      then np_pad data pad_with (Constant 0) else Ok data.

Definition border_treatment (data_list : list arr4) (ps : list Z)
  (border_mode : string) (ndim : Z) : result (list arr4) :=
  mapM (treat_array ps border_mode ndim) data_list.

(* ================================================================== *)
(** ** Axis order (lines 740-756) *)

(** [a.swapaxes(1, 0)] and [a.swapaxes(0, 2)] on arrays with at least two
    and three axes; the entries of the innermost lists may be arrays. *)
Definition swapaxes01 {A : Type} (a : list (list A)) : list (list A) :=
  map (fun j =>
         flat_map (fun r => match nth_error r j with
                            | Some x => [x]
                            | None => []
                            end) a)
      (seq 0 (length (hd [] a))).

Definition swapaxes02 {A : Type} (a : list (list (list A)))
  : list (list (list A)) :=
  map (fun k =>
         map (fun j =>
                flat_map (fun p =>
                            match nth_error p j with
                            | Some r => match nth_error r k with
                                        | Some x => [x]
                                        | None => []
                                        end
                            | None => []
                            end) a)
             (seq 0 (length (hd [] a))))
      (seq 0 (length (hd [] (hd [] a)))).

(** The assertion [vol.ndim >= 3] holds of every array of this type. *)
Definition xyz2zxy {A : Type} (vol : list (list (list A)))
  : list (list (list A)) :=
  let vol := swapaxes01 vol in
  swapaxes02 vol.

(* ================================================================== *)
(** ** Grey-value augmentation (lines 16-34) *)

(** [x ** y] on floats. *)
Class Power : Type := {
  pow : Q -> Q -> Q
}.

Section Grey.
Context {power : Power} {random : RandomSource}.

(** [rng.rand(k)]: [k] draws, in order. *)
Fixpoint rand_n (k : nat) (s : rng_state) : list Q * rng_state :=
  match k with
  | O => ([], s)
  | S k' =>
      let '(x, s) := rand s in
      let '(xs, s) := rand_n k' s in
      (x :: xs, s)
  end.

(** [d[channels] = vals] for a list of channel indices: the writes happen
    in order, so of two writes to one channel the later one stays. *)
Fixpoint assign_channels {A : Type} (d : list A) (channels : list Z)
  (vals : list A) : result (list A) :=
  match channels, vals with
  | i :: channels', v :: vals' =>
      let n := zlen d in
      let j := if i <? 0 then i + n else i in
      if (0 <=? j) && (j <? n) then
        assign_channels (set_nth (Z.to_nat j) v d) channels' vals'
      else Raise IndexError
  | _, _ => Ok d
  end.

(** [f(sel, a[:,None,None])] on an array with three axes: one parameter
    of [a] per entry along the first axis. *)
Definition spread {P : Type} (f : P -> Q -> Q) (a : list P) (sel : arr3)
  : arr3 :=
  map (fun p => map (map (f (snd p))) (fst p)) (combine sel a).

(** [d[channels] = f(d[channels], a)] on a 3-D array (channel, x, y): one
    parameter of [a] per selected channel. *)
Definition update_channels {P : Type} (f : P -> Q -> Q) (a : list P)
  (channels : list Z) (d : arr3) : result arr3 :=
  sel <- mapM (py_index d) channels ;;
  assign_channels d channels (spread f a sel).

(** [f(sel, a[:,None,None])] on an array with four axes: [a[:,None,None]]
    has three, so its first axis meets the second axis of [sel], the
    depth.  One parameter is spread over everything; as many parameters
    as planes give plane [z] of every selected channel the parameter
    [z]; selected channels of one plane give a product with as many
    planes as parameters, which cannot be written back; anything else
    cannot be broadcast. *)
Definition spread4 {P : Type} (f : P -> Q -> Q) (a : list P) (sel : arr4)
  : result arr4 :=
  match a with
  | [p] => Ok (map (map (map (map (f p)))) sel)
  | _ =>
      if forallb (fun ch : arr3 => Nat.eqb (length ch) (length a)) sel then
        Ok (map (spread f a) sel)
      else if forallb (fun ch : arr3 => Nat.eqb (length ch) 1) sel then
        Raise (ValueError "shape mismatch: value array could not be broadcast to indexing result")
      else Raise (ValueError "operands could not be broadcast together")
  end.

(** [d[channels] = f(d[channels], a)] on a 4-D array (channel, z, x, y). *)
Definition update_channels4 {P : Type} (f : P -> Q -> Q) (a : list P)
  (channels : list Z) (d : arr4) : result arr4 :=
  sel <- mapM (py_index d) channels ;;
  vals <- spread4 f a sel ;;
  assign_channels d channels vals.

(** [d[channels] = np.clip(d[channels], 0, 1)] on a 4-D array. *)
Definition clip_channels4 (channels : list Z) (d : arr4) : result arr4 :=
  sel <- mapM (py_index d) channels ;;
  assign_channels d channels (map (map (map (map (clip 0 1)))) sel).

(** The array handed to [grey_augment]: (channel, x, y) or
    (channel, z, x, y). *)
Inductive image : Type :=
| Image3 (d : arr3)
| Image4 (d : arr4).

Definition grey_augment (d : image) (channels : list Z) (rng : rng_state)
  : result (image * rng_state) :=
  match channels with
  | [] => Ok (d, rng)
  | _ =>
      let k := length channels in
      let '(r, rng) := rand_n k rng in
      let alpha := map (fun x => (1 + (x - (1 # 2)) * (3 # 10))%Q) r in
      let '(r, rng) := rand_n k rng in
      let c := map (fun x => ((x - (1 # 2)) * (3 # 10))%Q) r in
      let '(r, rng) := rand_n k rng in
      let gamma := map (fun x => pow 2 (x * 2 - 1)) r in
      match d with
      | Image3 d =>
          d <- update_channels (fun ac x => (x * fst ac + snd ac)%Q)
                 (combine alpha c) channels d ;;
          d <- update_channels (fun _ x => clip 0 1 x)
                 (map (fun _ => tt) channels) channels d ;;
          d <- update_channels (fun g x => pow x g) gamma channels d ;;
          Ok (Image3 d, rng)
      | Image4 d =>
          d <- update_channels4 (fun ac x => (x * fst ac + snd ac)%Q)
                 (combine alpha c) channels d ;;
          d <- clip_channels4 channels d ;;
          d <- update_channels4 (fun g x => pow x g) gamma channels d ;;
          Ok (Image4 d, rng)
      end
  end.

End Grey.

(* ================================================================== *)
(** * The vocabulary of the statements *)

(** ** Outcomes *)

(** [raises_only P r]: if [r] is an exception, it satisfies [P]. *)
Definition raises_only {A : Type} (P : exn -> Prop) (r : result A) : Prop :=
  match r with
  | Ok _ => True
  | Raise e => P e
  end.

Definition not_oob (e : exn) : Prop :=
  match e with WarpingOOBError _ => False | _ => True end.

Definition not_primary_oob (e : exn) : Prop :=
  e <> WarpingOOBError oob_msg.

(** ** The bounding box, in the words of its description *)

(** The box in the words of the description: the floor of the per-axis
    minimum, and the ceiling of the per-axis maximum plus one. *)
Definition box_lo (corners : list vec) : result (list Z) :=
  mn <- qmin_axis0 3 corners ;; Ok (map Qfloor mn).

Definition box_hi (corners : list vec) : result (list Z) :=
  mx <- qmax_axis0 3 corners ;; Ok (map (fun m => Qceiling m + 1) mx).

(** Some [lo[i] < 0] or some [hi[i] >= sh[i]]. *)
Definition exceeds (lo hi sh : list Z) : Prop :=
  exists i, (i < 3)%nat /\ (nth i lo 0 < 0 \/ nth i sh 0 <= nth i hi 0).

(** The primary check is reached: the input has a channel axis, [M] has an
    inverse, the corners can be computed (a 4x4 matrix, a patch size of
    three entries or of one that stands for the three) and they have
    finite coordinates. *)
Definition reaches_check (inp : Dataset) (ps : list Z) (M : matrix)
  (sh lo hi : list Z) : Prop :=
  exists n_f Minv corners,
    shape inp = n_f :: sh /\ length sh = 3%nat /\
    inv M = Ok Minv /\
    src_corners M Minv ps = Ok corners /\
    box_lo corners = Ok lo /\ box_hi corners = Ok hi.


(** ** Transforms whose arithmetic is exact *)




(** A number that [float32] holds exactly: [m * 2^e] with [|m| < 2^24]
    and [-149 <= e <= 104]. *)
Definition float32_exact (q : Q) : Prop :=
  exists m e : Z,
    Z.abs m < 2 ^ 24 /\ -149 <= e <= 104 /\ (q == inject_Z m * 2 ^ e)%Q.

(** [float32] holds every value of the dataset inside its extents, so the
    cast of a cut of it to [float32] changes nothing. *)
Definition float32_dataset (t : Dataset) : Prop :=
  forall ix,
    Forall2 (fun i s => 0 <= i < s) ix (shape t) -> float32_exact (read t ix).


(** ** The two stages of [warp_slice] *)

(** The part of [warp_slice] before the target is looked at: the spatial
    shape of the input, the dense source coordinates and the warped input. *)
Definition warp_primary (inp_src : Dataset) (ps : list Z) (M : matrix)
  (last_ch_max_interp : bool) (ksize : Q) : result (list Z * grid * arr4) :=
  match shape inp_src with
  | [_; _; _] =>
      Raise (NotImplementedError
        "elektronn3 has dropped support for data stored in raw 3D form without a channel axis.")
  | [n_f; s0; s1; s2] =>
      let sh := [s0; s1; s2] in
      M_inv <- inv M ;;
      corners <- src_corners M M_inv ps ;;
      '(lo, hi) <- corner_box corners ;;
      if out_of_bounds lo hi sh then Raise (WarpingOOBError oob_msg)
      else
        src_coords <- src_coords_of M M_inv ps ;;
        let img_cut := read_region inp_src lo (map (fun h => h + 1) hi) in
        inp <- resample_input img_cut src_coords (map QofZ lo) n_f
                 last_ch_max_interp ksize ;;
        Ok (sh, src_coords, inp)
  | _ => Raise (ValueError "inp_src wrong dim/shape")
  end.

(** ** Targets *)

(** The difference of two shapes is odd along some axis. *)
Definition odd_offset (a b : list Z) : Prop :=
  exists i, (i < 3)%nat /\ (nth i a 0 - nth i b 0) mod 2 <> 0.

(** The flag of target channel [k]. *)
Definition is_discrete (target_discrete_ix : option (list Z)) (k : Z) : bool :=
  match target_discrete_ix with
  | None => true
  | Some ix => existsb (Z.eqb k) ix
  end.

(** Row [i] of the linear block applied to three channels, voxel by voxel. *)
Definition lin_row (M : matrix) (i : nat) (t0 t1 t2 : arr3) : arr3 :=
  add3 (scale3 (mget M i 0) t0) (scale3 (mget M i 1) t1)
       (scale3 (mget M i 2) t2).

(** Three distinct channels of an array with [n] channels. *)
Definition channel_triple (n : Z) (ix : list Z) : Prop :=
  exists a b c,
    ix = [a; b; c] /\ 0 <= a < n /\ 0 <= b < n /\ 0 <= c < n /\
    a <> b /\ a <> c /\ b <> c.

(** No channel is named by two entries of the list. *)
Definition disjoint_triples (ixs : list (list Z)) : Prop :=
  ForallOrdPairs (fun p q => forall k, In k p -> ~ In k q) ixs.

(** The value of a channel at a voxel. *)
Definition voxel (a : arr3) (z x y : nat) : option Q :=
  match nth_error a z with
  | Some p =>
      match nth_error p x with
      | Some r => nth_error r y
      | None => None
      end
  | None => None
  end.

(** [M[3,:3]] is numerically zero. *)
Definition affine (M : matrix) : bool := allclose0 (map (mget M 3) (seq 0 3)).

(** The perturbation in the words of the description, as the code has it:
    entry [(3,3)] is zero; with [lock_z], row 0 and column 0 are zero; the
    other entries of rows 0 to 2, the last column among them, are the
    draws; the first three entries of row 3 are zero without [perspective]
    and the draws scaled by 0.05 and clipped to [-3e-3, 3e-3] with it. *)
Definition expected_perturb (lock_z perspective : bool) (U : matrix)
  (i j : nat) : Q :=
  if Nat.eqb i 3 && Nat.eqb j 3 then 0%Q
  else if lock_z && (Nat.eqb i 0 || Nat.eqb j 0) then 0%Q
  else if Nat.eqb i 3 then
    if perspective
    then clip (- (3 # 1000)) (3 # 1000) (mget U 3 j * (5 # 100))
    else 0%Q
  else mget U i j.

(** ** Grids given by a function of the index *)

Definition tabulate3 {A : Type} (f : Z -> Z -> Z -> A) (n0 n1 n2 : Z)
  : list (list (list A)) :=
  map (fun z =>
    map (fun x => map (fun y => f z x y) (zrange 0 n2)) (zrange 0 n1))
      (zrange 0 n0).

(** Equality of arrays of numbers. *)
Definition arr3_eq (a b : arr3) : Prop := Forall2 (Forall2 (Forall2 Qeq)) a b.
Definition arr4_eq (a b : arr4) : Prop := Forall2 arr3_eq a b.

(** The source coordinate of the output voxel [(z, x, y)] under the
    identity. *)
Definition id_coord (z x y : Z) : vec :=
  firstn 3 (map (fun r => vdot [QofZ z; QofZ x; QofZ y; 1%Q] r) identity).

(** A list of integer values between [lo] and [hi] that contains both. *)
Definition spans (l : list Q) (lo hi : Z) : Prop :=
  (forall v, In v l -> exists z, lo <= z <= hi /\ (v == QofZ z)%Q) /\
  (exists v, In v l /\ (v == QofZ lo)%Q) /\
  (exists v, In v l /\ (v == QofZ hi)%Q).

(** ** Samplers *)

(** The matrix and the generator a sampler returns, without the world. *)
Definition sampled {random : RandomSource}
  (r : result (matrix * option rng_state * World))
  : result (matrix * option rng_state) :=
  x <- r ;; Ok (fst x).

(** ** Instances for running the definitions *)

(** A small volume for running the definitions: the value at
    [(k, z, x, y)] spells its own index in decimal. *)
Definition ramp (sh : list Z) : Dataset :=
  {| shape := sh;
     read := fun ix => QofZ (fold_left (fun acc i => 10 * acc + i) ix 0) |}.

(** A quarter turn about the first axis, shifted so that a patch near the
    origin stays inside a volume of extent 6. *)
Definition quarter_turn : matrix :=
  [ [1; 0; 0; 0]; [0; 0; -1; 4]; [0; 1; 0; 0]; [0; 0; 0; 1] ]%Q.

(** A generator that replays a tape of draws from the unit interval; an
    exhausted tape keeps returning 0. *)
Module Tape.

Definition unit (q : Q) : Q := Qmax 0 (Qmin 1 q).

Definition next (s : list Q) : Q * list Q := (unit (hd 0%Q s), tl s).

Fixpoint draws (n : nat) (s : list Q) : list Q * list Q :=
  match n with
  | O => ([], s)
  | S n' =>
      let '(x, s1) := next s in
      let '(xs, s2) := draws n' s1 in
      (x :: xs, s2)
  end.

Fixpoint draw_rows (r c : nat) (f : Q -> Q) (s : list Q) : matrix * list Q :=
  match r with
  | O => ([], s)
  | S r' =>
      let '(us, s1) := draws c s in
      let '(m, s2) := draw_rows r' c f s1 in
      (map f us :: m, s2)
  end.

Definition tape_binomial (n : Z) (p : Q) (size : nat) (s : list Q)
  : list Z * list Q :=
  let '(us, s') := draws size s in
  (map (fun u => if Qltb u p then n else 0) us, s').

Definition tape_randint (lo hi : Q) (s : list Q) : Z * list Q :=
  let '(u, s') := next s in
  let a := Qceiling lo in
  let b := Qceiling hi in
  (a + Z.min (Qfloor (u * QofZ (b - a))) (b - a - 1), s').

Definition tape_uniform (lo hi : Q) (r c : nat) (s : list Q) : matrix * list Q :=
  draw_rows r c (fun u => (lo + (hi - lo) * u)%Q) s.

#[export] Instance tape : RandomSource := {|
  rng_state := list Q;
  rand := next;
  binomial := tape_binomial;
  randint := tape_randint;
  uniform := tape_uniform
|}.

End Tape.

(** Rational stand-ins for the elementary functions: short Taylor
    polynomials and a square root to six decimals.  They are coarse, and
    serve to evaluate the definitions on examples. *)
Module Coarse.

Definition pi_q : Q := 355 # 113.

Definition cos_q (a : Q) : Q :=
  Qred (1 - a ^ 2 / 2 + a ^ 4 / 24 - a ^ 6 / 720).

Definition sin_q (a : Q) : Q :=
  Qred (a - a ^ 3 / 6 + a ^ 5 / 120 - a ^ 7 / 5040).

Definition sqrt_q (x : Q) : Q :=
  Qred (Z.sqrt (Qfloor (x * 1000000000000)) # 1000000).

Definition arcsin_q (x : Q) : Q :=
  Qred (x + x ^ 3 / 6 + 3 * x ^ 5 / 40).

Definition arccos_q (x : Q) : Q :=
  Qred (2 * arcsin_q (sqrt_q ((1 - x) / 2))).

Definition arctan_q (t : Q) : Q := Qred (t - t ^ 3 / 3 + t ^ 5 / 5).

Definition arctan2_q (y x : Q) : Q :=
  if Qltb 0 x then arctan_q (y / x)
  else if Qltb x 0 then
    if Qle_bool 0 y then (arctan_q (y / x) + pi_q)%Q
    else (arctan_q (y / x) - pi_q)%Q
  else if Qltb 0 y then (pi_q / 2)%Q
  else if Qltb y 0 then (- (pi_q / 2))%Q
  else 0%Q.

#[export] Instance coarse : Math := {|
  cos := cos_q;
  sin := sin_q;
  arctan2 := arctan2_q;
  arccos := arccos_q;
  arcsin := arcsin_q;
  sqrt := sqrt_q;
  pi := pi_q
|}.

End Coarse.

(** A tape as a generator state, and a world whose module-level generator
    replays [g]. *)
Definition tape_state (l : list Q) : @rng_state Tape.tape := l.

Definition tape_world (g : list Q) : @World Tape.tape :=
  {| np_random := tape_state g; os_seed := fun _ => tape_state [];
     os_count := 0 |}.

(* ================================================================== *)
(** ** Shapes and lookups of 4-D arrays *)

(** The array has the shape [sh]. *)
Definition fits4 (sh : list Z) (a : arr4) : bool :=
  (zlen a =? nth 0 sh 0) && forallb (fits (tl sh)) a.

Definition voxel4 (a : arr4) (c z x y : nat) : option Q :=
  match nth_error a c with
  | Some ch => voxel ch z x y
  | None => None
  end.

(** The widths [treat_array] pads an axis of extent [s] with to reach
    [p]: before and after. *)
Definition pad_before (p s : Z) : Z := Qceiling (QofZ (p - s) / 2).
Definition pad_after (p s : Z) : Z := Qfloor (QofZ (p - s) / 2).

(** Position [i] of a padded axis lies in the copy of the original, which
    starts at [l] and has extent [n]. *)
Definition inside (l n : Z) (i : nat) : bool :=
  (l <=? Z.of_nat i) && (Z.of_nat i <? l + n).

(** The value of a plane at a pixel. *)
Definition pixel (p : list (list Q)) (x y : nat) : option Q :=
  match nth_error p x with
  | Some r => nth_error r y
  | None => None
  end.

(** A non-empty 4-D array whose three spatial axes have the extents
    [(D, H, W)]. *)
Definition spatial (D H W : Z) (data : arr4) : Prop :=
  0 < zlen data /\ fits4 [zlen data; D; H; W] data = true.

(** The entry of a nested array at an index. *)
Definition cell {A : Type} (a : list (list (list A))) (i j k : nat)
  : option A :=
  match nth_error a i with
  | Some p =>
      match nth_error p j with
      | Some r => nth_error r k
      | None => None
      end
  | None => None
  end.

(** An array with two, and with three, axes of the given extents. *)
Definition rect2 {A : Type} (n0 n1 : nat) (a : list (list A)) : Prop :=
  length a = n0 /\ forall r, In r a -> length r = n1.

Definition rect3 {A : Type} (n0 n1 n2 : nat) (a : list (list (list A)))
  : Prop :=
  length a = n0 /\ forall p, In p a -> rect2 n1 n2 p.

(** ** Grey-value augmentation *)

(** What is used of [**]: a power of 2 is positive, and a positive power
    maps the unit interval into itself. *)
Class PowerLaws {power : Power} : Prop := {
  pow_two_pos : forall y, (0 < pow 2 y)%Q;
  pow_unit : forall x g,
    (0 <= x <= 1)%Q -> (0 < g)%Q -> (0 <= pow x g <= 1)%Q
}.

(** The position a Python index stands for in a sequence of length [n]:
    a negative index counts from the end. *)
Definition norm_index (n i : Z) : Z := if i <? 0 then i + n else i.

(** Channel [c] of an array with [n] channels is named by the list of
    indices. *)
Definition selects (n : Z) (channels : list Z) (c : nat) : Prop :=
  exists i, In i channels /\ norm_index n i = Z.of_nat c.

(** What [grey_augment] makes of a value with the three parameters of
    one position of its draws: the contrast, the offset and the
    exponent. *)
Definition grey_value {power : Power} (p : Q * Q * Q) (x : Q) : Q :=
  pow (clip 0 1 (x * fst (fst p) + snd (fst p))) (snd p).

(** Powers with the exponent rounded down to an integer, for running the
    definitions. *)
Module Steps.

Fixpoint qpow (x : Q) (n : nat) : Q :=
  match n with
  | O => 1%Q
  | S n' => (x * qpow x n')%Q
  end.

Definition pow_q (x y : Q) : Q :=
  if Qle_bool 0 y then qpow x (Z.to_nat (Qfloor y))
  else (/ qpow x (Z.to_nat (- Qfloor y)))%Q.

#[export] Instance steps : Power := {| pow := pow_q |}.

End Steps.

(** ** Matrices *)

(** A list of 4x4 matrices. *)
Definition all_4_4 (l : list matrix) : Prop :=
  Forall (fun m => is_shape 4 4 m = true) l.

(** [R] times its transpose is the identity, on both sides. *)
Definition orthogonal (R : matrix) : Prop :=
  meq (dot R (transpose R)) identity /\ meq (dot (transpose R) R) identity.

(** Row [k] and column [k] of a 4x4 matrix are those of the identity: the
    matrix leaves coordinate [k] alone and keeps it out of the others. *)
Definition fixes_axis (k : nat) (R : matrix) : Prop :=
  forall j, (j < 4)%nat ->
    (mget R k j == mget identity k j)%Q /\
    (mget R j k == mget identity j k)%Q.

(** Cosine and sine by the rational parametrisation of the circle, with
    the half angle for its tangent: they meet [cos^2 + sin^2 = 1] exactly.
    The other functions are those of [Coarse]. *)
Module Circle.

Definition cos_q (a : Q) : Q :=
  Qred ((1 - (a / 2) * (a / 2)) / (1 + (a / 2) * (a / 2))).

Definition sin_q (a : Q) : Q :=
  Qred (2 * (a / 2) / (1 + (a / 2) * (a / 2))).

#[export] Instance circle : Math := {|
  cos := cos_q;
  sin := sin_q;
  arctan2 := Coarse.arctan2_q;
  arccos := Coarse.arccos_q;
  arcsin := Coarse.arcsin_q;
  sqrt := Coarse.sqrt_q;
  pi := Coarse.pi_q
|}.

End Circle.

(** ** Laws of the generator *)

(** What the library documents of [binomial(n, p, size)] and of
    [randint(low, high)] on integer bounds. *)
Class BinomialLaws {random : RandomSource} : Prop := {
  binomial_length : forall n p size s,
    length (fst (binomial n p size s)) = size;
  binomial_range : forall n p size s x,
    0 <= n -> In x (fst (binomial n p size s)) -> 0 <= x <= n
}.

Class RandintLaws {random : RandomSource} : Prop := {
  randint_range : forall lo hi s,
    lo < hi -> lo <= fst (randint (QofZ lo) (QofZ hi) s) < hi
}.

(** The homogeneous coordinate of a point at the origin: the last column
    of a matrix without translation. *)
Definition unit_w : vec := [0; 0; 0; 1]%Q.

(* ================================================================== *)
(** * Properties *)

(** ** Running the definitions *)

Example inv_translate_1_2_3 :
  inv (translate 1 2 3) = Ok (translate (-1) (-2) (-3)).
Proof. vm_compute. reflexivity. Qed.

Example dot_translate_2 :
  dot (translate 1 2 3) (translate 10 20 30) = translate 11 22 33.
Proof. vm_compute. reflexivity. Qed.

Example norm_unit_z : @norm Coarse.coarse (1, 0, 0)%Q = 1%Q.
Proof. vm_compute. reflexivity. Qed.

Example euler_unit_z :
  @get_euler_angles Coarse.coarse (1, 0, 0)%Q 0 = Ok (0, 0, 0)%Q.
Proof. vm_compute. reflexivity. Qed.

(** ** The tape generator meets the laws of [uniform] *)

Lemma tape_unit_range (q : Q) : (0 <= Tape.unit q <= 1)%Q.
Proof.
  unfold Tape.unit. split; [apply Q.le_max_l |].
  apply Q.max_lub; [discriminate | apply Q.le_min_l].
Qed.

Lemma tape_draws_spec (n : nat) (s : list Q) :
  length (fst (Tape.draws n s)) = n /\
  Forall (fun u => 0 <= u <= 1)%Q (fst (Tape.draws n s)).
Proof.
  revert s. induction n as [| n IH]; intros s; simpl.
  - split; [reflexivity | constructor].
  - destruct (IH (tl s)) as [Hl Hr].
    destruct (Tape.draws n (tl s)) as [xs s2]. simpl in *.
    split; [now rewrite Hl |].
    constructor; [apply tape_unit_range | exact Hr].
Qed.

Lemma tape_draw_rows_spec (r c : nat) (f : Q -> Q) (s : list Q) :
  length (fst (Tape.draw_rows r c f s)) = r /\
  Forall (fun row => length row = c /\
                     Forall (fun x => exists u, (0 <= u <= 1)%Q /\ x = f u) row)
         (fst (Tape.draw_rows r c f s)).
Proof.
  revert s. induction r as [| r IH]; intros s; simpl.
  - split; [reflexivity | constructor].
  - destruct (tape_draws_spec c s) as [Hl Hr].
    destruct (Tape.draws c s) as [us s1]. simpl in *.
    destruct (IH s1) as [Hl' Hr'].
    destruct (Tape.draw_rows r c f s1) as [m s2]. simpl in *.
    split; [now rewrite Hl' |].
    constructor; [| exact Hr'].
    split; [now rewrite length_map |].
    apply Forall_map. eapply Forall_impl; [| exact Hr].
    intros u Hu. now exists u.
Qed.

Lemma tape_uniform_shape (lo hi : Q) (r c : nat) (s : list Q) :
  is_shape r c (fst (Tape.tape_uniform lo hi r c s)) = true.
Proof.
  unfold Tape.tape_uniform, is_shape.
  destruct (tape_draw_rows_spec r c (fun u => (lo + (hi - lo) * u)%Q) s) as [Hl Hr].
  rewrite Hl, Nat.eqb_refl. simpl.
  apply forallb_forall. intros row Hrow.
  rewrite Forall_forall in Hr. destruct (Hr row Hrow) as [-> _].
  apply Nat.eqb_refl.
Qed.

Lemma tape_uniform_range (lo hi : Q) (r c : nat) (s : list Q) (i j : nat) :
  (lo <= hi)%Q -> (i < r)%nat -> (j < c)%nat ->
  (lo <= mget (fst (Tape.tape_uniform lo hi r c s)) i j <= hi)%Q.
Proof.
  intros Hle Hi Hj. unfold Tape.tape_uniform, mget.
  destruct (tape_draw_rows_spec r c (fun u => (lo + (hi - lo) * u)%Q) s) as [Hl Hr].
  set (m := fst (Tape.draw_rows r c _ s)) in *.
  assert (Hin : In (nth i m []) m) by (apply nth_In; now rewrite Hl).
  rewrite Forall_forall in Hr. destruct (Hr _ Hin) as [Hc Hrow].
  assert (Hin' : In (nth j (nth i m []) 0%Q) (nth i m []))
    by (apply nth_In; now rewrite Hc).
  rewrite Forall_forall in Hrow. destruct (Hrow _ Hin') as (u & [Hu0 Hu1] & ->).
  assert (H0 : (0 <= (hi - lo) * u)%Q).
  { apply Qmult_le_0_compat; [lra | exact Hu0]. }
  assert (H1 : ((hi - lo) * u <= (hi - lo) * 1)%Q).
  { rewrite !(Qmult_comm (hi - lo)). apply Qmult_le_compat_r; [exact Hu1 | lra]. }
  split; lra.
Qed.

Lemma tape_laws : @UniformLaws Tape.tape.
Proof.
  split; [exact tape_uniform_shape | exact tape_uniform_range].
Qed.

(** ** Rounding *)

Lemma Qfloor_unique (x : Q) (n : Z) :
  (inject_Z n <= x)%Q -> (x < inject_Z (n + 1))%Q -> Qfloor x = n.
Proof.
  intros Hle Hlt.
  assert (H1 : n <= Qfloor x).
  { rewrite <- (Qfloor_Z n). now apply Qfloor_resp_le. }
  assert (H2 : Qfloor x < n + 1).
  { rewrite Zlt_Qlt. eapply Qle_lt_trans; [apply Qfloor_le | exact Hlt]. }
  lia.
Qed.

Lemma Qfloor_add_Z (x : Q) (n : Z) :
  Qfloor (x + inject_Z n) = Qfloor x + n.
Proof.
  apply Qfloor_unique.
  - rewrite inject_Z_plus. apply Qplus_le_l. apply Qfloor_le.
  - replace (Qfloor x + n + 1) with ((Qfloor x + 1) + n) by lia.
    rewrite inject_Z_plus. apply Qplus_lt_l. apply Qlt_floor.
Qed.

Lemma Qceiling_add_Z (x : Q) (n : Z) :
  Qceiling (x + inject_Z n) = Qceiling x + n.
Proof.
  unfold Qceiling.
  assert (E : (- (x + inject_Z n) == - x + inject_Z (- n))%Q).
  { rewrite inject_Z_opp. ring. }
  rewrite E, Qfloor_add_Z. lia.
Qed.

Lemma Qceiling_add_1 (x : Q) : Qceiling (x + 1) = Qceiling x + 1.
Proof. exact (Qceiling_add_Z x 1). Qed.

Lemma Qfloor_Qmin (a b : Q) : Qfloor (Qmin a b) = Z.min (Qfloor a) (Qfloor b).
Proof.
  destruct (Q.min_spec a b) as [[Hlt E] | [Hle E]]; rewrite E.
  - apply Qlt_le_weak, Qfloor_resp_le in Hlt. lia.
  - apply Qfloor_resp_le in Hle. lia.
Qed.

Lemma Qceiling_Qmax (a b : Q) :
  Qceiling (Qmax a b) = Z.max (Qceiling a) (Qceiling b).
Proof.
  destruct (Q.max_spec a b) as [[Hlt E] | [Hle E]]; rewrite E.
  - apply Qlt_le_weak, Qceiling_resp_le in Hlt. lia.
  - apply Qceiling_resp_le in Hle. lia.
Qed.

Lemma fold_Qmin_floor (l : list Q) (x : Q) :
  Qfloor (fold_left Qmin l x) = fold_left Z.min (map Qfloor l) (Qfloor x).
Proof.
  revert x. induction l as [| a l IH]; intros x; simpl.
  - reflexivity.
  - rewrite IH, Qfloor_Qmin. reflexivity.
Qed.

Lemma fold_Qmax_ceil1 (l : list Q) (x : Q) :
  Qceiling (fold_left Qmax l x) + 1 =
  fold_left Z.max (map (fun y => Qceiling (y + 1)) l) (Qceiling (x + 1)).
Proof.
  revert x. induction l as [| a l IH]; intros x; simpl.
  - now rewrite Qceiling_add_1.
  - rewrite IH. f_equal.
    rewrite !Qceiling_add_1, Qceiling_Qmax. lia.
Qed.

(** ** The error monad *)

Lemma bind_Ok {A B : Type} (r : result A) (k : A -> result B) (b : B) :
  bind r k = Ok b -> exists a, r = Ok a /\ k a = Ok b.
Proof. destruct r as [a | e]; simpl; [eauto | discriminate]. Qed.

Lemma mapM_Ok {A B : Type} (f : A -> result B) (l : list A) (l' : list B) :
  mapM f l = Ok l' -> Forall2 (fun a b => f a = Ok b) l l'.
Proof.
  revert l'. induction l as [| a l IH]; intros l' H; simpl in H.
  - injection H as <-. constructor.
  - apply bind_Ok in H as (b & Hb & H).
    apply bind_Ok in H as (bs & Hbs & H).
    injection H as <-. constructor; auto.
Qed.

Lemma mapM_total {A B : Type} (f : A -> result B) (g : A -> B) (l : list A) :
  (forall a, In a l -> f a = Ok (g a)) -> mapM f l = Ok (map g l).
Proof.
  induction l as [| a l IH]; intros H; simpl.
  - reflexivity.
  - rewrite (H a (or_introl eq_refl)). simpl.
    rewrite IH by (intros; apply H; now right). reflexivity.
Qed.

Lemma mapM_length {A B : Type} (f : A -> result B) (l : list A) (l' : list B) :
  mapM f l = Ok l' -> length l' = length l.
Proof.
  intros H. apply mapM_Ok in H. symmetry. eapply Forall2_length; eauto.
Qed.

Lemma raises_only_bind {A B : Type} (P : exn -> Prop)
  (r : result A) (k : A -> result B) :
  raises_only P r -> (forall a, r = Ok a -> raises_only P (k a)) ->
  raises_only P (bind r k).
Proof. destruct r; simpl; auto. Qed.

Lemma raises_only_mapM {A B : Type} (P : exn -> Prop)
  (f : A -> result B) (l : list A) :
  (forall a, In a l -> raises_only P (f a)) -> raises_only P (mapM f l).
Proof.
  induction l as [| a l IH]; intros H; simpl; [exact I |].
  apply raises_only_bind; [apply H; now left |].
  intros b _. apply raises_only_bind; [apply IH; intros; apply H; now right |].
  intros; exact I.
Qed.

Lemma raises_only_gridM {A B : Type} (P : exn -> Prop)
  (f : A -> result B) (g : list (list (list A))) :
  (forall a, raises_only P (f a)) -> raises_only P (gridM f g).
Proof.
  intros H. unfold gridM.
  apply raises_only_mapM; intros; apply raises_only_mapM; intros;
    apply raises_only_mapM; intros; apply H.
Qed.

Lemma raises_only_weaken {A : Type} (P P' : exn -> Prop) (r : result A) :
  (forall e, P e -> P' e) -> raises_only P r -> raises_only P' r.
Proof. destruct r; simpl; auto. Qed.

(** ** The bounding box, as the code computes it and as it is described *)

Lemma out_of_bounds_exceeds (l0 l1 l2 h0 h1 h2 s0 s1 s2 : Z) :
  out_of_bounds [l0; l1; l2] [h0; h1; h2] [s0; s1; s2] = true <->
  exceeds [l0; l1; l2] [h0; h1; h2] [s0; s1; s2].
Proof.
  unfold out_of_bounds, exceeds. simpl.
  rewrite !orb_false_r, !orb_true_iff, !Z.ltb_lt, !Z.leb_le.
  split.
  - intros [[H | [H | H]] | [H | [H | H]]];
      [exists 0%nat | exists 1%nat | exists 2%nat
      | exists 0%nat | exists 1%nat | exists 2%nat]; simpl; auto.
  - intros (i & Hi & H).
    destruct i as [| [| [| i]]]; simpl in H; try lia; tauto.
Qed.

Lemma nth_map_floor (j : nat) (r : vec) :
  nth j (floor_vec r) 0 = Qfloor (coord r j).
Proof. unfold floor_vec, coord. exact (map_nth Qfloor r 0%Q j). Qed.

Lemma nth_map_ceil1 (j : nat) (r : vec) :
  (j < length r)%nat ->
  nth j (ceil1_vec r) 0 = Qceiling (coord r j + 1).
Proof.
  intros H. unfold ceil1_vec, coord.
  rewrite (nth_indep _ 0 (Qceiling (0 + 1))) by now rewrite length_map.
  exact (map_nth (fun x => Qceiling (x + 1)) r 0%Q j).
Qed.

Lemma corner_box_spec (corners : list vec) :
  Forall (fun c => length c = 3%nat) corners ->
  corner_box corners =
  (lo <- box_lo corners ;; hi <- box_hi corners ;; Ok (lo, hi)).
Proof.
  intros Hlen. destruct corners as [| c rest]; [reflexivity |].
  assert (Hc : length c = 3%nat) by now inversion Hlen.
  assert (Hrest : Forall (fun c => length c = 3%nat) rest) by now inversion Hlen.
  assert (Hf : forall j,
    map (fun r => nth j r 0) (map floor_vec rest)
    = map Qfloor (map (fun r => coord r j) rest)).
  { intros j. rewrite !map_map. apply map_ext. intros; apply nth_map_floor. }
  assert (Hg : forall j, (j < 3)%nat ->
    map (fun r => nth j r 0) (map ceil1_vec rest)
    = map (fun y => Qceiling (y + 1)) (map (fun r => coord r j) rest)).
  { intros j Hj. rewrite !map_map. apply map_ext_in. intros a Ha.
    apply nth_map_ceil1. rewrite Forall_forall in Hrest.
    rewrite (Hrest a Ha). exact Hj. }
  unfold corner_box, box_lo, box_hi, min_axis0, max_axis0,
    qmin_axis0, qmax_axis0.
  simpl.
  rewrite !Hf, !Hg by lia.
  rewrite !nth_map_floor, !nth_map_ceil1 by lia.
  rewrite <- !fold_Qmin_floor, <- !fold_Qmax_ceil1.
  reflexivity.
Qed.

(** ** Which exceptions the stages can raise *)

Ltac raises_step :=
  first
    [ exact I
    | apply raises_only_bind; [| intros ? _]
    | apply raises_only_mapM; intros ? _
    | apply raises_only_gridM; intros ?
    | match goal with
      | |- raises_only _ (if ?b then _ else _) => destruct b
      | |- raises_only _ (match ?x with _ => _ end) => destruct x
      | |- raises_only _ (let '(_, _) := ?x in _) => destruct x
      end
    | progress simpl ].

Ltac raises := repeat raises_step.

Lemma nb_index_raises {A : Type} (l : list A) (i : Z) :
  raises_only not_oob (nb_index l i).
Proof. unfold nb_index. raises. Qed.

Lemma py_index_raises {A : Type} (l : list A) (i : Z) :
  raises_only not_oob (py_index l i).
Proof. unfold py_index. raises. Qed.

Lemma nb_index3_raises (src : arr3) (u v w : Z) :
  raises_only not_oob (nb_index3 src u v w).
Proof.
  unfold nb_index3.
  apply raises_only_bind; [apply nb_index_raises | intros ? _].
  apply raises_only_bind; [apply nb_index_raises | intros ? _].
  apply nb_index_raises.
Qed.

Lemma reduce_raises {A : Type} (op : A -> A -> A) (l : list A) :
  raises_only not_oob (reduce op l).
Proof. destruct l; exact I. Qed.

Lemma linear_raises (src : arr3) (coords : grid) (lo : vec) :
  raises_only not_oob (map_coordinates_linear src coords lo).
Proof.
  apply raises_only_gridM. intros c. unfold linear_at.
  repeat (apply raises_only_bind; [apply nb_index3_raises | intros ? _]).
  exact I.
Qed.

Lemma nearest_raises (src : arr3) (coords : grid) (lo : vec) :
  raises_only not_oob (map_coordinates_nearest src coords lo).
Proof.
  apply raises_only_gridM. intros c. apply nb_index3_raises.
Qed.

Lemma max_kernel_raises (src : arr3) (coords : grid) (lo : vec) (k : Q) :
  raises_only not_oob (map_coordinates_max_kernel src coords lo k).
Proof.
  apply raises_only_gridM. intros c. unfold max_kernel_at.
  destruct (shape3 src) as [[s0 s1] s2]. apply reduce_raises.
Qed.

Lemma homogeneous_divide_raises (v : vec) :
  raises_only not_oob (homogeneous_divide v).
Proof. unfold homogeneous_divide. raises. Qed.

Lemma make_dest_coords_raises (ps : list Z) :
  raises_only not_oob (make_dest_coords ps).
Proof.
  unfold make_dest_coords.
  destruct ps as [| ? [| ? [| ? [| ? ?]]]]; exact I.
Qed.


Lemma src_coords_of_raises (M M_inv : matrix) (ps : list Z) :
  raises_only not_oob (src_coords_of M M_inv ps).
Proof.
  unfold src_coords_of.
  apply raises_only_bind; [apply make_dest_coords_raises | intros dc _].
  apply raises_only_bind; [| intros; exact I].
  destruct (needs_divide M); [| exact I].
  apply raises_only_gridM. apply homogeneous_divide_raises.
Qed.

Lemma not_oob_primary (e : exn) : not_oob e -> not_primary_oob e.
Proof. intros H ->. exact H. Qed.

Lemma centering_offset_raises (a b : list Z) :
  raises_only not_oob (centering_offset a b).
Proof. unfold centering_offset. raises. Qed.

Lemma set_channel_raises (t : arr4) (i : Z) (v : arr3) :
  raises_only not_oob (set_channel t i v).
Proof. unfold set_channel. raises. Qed.

Lemma py_set_raises {A : Type} (l : list A) (i : Z) (v : A) :
  raises_only not_oob (py_set l i v).
Proof. unfold py_set. raises. Qed.

Lemma reproject_raises (M : matrix) (t : arr4) (ix : vec_index) :
  raises_only not_oob (reproject M t ix).
Proof.
  unfold reproject, assert_.
  apply raises_only_bind; [raises | intros ? _].
  destruct ix as [l | l].
  - unfold reproject_list.
    repeat (apply raises_only_bind; [apply py_index_raises | intros ? _]).
    repeat (apply raises_only_bind; [apply set_channel_raises | intros ? _]).
    apply set_channel_raises.
  - unfold reproject_tuple.
    repeat (apply raises_only_bind; [apply py_index_raises | intros ? _]).
    destruct (negb _); [exact I |].
    repeat (apply raises_only_bind; [apply py_set_raises | intros ? _]).
    apply py_set_raises.
Qed.

Lemma reproject_all_raises (M : matrix) (ixs : list vec_index) (t : arr4) :
  raises_only not_oob (reproject_all M t ixs).
Proof.
  revert t. induction ixs as [| ix rest IH]; intros t; simpl; [exact I |].
  apply raises_only_bind; [apply reproject_raises | intros ? _; apply IH].
Qed.

Lemma resample_target_raises tps cut coords lo flags :
  raises_only not_oob (resample_target tps cut coords lo flags).
Proof.
  unfold resample_target.
  apply raises_only_mapM. intros [k d] _.
  apply raises_only_bind; [apply py_index_raises | intros src_k _].
  match goal with |- raises_only _ (if ?b then _ else _) => destruct b end;
    [exact I |].
  simpl. destruct d; [apply nearest_raises | apply linear_raises].
Qed.

Lemma resample_input_raises cut coords lo n_f last ks :
  raises_only not_oob (resample_input cut coords lo n_f last ks).
Proof.
  unfold resample_input.
  apply raises_only_mapM. intros k0 _.
  apply raises_only_bind; [apply py_index_raises | intros src_k _].
  destruct (_ && _); [apply max_kernel_raises | apply linear_raises].
Qed.

Lemma target_window_of_raises sh ps src_coords t_sh tps :
  raises_only not_primary_oob (target_window_of sh ps src_coords t_sh tps).
Proof.
  unfold target_window_of.
  apply raises_only_bind;
    [eapply raises_only_weaken;
       [apply not_oob_primary | apply centering_offset_raises] | intros off _].
  apply raises_only_bind;
    [eapply raises_only_weaken;
       [apply not_oob_primary | apply centering_offset_raises] | intros off_ps _].
  apply raises_only_bind;
    [eapply raises_only_weaken; [apply not_oob_primary |];
     apply raises_only_mapM; intros; apply reduce_raises | intros mn _].
  apply raises_only_bind;
    [eapply raises_only_weaken; [apply not_oob_primary |];
     apply raises_only_mapM; intros; apply reduce_raises | intros mx _].
  match goal with |- raises_only _ (if ?b then _ else _) => destruct b end;
    [discriminate | exact I].
Qed.

Lemma warp_target_raises sh ps M src_coords t tps tv td :
  raises_only not_primary_oob (warp_target sh ps M src_coords t tps tv td).
Proof.
  unfold warp_target. destruct tps as [tps |]; [| discriminate].
  apply raises_only_bind; [apply target_window_of_raises | intros tw _].
  eapply raises_only_weaken; [apply not_oob_primary |].
  apply raises_only_bind; [apply resample_target_raises | intros target _].
  destruct tv as [ixs |]; [| exact I].
  apply raises_only_bind; [unfold assert_; raises | intros ? _].
  apply reproject_all_raises.
Qed.

(** ** The primary bounding-box check *)

Lemma inv_length (M Minv : matrix) : inv M = Ok Minv -> length Minv = length M.
Proof.
  unfold inv. destruct (negb _); [discriminate |].
  destruct (Qeq_bool _ _); [discriminate |].
  intros H. injection H as <-. now rewrite length_map, length_seq.
Qed.

Lemma homogeneous_divide_length (v v' : vec) :
  homogeneous_divide v = Ok v' -> length v' = length v.
Proof.
  unfold homogeneous_divide. destruct (Qeq_bool _ _); [discriminate |].
  intros H. injection H as <-. apply length_map.
Qed.

Lemma src_corners_Ok (M Minv : matrix) (ps : list Z) (corners : list vec) :
  src_corners M Minv ps = Ok corners ->
  length Minv = 4%nat /\ (length ps = 3%nat \/ length ps = 1%nat).
Proof.
  unfold src_corners, make_dest_corners. intros H.
  apply bind_Ok in H as (dc & Hdc & H).
  destruct (Nat.eqb (length Minv) 4) eqn:E; [| discriminate].
  apply Nat.eqb_eq in E. split; [exact E |].
  destruct ps as [| ? [| ? [| ? [| ? ?]]]]; try discriminate; auto.
Qed.

Lemma src_corners_rows (M Minv : matrix) (ps : list Z) (corners : list vec) :
  src_corners M Minv ps = Ok corners ->
  Forall (fun c => length c = 3%nat) corners.
Proof.
  intros H. pose proof (src_corners_Ok _ _ _ H) as [Hlen _].
  unfold src_corners in H.
  apply bind_Ok in H as (dest_corners & _ & H).
  rewrite Hlen in H. cbn [Nat.eqb negb] in H.
  apply bind_Ok in H as (sc' & Hsc & H). injection H as <-.
  assert (Hrows : Forall (fun c : vec => length c = 4%nat) sc').
  { set (sc := transpose _) in Hsc.
    assert (Hs : Forall (fun c : vec => length c = 4%nat) sc).
    { apply Forall_forall. intros c Hc. unfold sc, transpose in Hc.
      apply in_map_iff in Hc as (j & <- & _).
      unfold column, dot. now rewrite !length_map. }
    destruct (needs_divide M).
    - apply mapM_Ok in Hsc. clear -Hsc Hs.
      induction Hsc as [| a b l l' Hab _ IH]; [constructor |].
      inversion Hs; subst. constructor; [| now apply IH].
      apply homogeneous_divide_length in Hab. congruence.
    - now injection Hsc as <-. }
  apply Forall_map. eapply Forall_impl; [| exact Hrows].
  intros c Hc. change (length (firstn 3 c) = 3%nat).
  cbv beta in Hc. rewrite length_firstn, Hc. reflexivity.
Qed.



Lemma corner_box_length (corners : list vec) (lo hi : list Z) :
  corner_box corners = Ok (lo, hi) ->
  length lo = 3%nat /\ length hi = 3%nat.
Proof.
  unfold corner_box. intros H.
  apply bind_Ok in H as (lo' & Hlo & H).
  apply bind_Ok in H as (hi' & Hhi & H).
  injection H as <- <-.
  apply mapM_length in Hlo, Hhi. auto.
Qed.

(** The part of [warp_slice] that follows a bounding-box check that passed. *)
Lemma warp_slice_stage inp ps M t tps tv td last ks
  n_f s0 s1 s2 Minv corners lo hi :
  shape inp = [n_f; s0; s1; s2] ->
  inv M = Ok Minv ->
  src_corners M Minv ps = Ok corners ->
  corner_box corners = Ok (lo, hi) ->
  (out_of_bounds lo hi [s0; s1; s2] = true ->
   warp_slice inp ps M t tps tv td last ks = Raise (WarpingOOBError oob_msg))
  /\
  (out_of_bounds lo hi [s0; s1; s2] = false ->
   raises_only not_primary_oob (warp_slice inp ps M t tps tv td last ks) /\
   (t = None -> raises_only not_oob (warp_slice inp ps M t tps tv td last ks))).
Proof.
  intros Hsh Hinv Hc Hbox.
  unfold warp_slice. rewrite Hsh, Hinv. simpl.
  rewrite Hc. simpl. rewrite Hbox. simpl.
  split; intros Hoob; rewrite Hoob; [reflexivity |].
  assert (Hprefix : forall k : grid -> arr4 -> result (arr4 * option arr4),
    (forall P : exn -> Prop, (forall e, not_oob e -> P e) ->
       (forall g a, raises_only P (k g a)) ->
       raises_only P
         (src_coords <- src_coords_of M Minv ps ;;
          inp0 <- resample_input
                    (read_region inp lo (map (fun h => h + 1) hi))
                    src_coords (map QofZ lo) n_f last ks ;;
          k src_coords inp0))).
  { intros k P HP Hk.
    apply raises_only_bind;
      [eapply raises_only_weaken; [exact HP | apply src_coords_of_raises] |].
    intros g _. apply raises_only_bind; [| intros; apply Hk].
    eapply raises_only_weaken; [exact HP | apply resample_input_raises]. }
  split.
  - apply (Hprefix (fun src_coords inp0 =>
            match t with
            | Some t0 =>
                target <- warp_target [s0; s1; s2] ps M src_coords t0 tps tv td ;;
                Ok (inp0, Some target)
            | None => Ok (inp0, None)
            end)).
    + apply not_oob_primary.
    + intros g a. destruct t as [t0 |]; [| exact I].
      apply raises_only_bind; [apply warp_target_raises | intros; exact I].
  - intros ->.
    apply (Hprefix (fun _ inp0 => Ok (inp0, None))); [auto |].
    intros; exact I.
Qed.

Lemma reaches_check_box inp ps M sh lo hi :
  reaches_check inp ps M sh lo hi ->
  exists n_f s0 s1 s2 Minv corners,
    sh = [s0; s1; s2] /\ shape inp = [n_f; s0; s1; s2] /\
    inv M = Ok Minv /\
    src_corners M Minv ps = Ok corners /\
    corner_box corners = Ok (lo, hi).
Proof.
  intros (n_f & Minv & corners & Hsh & Hlen & Hinv & Hc & Hlo & Hhi).
  destruct sh as [| s0 [| s1 [| s2 [| ? ?]]]]; try discriminate.
  exists n_f, s0, s1, s2, Minv, corners. repeat split; auto.
  rewrite corner_box_spec, Hlo; simpl; [now rewrite Hhi |].
  eapply src_corners_rows. exact Hc.
Qed.



(** When the check is reached, the out-of-bounds error is raised exactly
    when the box exceeds the source. *)
Lemma warp_slice_oob inp ps M t tps tv td last ks sh lo hi :
  reaches_check inp ps M sh lo hi ->
  (exceeds lo hi sh ->
   warp_slice inp ps M t tps tv td last ks = Raise (WarpingOOBError oob_msg))
  /\
  (~ exceeds lo hi sh ->
   raises_only not_primary_oob (warp_slice inp ps M t tps tv td last ks) /\
   (t = None -> raises_only not_oob (warp_slice inp ps M t tps tv td last ks))).
Proof.
  intros Hr.
  apply reaches_check_box in Hr
    as (n_f & s0 & s1 & s2 & Minv & corners & -> & Hsh & Hinv & Hc & Hbox).
  destruct (corner_box_length _ Hbox) as [Hlo Hhi].
  destruct lo as [| l0 [| l1 [| l2 [| ? ?]]]]; try discriminate.
  destruct hi as [| h0 [| h1 [| h2 [| ? ?]]]]; try discriminate.
  destruct (warp_slice_stage inp ps M t tps tv td last ks
              Hsh Hinv Hc Hbox) as [Ht Hf].
  split; intros Hex.
  - apply Ht. now apply out_of_bounds_exceeds.
  - apply Hf. destruct (out_of_bounds _ _ _) eqn:E; [| reflexivity].
    apply out_of_bounds_exceeds in E. contradiction.
Qed.




(** ** Translations *)

Lemma det_translate (a b c : Q) : (det 4 (translate a b c) == 1)%Q.
Proof.
  unfold det, qsum, mget, minor, remove_nth, sign, translate. simpl. ring.
Qed.

Lemma inv_translate (a b c : Q) :
  exists N, inv (translate a b c) = Ok N /\
            meq N (translate (- a) (- b) (- c)).
Proof.
  unfold inv.
  change (is_square (length (translate a b c)) (translate a b c)) with true.
  cbv beta iota zeta. change (negb true) with false. cbv iota.
  change (length (translate a b c)) with 4%nat.
  destruct (Qeq_bool (det 4 (translate a b c)) 0) eqn:E.
  - apply Qeq_bool_iff in E. rewrite det_translate in E. discriminate E.
  - eexists; split; [reflexivity |].
    pose proof (det_translate a b c) as Hd.
    set (d := det 4 (translate a b c)) in *.
    unfold meq, veq. simpl.
    repeat constructor;
    unfold det, qsum, mget, minor, remove_nth, sign, translate; simpl;
    rewrite Hd; field.
Qed.

Ltac invert_Forall2 :=
  repeat match goal with
         | H : Forall2 _ _ (_ :: _) |- _ => inversion H; subst; clear H
         | H : Forall2 _ _ [] |- _ => inversion H; subst; clear H
         end.

Lemma vdot4 (n0 n1 n2 n3 c0 c1 c2 c3 : Q) :
  (vdot [n0; n1; n2; n3] [c0; c1; c2; c3]
   == n0 * c0 + n1 * c1 + n2 * c2 + n3 * c3)%Q.
Proof. unfold vdot, qsum. simpl. ring. Qed.

Lemma Qfloor_eq_Z (x : Q) (z : Z) : (x == inject_Z z)%Q -> Qfloor x = z.
Proof. intros ->. apply Qfloor_Z. Qed.

Lemma Qceiling1_eq_Z (x : Q) (z : Z) :
  (x == inject_Z z)%Q -> Qceiling (x + 1) = z + 1.
Proof. intros ->. rewrite Qceiling_add_1, Qceiling_Z. reflexivity. Qed.

Lemma row_value (n0 n1 n2 n3 : Q) (e0 e1 e2 t a b c : Z) :
  (n0 == inject_Z e0)%Q -> (n1 == inject_Z e1)%Q -> (n2 == inject_Z e2)%Q ->
  (n3 == - QofZ t)%Q ->
  (vdot [n0; n1; n2; n3] [QofZ a; QofZ b; QofZ c; 1%Q]
   == inject_Z (e0 * a + e1 * b + e2 * c - t))%Q.
Proof.
  intros H0 H1 H2 H3. rewrite vdot4, H0, H1, H2, H3. unfold QofZ, Z.sub.
  rewrite !inject_Z_plus, !inject_Z_mult, inject_Z_opp. ring.
Qed.

Ltac row_values :=
  repeat match goal with
  | H0 : (?n0 == _)%Q, H1 : (?n1 == _)%Q, H2 : (?n2 == _)%Q,
    H3 : (?n3 == - QofZ _)%Q
    |- context [Qfloor (vdot [?n0; ?n1; ?n2; ?n3] [QofZ ?a; QofZ ?b; QofZ ?c; 1%Q])] =>
      rewrite (Qfloor_eq_Z (row_value a b c H0 H1 H2 H3))
  | H0 : (?n0 == _)%Q, H1 : (?n1 == _)%Q, H2 : (?n2 == _)%Q,
    H3 : (?n3 == - QofZ _)%Q
    |- context [Qceiling (vdot [?n0; ?n1; ?n2; ?n3] [QofZ ?a; QofZ ?b; QofZ ?c; 1%Q] + 1)] =>
      rewrite (Qceiling1_eq_Z (row_value a b c H0 H1 H2 H3))
  end.

Lemma translate_box (N : matrix) (dz dy dx d h w : Z) :
  meq N (translate (- QofZ dz) (- QofZ dy) (- QofZ dx)) ->
  1 <= d -> 1 <= h -> 1 <= w ->
  exists corners,
    src_corners (translate (QofZ dz) (QofZ dy) (QofZ dx)) N [d; h; w]
    = Ok corners /\
    corner_box corners = Ok ([- dz; - dy; - dx], [d - dz; h - dy; w - dx]).
Proof.
  intros HN Hd Hh Hw. unfold meq, veq, translate in HN. invert_Forall2.
  eexists. split; [reflexivity |].
  unfold corner_box, min_axis0, max_axis0.
  cbn -[vdot Qfloor Qceiling Z.mul Z.sub Qplus].
  row_values.
  rewrite ?Z.mul_0_r, ?Z.mul_1_r, ?Z.mul_0_l, ?Z.mul_1_l, ?Z.add_0_l, ?Z.add_0_r.
  rewrite ?Z.min_id, ?Z.max_id.
  repeat match goal with
         | |- Ok _ = Ok _ => f_equal
         | |- (_, _) = (_, _) => f_equal
         | |- _ :: _ = _ :: _ => f_equal
         end; lia.
Qed.

Lemma corner_box_lo_hi (corners : list vec) (lo hi : list Z) :
  Forall (fun c => length c = 3%nat) corners ->
  corner_box corners = Ok (lo, hi) ->
  box_lo corners = Ok lo /\ box_hi corners = Ok hi.
Proof.
  intros Hlen Hbox. rewrite corner_box_spec in Hbox by exact Hlen.
  apply bind_Ok in Hbox as (lo' & Hlo & H).
  apply bind_Ok in H as (hi' & Hhi & H). now injection H as <- <-.
Qed.

(** A patch of size [(d, h, w)] whose origin is put at the source voxel
    [(p0, p1, p2)]: its box is [lo = p], [hi = p + (d, h, w)]. *)
Lemma translate_reaches_check inp n_f s0 s1 s2 d h w p0 p1 p2 :
  shape inp = [n_f; s0; s1; s2] -> 1 <= d -> 1 <= h -> 1 <= w ->
  reaches_check inp [d; h; w]
    (translate (QofZ (- p0)) (QofZ (- p1)) (QofZ (- p2)))
    [s0; s1; s2] [p0; p1; p2] [p0 + d; p1 + h; p2 + w].
Proof.
  intros Hsh Hd Hh Hw.
  destruct (inv_translate (QofZ (- p0)) (QofZ (- p1)) (QofZ (- p2)))
    as (N & HN & Hmeq).
  destruct (@translate_box N (- p0) (- p1) (- p2) d h w Hmeq Hd Hh Hw)
    as (corners & Hc & Hbox).
  exists n_f, N, corners.
  assert (Hrows : Forall (fun c => length c = 3%nat) corners).
  { eapply src_corners_rows. exact Hc. }
  destruct (corner_box_lo_hi Hrows Hbox) as [Hlo Hhi].
  replace [p0; p1; p2] with [- - p0; - - p1; - - p2]
    by (now rewrite !Z.opp_involutive).
  replace [p0 + d; p1 + h; p2 + w] with [d - - p0; h - - p1; w - - p2]
    by (f_equal; [| f_equal; [| f_equal]]; lia).
  repeat split; auto.
Qed.


(* ================================================================== *)
(** ** The kernel half-size of [get_tracing_slice] *)

Lemma mapM_ext {A B : Type} (f g : A -> result B) (l : list A) :
  (forall a, In a l -> f a = g a) -> mapM f l = mapM g l.
Proof.
  induction l as [| a l IH]; intros H; simpl; [reflexivity |].
  rewrite (H a (or_introl eq_refl)), IH; [reflexivity |].
  intros; apply H; now right.
Qed.

Lemma Qltb_false (a b : Q) : (b <= a)%Q -> Qltb a b = false.
Proof.
  intros H. unfold Qltb. apply Qle_bool_iff in H. now rewrite H.
Qed.

Lemma Qltb_true (a b : Q) : (a < b)%Q -> Qltb a b = true.
Proof.
  intros H. unfold Qltb. destruct (Qle_bool b a) eqn:E; [| reflexivity].
  apply Qle_bool_iff in E. lra.
Qed.

Lemma tracing_ksize_le (scale_factor k : Q) :
  tracing_ksize scale_factor = Ok k -> (k <= 1 # 2)%Q.
Proof.
  unfold tracing_ksize, py_div.
  destruct (Qeq_bool scale_factor 0); simpl; [discriminate |].
  intros H. injection H as <-. apply Q.le_min_l.
Qed.

(** With a half-size of at most one half the flag changes nothing: every
    input channel goes through the linear kernel. *)
Lemma resample_input_small_ksize cut coords lo n_f last ks :
  (ks <= 1 # 2)%Q ->
  resample_input cut coords lo n_f last ks
  = resample_input cut coords lo n_f false ks.
Proof.
  intros Hk. unfold resample_input. apply mapM_ext. intros k _.
  now rewrite (Qltb_false Hk).
Qed.

Lemma warp_slice_small_ksize inp ps M t tps tv td last ks :
  (ks <= 1 # 2)%Q ->
  warp_slice inp ps M t tps tv td last ks
  = warp_slice inp ps M t tps tv td false ks.
Proof.
  intros Hk. unfold warp_slice.
  destruct (shape inp) as [| n_f [| s0 [| s1 [| s2 [| ? ?]]]]]; try reflexivity.
  destruct (inv M) as [Minv |]; simpl; [| reflexivity].
  destruct (src_corners M Minv ps) as [corners |]; simpl; [| reflexivity].
  destruct (corner_box corners) as [[lo hi] |]; simpl; [| reflexivity].
  destruct (out_of_bounds lo hi _); [reflexivity |].
  destruct (src_coords_of M Minv ps) as [coords |]; simpl; [| reflexivity].
  now rewrite (resample_input_small_ksize _ _ _ _ last Hk).
Qed.

(** C3, as the code has it: the half-size that [get_tracing_slice] hands to
    [warp_slice] is [min(0.5, 0.5 / scale_factor)], so it never exceeds one
    half, it does not grow when the patch is downsampled (a scale factor of
    1/4 gives the same half-size as no zoom), and the flag
    [last_ch_max_interp] has no effect on the result: the maximum kernel is
    never applied through [get_tracing_slice]. *)
Theorem get_tracing_slice_never_max_kernel :
  forall (math : Math) (random : RandomSource)
         img ps pos z_shift aniso sample_aniso gamma scale_factor direc
         target target_ps tv td rng w,
    (forall k, tracing_ksize scale_factor = Ok k -> (k <= 1 # 2)%Q)
    /\ tracing_ksize (1 # 4) = tracing_ksize 1
    /\ get_tracing_slice img ps pos z_shift aniso sample_aniso gamma
         scale_factor direc target target_ps tv td rng true w
       = get_tracing_slice img ps pos z_shift aniso sample_aniso gamma
           scale_factor direc target target_ps tv td rng false w.
Proof.
  intros. split; [intros k; apply tracing_ksize_le |].
  split; [reflexivity |].
  unfold get_tracing_slice.
  destruct (default_rng rng w) as [s w1].
  destruct (get_rotmat_from_direc direc gamma (Some s) w1) as [[[R ?] ?] |];
    simpl; [| reflexivity].
  destruct pos as [[p0 p1] p2].
  destruct (if sample_aniso then _ else _) as [S_dest |]; simpl; [| reflexivity].
  destruct (tracing_ksize scale_factor) as [ks |] eqn:Hk; simpl; [| reflexivity].
  now rewrite (warp_slice_small_ksize _ _ _ _ _ _ _ true (tracing_ksize_le _ Hk)).
Qed.

(* ================================================================== *)
(** ** Rotation from a tracing direction *)

(** C9: for a direction whose norm is within 1e-3 of 1,
    [get_rotmat_from_direc] returns
    [rotate_z(gamma) . rotate_y(-theta) . rotate_z(-phi)] with
    [phi = arctan2(direc[2], direc[1])] and [theta = arccos(direc[0])],
    where the angle [gamma] is the number the caller passed, 0 when the
    caller passed [None], and for ['rand'] the next draw of [rng], or of
    the module-level generator when there is no [rng], times [2 pi]; for
    any other direction it fails with an assertion error, whatever [gamma]
    is. *)
Theorem get_rotmat_from_direc_spec :
  forall (math : Math) (random : RandomSource)
         (d0 d1 d2 : Q) (gamma : gamma_arg) rng w,
    let g :=
      match gamma with
      | GammaVal g => g
      | GammaNone => 0%Q
      | GammaRand =>
          (fst (rand (match rng with
                      | Some s => s
                      | None => np_random w
                      end)) * 2 * pi)%Q
      end in
    let phi := arctan2 d2 d1 in
    let theta := arccos d0 in
    ((Qabs (norm (d0, d1, d2) - 1) < 1 # 1000)%Q ->
     exists R rng' w',
       get_rotmat_from_direc (d0, d1, d2) gamma rng w = Ok (R, rng', w') /\
       meq R (dot (rotate_z g) (dot (rotate_y (- theta)) (rotate_z (- phi)))))
    /\
    ((1 # 1000 <= Qabs (norm (d0, d1, d2) - 1))%Q ->
     get_rotmat_from_direc (d0, d1, d2) gamma rng w = Raise AssertionError).
Proof.
  intros math random d0 d1 d2 gamma rng w g phi theta.
  assert (Hg : exists rng' w', resolve_gamma gamma rng w = (g, rng', w')).
  { unfold g, resolve_gamma.
    destruct gamma as [| | g0]; [now eexists; eexists | | now eexists; eexists].
    destruct rng as [s |].
    - destruct (rand s) as [r s']. now eexists; eexists.
    - destruct (rand (np_random w)) as [r s']. now eexists; eexists. }
  destruct Hg as (rng' & w' & Hg).
  unfold get_rotmat_from_direc. rewrite Hg. clearbody g.
  unfold get_euler_angles, assert_. split; intros H.
  - rewrite (Qltb_true H). simpl.
    exists (chain_matrices [rotate_z g; rotate_y (- theta); rotate_z (- phi)]),
      rng', w'.
    split; [reflexivity |].
    unfold chain_matrices, identity, eye, dot, column, ncols, rotate_z, rotate_y,
      vdot, qsum, meq, veq.
    simpl. repeat constructor; ring.
  - rewrite (Qltb_false H). reflexivity.
Qed.

Section RotationExample.
#[local] Existing Instance Coarse.coarse.
#[local] Existing Instance Tape.tape.

(** The direction of the first axis and a generator whose next draw is
    one quarter: the last rotation is by a quarter of a full turn. *)
Lemma get_rotmat_from_direc_witness :
  exists R rng' w',
    get_rotmat_from_direc (1, 0, 0)%Q GammaRand
      (Some (tape_state [1 # 4]%Q)) (tape_world [])
    = Ok (R, rng', w') /\
    meq R (dot (rotate_z ((1 # 4) * 2 * pi))
               (dot (rotate_y (- arccos 1)) (rotate_z (- arctan2 0 0)))).
Proof.
  apply (proj1 (@get_rotmat_from_direc_spec Coarse.coarse Tape.tape
                  1 0 0 GammaRand (Some (tape_state [1 # 4]%Q))
                  (tape_world []))).
  vm_compute. reflexivity.
Defined.

End RotationExample.

(* ================================================================== *)
(** ** Products up to equality of numbers *)

Lemma fold_Qplus_proper (l l' : list Q) (a a' : Q) :
  Forall2 Qeq l l' -> (a == a')%Q ->
  (fold_left Qplus l a == fold_left Qplus l' a')%Q.
Proof.
  intros H. revert a a'. induction H as [| x y l l' Hxy _ IH]; intros a a' Ha;
    simpl; [exact Ha |].
  apply IH. now rewrite Hxy, Ha.
Qed.

Lemma vdot_proper_l (a a' b : vec) : veq a a' -> (vdot a b == vdot a' b)%Q.
Proof.
  intros H. unfold vdot, qsum. apply fold_Qplus_proper; [| reflexivity].
  revert b. induction H as [| x y l l' Hxy _ IH]; intros b; simpl;
    [constructor |].
  destruct b as [| c b]; simpl; [constructor |].
  constructor; [now rewrite Hxy | apply IH].
Qed.

Lemma Forall2_map_same {A B : Type} (R : B -> B -> Prop) (f g : A -> B)
  (l : list A) :
  (forall a, R (f a) (g a)) -> Forall2 R (map f l) (map g l).
Proof. intros H. induction l; simpl; constructor; auto. Qed.

Lemma dot_proper_l (A A' B : matrix) : meq A A' -> meq (dot A B) (dot A' B).
Proof.
  intros H. unfold dot, meq.
  induction H as [| r r' A A' Hr _ IH]; simpl; constructor; [| exact IH].
  apply Forall2_map_same. intros j. now apply vdot_proper_l.
Qed.

Lemma veq_refl (a : vec) : veq a a.
Proof. induction a; constructor; [reflexivity | assumption]. Qed.

Lemma meq_refl (A : matrix) : meq A A.
Proof. induction A; constructor; [apply veq_refl | assumption]. Qed.

Lemma veq_trans (a b c : vec) : veq a b -> veq b c -> veq a c.
Proof.
  intros H. revert c. induction H as [| x y l l' Hxy _ IH]; intros c Hc;
    inversion Hc; subst; constructor; [now rewrite Hxy | now apply IH].
Qed.

Lemma meq_trans (A B C : matrix) : meq A B -> meq B C -> meq A C.
Proof.
  intros H. revert C. induction H as [| x y l l' Hxy _ IH]; intros C HC;
    inversion HC; subst; constructor; [eapply veq_trans; eauto | now apply IH].
Qed.

(** A matrix with four columns is unchanged by a product with the identity. *)
Lemma dot_identity_r (X : matrix) :
  Forall (fun r => length r = 4%nat) X -> meq (dot X identity) X.
Proof.
  intros H. unfold dot, meq.
  induction H as [| r X Hr _ IH]; simpl; constructor; [| exact IH].
  destruct r as [| x0 [| x1 [| x2 [| x3 [| ? ?]]]]]; try discriminate.
  unfold veq, vdot, qsum. simpl. repeat constructor; ring.
Qed.

Lemma dot_row_length (A B : matrix) :
  Forall (fun r => length r = ncols B) (dot A B).
Proof.
  unfold dot. apply Forall_map, Forall_forall. intros r _.
  now rewrite length_map, length_seq.
Qed.

(* ================================================================== *)
(** ** The transform of [get_warped_slice] *)

Lemma fill_diagonal_eye_cols (d : list Q) : ncols (fill_diagonal (eye 4) d) = 4%nat.
Proof. reflexivity. Qed.

(** C10: with [no_x_flip] set, the swap matrix that [get_warped_slice]
    composes into its transform is the identity, whatever [lock_z] and the
    generator are, and the composed transform is the chain of the other
    seven matrices: no axis permutation is applied. *)
Theorem get_warped_slice_no_x_flip_no_swap :
  forall (math : Math) (random : RandomSource)
         inp ps aniso sample_aniso warp_amount lock_z perspective
         target target_ps s w parts s' w',
    sample_warp inp ps aniso sample_aniso warp_amount lock_z true perspective
                target target_ps s w = Ok (parts, s', w') ->
    S_swap parts = identity /\
    meq (compose_parts parts)
        (chain_matrices [T_dest parts; S_dest parts; R_rot parts; W_warp parts;
                         F_flip parts; S_src parts; T_src parts]).
Proof.
  intros math random inp ps aniso sample_aniso warp_amount lock_z perspective
         target target_ps s w parts s' w' H.
  unfold sample_warp in H.
  apply bind_Ok in H as ([lo_pos hi_pos] & _ & H).
  apply bind_Ok in H as (? & _ & H).
  destruct (randint _ _ s) as [r0 s0].
  destruct (randint _ _ s0) as [r1 s1].
  destruct (randint _ _ s1) as [r2 s2].
  unfold get_random_flipmat in H. simpl in H.
  destruct (binomial 1 (1 # 2) 4 s2) as [b s3]. simpl in H.
  set (F := fill_diagonal (eye 4) _) in H.
  destruct (isclose0 warp_amount).
  - apply bind_Ok in H as (Sd & _ & H). injection H as <- _ _.
    split; [reflexivity |]. unfold compose_parts, chain_matrices.
    cbn [fold_left T_dest S_dest R_rot W_warp F_flip S_swap S_src T_src].
    apply dot_proper_l, dot_proper_l, dot_identity_r.
    apply (dot_row_length _ F).
  - destruct (get_random_rotmat lock_z warp_amount (Some s3) w)
      as [[R rng1] w1].
    destruct (get_random_warpmat lock_z perspective warp_amount _ w1)
      as [[W rng2] w2].
    apply bind_Ok in H as (Sd & _ & H). injection H as <- _ _.
    split; [reflexivity |]. unfold compose_parts, chain_matrices.
    cbn [fold_left T_dest S_dest R_rot W_warp F_flip S_swap S_src T_src].
    apply dot_proper_l, dot_proper_l, dot_identity_r.
    apply (dot_row_length _ F).
Qed.

Section WarpedSliceExample.
#[local] Existing Instance Coarse.coarse.
#[local] Existing Instance Tape.tape.

Lemma get_warped_slice_no_x_flip_witness :
  match
    sample_warp (ramp [1; 8; 8; 8]) [2; 2; 2] 2 true 0 false true false
                None None
                (tape_state [1 # 2; 1 # 3; 1 # 4; 3 # 4; 1 # 5]%Q)
                (tape_world [])
  with
  | Ok (parts, _, _) =>
      S_swap parts = identity /\
      meq (compose_parts parts)
          (chain_matrices [T_dest parts; S_dest parts; R_rot parts;
                           W_warp parts; F_flip parts; S_src parts;
                           T_src parts])
  | Raise _ => False
  end.
Proof.
  destruct (sample_warp (ramp [1; 8; 8; 8]) [2; 2; 2] 2 true 0 false true false
              None None
              (tape_state [1 # 2; 1 # 3; 1 # 4; 3 # 4; 1 # 5]%Q)
              (tape_world [])) as [[[parts s'] w'] | e] eqn:E.
  - exact (@get_warped_slice_no_x_flip_no_swap _ _ _ _ _ _ _ _ _ _ _ _ _ _ _ _ E).
  - assert (H : is_ok (sample_warp (ramp [1; 8; 8; 8]) [2; 2; 2] 2 true 0
                         false true false None None
                         (tape_state [1 # 2; 1 # 3; 1 # 4; 3 # 4; 1 # 5]%Q)
                         (tape_world [])) = true)
      by (vm_compute; reflexivity).
    rewrite E in H. discriminate H.
Defined.

End WarpedSliceExample.

(* ================================================================== *)
(** ** The random warp *)

Lemma is_shape_4_4 (m : matrix) :
  is_shape 4 4 m = true ->
  exists a00 a01 a02 a03 a10 a11 a12 a13 a20 a21 a22 a23 a30 a31 a32 a33,
    m = [ [a00; a01; a02; a03]; [a10; a11; a12; a13];
          [a20; a21; a22; a23]; [a30; a31; a32; a33] ].
Proof.
  unfold is_shape. intros H. apply andb_prop in H as [Hl Hr].
  apply Nat.eqb_eq in Hl.
  destruct m as [| r0 [| r1 [| r2 [| r3 [| ? ?]]]]]; try discriminate.
  simpl in Hr. rewrite !andb_true_iff, !Nat.eqb_eq in Hr.
  destruct Hr as (H0 & H1 & H2 & H3 & _).
  destruct r0 as [| ? [| ? [| ? [| ? [| ? ?]]]]]; try discriminate.
  destruct r1 as [| ? [| ? [| ? [| ? [| ? ?]]]]]; try discriminate.
  destruct r2 as [| ? [| ? [| ? [| ? [| ? ?]]]]]; try discriminate.
  destruct r3 as [| ? [| ? [| ? [| ? [| ? ?]]]]]; try discriminate.
  repeat eexists.
Qed.

Lemma clip_range (lo hi x : Q) : (lo <= hi)%Q -> (lo <= clip lo hi x <= hi)%Q.
Proof.
  intros H. unfold clip. split.
  - apply Q.min_glb; [apply Q.le_max_r | exact H].
  - apply Q.le_min_r.
Qed.

Lemma clip_within (lo hi a x : Q) :
  (lo <= 0)%Q -> (0 <= hi)%Q -> (- a <= x <= a)%Q ->
  (- a <= clip lo hi x <= a)%Q.
Proof.
  intros Hlo Hhi [Hx1 Hx2]. unfold clip. split.
  - apply Q.min_glb; [| lra].
    eapply Qle_trans; [exact Hx1 | apply Q.le_max_l].
  - eapply Qle_trans; [apply Q.le_min_l |].
    apply Q.max_lub; lra.
Qed.

Section WarpSpec.
Context {random : RandomSource} {laws : UniformLaws}.

(** C5, as the code has it: [get_random_warpmat] returns the identity plus
    a perturbation drawn (by the module-level generator) uniformly from
    [-0.1*amount, 0.1*amount]; entry (3,3) and, unless [perspective] is
    requested, the whole last row of the perturbation are zero, while the
    last column keeps its draws in rows 0 to 2; with [perspective] the first
    three entries of the last row are the draws scaled by 0.05 and clipped
    to [-3e-3, 3e-3]; with [lock_z] the first row and the first column are
    zero.  For a non-negative [amount] every entry of the perturbation lies
    in [-0.1*amount, 0.1*amount], and the last row in [-3e-3, 3e-3]. *)
Theorem get_random_warpmat_spec :
  forall (lock_z perspective : bool) (amount : Q) rng (w : World),
    let a := (amount * (1 # 10))%Q in
    let U := fst (uniform (- a) a 4 4 (np_random w)) in
    exists P,
      fst (fst (get_random_warpmat lock_z perspective amount rng w))
      = madd (eye 4) P /\
      (forall i j, (i < 4)%nat -> (j < 4)%nat ->
         (mget P i j == expected_perturb lock_z perspective U i j)%Q) /\
      ((0 <= amount)%Q ->
       forall i j, (i < 4)%nat -> (j < 4)%nat ->
         (- a <= mget P i j <= a)%Q /\
         (i = 3%nat -> (- (3 # 1000) <= mget P i j <= 3 # 1000)%Q)).
Proof.
  intros lock_z perspective amount rng w a U.
  unfold get_random_warpmat. fold a.
  pose proof (uniform_shape (- a) a 4 4 (np_random w)) as Hshape.
  pose proof (fun i j => @uniform_range _ _ (- a) a 4 4 (np_random w) i j) as Hrange.
  fold U in Hshape, Hrange.
  destruct (uniform (- a) a 4 4 (np_random w)) as [U0 g] eqn:HU.
  simpl in U. subst U.
  destruct (is_shape_4_4 _ Hshape)
    as (a00 & a01 & a02 & a03 & a10 & a11 & a12 & a13
        & a20 & a21 & a22 & a23 & a30 & a31 & a32 & a33 & ->).
  eexists. split; [reflexivity |]. split.
  - intros i j Hi Hj.
    destruct i as [| [| [| [| i]]]]; [| | | | lia];
    destruct j as [| [| [| [| j]]]]; try lia;
    destruct lock_z, perspective; vm_compute; reflexivity.
  - intros Ha i j Hi Hj.
    assert (Haa : (- a <= a)%Q) by (unfold a; lra).
    assert (H3 : (- (3 # 1000) <= 3 # 1000)%Q) by discriminate.
    pose proof (Hrange i j Haa Hi Hj) as Hu.
    pose proof (Hrange 3%nat j Haa ltac:(lia) Hj) as Hu3.
    assert (Ha0 : (0 <= a)%Q) by (unfold a; lra).
    destruct i as [| [| [| [| i]]]]; [| | | | lia];
    destruct j as [| [| [| [| j]]]]; try lia;
    destruct lock_z, perspective;
    cbn -[Qle Qmult Qopp clip] in *.
    all: try (split; [lra | intros; discriminate]).
    all: try (split; [lra | intros _; lra]).
    all: split; [| intros _; apply clip_range; exact H3].
    all: apply clip_within; [discriminate | discriminate | lra].
Qed.
End WarpSpec.

Section WarpExample.
#[local] Existing Instance Tape.tape.
#[local] Existing Instance tape_laws.

(** Sixteen draws of 3/4 with [amount = 1]: every entry of the draw is
    [-0.1 + 0.2 * 3/4 = 0.05]. *)
Lemma get_random_warpmat_witness :
  exists P,
    fst (fst (get_random_warpmat false true 1 None
                (tape_world (repeat (3 # 4)%Q 16))))
    = madd (eye 4) P /\
    forall i j, (i < 4)%nat -> (j < 4)%nat ->
      (- (1 * (1 # 10)) <= mget P i j <= 1 * (1 # 10))%Q.
Proof.
  destruct (get_random_warpmat_spec false true 1 None
              (tape_world (repeat (3 # 4)%Q 16))) as (P & HW & _ & Hb).
  exists P. split; [exact HW |].
  intros i j Hi Hj. apply (Hb ltac:(discriminate) i j Hi Hj).
Defined.

(** Without [perspective] the last row of the perturbation is zero, but
    its last column is not: the translation entries keep their draws. *)
Lemma get_random_warpmat_last_column :
  let W := fst (fst (get_random_warpmat false false 1 None
                       (tape_world (repeat (3 # 4)%Q 16)))) in
  Qeq_bool (mget W 0 3 - mget identity 0 3) (5 # 100) = true /\
  Qeq_bool (mget W 0 3 - mget identity 0 3) 0 = false /\
  Qeq_bool (mget W 3 0 - mget identity 3 0) 0 = true.
Proof. vm_compute. repeat split. Qed.

End WarpExample.

(* ================================================================== *)
(** ** Which generator the samplers read *)

Section Determinism.
Context {math : Math} {random : RandomSource}.

Lemma get_random_flipmat_rng (no_x_flip : bool) (s : rng_state) (w1 w2 : World) :
  fst (get_random_flipmat no_x_flip (Some s) w1)
  = fst (get_random_flipmat no_x_flip (Some s) w2).
Proof.
  unfold get_random_flipmat, default_rng.
  destruct (binomial 1 (1 # 2) 4 s) as [b s']. reflexivity.
Qed.

Lemma get_random_rotmat_rng (lock_z : bool) (amount : Q) (s : rng_state)
  (w1 w2 : World) :
  fst (get_random_rotmat lock_z amount (Some s) w1)
  = fst (get_random_rotmat lock_z amount (Some s) w2).
Proof.
  unfold get_random_rotmat, default_rng.
  destruct (rand s) as [r0 s0]. destruct lock_z; [reflexivity |].
  destruct (rand s0) as [r1 s1]. destruct (rand s1) as [r2 s2]. reflexivity.
Qed.

Lemma get_random_swapmat_rng (lock_z : bool) (s : rng_state) (w1 w2 : World) :
  sampled (get_random_swapmat lock_z (Some s) w1)
  = sampled (get_random_swapmat lock_z (Some s) w2).
Proof.
  unfold get_random_swapmat, default_rng, sampled.
  destruct (randint _ _ s) as [i s'].
  destruct (py_index _ i) as [perm |]; simpl; [| reflexivity].
  destruct (mapM _ perm); reflexivity.
Qed.

(** [get_random_warpmat] returns the generator it was given untouched and
    reads the module-level one. *)
Lemma get_random_warpmat_ignores_rng (lock_z perspective : bool) (amount : Q)
  (rng1 rng2 : option rng_state) (w : World) :
  fst (fst (get_random_warpmat lock_z perspective amount rng1 w))
  = fst (fst (get_random_warpmat lock_z perspective amount rng2 w))
  /\ snd (fst (get_random_warpmat lock_z perspective amount rng1 w)) = rng1.
Proof.
  unfold get_random_warpmat.
  destruct (uniform _ _ 4 4 (np_random w)) as [U g]. split; reflexivity.
Qed.

End Determinism.

Section DeterminismExample.
#[local] Existing Instance Coarse.coarse.
#[local] Existing Instance Tape.tape.

(** C4, as the code has it: with a generator supplied,
    [get_random_flipmat], [get_random_swapmat] and [get_random_rotmat]
    return the same matrix and the same advanced generator whatever the
    state outside the arguments is; [get_random_warpmat] does not: it draws
    from the module-level generator, so two calls with equal arguments and
    the same supplied generator return different matrices. *)
Theorem samplers_determined_by_rng_except_warpmat :
  (forall (math : Math) (random : RandomSource) no_x_flip lock_z amount
          (s : rng_state) (w1 w2 : World),
     fst (get_random_flipmat no_x_flip (Some s) w1)
     = fst (get_random_flipmat no_x_flip (Some s) w2)
     /\ sampled (get_random_swapmat lock_z (Some s) w1)
        = sampled (get_random_swapmat lock_z (Some s) w2)
     /\ fst (get_random_rotmat lock_z amount (Some s) w1)
        = fst (get_random_rotmat lock_z amount (Some s) w2))
  /\
  (let s := tape_state (repeat (1 # 2)%Q 16) in
   let W1 := fst (fst (get_random_warpmat false false 1 (Some s)
                         (tape_world (repeat (1 # 4)%Q 16)))) in
   let W2 := fst (fst (get_random_warpmat false false 1 (Some s)
                         (tape_world (repeat (3 # 4)%Q 16)))) in
   Qeq_bool (mget W1 0 0) (95 # 100) = true /\
   Qeq_bool (mget W2 0 0) (105 # 100) = true).
Proof.
  split.
  - intros. split; [apply get_random_flipmat_rng |].
    split; [apply get_random_swapmat_rng | apply get_random_rotmat_rng].
  - vm_compute. split; reflexivity.
Qed.

End DeterminismExample.

(* ================================================================== *)
(** ** The two stages of [warp_slice] *)

Lemma warp_slice_stages inp ps M t tps tv td last ks :
  warp_slice inp ps M t tps tv td last ks =
  ('(sh, src_coords, inpv) <- warp_primary inp ps M last ks ;;
   match t with
   | Some t0 =>
       target <- warp_target sh ps M src_coords t0 tps tv td ;;
       Ok (inpv, Some target)
   | None => Ok (inpv, None)
   end).
Proof.
  unfold warp_slice, warp_primary.
  destruct (shape inp) as [| n_f [| s0 [| s1 [| s2 [| ? ?]]]]]; try reflexivity.
  destruct (inv M) as [Minv |]; simpl; [| reflexivity].
  destruct (src_corners M Minv ps) as [corners |]; simpl; [| reflexivity].
  destruct (corner_box corners) as [[lo hi] |]; simpl; [| reflexivity].
  destruct (out_of_bounds lo hi _); [reflexivity |].
  destruct (src_coords_of M Minv ps) as [coords |]; simpl; [| reflexivity].
  destruct (resample_input _ _ _ _ _ _); reflexivity.
Qed.

Lemma warp_primary_shape inp ps M last ks sh coords inpv :
  warp_primary inp ps M last ks = Ok (sh, coords, inpv) ->
  sh = tl (shape inp) /\ length sh = 3%nat /\ length ps = 3%nat /\
  length M = 4%nat.
Proof.
  unfold warp_primary.
  destruct (shape inp) as [| n_f [| s0 [| s1 [| s2 [| ? ?]]]]]; try discriminate.
  destruct (inv M) as [Minv |] eqn:Hinv; simpl; [| discriminate].
  destruct (src_corners M Minv ps) as [corners |] eqn:Hc; simpl;
    [| discriminate].
  destruct (corner_box corners) as [[lo hi] |]; simpl; [| discriminate].
  destruct (out_of_bounds lo hi _); [discriminate |].
  destruct (src_coords_of M Minv ps) as [coords0 |] eqn:Hsc; simpl;
    [| discriminate].
  destruct (resample_input _ _ _ _ _ _); simpl; [| discriminate].
  intros H. injection H as <- _ _.
  destruct (src_corners_Ok _ _ _ Hc) as [HM _].
  rewrite (inv_length _ Hinv) in HM.
  repeat split; auto.
  unfold src_coords_of, make_dest_coords in Hsc.
  destruct ps as [| ? [| ? [| ? [| ? ?]]]]; try discriminate. reflexivity.
Qed.

(* ================================================================== *)
(** ** The two out-of-bounds checks *)
















(** A patch size of one entry stands for the three in the corners, so the
    bounding-box check is reached; the dense coordinates then ask for
    three entries. *)
Example warp_slice_one_entry_ps :
  warp_slice (ramp [1; 4; 4; 4]) [5] identity None None None None
             false (1 # 2)
  = Raise (WarpingOOBError oob_msg)
  /\
  warp_slice (ramp [1; 4; 4; 4]) [2] identity None None None None
             false (1 # 2)
  = Raise IndexError.
Proof. split; vm_compute; reflexivity. Qed.

(* ================================================================== *)
(** ** Centring of the target *)

Lemma centering_offset_odd (a b : list Z) :
  length a = 3%nat -> length b = 3%nat -> odd_offset a b ->
  centering_offset a b = Raise (ValueError centered_msg).
Proof.
  intros Ha Hb (i & Hi & Hodd).
  destruct a as [| a0 [| a1 [| a2 [| ? ?]]]]; try discriminate.
  destruct b as [| b0 [| b1 [| b2 [| ? ?]]]]; try discriminate.
  unfold centering_offset. simpl.
  destruct i as [| [| [| i]]]; [| | | lia]; simpl in Hodd;
    apply Z.eqb_neq in Hodd; rewrite Hodd; simpl;
    rewrite ?orb_true_r; reflexivity.
Qed.

Lemma warp_target_odd sh ps M coords tgt tp tv td :
  length sh = 3%nat -> length ps = 3%nat ->
  length (shape tgt) = 4%nat -> length tp = 3%nat ->
  odd_offset sh (tl (shape tgt)) \/ odd_offset ps tp ->
  warp_target sh ps M coords tgt (Some tp) tv td
  = Raise (ValueError centered_msg).
Proof.
  intros Hsh Hps Ht Htp Hodd. unfold warp_target, target_window_of.
  assert (Htl : length (tl (shape tgt)) = 3%nat).
  { destruct (shape tgt); [discriminate | simpl in *; lia]. }
  destruct (centering_offset sh (tl (shape tgt))) as [off | e] eqn:E1.
  - destruct Hodd as [Hodd | Hodd].
    + rewrite (centering_offset_odd Hsh Htl Hodd) in E1. discriminate.
    + simpl. now rewrite (centering_offset_odd Hps Htp Hodd).
  - simpl. destruct Hodd as [Hodd | Hodd].
    + rewrite (centering_offset_odd Hsh Htl Hodd) in E1. now injection E1 as <-.
    + unfold centering_offset in E1. rewrite Hsh, Htl in E1. simpl in E1.
      destruct (existsb _ _); [now injection E1 as <- | discriminate].
Qed.

(** C7, as the code has it: with a target volume whose extents, or whose
    patch size, differ from the primary's by an odd amount along some
    axis, [warp_slice] never returns a result, and once the primary stage
    has passed (the same call without a target returns a result) it raises
    the centring [ValueError].  The primary stage runs first: its own
    failures, the out-of-bounds error among them, take precedence. *)
Theorem warp_slice_centering :
  forall inp ps M tgt tp tv td last ks,
    length (shape tgt) = 4%nat -> length tp = 3%nat ->
    odd_offset (tl (shape inp)) (tl (shape tgt)) \/ odd_offset ps tp ->
    is_ok (warp_slice inp ps M (Some tgt) (Some tp) tv td last ks) = false
    /\
    (is_ok (warp_slice inp ps M None None tv td last ks) = true ->
     warp_slice inp ps M (Some tgt) (Some tp) tv td last ks
     = Raise (ValueError centered_msg)).
Proof.
  intros inp ps M tgt tp tv td last ks Ht Htp Hodd.
  rewrite !warp_slice_stages.
  destruct (warp_primary inp ps M last ks) as [[[sh coords] inpv] | e] eqn:E;
    [| split; [reflexivity | discriminate]].
  destruct (warp_primary_shape _ _ _ _ _ E) as (-> & Hsh & Hps & _).
  cbn [bind].
  rewrite (warp_target_odd M coords tgt tv td Hsh Hps Ht Htp Hodd).
  split; reflexivity.
Qed.

(** The extents differ by one along the first axis. *)
Lemma warp_slice_centering_witness :
  warp_slice (ramp [2; 4; 4; 4]) [3; 3; 3] identity
    (Some (ramp [2; 3; 4; 4])) (Some [3; 3; 3]) None None false (1 # 2)
  = Raise (ValueError centered_msg).
Proof.
  assert (Hodd : odd_offset (tl (shape (ramp [2; 4; 4; 4])))
                            (tl (shape (ramp [2; 3; 4; 4]))))
    by (exists 0%nat; split; [lia | vm_compute; discriminate]).
  assert (Hok : is_ok (warp_slice (ramp [2; 4; 4; 4]) [3; 3; 3] identity
                         None None None None false (1 # 2)) = true)
    by (vm_compute; reflexivity).
  exact (proj2 (@warp_slice_centering (ramp [2; 4; 4; 4]) [3; 3; 3] identity
                  (ramp [2; 3; 4; 4]) [3; 3; 3] None None false (1 # 2)
                  eq_refl eq_refl (or_introl Hodd)) Hok).
Defined.

(** The extents differ by one along the first axis, and the patch is as
    large as the input: the out-of-bounds error of the primary stage is
    what the call raises. *)
Lemma warp_slice_centering_oob_first :
  warp_slice (ramp [2; 3; 3; 3]) [3; 3; 3] identity
    (Some (ramp [2; 2; 3; 3])) (Some [3; 3; 3]) None None false (1 # 2)
  = Raise (WarpingOOBError oob_msg).
Proof. vm_compute. reflexivity. Qed.

(* ================================================================== *)
(** ** Ranges and lookups *)

Lemma zrange_length (a n : Z) : length (zrange a n) = Z.to_nat n.
Proof. unfold zrange. now rewrite length_map, length_seq. Qed.

Lemma nth_error_zrange (a n : Z) (i : nat) :
  (i < Z.to_nat n)%nat -> nth_error (zrange a n) i = Some (a + Z.of_nat i).
Proof.
  intros H. unfold zrange.
  rewrite nth_error_map, nth_error_nth' with (d := 0%nat)
    by now rewrite length_seq.
  now rewrite seq_nth.
Qed.

Lemma in_zrange (a n k : Z) : In k (zrange a n) <-> a <= k < a + n.
Proof.
  unfold zrange. rewrite in_map_iff. split.
  - intros (i & <- & Hi). apply in_seq in Hi. lia.
  - intros H. exists (Z.to_nat (k - a)). split; [lia |].
    apply in_seq. lia.
Qed.

Lemma mapM_map {A B C : Type} (f : B -> result C) (h : A -> B) (l : list A) :
  mapM f (map h l) = mapM (fun a => f (h a)) l.
Proof.
  induction l as [| a l IH]; simpl; [reflexivity | now rewrite IH].
Qed.

Lemma combine_map_r {A B : Type} (f : A -> B) (l : list A) :
  combine l (map f l) = map (fun a => (a, f a)) l.
Proof. induction l; simpl; [reflexivity | now f_equal]. Qed.

Lemma Forall2_nth_error {A B : Type} (R : A -> B -> Prop)
  (l : list A) (l' : list B) (i : nat) (a : A) :
  Forall2 R l l' -> nth_error l i = Some a ->
  exists b, nth_error l' i = Some b /\ R a b.
Proof.
  intros H. revert i. induction H as [| x y l l' Hxy _ IH]; intros i Hi.
  - destruct i; discriminate.
  - destruct i as [| i]; simpl in *.
    + injection Hi as <-. eauto.
    + now apply IH.
Qed.


(* ================================================================== *)
(** ** Which kernel resamples which channel *)

Lemma discrete_flags_map (td : option (list Z)) (n : Z) :
  discrete_flags td n = map (is_discrete td) (zrange 0 n).
Proof. destruct td; reflexivity. Qed.

Lemma resample_target_loop tp cut coords lo td n :
  resample_target tp cut coords lo (discrete_flags td n) =
  mapM (fun k =>
          src_k <- py_index cut k ;;
          if negb (fits tp coords) then
            Raise (ValueError "output operand shape mismatch")
          else if is_discrete td k then map_coordinates_nearest src_k coords lo
          else map_coordinates_linear src_k coords lo)
       (zrange 0 n).
Proof.
  unfold resample_target. rewrite discrete_flags_map.
  assert (E : zrange 0 (zlen (map (is_discrete td) (zrange 0 n))) = zrange 0 n).
  { unfold zlen. rewrite length_map, zrange_length. unfold zrange.
    now rewrite Nat2Z.id. }
  rewrite E, combine_map_r, mapM_map. reflexivity.
Qed.



(* ================================================================== *)
(** ** Re-projection of vector channels *)

Lemma nth_error_combine {A B : Type} (l : list A) (l' : list B) (n : nat) :
  nth_error (combine l l') n =
  match nth_error l n, nth_error l' n with
  | Some a, Some b => Some (a, b)
  | _, _ => None
  end.
Proof.
  revert l' n. induction l as [| a l IH]; intros l' n; simpl.
  - now destruct n.
  - destruct l' as [| b l']; simpl.
    + destruct n; simpl; [reflexivity |]. now destruct (nth_error l n).
    + destruct n; simpl; [reflexivity | apply IH].
Qed.

Lemma voxel_scale3 (m : Q) (a : arr3) (z x y : nat) :
  voxel (scale3 m a) z x y = option_map (Qmult m) (voxel a z x y).
Proof.
  unfold voxel, scale3, grid_map. rewrite nth_error_map.
  destruct (nth_error a z) as [p |]; simpl; [| reflexivity].
  rewrite nth_error_map.
  destruct (nth_error p x) as [r |]; simpl; [| reflexivity].
  now rewrite nth_error_map.
Qed.

Lemma voxel_add3 (a b c : arr3) (z x y : nat) (va vb vc : Q) :
  voxel a z x y = Some va -> voxel b z x y = Some vb ->
  voxel c z x y = Some vc ->
  voxel (add3 a b c) z x y = Some (va + vb + vc)%Q.
Proof.
  unfold voxel, add3. intros Ha Hb Hc.
  rewrite nth_error_map, !nth_error_combine.
  destruct (nth_error a z) as [pa |]; [| discriminate].
  destruct (nth_error b z) as [pb |]; [| discriminate].
  destruct (nth_error c z) as [pc |]; [| discriminate]. simpl.
  rewrite nth_error_map, !nth_error_combine.
  destruct (nth_error pa x) as [ra |]; [| discriminate].
  destruct (nth_error pb x) as [rb |]; [| discriminate].
  destruct (nth_error pc x) as [rc |]; [| discriminate]. simpl.
  rewrite nth_error_map, !nth_error_combine.
  now rewrite Ha, Hb, Hc.
Qed.

Lemma voxel_lin_row (M : matrix) (i : nat) (t0 t1 t2 : arr3)
  (z x y : nat) (v0 v1 v2 : Q) :
  voxel t0 z x y = Some v0 -> voxel t1 z x y = Some v1 ->
  voxel t2 z x y = Some v2 ->
  voxel (lin_row M i t0 t1 t2) z x y
  = Some (mget M i 0 * v0 + mget M i 1 * v1 + mget M i 2 * v2)%Q.
Proof.
  intros H0 H1 H2. unfold lin_row.
  apply voxel_add3; rewrite voxel_scale3; [now rewrite H0 | now rewrite H1 | now rewrite H2].
Qed.

Lemma nth_error_set (A : Type) (l : list A) (j k : nat) (v : A) :
  (j < length l)%nat ->
  nth_error (firstn j l ++ v :: skipn (S j) l) k =
  if Nat.eqb k j then Some v else nth_error l k.
Proof.
  intros Hj.
  assert (Hf : length (firstn j l) = j) by (rewrite length_firstn; lia).
  destruct (Nat.eqb k j) eqn:E.
  - apply Nat.eqb_eq in E. subst k.
    rewrite nth_error_app2 by lia. now rewrite Hf, Nat.sub_diag.
  - apply Nat.eqb_neq in E.
    destruct (Nat.lt_ge_cases k j) as [Hlt | Hge].
    + rewrite nth_error_app1 by lia. now rewrite nth_error_firstn, (proj2 (Nat.ltb_lt k j) Hlt).
    + rewrite nth_error_app2 by lia. rewrite Hf.
      destruct (k - j)%nat as [| m] eqn:Em; [lia |]. cbn [nth_error].
      rewrite nth_error_skipn. f_equal. lia.
Qed.

Lemma length_set (A : Type) (l : list A) (j : nat) (v : A) :
  (j < length l)%nat -> length (firstn j l ++ v :: skipn (S j) l) = length l.
Proof.
  intros Hj. rewrite length_app, length_firstn. cbn [length].
  rewrite length_skipn. lia.
Qed.

Lemma py_index_nonneg {A : Type} (l : list A) (i : Z) (a : A) :
  0 <= i -> nth_error l (Z.to_nat i) = Some a -> py_index l i = Ok a.
Proof.
  intros Hi H. unfold py_index, zlen.
  assert (Hlt : (Z.to_nat i < length l)%nat)
    by (apply nth_error_Some; congruence).
  destruct (i <? 0) eqn:E; [lia |].
  destruct ((0 <=? i) && (i <? Z.of_nat (length l))) eqn:E2;
    [now rewrite H |].
  apply andb_false_iff in E2 as [E2 | E2]; lia.
Qed.

Lemma set_channel_nonneg (t : arr4) (i : Z) (v : arr3) :
  0 <= i < zlen t ->
  set_channel t i v
  = Ok (firstn (Z.to_nat i) t ++ v :: skipn (S (Z.to_nat i)) t).
Proof.
  intros Hi. unfold set_channel.
  destruct (i <? 0) eqn:E; [lia |].
  destruct ((0 <=? i) && (i <? zlen t)) eqn:E2; [reflexivity |].
  apply andb_false_iff in E2 as [E2 | E2]; lia.
Qed.

Lemma nth_error_in_range {A : Type} (l : list A) (i : Z) :
  0 <= i < zlen l -> exists a, nth_error l (Z.to_nat i) = Some a.
Proof.
  intros Hi. unfold zlen in Hi.
  destruct (nth_error l (Z.to_nat i)) as [a |] eqn:E; [now exists a |].
  apply nth_error_None in E. lia.
Qed.

Lemma nth_error_zlen {A : Type} (l : list A) (i : Z) (a : A) :
  0 <= i -> nth_error l (Z.to_nat i) = Some a -> 0 <= i < zlen l.
Proof.
  intros Hi H. unfold zlen.
  assert (Z.to_nat i < length l)%nat by (apply nth_error_Some; congruence).
  lia.
Qed.

Lemma py_set_nonneg {A : Type} (l : list A) (i : Z) (v : A) :
  0 <= i < zlen l -> py_set l i v = Ok (set_nth (Z.to_nat i) v l).
Proof.
  intros Hi. unfold py_set.
  destruct (i <? 0) eqn:E; [lia |].
  destruct ((0 <=? i) && (i <? zlen l)) eqn:E2; [reflexivity |].
  apply andb_false_iff in E2 as [E2 | E2]; lia.
Qed.

(** Re-projection of one triple of distinct channels. *)
Lemma reproject_channels (M : matrix) (t : arr4) (a b c : Z)
  (ta tb tc : arr3) :
  0 <= a < zlen t -> 0 <= b < zlen t -> 0 <= c < zlen t ->
  a <> b -> a <> c -> b <> c ->
  nth_error t (Z.to_nat a) = Some ta ->
  nth_error t (Z.to_nat b) = Some tb ->
  nth_error t (Z.to_nat c) = Some tc ->
  exists t',
    reproject M t (IxList [a; b; c]) = Ok t' /\
    length t' = length t /\
    nth_error t' (Z.to_nat a) = Some (lin_row M 0 ta tb tc) /\
    nth_error t' (Z.to_nat b) = Some (lin_row M 1 ta tb tc) /\
    nth_error t' (Z.to_nat c) = Some (lin_row M 2 ta tb tc) /\
    (forall k, k <> Z.to_nat a -> k <> Z.to_nat b -> k <> Z.to_nat c ->
               nth_error t' k = nth_error t k).
Proof.
  intros Ha Hb Hc Hab Hac Hbc Hta Htb Htc.
  unfold reproject, reproject_list, assert_.
  cbn [ix_entries length Nat.eqb nth bind].
  rewrite (py_index_nonneg _ (proj1 Ha) Hta),
          (py_index_nonneg _ (proj1 Hb) Htb),
          (py_index_nonneg _ (proj1 Hc) Htc). cbn [bind].
  fold (lin_row M 0 ta tb tc) (lin_row M 1 ta tb tc) (lin_row M 2 ta tb tc).
  rewrite (set_channel_nonneg t (lin_row M 0 ta tb tc) Ha). cbn [bind].
  set (t1 := firstn (Z.to_nat a) t ++
             lin_row M 0 ta tb tc :: skipn (S (Z.to_nat a)) t).
  unfold zlen in *.
  assert (L1 : length t1 = length t) by (apply length_set; lia).
  rewrite (@set_channel_nonneg t1 b (lin_row M 1 ta tb tc))
    by (unfold zlen; lia).
  cbn [bind].
  set (t2 := firstn (Z.to_nat b) t1 ++
             lin_row M 1 ta tb tc :: skipn (S (Z.to_nat b)) t1).
  assert (L2 : length t2 = length t) by (unfold t2; rewrite length_set; lia).
  rewrite (@set_channel_nonneg t2 c (lin_row M 2 ta tb tc))
    by (unfold zlen; lia).
  eexists. split; [reflexivity |].
  assert (Na : forall x y : Z, 0 <= x -> 0 <= y -> x <> y ->
                 Nat.eqb (Z.to_nat x) (Z.to_nat y) = false)
    by (intros; apply Nat.eqb_neq; lia).
  split; [rewrite length_set; lia |].
  repeat split.
  - rewrite nth_error_set by lia. rewrite (Na a c) by lia.
    unfold t2. rewrite nth_error_set by lia. rewrite (Na a b) by lia.
    unfold t1. rewrite nth_error_set by lia. now rewrite Nat.eqb_refl.
  - rewrite nth_error_set by lia. rewrite (Na b c) by lia.
    unfold t2. rewrite nth_error_set by lia. now rewrite Nat.eqb_refl.
  - rewrite nth_error_set by lia. now rewrite Nat.eqb_refl.
  - intros k Hka Hkb Hkc.
    rewrite nth_error_set by lia. rewrite (proj2 (Nat.eqb_neq _ _) Hkc).
    unfold t2. rewrite nth_error_set by lia.
    rewrite (proj2 (Nat.eqb_neq _ _) Hkb).
    unfold t1. rewrite nth_error_set by lia.
    now rewrite (proj2 (Nat.eqb_neq _ _) Hka).
Qed.

(** Re-projection of a list of triples that share no channel: every triple
    is replaced by the rows of the linear block applied to the channels as
    they were before, and the channels that no triple names stay. *)
Lemma reproject_all_channels (M : matrix) (ixs : list (list Z)) :
  forall t,
    Forall (channel_triple (zlen t)) ixs -> disjoint_triples ixs ->
    exists t',
      reproject_all M t (map IxList ixs) = Ok t' /\
      length t' = length t /\
      (forall k, (forall ix, In ix ixs -> ~ In (Z.of_nat k) ix) ->
                 nth_error t' k = nth_error t k) /\
      (forall a b c, In [a; b; c] ixs ->
         exists ta tb tc,
           nth_error t (Z.to_nat a) = Some ta /\
           nth_error t (Z.to_nat b) = Some tb /\
           nth_error t (Z.to_nat c) = Some tc /\
           nth_error t' (Z.to_nat a) = Some (lin_row M 0 ta tb tc) /\
           nth_error t' (Z.to_nat b) = Some (lin_row M 1 ta tb tc) /\
           nth_error t' (Z.to_nat c) = Some (lin_row M 2 ta tb tc)).
Proof.
  induction ixs as [| ix rest IH]; intros t Hall Hdis.
  - exists t. cbn [map reproject_all]. repeat split; auto.
    intros a b c [].
  - inversion Hall as [| ? ? Hix Hrest]; subst.
    inversion Hdis as [| ? ? Hfirst Hdrest]; subst.
    destruct Hix as (a & b & c & -> & Ha & Hb & Hc & Hab & Hac & Hbc).
    destruct (nth_error_in_range t Ha) as (ta & Hta).
    destruct (nth_error_in_range t Hb) as (tb & Htb).
    destruct (nth_error_in_range t Hc) as (tc & Htc).
    destruct (@reproject_channels M t a b c ta tb tc Ha Hb Hc Hab Hac Hbc
                Hta Htb Htc)
      as (t1 & Hr & L1 & Ea & Eb & Ec & Hother).
    assert (Z1 : zlen t1 = zlen t) by (unfold zlen; now rewrite L1).
    destruct (IH t1) as (t' & Hall' & L' & Hkeep & Htrip);
      [now rewrite Z1 | exact Hdrest |].
    exists t'. cbn [map reproject_all]. rewrite Hr. cbn [bind].
    split; [exact Hall' |]. split; [congruence |].
    assert (Hhead : forall x, In x [a; b; c] ->
                      nth_error t' (Z.to_nat x) = nth_error t1 (Z.to_nat x)).
    { intros x Hx. apply Hkeep. intros ix' Hin.
      assert (0 <= x) by (destruct Hx as [<- | [<- | [<- | []]]]; lia).
      rewrite Z2Nat.id by lia.
      rewrite Forall_forall in Hfirst. exact (Hfirst ix' Hin x Hx). }
    split.
    + intros k Hk. rewrite Hkeep by (intros ix' Hin; apply Hk; now right).
      pose proof (Hk [a; b; c] (or_introl eq_refl)) as Hn.
      apply Hother; intros ->; apply Hn; rewrite Z2Nat.id by lia;
        simpl; auto.
    + intros a' b' c' [Heq | Hin].
      * injection Heq as <- <- <-. exists ta, tb, tc.
        rewrite !Hhead by (simpl; auto). repeat split; assumption.
      * destruct (Htrip a' b' c' Hin)
          as (ta' & tb' & tc' & Ha' & Hb' & Hc' & Ra & Rb & Rc).
        rewrite Forall_forall in Hrest, Hfirst.
        destruct (Hrest _ Hin)
          as (a2 & b2 & c2 & Heq & Ha2 & Hb2 & Hc2 & _).
        injection Heq as <- <- <-.
        assert (Hout : forall x, In x [a'; b'; c'] -> 0 <= x ->
                  nth_error t1 (Z.to_nat x) = nth_error t (Z.to_nat x)).
        { intros x Hx Hx0.
          apply Hother; intros E; apply Z2Nat.inj in E; try lia; subst x.
          - exact (Hfirst _ Hin a (or_introl eq_refl) Hx).
          - exact (Hfirst _ Hin b (or_intror (or_introl eq_refl)) Hx).
          - exact (Hfirst _ Hin c
                     (or_intror (or_intror (or_introl eq_refl))) Hx). }
        exists ta', tb', tc'.
        rewrite <- !Hout by (simpl; auto; lia).
        repeat split; assumption.
Qed.

(** With [target_vec_ix], the call is the call without it followed by the
    test of the bottom row and the re-projections. *)
Lemma warp_slice_vec_stage inp ps M tgt tp ixs td last ks inpv t0 :
  warp_slice inp ps M (Some tgt) (Some tp) None td last ks
  = Ok (inpv, Some t0) ->
  warp_slice inp ps M (Some tgt) (Some tp) (Some ixs) td last ks
  = (_ <- assert_ (affine M) ;;
     t <- reproject_all M t0 ixs ;;
     Ok (inpv, Some t)).
Proof.
  rewrite !warp_slice_stages.
  destruct (warp_primary inp ps M last ks) as [[[sh coords] inpv'] |];
    [| discriminate].
  cbn [bind]. unfold warp_target, affine.
  destruct (target_window_of _ _ _ _ _) as [tw |]; [| discriminate].
  cbn [bind].
  destruct (resample_target _ _ _ _ _) as [t1 |]; [| discriminate].
  cbn [bind]. intros H. injection H as -> ->.
  destruct (assert_ _); [| reflexivity]. cbn [bind].
  destruct (reproject_all M t0 ixs); reflexivity.
Qed.

Lemma cell_set_nth {A : Type} (t : list (list (list A))) (i j k : nat)
  (ch : list (list A)) (p : list A) (v : A) :
  nth_error t i = Some ch -> nth_error ch j = Some p ->
  (k < length p)%nat ->
  forall c z x,
    cell (set_nth i (set_nth j (set_nth k v p) ch) t) c z x
    = if Nat.eqb c i && Nat.eqb z j && Nat.eqb x k then Some v
      else cell t c z x.
Proof.
  intros Hch Hp Hk c z x.
  assert (Hi : (i < length t)%nat) by (apply nth_error_Some; congruence).
  assert (Hj : (j < length ch)%nat) by (apply nth_error_Some; congruence).
  unfold cell, set_nth.
  rewrite nth_error_set by exact Hi.
  destruct (Nat.eqb c i) eqn:Ec; cbn [andb]; [| reflexivity].
  apply Nat.eqb_eq in Ec. subst c. rewrite Hch.
  rewrite nth_error_set by exact Hj.
  destruct (Nat.eqb z j) eqn:Ez; cbn [andb]; [| reflexivity].
  apply Nat.eqb_eq in Ez. subst z. rewrite Hp.
  rewrite nth_error_set by exact Hk.
  destruct (Nat.eqb x k); reflexivity.
Qed.

Lemma cell_Some {A : Type} (a : list (list (list A))) (i j k : nat) (r : A) :
  cell a i j k = Some r ->
  exists ch p,
    nth_error a i = Some ch /\ nth_error ch j = Some p /\
    nth_error p k = Some r.
Proof.
  unfold cell.
  destruct (nth_error a i) as [ch |]; [| discriminate].
  destruct (nth_error ch j) as [p |] eqn:Ep; [| discriminate].
  intros H. exists ch, p. repeat split; auto.
Qed.

Lemma cell_None {A : Type} (a : list (list (list A))) (i j k : nat) :
  cell a i j k = None ->
  nth_error a i = None \/
  (exists ch, nth_error a i = Some ch /\ nth_error ch j = None) \/
  (exists ch p, nth_error a i = Some ch /\ nth_error ch j = Some p /\
                nth_error p k = None).
Proof.
  unfold cell.
  destruct (nth_error a i) as [ch |]; [| now left].
  destruct (nth_error ch j) as [p |] eqn:Ep.
  - intros H. right. right. exists ch, p. repeat split; auto.
  - intros _. right. left. exists ch. split; auto.
Qed.

Lemma py_index_None {A : Type} (l : list A) (i : Z) :
  0 <= i -> nth_error l (Z.to_nat i) = None -> py_index l i = Raise IndexError.
Proof.
  intros Hi H. unfold py_index.
  destruct (i <? 0) eqn:E; [lia |].
  destruct ((0 <=? i) && (i <? zlen l)); [now rewrite H | reflexivity].
Qed.

(** Re-projection with a tuple: the row at the three indices is the only
    thing read and the only thing written. *)
Lemma reproject_tuple_row (M : matrix) (t : arr4) (i j k : Z) :
  0 <= i -> 0 <= j -> 0 <= k ->
  (cell t (Z.to_nat i) (Z.to_nat j) (Z.to_nat k) = None ->
   reproject M t (IxTuple [i; j; k]) = Raise IndexError)
  /\
  (forall r,
     cell t (Z.to_nat i) (Z.to_nat j) (Z.to_nat k) = Some r ->
     length r <> 3%nat ->
     reproject M t (IxTuple [i; j; k])
     = Raise (ValueError "shape-mismatch for sum"))
  /\
  (forall r,
     cell t (Z.to_nat i) (Z.to_nat j) (Z.to_nat k) = Some r ->
     length r = 3%nat ->
     exists t',
       reproject M t (IxTuple [i; j; k]) = Ok t' /\
       forall c z x,
         cell t' c z x
         = if Nat.eqb c (Z.to_nat i) && Nat.eqb z (Z.to_nat j)
              && Nat.eqb x (Z.to_nat k)
           then Some (lin_vec M r) else cell t c z x).
Proof.
  intros Hi Hj Hk.
  assert (Hsome : forall r,
            cell t (Z.to_nat i) (Z.to_nat j) (Z.to_nat k) = Some r ->
            exists ch p,
              0 <= i < zlen t /\ 0 <= j < zlen ch /\ 0 <= k < zlen p /\
              nth_error t (Z.to_nat i) = Some ch /\
              nth_error ch (Z.to_nat j) = Some p /\
              reproject M t (IxTuple [i; j; k])
              = if negb (Nat.eqb (length r) 3) then
                  Raise (ValueError "shape-mismatch for sum")
                else
                  p' <- py_set p k (lin_vec M r) ;;
                  ch' <- py_set ch j p' ;;
                  py_set t i ch').
  { intros r Hcell.
    destruct (cell_Some _ _ _ _ Hcell) as (ch & p & Ech & Ep & Er).
    exists ch, p.
    split; [exact (nth_error_zlen _ Hi Ech) |].
    split; [exact (nth_error_zlen _ Hj Ep) |].
    split; [exact (nth_error_zlen _ Hk Er) |].
    split; [exact Ech |]. split; [exact Ep |].
    unfold reproject, reproject_tuple, assert_.
    cbn [ix_entries length Nat.eqb nth bind].
    erewrite (@py_index_nonneg _ _ i _ Hi) by exact Ech. cbn [bind].
    erewrite (@py_index_nonneg _ _ j _ Hj) by exact Ep. cbn [bind].
    erewrite (@py_index_nonneg _ _ k _ Hk) by exact Er. reflexivity. }
  split; [| split].
  - intros Hnone.
    unfold reproject, reproject_tuple, assert_.
    cbn [ix_entries length Nat.eqb nth bind].
    destruct (cell_None _ _ _ _ Hnone)
      as [Ech | [(ch & Ech & Ep) | (ch & p & Ech & Ep & Er)]].
    + erewrite (@py_index_None _ _ i Hi) by exact Ech. reflexivity.
    + erewrite (@py_index_nonneg _ _ i _ Hi) by exact Ech. cbn [bind].
      erewrite (@py_index_None _ _ j Hj) by exact Ep. reflexivity.
    + erewrite (@py_index_nonneg _ _ i _ Hi) by exact Ech. cbn [bind].
      erewrite (@py_index_nonneg _ _ j _ Hj) by exact Ep. cbn [bind].
      erewrite (@py_index_None _ _ k Hk) by exact Er. reflexivity.
  - intros r Hcell Hlen.
    destruct (Hsome r Hcell) as (ch & p & _ & _ & _ & _ & _ & ->).
    apply Nat.eqb_neq in Hlen. now rewrite Hlen.
  - intros r Hcell Hlen.
    destruct (Hsome r Hcell) as (ch & p & Li & Lj & Lk & Ech & Ep & ->).
    rewrite (proj2 (Nat.eqb_eq _ _) Hlen). cbn [negb].
    erewrite (@py_set_nonneg _ _ k) by exact Lk. cbn [bind].
    erewrite (@py_set_nonneg _ _ j) by exact Lj. cbn [bind].
    erewrite (@py_set_nonneg _ _ i) by exact Li. cbn [bind].
    eexists. split; [reflexivity |].
    apply cell_set_nth; try assumption. unfold zlen in Lk. lia.
Qed.

(** C6: for lists of three channels that share no channel, the call with
    [target_vec_ix] returns what the call without it returns, with each
    named triple of interpolated channels replaced, at every voxel, by the
    rows of the 3x3 block [M[:3,:3]] applied to the three values (no
    translation entry is read) and the other channels kept; when the first
    three entries of the bottom row of [M] are not numerically zero the
    call returns no result.  For a tuple [(i, j, k)], the form in which
    the description of [warp_slice] writes a triple, [target[ix]] is the
    row [target[i, j, k]]: the call raises [IndexError] when there is no
    such row and [ValueError] when the row has not three entries;
    otherwise that row alone is replaced by the product with the block,
    every other entry of the target staying as interpolated: no vector
    channel is re-projected. *)
Theorem warp_slice_vector_reprojection :
  (forall inp ps M tgt tp ixs td last ks inpv t0,
     warp_slice inp ps M (Some tgt) (Some tp) None td last ks
     = Ok (inpv, Some t0) ->
     affine M = true ->
     Forall (channel_triple (zlen t0)) ixs -> disjoint_triples ixs ->
     exists t,
       warp_slice inp ps M (Some tgt) (Some tp) (Some (map IxList ixs))
                  td last ks
       = Ok (inpv, Some t) /\
       length t = length t0 /\
       (forall k, (forall ix, In ix ixs -> ~ In (Z.of_nat k) ix) ->
                  nth_error t k = nth_error t0 k) /\
       (forall a b c, In [a; b; c] ixs ->
          exists ta tb tc ta' tb' tc',
            nth_error t0 (Z.to_nat a) = Some ta /\
            nth_error t0 (Z.to_nat b) = Some tb /\
            nth_error t0 (Z.to_nat c) = Some tc /\
            nth_error t (Z.to_nat a) = Some ta' /\
            nth_error t (Z.to_nat b) = Some tb' /\
            nth_error t (Z.to_nat c) = Some tc' /\
            forall z x y va vb vc,
              voxel ta z x y = Some va -> voxel tb z x y = Some vb ->
              voxel tc z x y = Some vc ->
              voxel ta' z x y
              = Some (mget M 0 0 * va + mget M 0 1 * vb
                      + mget M 0 2 * vc)%Q /\
              voxel tb' z x y
              = Some (mget M 1 0 * va + mget M 1 1 * vb
                      + mget M 1 2 * vc)%Q /\
              voxel tc' z x y
              = Some (mget M 2 0 * va + mget M 2 1 * vb
                      + mget M 2 2 * vc)%Q))
  /\
  (forall inp ps M tgt tps ixs td last ks,
     affine M = false ->
     is_ok (warp_slice inp ps M (Some tgt) tps (Some ixs) td last ks) = false)
  /\
  (forall inp ps M tgt tp i j k td last ks inpv t0,
     warp_slice inp ps M (Some tgt) (Some tp) None td last ks
     = Ok (inpv, Some t0) ->
     affine M = true ->
     0 <= i -> 0 <= j -> 0 <= k ->
     let run :=
       warp_slice inp ps M (Some tgt) (Some tp) (Some [IxTuple [i; j; k]])
                  td last ks in
     match cell t0 (Z.to_nat i) (Z.to_nat j) (Z.to_nat k) with
     | None => run = Raise IndexError
     | Some r =>
         (length r <> 3%nat ->
          run = Raise (ValueError "shape-mismatch for sum"))
         /\
         (length r = 3%nat ->
          exists t,
            run = Ok (inpv, Some t) /\
            forall c z x,
              cell t c z x
              = if Nat.eqb c (Z.to_nat i) && Nat.eqb z (Z.to_nat j)
                   && Nat.eqb x (Z.to_nat k)
                then Some (lin_vec M r) else cell t0 c z x)
     end).
Proof.
  split; [| split].
  - intros inp ps M tgt tp ixs td last ks inpv t0 Hrun Haff Hall Hdis.
    destruct (@reproject_all_channels M ixs t0 Hall Hdis)
      as (t & Hr & L & Hkeep & Htrip).
    exists t. rewrite (@warp_slice_vec_stage _ _ _ _ _ _ _ _ _ _ _ Hrun), Haff.
    cbn [assert_ bind]. rewrite Hr. cbn [bind].
    split; [reflexivity |]. split; [exact L |]. split; [exact Hkeep |].
    intros a b c Hin.
    destruct (Htrip a b c Hin)
      as (ta & tb & tc & Ha & Hb & Hc & Ra & Rb & Rc).
    exists ta, tb, tc, (lin_row M 0 ta tb tc), (lin_row M 1 ta tb tc),
           (lin_row M 2 ta tb tc).
    repeat split; auto; now apply voxel_lin_row.
  - intros inp ps M tgt tps ixs td last ks Haff.
    rewrite warp_slice_stages.
    destruct (warp_primary inp ps M last ks) as [[[sh coords] inpv] |];
      [| reflexivity].
    cbn [bind]. unfold warp_target.
    destruct tps as [tp |]; [| reflexivity].
    destruct (target_window_of _ _ _ _ _) as [tw |]; [| reflexivity].
    cbn [bind].
    destruct (resample_target _ _ _ _ _) as [t0 |]; [| reflexivity].
    cbn [bind]. fold (affine M). rewrite Haff. reflexivity.
  - intros inp ps M tgt tp i j k td last ks inpv t0 Hrun Haff Hi Hj Hk run.
    unfold run.
    rewrite (@warp_slice_vec_stage _ _ _ _ _ _ _ _ _ _ _ Hrun), Haff.
    cbn [assert_ bind reproject_all].
    destruct (@reproject_tuple_row M t0 i j k Hi Hj Hk)
      as (Hnone & Hbad & Hgood).
    destruct (cell t0 (Z.to_nat i) (Z.to_nat j) (Z.to_nat k)) as [r |].
    + split; intros Hlen.
      * now rewrite (Hbad r eq_refl Hlen).
      * destruct (Hgood r eq_refl Hlen) as (t & Hr & Hc).
        exists t. rewrite Hr. cbn [bind]. split; [reflexivity | exact Hc].
    + now rewrite (Hnone eq_refl).
Qed.

(** A quarter turn about the first axis: the three channels of a
    re-projected list come out as the first, minus the third and the
    second; with the tuple of the same entries the row has two entries and
    the call raises. *)
Lemma warp_slice_vector_reprojection_witness :
  (exists t ta tb tc,
     warp_slice (ramp [1; 6; 6; 6]) [2; 3; 2] quarter_turn
       (Some (ramp [3; 6; 6; 6])) (Some [2; 3; 2])
       (Some [IxList [0; 1; 2]]) None false (1 # 2)
     = Ok ([[[[4; 14]; [3; 13]; [2; 12]];
             [[104; 114]; [103; 113]; [102; 112]]]]%Q, Some t) /\
     length t = 3%nat /\
     nth_error t 0 = Some ta /\ nth_error t 1 = Some tb /\
     nth_error t 2 = Some tc /\
     voxel ta 0 0 0 = Some (1 * 4 + 0 * 1004 + 0 * 2004)%Q /\
     voxel tb 0 0 0 = Some (0 * 4 + 0 * 1004 + -1 * 2004)%Q /\
     voxel tc 0 0 0 = Some (0 * 4 + 1 * 1004 + 0 * 2004)%Q)
  /\
  warp_slice (ramp [1; 6; 6; 6]) [2; 3; 2] quarter_turn
    (Some (ramp [3; 6; 6; 6])) (Some [2; 3; 2])
    (Some [IxTuple [0; 1; 2]]) None false (1 # 2)
  = Raise (ValueError "shape-mismatch for sum").
Proof.
  assert (Hrun :
    warp_slice (ramp [1; 6; 6; 6]) [2; 3; 2] quarter_turn
      (Some (ramp [3; 6; 6; 6])) (Some [2; 3; 2]) None None false (1 # 2)
    = Ok ([[[[4; 14]; [3; 13]; [2; 12]];
            [[104; 114]; [103; 113]; [102; 112]]]]%Q,
          Some [[[[4; 14]; [3; 13]; [2; 12]];
                 [[104; 114]; [103; 113]; [102; 112]]];
                [[[1004; 1014]; [1003; 1013]; [1002; 1012]];
                 [[1104; 1114]; [1103; 1113]; [1102; 1112]]];
                [[[2004; 2014]; [2003; 2013]; [2002; 2012]];
                 [[2104; 2114]; [2103; 2113]; [2102; 2112]]]]%Q))
    by (vm_compute; reflexivity).
  split.
  - destruct (proj1 warp_slice_vector_reprojection _ _ _ _ _ [[0; 1; 2]]
                _ _ _ _ _ Hrun eq_refl)
      as (t & Ht & L & _ & Htrip).
    + constructor; [| constructor].
      exists 0, 1, 2. cbv [zlen length Z.of_nat Pos.of_succ_nat Pos.succ].
      repeat split; lia.
    + constructor; constructor.
    + destruct (Htrip 0 1 2 (or_introl eq_refl))
        as (ta & tb & tc & ta' & tb' & tc' & Ha & Hb & Hc & Ha' & Hb' & Hc'
            & Hv).
      exists t, ta', tb', tc'.
      injection Ha as <-. injection Hb as <-. injection Hc as <-.
      destruct (Hv 0%nat 0%nat 0%nat 4%Q 1004%Q 2004%Q
                  eq_refl eq_refl eq_refl) as (Va & Vb & Vc).
      repeat split; assumption.
  - exact (proj1 (proj2 (proj2 warp_slice_vector_reprojection)
                   _ _ _ _ _ 0 1 2 _ _ _ _ _ Hrun eq_refl
                   ltac:(lia) ltac:(lia) ltac:(lia))
             ltac:(discriminate)).
Defined.

(** A quarter turn about the first axis sends vectors along the second
    axis to vectors along the third. *)
Example reproject_quarter_turn :
  reproject [ [1; 0; 0; 0]; [0; 0; -1; 0]; [0; 1; 0; 0]; [0; 0; 0; 1] ]%Q
            [ [[[0]]]; [[[7]]]; [[[0]]] ]%Q (IxList [0; 1; 2])
  = Ok [ [[[1 * 0 + 0 * 7 + 0 * 0]]]; [[[0 * 0 + 0 * 7 + -1 * 0]]];
         [[[0 * 0 + 1 * 7 + 0 * 0]]] ]%Q.
Proof. reflexivity. Qed.

(** The same entries as a tuple name plane 1 of channel 0, which has one
    plane only. *)
Example reproject_tuple_out_of_range :
  reproject [ [1; 0; 0; 0]; [0; 0; -1; 0]; [0; 1; 0; 0]; [0; 0; 0; 1] ]%Q
            [ [[[0; 0; 0]]]; [[[7; 7; 7]]]; [[[0; 0; 0]]] ]%Q
            (IxTuple [0; 1; 2])
  = Raise IndexError.
Proof. reflexivity. Qed.

(* ================================================================== *)
(** ** Grids given by a function of the index *)

Lemma make_dest_coords_tabulate (d h w : Z) :
  make_dest_coords [d; h; w]
  = Ok (tabulate3 (fun z x y => [QofZ z; QofZ x; QofZ y; 1%Q]) d h w).
Proof. reflexivity. Qed.

Lemma grid_map_tabulate {A B : Type} (g : A -> B) (f : Z -> Z -> Z -> A)
  (n0 n1 n2 : Z) :
  grid_map g (tabulate3 f n0 n1 n2)
  = tabulate3 (fun z x y => g (f z x y)) n0 n1 n2.
Proof.
  unfold grid_map, tabulate3. rewrite map_map. apply map_ext. intros z.
  rewrite map_map. apply map_ext. intros x. now rewrite map_map.
Qed.

Lemma mapM_rel {A B C : Type} (f : A -> result B) (R : B -> C -> Prop)
  (g : A -> C) (l : list A) :
  (forall a, In a l -> exists b, f a = Ok b /\ R b (g a)) ->
  exists l', mapM f l = Ok l' /\ Forall2 R l' (map g l).
Proof.
  induction l as [| a l IH]; intros H; simpl.
  - exists []. split; [reflexivity | constructor].
  - destruct (H a (or_introl eq_refl)) as (b & Hb & Rb).
    destruct IH as (l' & Hl' & Rl'); [intros; apply H; now right |].
    exists (b :: l'). rewrite Hb, Hl'. split; [reflexivity | now constructor].
Qed.

Lemma gridM_tabulate {A B C : Type} (f : A -> result B) (R : B -> C -> Prop)
  (c : Z -> Z -> Z -> A) (e : Z -> Z -> Z -> C) (n0 n1 n2 : Z) :
  (forall z x y, 0 <= z < n0 -> 0 <= x < n1 -> 0 <= y < n2 ->
     exists b, f (c z x y) = Ok b /\ R b (e z x y)) ->
  exists out,
    gridM f (tabulate3 c n0 n1 n2) = Ok out /\
    Forall2 (Forall2 (Forall2 R)) out (tabulate3 e n0 n1 n2).
Proof.
  intros H. unfold gridM, tabulate3. rewrite mapM_map.
  apply mapM_rel. intros z Hz. apply in_zrange in Hz.
  rewrite mapM_map. apply mapM_rel. intros x Hx. apply in_zrange in Hx.
  rewrite mapM_map. apply mapM_rel. intros y Hy. apply in_zrange in Hy.
  apply H; lia.
Qed.

Lemma nb_index_zrange {A : Type} (f : Z -> A) (n i : Z) :
  0 <= i < n -> nb_index (map f (zrange 0 n)) i = Ok (f i).
Proof.
  intros Hi. unfold nb_index, zlen. rewrite length_map, zrange_length.
  destruct (i <? 0) eqn:E; [lia |].
  destruct ((0 <=? i) && (i <? Z.of_nat (Z.to_nat n))) eqn:E2.
  - rewrite nth_error_map, nth_error_zrange by lia. simpl.
    rewrite Z2Nat.id by lia. reflexivity.
  - apply andb_false_iff in E2 as [E2 | E2];
      [apply Z.leb_gt in E2 | apply Z.ltb_ge in E2]; lia.
Qed.

Lemma py_index_zrange {A : Type} (f : Z -> A) (n i : Z) :
  0 <= i < n -> py_index (map f (zrange 0 n)) i = Ok (f i).
Proof.
  intros Hi. unfold py_index, zlen. rewrite length_map, zrange_length.
  destruct (i <? 0) eqn:E; [lia |].
  destruct ((0 <=? i) && (i <? Z.of_nat (Z.to_nat n))) eqn:E2.
  - rewrite nth_error_map, nth_error_zrange by lia. simpl.
    rewrite Z2Nat.id by lia. reflexivity.
  - apply andb_false_iff in E2 as [E2 | E2];
      [apply Z.leb_gt in E2 | apply Z.ltb_ge in E2]; lia.
Qed.

Lemma nb_index3_tabulate (f : Z -> Z -> Z -> Q) (n0 n1 n2 u v w : Z) :
  0 <= u < n0 -> 0 <= v < n1 -> 0 <= w < n2 ->
  nb_index3 (tabulate3 f n0 n1 n2) u v w = Ok (f u v w).
Proof.
  intros Hu Hv Hw. unfold nb_index3, tabulate3.
  rewrite (nb_index_zrange _ Hu). cbn [bind].
  rewrite (nb_index_zrange _ Hv). cbn [bind].
  apply (nb_index_zrange _ Hw).
Qed.

(** ** The kernels at integer coordinates *)

Lemma Qtrunc_eq_Z (q : Q) (z : Z) : (q == inject_Z z)%Q -> Qtrunc q = z.
Proof.
  intros H. unfold Qtrunc. destruct (Qle_bool 0 q); rewrite H;
    [apply Qfloor_Z | apply Qceiling_Z].
Qed.

Lemma Qround_even_eq_Z (q : Q) (z : Z) :
  (q == inject_Z z)%Q -> Qround_even q = z.
Proof.
  intros H. unfold Qround_even. rewrite (Qfloor_eq_Z H).
  assert (Hd : (q - inject_Z z == 0)%Q) by (rewrite H; ring).
  rewrite Qltb_true; [reflexivity |]. rewrite Hd. reflexivity.
Qed.

(** At a coordinate that is a grid point of the source sub-array, with a
    neighbour on the high side along every axis, the linear kernel returns
    the value stored at the grid point. *)
Lemma linear_at_grid_point (f : Z -> Z -> Z -> Q) (n0 n1 n2 : Z)
  (lo c : vec) (z x y : Z) :
  (coord c 0 - coord lo 0 == QofZ z)%Q ->
  (coord c 1 - coord lo 1 == QofZ x)%Q ->
  (coord c 2 - coord lo 2 == QofZ y)%Q ->
  0 <= z -> z + 1 < n0 -> 0 <= x -> x + 1 < n1 -> 0 <= y -> y + 1 < n2 ->
  exists b, linear_at (tabulate3 f n0 n1 n2) lo c = Ok b /\ (b == f z x y)%Q.
Proof.
  intros Hu Hv Hw Hz0 Hz1 Hx0 Hx1 Hy0 Hy1.
  unfold linear_at. cbv zeta.
  rewrite (Qtrunc_eq_Z Hu), (Qtrunc_eq_Z Hv), (Qtrunc_eq_Z Hw).
  rewrite !nb_index3_tabulate by lia. cbn [bind].
  eexists. split; [reflexivity |].
  assert (Hdu : (coord c 0 - coord lo 0 - QofZ z == 0)%Q) by (rewrite Hu; ring).
  assert (Hdv : (coord c 1 - coord lo 1 - QofZ x == 0)%Q) by (rewrite Hv; ring).
  assert (Hdw : (coord c 2 - coord lo 2 - QofZ y == 0)%Q) by (rewrite Hw; ring).
  set (du := (coord c 0 - coord lo 0 - QofZ z)%Q) in *.
  set (dv := (coord c 1 - coord lo 1 - QofZ x)%Q) in *.
  set (dw := (coord c 2 - coord lo 2 - QofZ y)%Q) in *.
  rewrite Hdu, Hdv, Hdw. ring.
Qed.

Lemma nearest_at_grid_point (f : Z -> Z -> Z -> Q) (n0 n1 n2 : Z)
  (lo c : vec) (z x y : Z) :
  (coord c 0 - coord lo 0 == QofZ z)%Q ->
  (coord c 1 - coord lo 1 == QofZ x)%Q ->
  (coord c 2 - coord lo 2 == QofZ y)%Q ->
  0 <= z < n0 -> 0 <= x < n1 -> 0 <= y < n2 ->
  exists b, nearest_at (tabulate3 f n0 n1 n2) lo c = Ok b /\ (b == f z x y)%Q.
Proof.
  intros Hu Hv Hw Hz Hx Hy.
  unfold nearest_at. cbv zeta.
  rewrite (Qround_even_eq_Z Hu), (Qround_even_eq_Z Hv), (Qround_even_eq_Z Hw).
  rewrite nb_index3_tabulate by lia.
  eexists. split; reflexivity.
Qed.

(* ================================================================== *)
(** ** The identity transform *)

Lemma inv_identity : inv identity = Ok identity.
Proof. vm_compute. reflexivity. Qed.

Lemma id_coord_values (z x y : Z) :
  (coord (id_coord z x y) 0 == QofZ z)%Q /\
  (coord (id_coord z x y) 1 == QofZ x)%Q /\
  (coord (id_coord z x y) 2 == QofZ y)%Q.
Proof.
  unfold id_coord, coord, identity, eye, vdot, qsum. simpl.
  repeat split; ring.
Qed.

Lemma src_coords_of_identity (d h w : Z) :
  src_coords_of identity identity [d; h; w] = Ok (tabulate3 id_coord d h w).
Proof.
  unfold src_coords_of.
  change (needs_divide identity) with false.
  rewrite make_dest_coords_tabulate. cbn [bind].
  rewrite !grid_map_tabulate. reflexivity.
Qed.

Lemma slice_indices_prefix (n a : Z) :
  0 <= a <= n -> slice_indices n 0 a = zrange 0 a.
Proof.
  intros H. unfold slice_indices, slice_bound.
  change (0 <? 0) with false. cbv iota.
  destruct (a <? 0) eqn:E; [lia |].
  rewrite (Z.min_l 0 n), (Z.min_l a n), Z.sub_0_r by lia. reflexivity.
Qed.

Lemma read_region_prefix (inp : Dataset) (C D H W a b c : Z) :
  shape inp = [C; D; H; W] ->
  0 <= a <= D -> 0 <= b <= H -> 0 <= c <= W ->
  read_region inp [0; 0; 0] [a; b; c]
  = map (fun k => tabulate3 (fun z x y => read inp [k; z; x; y]) a b c)
        (zrange 0 C).
Proof.
  intros Hsh Ha Hb Hc. unfold read_region. rewrite Hsh. cbn [nth].
  rewrite (slice_indices_prefix Ha), (slice_indices_prefix Hb),
          (slice_indices_prefix Hc).
  reflexivity.
Qed.

Lemma identity_box (d h w : Z) :
  1 <= d -> 1 <= h -> 1 <= w ->
  exists corners,
    src_corners identity identity [d; h; w] = Ok corners /\
    corner_box corners = Ok ([0; 0; 0], [d; h; w]).
Proof.
  intros Hd Hh Hw.
  assert (Hm : meq identity (translate (- QofZ 0) (- QofZ 0) (- QofZ 0))).
  { unfold meq, veq, identity, eye, translate. simpl.
    repeat constructor; reflexivity. }
  destruct (@translate_box identity 0 0 0 d h w Hm Hd Hh Hw)
    as (corners & Hc & Hbox).
  exists corners. split; [exact Hc |].
  rewrite Hbox, !Z.sub_0_r. reflexivity.
Qed.

Lemma out_of_bounds_inside (d h w D H W : Z) :
  d < D -> h < H -> w < W ->
  out_of_bounds [0; 0; 0] [d; h; w] [D; H; W] = false.
Proof.
  intros Hd Hh Hw. unfold out_of_bounds. simpl.
  rewrite !(proj2 (Z.leb_gt _ _)) by lia. reflexivity.
Qed.

Lemma mapM_channels (f : Z -> result arr3) (e : Z -> arr3) (n : Z) :
  (forall k, 0 <= k < n -> exists b, f k = Ok b /\ arr3_eq b (e k)) ->
  exists out, mapM f (zrange 0 n) = Ok out /\
              arr4_eq out (map e (zrange 0 n)).
Proof.
  intros H. apply mapM_rel. intros k Hk. apply in_zrange in Hk.
  apply H. lia.
Qed.

(** Under the identity every output voxel of the primary stage holds the
    value of the source voxel with the same index. *)
Lemma warp_primary_identity (inp : Dataset) (C D H W d h w : Z) (ks : Q) :
  shape inp = [C; D; H; W] ->
  1 <= d < D -> 1 <= h < H -> 1 <= w < W ->
  exists inpv,
    warp_primary inp [d; h; w] identity false ks
    = Ok ([D; H; W], tabulate3 id_coord d h w, inpv) /\
    arr4_eq inpv (read_region inp [0; 0; 0] [d; h; w]).
Proof.
  intros Hsh Hd Hh Hw.
  destruct (@identity_box d h w) as (corners & Hc & Hbox); try lia.
  unfold warp_primary. rewrite Hsh, inv_identity. cbn [bind].
  change (negb (Nat.eqb (length identity) 4 && Nat.eqb (length [d; h; w]) 3))
    with false. cbv iota.
  rewrite Hc. cbn [bind]. rewrite Hbox. cbn [bind].
  rewrite out_of_bounds_inside by lia.
  rewrite src_coords_of_identity. cbn [bind].
  change (map (fun h0 => h0 + 1) [d; h; w]) with [d + 1; h + 1; w + 1].
  rewrite (@read_region_prefix inp C D H W (d + 1) (h + 1) (w + 1)) by (auto; lia).
  rewrite (@read_region_prefix inp C D H W d h w) by (auto; lia).
  unfold resample_input.
  match goal with
  | |- context [mapM ?f (zrange 0 C)] =>
      destruct (@mapM_channels f
        (fun k => tabulate3 (fun z x y => read inp [k; z; x; y]) d h w) C)
        as (out & Hout & Heq)
  end.
  { intros k Hk. rewrite (py_index_zrange _ Hk). cbn [bind].
    rewrite andb_false_r. cbn [andb].
    apply gridM_tabulate. intros z x y Hz Hx Hy.
    destruct (id_coord_values z x y) as (E0 & E1 & E2).
    apply (@linear_at_grid_point (fun z x y => read inp [k; z; x; y])
             (d + 1) (h + 1) (w + 1) _ _ z x y); try lia.
    - rewrite E0. change (coord (map QofZ [0; 0; 0]) 0) with 0%Q. ring.
    - rewrite E1. change (coord (map QofZ [0; 0; 0]) 1) with 0%Q. ring.
    - rewrite E2. change (coord (map QofZ [0; 0; 0]) 2) with 0%Q. ring. }
  rewrite Hout. cbn [bind]. exists out. split; [reflexivity | exact Heq].
Qed.

(** ** Minimum and maximum over a grid *)

Lemma fold_Qmin_le (l : list Q) (x : Q) :
  (fold_left Qmin l x <= x)%Q /\
  (forall v, In v l -> (fold_left Qmin l x <= v)%Q).
Proof.
  revert x. induction l as [| a l IH]; intros x; simpl.
  - split; [apply Qle_refl | intros v []].
  - destruct (IH (Qmin x a)) as [H1 H2]. split.
    + eapply Qle_trans; [exact H1 | apply Q.le_min_l].
    + intros v [<- | Hv]; [| now apply H2].
      eapply Qle_trans; [exact H1 | apply Q.le_min_r].
Qed.

Lemma fold_Qmin_in (l : list Q) (x : Q) :
  (fold_left Qmin l x == x)%Q \/
  (exists v, In v l /\ (fold_left Qmin l x == v)%Q).
Proof.
  revert x. induction l as [| a l IH]; intros x; simpl.
  - left. reflexivity.
  - destruct (IH (Qmin x a)) as [H | (v & Hv & H)].
    + destruct (Q.min_spec x a) as [[_ E] | [_ E]].
      * left. now rewrite H, E.
      * right. exists a. split; [now left | now rewrite H, E].
    + right. exists v. split; [now right | exact H].
Qed.

Lemma fold_Qmax_ge (l : list Q) (x : Q) :
  (x <= fold_left Qmax l x)%Q /\
  (forall v, In v l -> (v <= fold_left Qmax l x)%Q).
Proof.
  revert x. induction l as [| a l IH]; intros x; simpl.
  - split; [apply Qle_refl | intros v []].
  - destruct (IH (Qmax x a)) as [H1 H2]. split.
    + eapply Qle_trans; [apply Q.le_max_l | exact H1].
    + intros v [<- | Hv]; [| now apply H2].
      eapply Qle_trans; [apply Q.le_max_r | exact H1].
Qed.

Lemma fold_Qmax_in (l : list Q) (x : Q) :
  (fold_left Qmax l x == x)%Q \/
  (exists v, In v l /\ (fold_left Qmax l x == v)%Q).
Proof.
  revert x. induction l as [| a l IH]; intros x; simpl.
  - left. reflexivity.
  - destruct (IH (Qmax x a)) as [H | (v & Hv & H)].
    + destruct (Q.max_spec x a) as [[_ E] | [_ E]].
      * right. exists a. split; [now left | now rewrite H, E].
      * left. now rewrite H, E.
    + right. exists v. split; [now right | exact H].
Qed.

Lemma reduce_Qmin_spans (l : list Q) (lo hi : Z) :
  spans l lo hi -> exists m, reduce Qmin l = Ok m /\ (m == QofZ lo)%Q.
Proof.
  intros (Hall & (v0 & Hv0 & E0) & _).
  destruct l as [| x l]; [destruct Hv0 |]. simpl.
  eexists. split; [reflexivity |].
  destruct (fold_Qmin_le l x) as [Hx Hl].
  apply Qle_antisym.
  - rewrite <- E0. destruct Hv0 as [<- | Hv0]; [exact Hx | now apply Hl].
  - destruct (fold_Qmin_in l x) as [E | (v & Hv & E)]; rewrite E.
    + destruct (Hall x (or_introl eq_refl)) as (z & Hz & ->).
      unfold QofZ. rewrite <- Zle_Qle. lia.
    + destruct (Hall v (or_intror Hv)) as (z & Hz & ->).
      unfold QofZ. rewrite <- Zle_Qle. lia.
Qed.

Lemma reduce_Qmax_spans (l : list Q) (lo hi : Z) :
  spans l lo hi -> exists m, reduce Qmax l = Ok m /\ (m == QofZ hi)%Q.
Proof.
  intros (Hall & _ & (v0 & Hv0 & E0)).
  destruct l as [| x l]; [destruct Hv0 |]. simpl.
  eexists. split; [reflexivity |].
  destruct (fold_Qmax_ge l x) as [Hx Hl].
  apply Qle_antisym.
  - destruct (fold_Qmax_in l x) as [E | (v & Hv & E)]; rewrite E.
    + destruct (Hall x (or_introl eq_refl)) as (z & Hz & ->).
      unfold QofZ. rewrite <- Zle_Qle. lia.
    + destruct (Hall v (or_intror Hv)) as (z & Hz & ->).
      unfold QofZ. rewrite <- Zle_Qle. lia.
  - rewrite <- E0. destruct Hv0 as [<- | Hv0]; [exact Hx | now apply Hl].
Qed.

Lemma in_grid_flat_tabulate {A : Type} (f : Z -> Z -> Z -> A)
  (n0 n1 n2 : Z) (a : A) :
  In a (grid_flat (tabulate3 f n0 n1 n2)) <->
  exists z x y, 0 <= z < n0 /\ 0 <= x < n1 /\ 0 <= y < n2 /\ a = f z x y.
Proof.
  unfold grid_flat, tabulate3. rewrite in_concat. split.
  - intros (row & Hrow & Ha). apply in_concat in Hrow as (p & Hp & Hrow).
    apply in_map_iff in Hp as (z & <- & Hz).
    apply in_map_iff in Hrow as (x & <- & Hx).
    apply in_map_iff in Ha as (y & <- & Hy).
    apply in_zrange in Hz, Hx, Hy.
    exists z, x, y. repeat split; lia.
  - intros (z & x & y & Hz & Hx & Hy & ->).
    exists (map (fun y0 => f z x y0) (zrange 0 n2)). split.
    + apply in_concat.
      exists (map (fun x0 => map (fun y0 => f z x0 y0) (zrange 0 n2))
                  (zrange 0 n1)).
      split.
      * apply in_map_iff. exists z. split; [reflexivity |].
        apply in_zrange. lia.
      * apply in_map_iff. exists x. split; [reflexivity |].
        apply in_zrange. lia.
    + apply in_map_iff. exists y. split; [reflexivity |].
      apply in_zrange. lia.
Qed.

Lemma id_coord_0 (z x y : Z) : (coord (id_coord z x y) 0 == QofZ z)%Q.
Proof. exact (proj1 (id_coord_values z x y)). Qed.

Lemma id_coord_1 (z x y : Z) : (coord (id_coord z x y) 1 == QofZ x)%Q.
Proof. exact (proj1 (proj2 (id_coord_values z x y))). Qed.

Lemma id_coord_2 (z x y : Z) : (coord (id_coord z x y) 2 == QofZ y)%Q.
Proof. exact (proj2 (proj2 (id_coord_values z x y))). Qed.

(** The values of one coordinate over a grid of points [c z x y], when that
    coordinate is the integer [pick z x y] and [pick] takes every value
    between 0 and [n - 1]. *)
Lemma coords_span (c : Z -> Z -> Z -> vec) (j : nat)
  (pick : Z -> Z -> Z -> Z) (d h w n : Z) :
  (forall z x y, (coord (c z x y) j == QofZ (pick z x y))%Q) ->
  (forall z x y, 0 <= z < d -> 0 <= x < h -> 0 <= y < w ->
                 0 <= pick z x y <= n - 1) ->
  (exists z x y, 0 <= z < d /\ 0 <= x < h /\ 0 <= y < w /\ pick z x y = 0) ->
  (exists z x y, 0 <= z < d /\ 0 <= x < h /\ 0 <= y < w /\
                 pick z x y = n - 1) ->
  spans (map (fun r => coord r j) (grid_flat (tabulate3 c d h w))) 0 (n - 1).
Proof.
  intros Hval Hrange (z0 & x0 & y0 & Hz0 & Hx0 & Hy0 & E0)
         (z1 & x1 & y1 & Hz1 & Hx1 & Hy1 & E1).
  unfold spans. split; [| split].
  - intros v Hv. apply in_map_iff in Hv as (r & <- & Hr).
    apply in_grid_flat_tabulate in Hr as (z & x & y & Hz & Hx & Hy & ->).
    exists (pick z x y). split; [now apply Hrange | apply Hval].
  - exists (coord (c z0 x0 y0) j). split.
    + apply in_map_iff. exists (c z0 x0 y0). split; [reflexivity |].
      apply in_grid_flat_tabulate. exists z0, x0, y0. auto.
    + rewrite Hval, E0. reflexivity.
  - exists (coord (c z1 x1 y1) j). split.
    + apply in_map_iff. exists (c z1 x1 y1). split; [reflexivity |].
      apply in_grid_flat_tabulate. exists z1, x1, y1. auto.
    + rewrite Hval, E1. reflexivity.
Qed.

Lemma id_coords_span (d h w : Z) :
  1 <= d -> 1 <= h -> 1 <= w ->
  spans (map (fun r => coord r 0) (grid_flat (tabulate3 id_coord d h w)))
        0 (d - 1) /\
  spans (map (fun r => coord r 1) (grid_flat (tabulate3 id_coord d h w)))
        0 (h - 1) /\
  spans (map (fun r => coord r 2) (grid_flat (tabulate3 id_coord d h w)))
        0 (w - 1).
Proof.
  intros Hd Hh Hw. split; [| split].
  - apply (@coords_span id_coord 0 (fun z _ _ => z) d h w d).
    + exact id_coord_0.
    + intros; lia.
    + exists 0, 0, 0. repeat split; lia.
    + exists (d - 1), 0, 0. repeat split; lia.
  - apply (@coords_span id_coord 1 (fun _ x _ => x) d h w h).
    + exact id_coord_1.
    + intros; lia.
    + exists 0, 0, 0. repeat split; lia.
    + exists 0, (h - 1), 0. repeat split; lia.
  - apply (@coords_span id_coord 2 (fun _ _ y => y) d h w w).
    + exact id_coord_2.
    + intros; lia.
    + exists 0, 0, 0. repeat split; lia.
    + exists 0, 0, (w - 1). repeat split; lia.
Qed.

(** ** The target stage under the identity *)

Lemma centering_offset_same (a b c : Z) :
  centering_offset [a; b; c] [a; b; c] = Ok [0; 0; 0].
Proof.
  unfold centering_offset. cbn [length Nat.eqb negb combine map fst snd].
  rewrite !Z.sub_diag. reflexivity.
Qed.

Lemma zlen_map_zrange {A : Type} (f : Z -> A) (n : Z) :
  0 <= n -> zlen (map f (zrange 0 n)) = n.
Proof.
  intros H. unfold zlen. rewrite length_map, zrange_length. lia.
Qed.

Lemma slice_all {A : Type} (l : list A) (n : Z) :
  zlen l = n -> slice l 0 (0 + n) = l.
Proof.
  intros H. unfold slice, slice_bound. rewrite H, Z.add_0_l.
  assert (Hn : 0 <= n) by (unfold zlen in H; lia).
  change (0 <? 0) with false. cbv iota.
  destruct (n <? 0) eqn:E; [lia |].
  rewrite (Z.min_l 0 n), Z.min_id, Z.sub_0_r by lia.
  change (Z.to_nat 0) with 0%nat. cbn [skipn].
  replace (Z.to_nat n) with (length l) by (unfold zlen in H; lia).
  apply firstn_all.
Qed.

Lemma crop_grid_tabulate {A : Type} (f : Z -> Z -> Z -> A) (d h w : Z) :
  0 <= d -> 0 <= h -> 0 <= w ->
  crop_grid [0; 0; 0] [d; h; w] (tabulate3 f d h w) = tabulate3 f d h w.
Proof.
  intros Hd Hh Hw. unfold crop_grid, crop_axis, tabulate3. cbn [nth].
  rewrite (slice_all _ (zlen_map_zrange _ Hd)).
  rewrite map_map. apply map_ext. intros z.
  rewrite (slice_all _ (zlen_map_zrange _ Hh)).
  rewrite map_map. apply map_ext. intros x.
  apply (slice_all _ (zlen_map_zrange _ Hw)).
Qed.

Lemma fits_tabulate {A : Type} (f : Z -> Z -> Z -> A) (d h w : Z) :
  0 <= d -> 0 <= h -> 0 <= w ->
  fits [d; h; w] (tabulate3 f d h w) = true.
Proof.
  intros Hd Hh Hw. unfold fits, tabulate3. cbn [nth].
  rewrite (zlen_map_zrange _ Hd), Z.eqb_refl, andb_true_r.
  apply forallb_forall. intros p Hp.
  apply in_map_iff in Hp as (z & <- & _).
  rewrite (zlen_map_zrange _ Hh), Z.eqb_refl, andb_true_r.
  apply forallb_forall. intros r Hr.
  apply in_map_iff in Hr as (x & <- & _).
  rewrite (zlen_map_zrange _ Hw). apply Z.eqb_refl.
Qed.

Lemma target_window_identity (D H W d h w : Z) :
  1 <= d < D -> 1 <= h < H -> 1 <= w < W ->
  target_window_of [D; H; W] [d; h; w] (tabulate3 id_coord d h w)
                   [D; H; W] [d; h; w]
  = Ok {| tw_coords := tabulate3 id_coord d h w; tw_lo := [0; 0; 0];
          tw_hi := [d; h; w]; tw_off := [0; 0; 0] |}.
Proof.
  intros Hd Hh Hw. unfold target_window_of.
  rewrite !centering_offset_same. cbn [bind].
  rewrite crop_grid_tabulate by lia.
  destruct (@id_coords_span d h w) as (S0 & S1 & S2); try lia.
  destruct (reduce_Qmin_spans S0) as (m0 & Em0 & Hm0).
  destruct (reduce_Qmin_spans S1) as (m1 & Em1 & Hm1).
  destruct (reduce_Qmin_spans S2) as (m2 & Em2 & Hm2).
  destruct (reduce_Qmax_spans S0) as (x0 & Ex0 & Hx0).
  destruct (reduce_Qmax_spans S1) as (x1 & Ex1 & Hx1).
  destruct (reduce_Qmax_spans S2) as (x2 & Ex2 & Hx2).
  unfold qmin_axis0, qmax_axis0. cbn [seq mapM].
  rewrite Em0, Em1, Em2. cbn [bind].
  rewrite Ex0, Ex1, Ex2. cbn [bind combine map fst snd].
  assert (Lo : forall m, (m == QofZ 0)%Q -> Qfloor (m - QofZ 0) = 0).
  { intros m E. apply Qfloor_eq_Z. rewrite E. reflexivity. }
  assert (Hi : forall m n, (m == QofZ (n - 1))%Q ->
                           Qceiling (m - QofZ 0 + 1) = n).
  { intros m n E.
    rewrite (@Qceiling1_eq_Z (m - QofZ 0) (n - 1)); [lia |].
    rewrite E. unfold QofZ. ring. }
  rewrite (Lo _ Hm0), (Lo _ Hm1), (Lo _ Hm2).
  rewrite (Hi _ _ Hx0), (Hi _ _ Hx1), (Hi _ _ Hx2).
  rewrite out_of_bounds_inside by lia. reflexivity.
Qed.

(** Under the identity every output voxel of the target stage holds the
    value of the target voxel with the same index, for discrete and for
    continuous channels. *)
Lemma warp_target_identity (tgt : Dataset) (Ct D H W d h w : Z)
  (td : option (list Z)) :
  shape tgt = [Ct; D; H; W] ->
  1 <= d < D -> 1 <= h < H -> 1 <= w < W ->
  exists target,
    warp_target [D; H; W] [d; h; w] identity (tabulate3 id_coord d h w)
                tgt (Some [d; h; w]) None td
    = Ok target /\
    arr4_eq target (read_region tgt [0; 0; 0] [d; h; w]).
Proof.
  intros Hsh Hd Hh Hw. unfold warp_target. rewrite Hsh. cbn [tl hd].
  rewrite target_window_identity by lia.
  cbn [bind tw_lo tw_hi tw_off tw_coords].
  change (map (fun h0 => h0 + 1) [d; h; w]) with [d + 1; h + 1; w + 1].
  rewrite (@read_region_prefix tgt Ct D H W (d + 1) (h + 1) (w + 1))
    by (auto; lia).
  rewrite (@read_region_prefix tgt Ct D H W d h w) by (auto; lia).
  rewrite resample_target_loop.
  change (map (fun p => QofZ (fst p + snd p)) (combine [0; 0; 0] [0; 0; 0]))
    with [0%Q; 0%Q; 0%Q].
  match goal with
  | |- context [mapM ?f (zrange 0 Ct)] =>
      destruct (@mapM_channels f
        (fun k => tabulate3 (fun z x y => read tgt [k; z; x; y]) d h w) Ct)
        as (out & Hout & Heq)
  end.
  { intros k Hk. rewrite (py_index_zrange _ Hk). cbn [bind].
    rewrite fits_tabulate by lia. cbn [negb].
    assert (Hc : forall z x y j,
      (coord (id_coord z x y) j - coord [0; 0; 0] j
       == coord (id_coord z x y) j)%Q).
    { intros z x y j.
      assert (E : coord [0; 0; 0]%Q j = 0%Q)
        by (destruct j as [| [| [| [| j]]]]; reflexivity).
      rewrite E. ring. }
    destruct (is_discrete td k).
    - apply gridM_tabulate. intros z x y Hz Hx Hy.
      apply (@nearest_at_grid_point (fun z x y => read tgt [k; z; x; y])
               (d + 1) (h + 1) (w + 1) _ _ z x y); try lia.
      + rewrite Hc. apply id_coord_0.
      + rewrite Hc. apply id_coord_1.
      + rewrite Hc. apply id_coord_2.
    - apply gridM_tabulate. intros z x y Hz Hx Hy.
      apply (@linear_at_grid_point (fun z x y => read tgt [k; z; x; y])
               (d + 1) (h + 1) (w + 1) _ _ z x y); try lia.
      + rewrite Hc. apply id_coord_0.
      + rewrite Hc. apply id_coord_1.
      + rewrite Hc. apply id_coord_2. }
  rewrite Hout. cbn [bind]. exists out. split; [reflexivity | exact Heq].
Qed.

(** C1, as the code has it: under the identity transform, with a patch
    that is smaller than the source by at least one voxel along every axis
    (the margin the bounding box keeps for linear interpolation),
    [warp_slice] returns the content of the source over the patch, voxel for
    voxel: for the input, which goes through the linear kernel, and for a
    target of the same extents, whose channels go through the nearest or the
    linear kernel.  With a patch as large as the source the call raises the
    out-of-bounds error instead: the upper corner of the box is the shape
    itself. *)
Theorem warp_slice_identity :
  forall inp tgt C Ct D H W d h w td ks,
    shape inp = [C; D; H; W] -> shape tgt = [Ct; D; H; W] ->
    1 <= d < D -> 1 <= h < H -> 1 <= w < W ->
    (exists inpv,
       warp_slice inp [d; h; w] identity None None None None false ks
       = Ok (inpv, None) /\
       arr4_eq inpv (read_region inp [0; 0; 0] [d; h; w]))
    /\
    (exists inpv target,
       warp_slice inp [d; h; w] identity (Some tgt) (Some [d; h; w])
                  None td false ks
       = Ok (inpv, Some target) /\
       arr4_eq inpv (read_region inp [0; 0; 0] [d; h; w]) /\
       arr4_eq target (read_region tgt [0; 0; 0] [d; h; w]))
    /\
    warp_slice inp [D; H; W] identity None None None None false ks
    = Raise (WarpingOOBError oob_msg).
Proof.
  intros inp tgt C Ct D H W d h w td ks Hsh Hsht Hd Hh Hw.
  destruct (@warp_primary_identity inp C D H W d h w ks Hsh Hd Hh Hw)
    as (inpv & Hp & Heq).
  destruct (@warp_target_identity tgt Ct D H W d h w td Hsht Hd Hh Hw)
    as (target & Ht & Hteq).
  split; [| split].
  - exists inpv. rewrite warp_slice_stages, Hp. split; [reflexivity | exact Heq].
  - exists inpv, target. rewrite warp_slice_stages, Hp. cbn [bind].
    rewrite Ht. split; [reflexivity | split; assumption].
  - assert (Hr : reaches_check inp [D; H; W] identity [D; H; W]
                   [0; 0; 0] [0 + D; 0 + H; 0 + W]).
    { apply (@translate_reaches_check inp C D H W D H W 0 0 0 Hsh); lia. }
    apply (warp_slice_oob None None None None false ks Hr).
    exists 0%nat. split; [lia |]. right. simpl. lia.
Qed.

(** A 2-channel volume of extents 3x3x3 and a 2x2x2 patch. *)
Lemma warp_slice_identity_witness :
  exists inpv target,
    warp_slice (ramp [2; 3; 3; 3]) [2; 2; 2] identity
               (Some (ramp [2; 3; 3; 3])) (Some [2; 2; 2])
               None (Some [1]) false (1 # 2)
    = Ok (inpv, Some target) /\
    arr4_eq inpv (read_region (ramp [2; 3; 3; 3]) [0; 0; 0] [2; 2; 2]) /\
    arr4_eq target (read_region (ramp [2; 3; 3; 3]) [0; 0; 0] [2; 2; 2]).
Proof.
  apply (proj1 (proj2 (@warp_slice_identity (ramp [2; 3; 3; 3])
                         (ramp [2; 3; 3; 3]) 2 2 3 3 3 2 2 2 (Some [1]) (1 # 2)
                         eq_refl eq_refl ltac:(lia) ltac:(lia) ltac:(lia)))).
Defined.

(** With the patch as large as the source the identity transform is out
    of bounds. *)
Lemma warp_slice_identity_full_shape :
  warp_slice (ramp [1; 2; 2; 2]) [2; 2; 2] identity
             None None None None false (1 # 2)
  = Raise (WarpingOOBError oob_msg).
Proof. vm_compute. reflexivity. Qed.

(* ================================================================== *)
(** * The other functions of the module *)

Lemma init_fields (M : matrix) (p : option vec) (an : Q) (T : Transform.t) :
  Transform.init M p an = Ok T ->
  exists Minv row3,
    inv M = Ok Minv /\ py_index M 3 = Ok row3 /\
    T = {| Transform.M := M; Transform.M_inv := Minv;
           Transform.position_l := p; Transform.aniso_factor := an;
           Transform.is_projective := negb (allclose0 (firstn 3 row3)) |}.
Proof.
  unfold Transform.init. intros H.
  apply bind_Ok in H. destruct H as (Minv & Hi & H).
  apply bind_Ok in H. destruct H as (row3 & Hr & H).
  injection H as <-. exists Minv, row3. auto.
Qed.

(** X1: A transform built by [Transform] from a 4x4 matrix, a position of
    three entries and an anisotropy factor is written by [to_array] as an
    array of 20 numbers, and [trafo_from_array] reads the same transform
    back from that array (lines 353-354, 390-394). *)
Theorem trafo_from_array_to_array :
  forall M p an T,
    is_shape 4 4 M = true -> length p = 3%nat ->
    Transform.init M (Some p) an = Ok T ->
    exists a,
      Transform.to_array T = map Some a /\ length a = 20%nat /\
      trafo_from_array a = Ok T.
Proof.
  intros M p an T HM Hp HT.
  destruct (is_shape_4_4 M HM)
    as (a00 & a01 & a02 & a03 & a10 & a11 & a12 & a13 &
        a20 & a21 & a22 & a23 & a30 & a31 & a32 & a33 & ->).
  destruct p as [| p0 [| p1 [| p2 [| ? ?]]]]; try discriminate.
  exists [a00; a01; a02; a03; a10; a11; a12; a13;
          a20; a21; a22; a23; a30; a31; a32; a33; p0; p1; p2; an].
  destruct (init_fields _ _ _ HT) as (Minv & row3 & _ & _ & HTe).
  split; [| split].
  - rewrite HTe. reflexivity.
  - reflexivity.
  - unfold trafo_from_array.
    change (slice _ 0 16) with
      [a00; a01; a02; a03; a10; a11; a12; a13;
       a20; a21; a22; a23; a30; a31; a32; a33].
    change (slice _ 16 19) with [p0; p1; p2].
    exact HT.
Qed.

Lemma reshape_Ok {A : Type} (r c : nat) (l : list A) (m : list (list A)) :
  reshape r c l = Ok m -> length l = (r * c)%nat /\ m = chunks r c l.
Proof.
  unfold reshape. destruct (Nat.eqb _ _) eqn:E; [| discriminate].
  apply Nat.eqb_eq in E. intros H. injection H as <-. auto.
Qed.

Lemma py_index_Ok {A : Type} (l : list A) (i : Z) (a : A) :
  0 <= i -> py_index l i = Ok a ->
  nth_error l (Z.to_nat i) = Some a /\ i < zlen l.
Proof.
  intros Hi. unfold py_index.
  destruct (i <? 0) eqn:E; [apply Z.ltb_lt in E; lia |].
  destruct ((0 <=? i) && (i <? zlen l)) eqn:E2; [| discriminate].
  apply andb_true_iff in E2. destruct E2 as [_ E2]. apply Z.ltb_lt in E2.
  destruct (nth_error l (Z.to_nat i)); [| discriminate].
  intros H. injection H as <-. auto.
Qed.

(** X2: Whenever [trafo_from_array] accepts an array, the array has at least
    20 entries and [to_array] of the result is its first 20 entries: what
    follows them is ignored (lines 390-394, 353-354). *)
Theorem to_array_trafo_from_array :
  forall a T,
    trafo_from_array a = Ok T ->
    (20 <= length a)%nat /\
    Transform.to_array T = map Some (firstn 20 a).
Proof.
  intros a T H. unfold trafo_from_array in H.
  apply bind_Ok in H. destruct H as (M & HM & H).
  apply bind_Ok in H. destruct H as (an & Han & H).
  apply py_index_Ok in Han; [| lia]. destruct Han as [Han Hlen].
  unfold zlen in Hlen.
  assert (Hl : (20 <= length a)%nat) by lia.
  split; [exact Hl |].
  do 20 (destruct a as [| ? a]; [simpl in Hl; lia |]).
  apply reshape_Ok in HM. destruct HM as [_ ->].
  destruct (init_fields _ _ _ H) as (Minv & row3 & _ & _ & ->).
  simpl in Han. injection Han as <-.
  unfold Transform.to_array. cbn [Transform.M Transform.position_l Transform.aniso_factor].
  unfold slice, slice_bound, zlen.
  cbn [length]. 
  repeat match goal with |- context [Z.of_nat (S ?n)] => rewrite (Nat2Z.inj_succ n) end.
  set (n := Z.of_nat (length a)).
  assert (Hn : 0 <= n) by (subst n; lia).
  replace (Z.min 16 _) with 16 by lia.
  replace (Z.min 19 _) with 19 by lia.
  replace (Z.min 0 _) with 0 by lia.
  reflexivity.
Qed.

Lemma Qeq_bool_false (a b : Q) : Qeq_bool a b = false -> ~ (a == b)%Q.
Proof. intros H E. apply Qeq_bool_iff in E. congruence. Qed.

Ltac entrywise :=
  repeat (first [apply Forall2_nil | apply Forall2_cons]).

(** The inverse of a 4x4 matrix, as [inv] computes it, is a two-sided
    inverse. *)
Lemma inv_4_4 (M N : matrix) :
  is_shape 4 4 M = true -> inv M = Ok N ->
  meq (dot N M) identity /\ meq (dot M N) identity /\ is_shape 4 4 N = true.
Proof.
  intros HM.
  destruct (is_shape_4_4 M HM)
    as (a00 & a01 & a02 & a03 & a10 & a11 & a12 & a13 &
        a20 & a21 & a22 & a23 & a30 & a31 & a32 & a33 & ->).
  unfold inv. cbn [length is_square is_shape forallb Nat.eqb negb andb].
  destruct (Qeq_bool _ 0) eqn:Hd; [discriminate |].
  apply Qeq_bool_false in Hd.
  intros H. injection H as <-.
  cbv [det minor remove_nth firstn skipn app map seq mget nth sign Nat.even
       qsum fold_left pred length Nat.add] in Hd |- *.
  unfold meq, veq, dot, identity, eye.
  cbv [column ncols map seq length vdot combine qsum fold_left fst snd nth
       Nat.eqb].
  split; [| split]; [| | reflexivity];
    entrywise;
    (field; intro E; apply Hd; etransitivity; [| exact E]; ring).
Qed.

Lemma meq_entry (A B : matrix) (i j : nat) :
  meq A B -> (mget A i j == mget B i j)%Q.
Proof.
  unfold mget. intros H. revert i.
  induction H as [| a b A' B' Hab _ IH]; intros i.
  - destruct i, j; reflexivity.
  - destruct i as [| i]; [| apply IH].
    simpl. clear IH. revert j.
    induction Hab as [| x y a' b' Hxy _ IH']; intros j.
    + destruct j; reflexivity.
    + destruct j as [| j]; [exact Hxy | apply IH'].
Qed.

Lemma allclose0_zero (z0 z1 z2 : Q) :
  (z0 == 0)%Q -> (z1 == 0)%Q -> (z2 == 0)%Q -> allclose0 [z0; z1; z2] = true.
Proof.
  intros H0 H1 H2. unfold allclose0. cbn [forallb].
  assert (Hz : forall z, (z == 0)%Q -> Qle_bool (Qabs z) (1 # 100000000) = true).
  { intros z Hz. apply Qle_bool_iff. rewrite Hz. discriminate. }
  rewrite !Hz by assumption. reflexivity.
Qed.

Lemma vdot3 (a b c x y z : Q) :
  (vdot [a; b; c] [x; y; z] == a * x + b * y + c * z)%Q.
Proof. unfold vdot, qsum. simpl. ring. Qed.

(** Entry [(i, j)] of an equation between 4x4 matrices, written out. *)
Ltac entry H i j :=
  let E := fresh "E" in
  pose proof (H i j) as E;
  cbv [mget dot identity eye column ncols map seq length vdot combine qsum
       fold_left fst snd nth Nat.eqb] in E.

(** The linear blocks of an affine 4x4 matrix and of its inverse are
    inverse to each other. *)
Lemma block3_inverse (a00 a01 a02 a03 a10 a11 a12 a13 a20 a21 a22 a23
                      z0 z1 z2 s : Q)
  (n00 n01 n02 n03 n10 n11 n12 n13 n20 n21 n22 n23 n30 n31 n32 n33 : Q) :
  let M := [ [a00; a01; a02; a03]; [a10; a11; a12; a13];
             [a20; a21; a22; a23]; [z0; z1; z2; s] ] in
  let N := [ [n00; n01; n02; n03]; [n10; n11; n12; n13];
             [n20; n21; n22; n23]; [n30; n31; n32; n33] ] in
  (z0 == 0)%Q -> (z1 == 0)%Q -> (z2 == 0)%Q ->
  meq (dot N M) identity -> meq (dot M N) identity ->
  forall v0 v1 v2 : Q,
    (n00 * (a00 * v0 + a01 * v1 + a02 * v2) +
     n01 * (a10 * v0 + a11 * v1 + a12 * v2) +
     n02 * (a20 * v0 + a21 * v1 + a22 * v2) == v0)%Q /\
    (n10 * (a00 * v0 + a01 * v1 + a02 * v2) +
     n11 * (a10 * v0 + a11 * v1 + a12 * v2) +
     n12 * (a20 * v0 + a21 * v1 + a22 * v2) == v1)%Q /\
    (n20 * (a00 * v0 + a01 * v1 + a02 * v2) +
     n21 * (a10 * v0 + a11 * v1 + a12 * v2) +
     n22 * (a20 * v0 + a21 * v1 + a22 * v2) == v2)%Q /\
    (a00 * (n00 * v0 + n01 * v1 + n02 * v2) +
     a01 * (n10 * v0 + n11 * v1 + n12 * v2) +
     a02 * (n20 * v0 + n21 * v1 + n22 * v2) == v0)%Q /\
    (a10 * (n00 * v0 + n01 * v1 + n02 * v2) +
     a11 * (n10 * v0 + n11 * v1 + n12 * v2) +
     a12 * (n20 * v0 + n21 * v1 + n22 * v2) == v1)%Q /\
    (a20 * (n00 * v0 + n01 * v1 + n02 * v2) +
     a21 * (n10 * v0 + n11 * v1 + n12 * v2) +
     a22 * (n20 * v0 + n21 * v1 + n22 * v2) == v2)%Q.
Proof.
  intros M N Hz0 Hz1 Hz2 HL HR v0 v1 v2.
  assert (L : forall i j, (mget (dot N M) i j == mget identity i j)%Q)
    by (intros; apply meq_entry; exact HL).
  assert (R : forall i j, (mget (dot M N) i j == mget identity i j)%Q)
    by (intros; apply meq_entry; exact HR).
  subst M N.
  entry L 0%nat 0%nat. entry L 0%nat 1%nat. entry L 0%nat 2%nat.
  entry L 1%nat 0%nat. entry L 1%nat 1%nat. entry L 1%nat 2%nat.
  entry L 2%nat 0%nat. entry L 2%nat 1%nat. entry L 2%nat 2%nat.
  rewrite Hz0 in E, E2, E5. rewrite Hz1 in E0, E3, E6. rewrite Hz2 in E1, E4, E7.
  assert (Hs : ~ (s == 0)%Q).
  { entry R 3%nat 3%nat. rewrite Hz0, Hz1, Hz2 in E8. intro Hs.
    rewrite Hs in E8. ring_simplify in E8. discriminate. }
  assert (Hn : (n30 == 0)%Q /\ (n31 == 0)%Q /\ (n32 == 0)%Q).
  { entry R 3%nat 0%nat. entry R 3%nat 1%nat. entry R 3%nat 2%nat.
    rewrite Hz0, Hz1, Hz2 in E8, E9, E10.
    repeat split.
    - apply (Qmult_integral_l s); [exact Hs |]. rewrite <- E8. ring.
    - apply (Qmult_integral_l s); [exact Hs |]. rewrite <- E9. ring.
    - apply (Qmult_integral_l s); [exact Hs |]. rewrite <- E10. ring. }
  destruct Hn as (Hn0 & Hn1 & Hn2).
  entry R 0%nat 0%nat. entry R 0%nat 1%nat. entry R 0%nat 2%nat.
  entry R 1%nat 0%nat. entry R 1%nat 1%nat. entry R 1%nat 2%nat.
  entry R 2%nat 0%nat. entry R 2%nat 1%nat. entry R 2%nat 2%nat.
  rewrite Hn0 in E8, E11, E14. rewrite Hn1 in E9, E12, E15.
  rewrite Hn2 in E10, E13, E16.
  repeat split.
  - transitivity (v0 * (0 + n00 * a00 + n01 * a10 + n02 * a20 + n03 * 0) +
                  v1 * (0 + n00 * a01 + n01 * a11 + n02 * a21 + n03 * 0) +
                  v2 * (0 + n00 * a02 + n01 * a12 + n02 * a22 + n03 * 0))%Q;
      [ring | rewrite E, E0, E1; ring].
  - transitivity (v0 * (0 + n10 * a00 + n11 * a10 + n12 * a20 + n13 * 0) +
                  v1 * (0 + n10 * a01 + n11 * a11 + n12 * a21 + n13 * 0) +
                  v2 * (0 + n10 * a02 + n11 * a12 + n12 * a22 + n13 * 0))%Q;
      [ring | rewrite E2, E3, E4; ring].
  - transitivity (v0 * (0 + n20 * a00 + n21 * a10 + n22 * a20 + n23 * 0) +
                  v1 * (0 + n20 * a01 + n21 * a11 + n22 * a21 + n23 * 0) +
                  v2 * (0 + n20 * a02 + n21 * a12 + n22 * a22 + n23 * 0))%Q;
      [ring | rewrite E5, E6, E7; ring].
  - transitivity (v0 * (0 + a00 * n00 + a01 * n10 + a02 * n20 + a03 * 0) +
                  v1 * (0 + a00 * n01 + a01 * n11 + a02 * n21 + a03 * 0) +
                  v2 * (0 + a00 * n02 + a01 * n12 + a02 * n22 + a03 * 0))%Q;
      [ring | rewrite E8, E9, E10; ring].
  - transitivity (v0 * (0 + a10 * n00 + a11 * n10 + a12 * n20 + a13 * 0) +
                  v1 * (0 + a10 * n01 + a11 * n11 + a12 * n21 + a13 * 0) +
                  v2 * (0 + a10 * n02 + a11 * n12 + a12 * n22 + a13 * 0))%Q;
      [ring | rewrite E11, E12, E13; ring].
  - transitivity (v0 * (0 + a20 * n00 + a21 * n10 + a22 * n20 + a23 * 0) +
                  v1 * (0 + a20 * n01 + a21 * n11 + a22 * n21 + a23 * 0) +
                  v2 * (0 + a20 * n02 + a21 * n12 + a22 * n22 + a23 * 0))%Q;
      [ring | rewrite E14, E15, E16; ring].
Qed.

Lemma is_shape_3 (v : vec) :
  length v = 3%nat -> exists a b c, v = [a; b; c].
Proof.
  destruct v as [| a [| b [| c [| ? ?]]]]; try discriminate. eauto.
Qed.

(** X3: For a transform of a 4x4 matrix whose bottom row starts with three
    zeros, [lab_coord2cnn_coord] followed by [cnn_coord2lab_coord] without
    offset gives every 3-vector back, and so does the other order (lines
    356-378). *)
Theorem Transform_coord_round_trip :
  forall M p an T v,
    is_shape 4 4 M = true ->
    (mget M 3 0 == 0)%Q -> (mget M 3 1 == 0)%Q -> (mget M 3 2 == 0)%Q ->
    Transform.init M p an = Ok T -> length v = 3%nat ->
    (exists c l,
       Transform.lab_coord2cnn_coord T (Vec1 v) = Ok (Vec1 c) /\
       Transform.cnn_coord2lab_coord T (Vec1 c) false = Ok (Vec1 l) /\
       veq l v)
    /\
    (exists l c,
       Transform.cnn_coord2lab_coord T (Vec1 v) false = Ok (Vec1 l) /\
       Transform.lab_coord2cnn_coord T (Vec1 l) = Ok (Vec1 c) /\
       veq c v).
Proof.
  intros M p an T v HM Hz0 Hz1 Hz2 HT Hv.
  destruct (init_fields _ _ _ HT) as (N & row3 & HN & Hrow & ->).
  destruct (inv_4_4 M HM HN) as (HL & HR & HNs).
  destruct (is_shape_4_4 M HM)
    as (a00 & a01 & a02 & a03 & a10 & a11 & a12 & a13 &
        a20 & a21 & a22 & a23 & z0 & z1 & z2 & s & ->).
  destruct (is_shape_4_4 N HNs)
    as (n00 & n01 & n02 & n03 & n10 & n11 & n12 & n13 &
        n20 & n21 & n22 & n23 & n30 & n31 & n32 & n33 & ->).
  destruct (is_shape_3 v Hv) as (v0 & v1 & v2 & ->).
  cbv [mget nth] in Hz0, Hz1, Hz2.
  cbv in Hrow. injection Hrow as <-.
  destruct (@block3_inverse a00 a01 a02 a03 a10 a11 a12 a13 a20 a21 a22 a23
              z0 z1 z2 s n00 n01 n02 n03 n10 n11 n12 n13 n20 n21 n22 n23
              n30 n31 n32 n33 Hz0 Hz1 Hz2 HL HR v0 v1 v2)
    as (B0 & B1 & B2 & B3 & B4 & B5).
  unfold Transform.lab_coord2cnn_coord, Transform.cnn_coord2lab_coord,
    Transform.M_lin, Transform.M_lin_inv.
  cbn [Transform.is_projective Transform.M Transform.M_inv firstn].
  rewrite (allclose0_zero Hz0 Hz1 Hz2).
  cbn [negb assert_ bind Transform.block3 firstn map dot_vec forallb length
       Nat.eqb andb].
  split.
  - eexists; eexists. split; [reflexivity |]. split; [reflexivity |].
    entrywise; rewrite !vdot3; assumption.
  - eexists; eexists. split; [reflexivity |]. split; [reflexivity |].
    entrywise; rewrite !vdot3; assumption.
Qed.

Lemma slice_length {A : Type} (l : list A) (a b : Z) :
  0 <= a <= b ->
  length (slice l a b) = Z.to_nat (Z.min b (zlen l) - Z.min a (zlen l)).
Proof.
  intros H. unfold slice, slice_bound.
  destruct (a <? 0) eqn:Ea; [apply Z.ltb_lt in Ea; lia |].
  destruct (b <? 0) eqn:Eb; [apply Z.ltb_lt in Eb; lia |].
  rewrite length_firstn, length_skipn. unfold zlen. lia.
Qed.

Lemma py_index_high {A : Type} (l : list A) (i : Z) :
  zlen l <= i -> py_index l i = Raise IndexError.
Proof.
  intros H. unfold py_index. unfold zlen in *.
  destruct (i <? 0) eqn:E; [apply Z.ltb_lt in E; lia |].
  destruct (i <? Z.of_nat (length l)) eqn:E2; [apply Z.ltb_lt in E2; lia |].
  rewrite andb_false_r. reflexivity.
Qed.

Lemma slice_prefix {A : Type} (l : list A) (b : Z) :
  0 <= b -> slice l 0 b = firstn (Z.to_nat b) l.
Proof.
  intros H. unfold slice, slice_bound. simpl (0 <? 0).
  destruct (b <? 0) eqn:Eb; [apply Z.ltb_lt in Eb; lia |].
  replace (Z.min 0 (zlen l)) with 0 by (unfold zlen; lia).
  rewrite Z.sub_0_r. simpl skipn.
  unfold zlen.
  destruct (Z.le_ge_cases b (Z.of_nat (length l))).
  - rewrite Z.min_l by lia. reflexivity.
  - rewrite Z.min_r by lia. rewrite Nat2Z.id.
    rewrite !firstn_all2 by lia. reflexivity.
Qed.

(** X4: [trafo_from_array] fails on fewer than 16 entries with the
    [ValueError] of [reshape], and on 16 to 19 entries with the
    [IndexError] of [a[19]], which is read before the matrix is inverted
    (lines 390-394). *)
Theorem trafo_from_array_errors :
  forall a,
    ((length a < 16)%nat ->
     trafo_from_array a = Raise (ValueError "cannot reshape array"))
    /\
    ((16 <= length a < 20)%nat -> trafo_from_array a = Raise IndexError).
Proof.
  intros a. unfold trafo_from_array.
  rewrite slice_prefix by lia. change (Z.to_nat 16) with 16%nat.
  split; intros H.
  - unfold reshape. rewrite length_firstn.
    replace (Nat.eqb _ _) with false; [reflexivity |].
    symmetry. apply Nat.eqb_neq. change (4 * 4)%nat with 16%nat. lia.
  - unfold reshape. rewrite length_firstn.
    replace (Nat.eqb _ _) with true
      by (symmetry; apply Nat.eqb_eq; change (4 * 4)%nat with 16%nat; lia).
    cbn [bind]. rewrite py_index_high by (unfold zlen; lia). reflexivity.
Qed.

Lemma trafo_from_array_errors_witness :
  trafo_from_array [1; 2; 3]%Q = Raise (ValueError "cannot reshape array") /\
  trafo_from_array (repeat 0%Q 17) = Raise IndexError.
Proof.
  split.
  - apply (proj1 (@trafo_from_array_errors [1; 2; 3]%Q)). simpl. lia.
  - apply (proj2 (@trafo_from_array_errors (repeat 0%Q 17))). simpl. lia.
Defined.

(** X6: On a projective transform the three coordinate methods fail with
    [AssertionError], and the properties [M_lin] and [M_lin_inv] raise
    [ValueError] (lines 339-351, 357, 367, 381). *)
Theorem Transform_projective_refused :
  forall (math : Math) T c b,
    Transform.is_projective T = true ->
    Transform.lab_coord2cnn_coord T c = Raise AssertionError /\
    Transform.cnn_coord2lab_coord T c b = Raise AssertionError /\
    cnn_pred2lab_position T c = Raise AssertionError /\
    Transform.M_lin T = Raise (ValueError Transform.projective_msg) /\
    Transform.M_lin_inv T = Raise (ValueError Transform.projective_msg).
Proof.
  intros math T c b H.
  unfold Transform.lab_coord2cnn_coord, Transform.cnn_coord2lab_coord,
    cnn_pred2lab_position, Transform.M_lin, Transform.M_lin_inv.
  rewrite H. repeat split; reflexivity.
Qed.

Lemma Transform_projective_refused_witness :
  match Transform.init
          [ [1; 0; 0; 0]; [0; 1; 0; 0]; [0; 0; 1; 0]; [1 # 10; 0; 0; 1] ]%Q
          None 2 with
  | Ok T =>
      Transform.lab_coord2cnn_coord T (Vec1 [1; 0; 0]%Q)
      = Raise AssertionError
  | Raise _ => False
  end.
Proof.
  destruct (Transform.init
              [ [1; 0; 0; 0]; [0; 1; 0; 0]; [0; 0; 1; 0]; [1 # 10; 0; 0; 1] ]%Q
              None 2) as [T | e] eqn:E.
  - apply (@Transform_projective_refused Coarse.coarse T (Vec1 [1; 0; 0]%Q)
             false).
    vm_compute in E. injection E as <-. reflexivity.
  - vm_compute in E. discriminate E.
Defined.

Lemma qsum_cons (x : Q) (l : list Q) : (qsum (x :: l) == x + qsum l)%Q.
Proof.
  unfold qsum. simpl.
  assert (H : forall l a, (fold_left Qplus l a == a + fold_left Qplus l 0)%Q).
  { clear. induction l as [| y l IH]; intros a; simpl.
    - ring.
    - rewrite (IH (a + y)%Q), (IH (0 + y)%Q). ring. }
  rewrite H. ring.
Qed.

Lemma sumsq_scale (k : Q) (l : list Q) :
  (sumsq (map (fun x => x / k) l) * (k * k) == sumsq l * (k / k) * (k / k))%Q.
Proof.
  unfold sumsq. induction l as [| x l IH].
  - unfold qsum. simpl. ring.
  - cbn [map]. rewrite !qsum_cons.
    rewrite !Qmult_plus_distr_l, IH. unfold Qdiv. ring.
Qed.

Lemma sumsq_unit (k : Q) (l : list Q) :
  (0 < k)%Q -> (k * k == sumsq l)%Q ->
  (sumsq (map (fun x => x / k) l) == 1)%Q.
Proof.
  intros Hk Hs.
  assert (Hk0 : ~ (k == 0)%Q) by (intro E; rewrite E in Hk; discriminate Hk).
  pose proof (sumsq_scale k l) as H.
  rewrite <- Hs in H.
  assert (Hkk : (k / k == 1)%Q) by (field; exact Hk0).
  rewrite Hkk in H.
  apply (Qmult_inj_r _ _ (k * k)).
  - intro E. apply Qmult_integral in E. tauto.
  - rewrite H. ring.
Qed.

Lemma coords_flat_map (f : Q -> Q) (c : coords) :
  coords_flat (coords_map (map f) c) = map f (coords_flat c).
Proof.
  destruct c as [v | rows]; simpl; [reflexivity |].
  rewrite concat_map. reflexivity.
Qed.

Lemma Qltb_lt (a b : Q) : Qltb a b = true -> (a < b)%Q.
Proof.
  unfold Qltb. intros H. apply negb_true_iff in H.
  apply Qnot_le_lt. intro Hle. apply Qle_bool_iff in Hle. congruence.
Qed.

(** X7: When [cnn_pred2lab_position] returns, the new position is
    [cnn_coord2lab_coord] of the prediction with the offset added, the
    norm of the direction scaled by [[aniso_factor, 1, 1]] is positive,
    and where the square root of that norm is exact the returned direction
    has the sum of squares 1 (lines 380-387). *)
Theorem cnn_pred2lab_position_spec :
  forall (math : Math) T c new_position_l tracing_direc_il,
    cnn_pred2lab_position T c = Ok (new_position_l, tracing_direc_il) ->
    Transform.cnn_coord2lab_coord T c true = Ok new_position_l /\
    exists l,
      Transform.cnn_coord2lab_coord T c false = Ok l /\
      let il :=
        coords_map
          (fun v => map (fun q => (fst q * snd q)%Q)
                        (combine v [Transform.aniso_factor T; 1; 1]%Q)) l in
      (0 < norm_all il)%Q /\
      ((norm_all il * norm_all il == sumsq (coords_flat il))%Q ->
       (sumsq (coords_flat tracing_direc_il) == 1)%Q).
Proof.
  intros math T c np dir H. unfold cnn_pred2lab_position in H.
  apply bind_Ok in H. destruct H as ([] & Ha & H).
  apply bind_Ok in H. destruct H as (l & Hl & H).
  apply bind_Ok in H. destruct H as (p & Hp & H).
  apply bind_Ok in H. destruct H as ([] & Hn & H).
  injection H as <- <-.
  assert (Hpos : (0 < norm_all
                        (coords_map
                           (fun v => map (fun q => (fst q * snd q)%Q)
                              (combine v [Transform.aniso_factor T; 1; 1]%Q))
                           l))%Q).
  { unfold assert_ in Hn. destruct (Qltb 0 _) eqn:E; [| discriminate].
    apply Qltb_lt. exact E. }
  split.
  - unfold Transform.cnn_coord2lab_coord in Hl |- *.
    apply bind_Ok in Hl. destruct Hl as ([] & Ha' & Hl).
    rewrite Ha'. cbn [bind].
    apply bind_Ok in Hl. destruct Hl as (l' & Hl' & Hl).
    injection Hl as <-. rewrite Hl'. cbn [bind]. rewrite Hp. reflexivity.
  - exists l. split; [exact Hl |]. cbv zeta. split; [exact Hpos |].
    intros Hs. rewrite coords_flat_map. apply sumsq_unit; assumption.
Qed.

Lemma cnn_pred2lab_position_witness :
  match Transform.init (scale 2 1 1) (Some [5; 6; 7]%Q) 2 with
  | Ok T =>
      match @cnn_pred2lab_position Coarse.coarse T (Vec1 [0; 3; 4]%Q) with
      | Ok (new_position_l, tracing_direc_il) =>
          Transform.cnn_coord2lab_coord T (Vec1 [0; 3; 4]%Q) true
          = Ok new_position_l /\
          (sumsq (coords_flat tracing_direc_il) == 1)%Q
      | Raise _ => False
      end
  | Raise _ => False
  end.
Proof.
  destruct (Transform.init (scale 2 1 1) (Some [5; 6; 7]%Q) 2)
    as [T | e] eqn:E; [| vm_compute in E; discriminate E].
  destruct (@cnn_pred2lab_position Coarse.coarse T (Vec1 [0; 3; 4]%Q))
    as [[np dir] | e] eqn:E2.
  - destruct (@cnn_pred2lab_position_spec Coarse.coarse T _ np dir E2)
      as (H1 & l & Hl & _ & H2).
    split; [exact H1 |]. apply H2.
    vm_compute in E. injection E as <-.
    vm_compute in Hl. injection Hl as <-.
    vm_compute. reflexivity.
  - vm_compute in E. injection E as <-. vm_compute in E2. discriminate E2.
Defined.

Lemma Transform_coord_round_trip_witness :
  match Transform.init
          [ [2; 0; 0; 1]; [0; 0; -1; 2]; [0; 1; 0; 3]; [0; 0; 0; 1] ]%Q
          None 2 with
  | Ok T =>
      exists c l,
        Transform.lab_coord2cnn_coord T (Vec1 [1; 2; 3]%Q) = Ok (Vec1 c) /\
        Transform.cnn_coord2lab_coord T (Vec1 c) false = Ok (Vec1 l) /\
        veq l [1; 2; 3]%Q
  | Raise _ => False
  end.
Proof.
  destruct (Transform.init
              [ [2; 0; 0; 1]; [0; 0; -1; 2]; [0; 1; 0; 3]; [0; 0; 0; 1] ]%Q
              None 2) as [T | e] eqn:E; [| vm_compute in E; discriminate E].
  apply (proj1 (@Transform_coord_round_trip
                  [ [2; 0; 0; 1]; [0; 0; -1; 2]; [0; 1; 0; 3]; [0; 0; 0; 1] ]%Q
                  None 2 T [1; 2; 3]%Q
                  eq_refl ltac:(reflexivity) ltac:(reflexivity)
                  ltac:(reflexivity) E eq_refl)).
Defined.

Lemma trafo_from_array_to_array_witness :
  match Transform.init (translate 1 2 3) (Some [5; 6; 7]%Q) 2 with
  | Ok T =>
      exists a,
        Transform.to_array T = map Some a /\ length a = 20%nat /\
        trafo_from_array a = Ok T
  | Raise _ => False
  end.
Proof.
  destruct (Transform.init (translate 1 2 3) (Some [5; 6; 7]%Q) 2)
    as [T | e] eqn:E; [| vm_compute in E; discriminate E].
  exact (@trafo_from_array_to_array (translate 1 2 3) [5; 6; 7]%Q 2 T
           eq_refl eq_refl E).
Defined.

Lemma to_array_trafo_from_array_witness :
  match trafo_from_array
          [1; 0; 0; 1; 0; 1; 0; 2; 0; 0; 1; 3; 0; 0; 0; 1; 5; 6; 7; 2; 9]%Q
  with
  | Ok T =>
      Transform.to_array T
      = map Some
          [1; 0; 0; 1; 0; 1; 0; 2; 0; 0; 1; 3; 0; 0; 0; 1; 5; 6; 7; 2]%Q
  | Raise _ => False
  end.
Proof.
  destruct (trafo_from_array
              [1; 0; 0; 1; 0; 1; 0; 2; 0; 0; 1; 3; 0; 0; 0; 1; 5; 6; 7; 2; 9]%Q)
    as [T | e] eqn:E; [| vm_compute in E; discriminate E].
  exact (proj2 (@to_array_trafo_from_array _ T E)).
Defined.

Lemma forallb_length3 (rows : list vec) :
  Forall (fun r => length r = 3%nat) rows ->
  forallb (fun r => Nat.eqb (length r) 3) rows = true.
Proof.
  intros H. apply forallb_forall. intros r Hr.
  rewrite Forall_forall in H. apply Nat.eqb_eq. auto.
Qed.

Lemma Forall2_map_r {A B : Type} (R : A -> B -> Prop) (f : A -> B)
  (l : list A) :
  Forall (fun a => R a (f a)) l -> Forall2 R l (map f l).
Proof. induction 1; simpl; constructor; auto. Qed.

(** X8: On an [(n, 3)] array the two coordinate maps of a non-projective
    transform act row by row: each row of the result is what the method
    returns for that row given as a single vector (lines 356-378). *)
Theorem Transform_rows_agree :
  forall M p an T rows,
    is_shape 4 4 M = true -> Transform.init M p an = Ok T ->
    Transform.is_projective T = false ->
    Forall (fun r => length r = 3%nat) rows ->
    (exists out,
       Transform.lab_coord2cnn_coord T (Vec2 rows) = Ok (Vec2 out) /\
       Forall2 (fun r o =>
                  exists c,
                    Transform.lab_coord2cnn_coord T (Vec1 r) = Ok (Vec1 c) /\
                    veq o c) rows out)
    /\
    (exists out,
       Transform.cnn_coord2lab_coord T (Vec2 rows) false = Ok (Vec2 out) /\
       Forall2 (fun r o =>
                  exists l,
                    Transform.cnn_coord2lab_coord T (Vec1 r) false
                    = Ok (Vec1 l) /\
                    veq o l) rows out).
Proof.
  intros M p an T rows HM HT Hproj Hrows.
  destruct (init_fields _ _ _ HT) as (N & row3 & HN & Hrow & HTe).
  destruct (inv_4_4 M HM HN) as (_ & _ & HNs).
  destruct (is_shape_4_4 M HM)
    as (a00 & a01 & a02 & a03 & a10 & a11 & a12 & a13 &
        a20 & a21 & a22 & a23 & a30 & a31 & a32 & a33 & ->).
  destruct (is_shape_4_4 N HNs)
    as (n00 & n01 & n02 & n03 & n10 & n11 & n12 & n13 &
        n20 & n21 & n22 & n23 & n30 & n31 & n32 & n33 & ->).
  unfold Transform.lab_coord2cnn_coord, Transform.cnn_coord2lab_coord,
    Transform.M_lin, Transform.M_lin_inv.
  rewrite Hproj. rewrite (forallb_length3 Hrows).
  rewrite HTe. cbn [Transform.M Transform.M_inv].
  cbn [negb assert_ bind Transform.block3 firstn map].
  split.
  - eexists. split; [reflexivity |].
    unfold dot. apply Forall2_map_r.
    rewrite Forall_forall in Hrows |- *. intros r Hr.
    destruct (is_shape_3 r (Hrows r Hr)) as (x & y & z & ->).
    eexists. split; [reflexivity |].
    cbv [transpose column ncols map seq length nth].
    entrywise; rewrite !vdot3; ring.
  - eexists. split; [reflexivity |].
    unfold dot. apply Forall2_map_r.
    rewrite Forall_forall in Hrows |- *. intros r Hr.
    destruct (is_shape_3 r (Hrows r Hr)) as (x & y & z & ->).
    eexists. split; [reflexivity |].
    cbv [transpose column ncols map seq length nth].
    entrywise; rewrite !vdot3; ring.
Qed.

Lemma Transform_rows_agree_witness :
  match Transform.init (scale 2 1 1) None 2 with
  | Ok T =>
      exists out,
        Transform.lab_coord2cnn_coord T (Vec2 [ [1; 2; 3]; [4; 5; 6] ]%Q)
        = Ok (Vec2 out) /\
        Forall2 (fun r o =>
                   exists c,
                     Transform.lab_coord2cnn_coord T (Vec1 r) = Ok (Vec1 c) /\
                     veq o c) [ [1; 2; 3]; [4; 5; 6] ]%Q out
  | Raise _ => False
  end.
Proof.
  destruct (Transform.init (scale 2 1 1) None 2) as [T | e] eqn:E;
    [| vm_compute in E; discriminate E].
  assert (Hp : Transform.is_projective T = false)
    by (vm_compute in E; injection E as <-; reflexivity).
  apply (proj1 (@Transform_rows_agree (scale 2 1 1) None 2 T
                  [ [1; 2; 3]; [4; 5; 6] ]%Q eq_refl E Hp
                  ltac:(repeat constructor))).
Defined.

(** ** Slices, pads and lookups *)

Lemma slice_inside {A : Type} (l : list A) (a b : Z) :
  0 <= a <= b -> b <= zlen l ->
  length (slice l a b) = Z.to_nat (b - a) /\
  forall i, (i < Z.to_nat (b - a))%nat ->
            nth_error (slice l a b) i = nth_error l (Z.to_nat a + i).
Proof.
  intros Hab Hb. unfold slice, slice_bound.
  destruct (a <? 0) eqn:Ea; [apply Z.ltb_lt in Ea; lia |].
  destruct (b <? 0) eqn:Eb; [apply Z.ltb_lt in Eb; lia |].
  rewrite !Z.min_l by lia. unfold zlen in Hb.
  split.
  - rewrite length_firstn, length_skipn. lia.
  - intros i Hi. rewrite nth_error_firstn.
    destruct (Nat.ltb i (Z.to_nat (b - a))) eqn:E;
      [| apply Nat.ltb_ge in E; lia].
    apply nth_error_skipn.
Qed.

Lemma nth_error_repeat {A : Type} (x : A) (n i : nat) :
  nth_error (repeat x n) i = if Nat.ltb i n then Some x else None.
Proof.
  revert i. induction n as [| n IH]; intros [| i]; simpl; auto.
Qed.

Lemma pad_constant_length {A : Type} (fill : A) (w : Z * Z) (l : list A) :
  length (pad_constant fill w l)
  = (Z.to_nat (fst w) + length l + Z.to_nat (snd w))%nat.
Proof. unfold pad_constant. rewrite !length_app, !repeat_length. lia. Qed.

Lemma pad_constant_nth {A : Type} (fill : A) (w : Z * Z) (l : list A)
  (i : nat) :
  nth_error (pad_constant fill w l) i =
  if Nat.ltb i (Z.to_nat (fst w)) then Some fill
  else if Nat.ltb i (Z.to_nat (fst w) + length l)
       then nth_error l (i - Z.to_nat (fst w))
       else if Nat.ltb i (Z.to_nat (fst w) + length l + Z.to_nat (snd w))
            then Some fill else None.
Proof.
  unfold pad_constant.
  destruct (Nat.ltb i (Z.to_nat (fst w))) eqn:E1.
  - apply Nat.ltb_lt in E1.
    rewrite nth_error_app1 by (rewrite repeat_length; lia).
    rewrite nth_error_repeat.
    destruct (Nat.ltb i (Z.to_nat (fst w))) eqn:E; [reflexivity |].
    apply Nat.ltb_ge in E. lia.
  - apply Nat.ltb_ge in E1.
    rewrite nth_error_app2 by (rewrite repeat_length; lia).
    rewrite repeat_length.
    destruct (Nat.ltb i (Z.to_nat (fst w) + length l)) eqn:E2.
    + apply Nat.ltb_lt in E2. rewrite nth_error_app1 by lia. reflexivity.
    + apply Nat.ltb_ge in E2. rewrite nth_error_app2 by lia.
      rewrite nth_error_repeat.
      destruct (Nat.ltb i _) eqn:E3.
      * apply Nat.ltb_lt in E3.
        destruct (Nat.ltb _ (Z.to_nat (snd w))) eqn:E4; [reflexivity |].
        apply Nat.ltb_ge in E4. lia.
      * apply Nat.ltb_ge in E3.
        destruct (Nat.ltb _ (Z.to_nat (snd w))) eqn:E4; [| reflexivity].
        apply Nat.ltb_lt in E4. lia.
Qed.

Lemma sym_index_range (n q : Z) : 0 < n -> 0 <= sym_index n q < n.
Proof.
  intros Hn. unfold sym_index.
  pose proof (Z.mod_pos_bound q (2 * n) ltac:(lia)) as Hm.
  destruct (q mod (2 * n) <? n) eqn:E.
  - apply Z.ltb_lt in E. lia.
  - apply Z.ltb_ge in E. lia.
Qed.

Lemma sym_index_inside (n q : Z) : 0 <= q < n -> sym_index n q = q.
Proof.
  intros H. unfold sym_index. rewrite Z.mod_small by lia.
  destruct (q <? n) eqn:E; [reflexivity | apply Z.ltb_ge in E; lia].
Qed.

Lemma flat_map_singleton {A B : Type} (f : A -> B) (l : list A) :
  flat_map (fun a => [f a]) l = map f l.
Proof. induction l; simpl; congruence. Qed.

Lemma flat_map_ext_in {A B : Type} (f g : A -> list B) (l : list A) :
  (forall a, In a l -> f a = g a) -> flat_map f l = flat_map g l.
Proof.
  induction l as [| a l IH]; intros H; simpl; [reflexivity |].
  rewrite H by (left; reflexivity). rewrite IH; [reflexivity |].
  intros; apply H; right; assumption.
Qed.

(** Mirroring a non-empty axis: every position is filled, with the
    entry at its mirror index. *)
Lemma pad_symmetric_spec {A : Type} (w : Z * Z) (l : list A) (d : A) :
  l <> [] -> 0 <= fst w -> 0 <= snd w ->
  pad_symmetric w l
  = map (fun p => nth (Z.to_nat (sym_index (zlen l) (p - fst w))) l d)
        (zrange 0 (fst w + zlen l + snd w)).
Proof.
  intros Hl Hw0 Hw1. unfold pad_symmetric.
  rewrite <- flat_map_singleton. apply flat_map_ext_in.
  intros p _.
  assert (Hn : 0 < zlen l).
  { unfold zlen. destruct l; [congruence | simpl; lia]. }
  pose proof (sym_index_range (p - fst w) Hn) as Hr.
  destruct (nth_error l _) eqn:E.
  - f_equal. symmetry. apply nth_error_nth. exact E.
  - apply nth_error_None in E. unfold zlen in *. lia.
Qed.

Lemma pad_symmetric_length {A : Type} (w : Z * Z) (l : list A) :
  l <> [] -> 0 <= fst w -> 0 <= snd w ->
  zlen (pad_symmetric w l) = fst w + zlen l + snd w.
Proof.
  intros Hl Hw0 Hw1. destruct l as [| d l']; [congruence |].
  rewrite (pad_symmetric_spec _ d Hl Hw0 Hw1).
  unfold zlen at 1. rewrite length_map, zrange_length. unfold zlen. lia.
Qed.

Lemma pad_symmetric_nth {A : Type} (w : Z * Z) (l : list A) (i : nat) :
  l <> [] -> 0 <= fst w -> 0 <= snd w ->
  Z.of_nat i < fst w + zlen l + snd w ->
  nth_error (pad_symmetric w l) i
  = nth_error l (Z.to_nat (sym_index (zlen l) (Z.of_nat i - fst w))).
Proof.
  intros Hl Hw0 Hw1 Hi. destruct l as [| d l'] eqn:El; [congruence |].
  rewrite <- El in *.
  rewrite (pad_symmetric_spec _ d Hl Hw0 Hw1).
  rewrite nth_error_map, nth_error_zrange by lia. cbn [option_map].
  rewrite Z.add_0_l.
  assert (Hn : 0 < zlen l) by (unfold zlen; rewrite El; simpl; lia).
  pose proof (sym_index_range (Z.of_nat i - fst w) Hn) as Hr.
  symmetry. apply nth_error_nth'. unfold zlen in *. lia.
Qed.

Lemma pad_widths (p s : Z) :
  pad_before p s + pad_after p s = p - s /\
  0 <= pad_before p s - pad_after p s <= 1 /\
  (s <= p -> 0 <= pad_after p s) /\
  (p < s -> pad_after p s < 0) /\
  pad_after p s = (p - s) / 2.
Proof.
  unfold pad_before, pad_after.
  assert (Hf : Qfloor (QofZ (p - s) / 2) = (p - s) / 2).
  { unfold QofZ. 
    replace (inject_Z (p - s) / 2)%Q with ((p - s) # 2)%Q.
    - unfold Qfloor. reflexivity.
    - unfold Qdiv, Qmult, Qinv, inject_Z. simpl. rewrite Z.mul_1_r. reflexivity. }
  assert (Hc : Qceiling (QofZ (p - s) / 2) = - ((- (p - s)) / 2)).
  { unfold Qceiling. f_equal. unfold QofZ.
    replace (- (inject_Z (p - s) / 2))%Q with ((- (p - s)) # 2)%Q.
    - unfold Qfloor. reflexivity.
    - unfold Qdiv, Qmult, Qinv, Qopp, inject_Z. simpl.
      rewrite Z.mul_1_r. reflexivity. }
  rewrite Hf, Hc.
  pose proof (Z.div_mod (p - s) 2 ltac:(lia)).
  pose proof (Z.mod_pos_bound (p - s) 2 ltac:(lia)).
  pose proof (Z.div_mod (- (p - s)) 2 ltac:(lia)).
  pose proof (Z.mod_pos_bound (- (p - s)) 2 ltac:(lia)).
  repeat split; lia.
Qed.

Lemma fits_spec {A : Type} (D H W : Z) (g : list (list (list A))) :
  fits [D; H; W] g = true <->
  zlen g = D /\
  Forall (fun p => zlen p = H /\ Forall (fun r => zlen r = W) p) g.
Proof.
  unfold fits. cbn [nth]. rewrite andb_true_iff, forallb_forall, Z.eqb_eq.
  rewrite Forall_forall. split.
  - intros [Hf Hl]. split; [exact Hl |]. intros p Hp.
    specialize (Hf p Hp). apply andb_true_iff in Hf. destruct Hf as [Hr Hp'].
    apply Z.eqb_eq in Hp'. split; [exact Hp' |].
    rewrite forallb_forall in Hr. apply Forall_forall. intros r Hr'.
    apply Z.eqb_eq. auto.
  - intros [Hl Hf]. split; [| exact Hl]. intros p Hp.
    destruct (Hf p Hp) as [Hp' Hr]. apply andb_true_iff. split.
    + apply forallb_forall. intros r Hr'. rewrite Forall_forall in Hr.
      apply Z.eqb_eq. auto.
    + apply Z.eqb_eq. exact Hp'.
Qed.

Lemma fits4_spec (C D H W : Z) (a : arr4) :
  fits4 [C; D; H; W] a = true <->
  zlen a = C /\ Forall (fun ch => fits [D; H; W] ch = true) a.
Proof.
  unfold fits4. cbn [nth tl]. rewrite andb_true_iff, Z.eqb_eq, forallb_forall.
  rewrite Forall_forall. tauto.
Qed.

Lemma shape4_fits (C D H W : Z) (a : arr4) :
  fits4 [C; D; H; W] a = true -> 0 < C -> 0 < D -> 0 < H ->
  shape4 a = [C; D; H; W].
Proof.
  intros Hf HC HD HH. apply fits4_spec in Hf. destruct Hf as [Hl Hf].
  unfold shape4.
  destruct a as [| ch a']; [unfold zlen in Hl; simpl in Hl; lia |].
  inversion Hf as [| ? ? Hch _]; subst. apply fits_spec in Hch.
  destruct Hch as [Hlc Hch]. cbn [hd].
  destruct ch as [| p ch']; [unfold zlen in Hlc; simpl in Hlc; lia |].
  inversion Hch as [| ? ? [Hlp Hp] _]; subst. cbn [hd].
  destruct p as [| r p']; [unfold zlen in HH; simpl in HH; lia |].
  inversion Hp as [| ? ? Hr _]; subst. cbn [hd]. 
  reflexivity.
Qed.

Lemma nth_error_map_slice {A B : Type} (f : A -> B) (l : list A)
  (a n : Z) (i : nat) :
  0 <= a -> 0 <= n -> a + n <= zlen l -> Z.of_nat i < n ->
  nth_error (map f (slice l a (a + n))) i
  = option_map f (nth_error l (Z.to_nat a + i)).
Proof.
  intros Ha Hn Hl Hi. rewrite nth_error_map.
  destruct (@slice_inside A l a (a + n) ltac:(lia) Hl) as [_ Hs].
  rewrite Hs by lia. reflexivity.
Qed.

Lemma length_map_slice {A B : Type} (f : A -> B) (l : list A) (a n : Z) :
  0 <= a -> 0 <= n -> a + n <= zlen l ->
  zlen (map f (slice l a (a + n))) = n.
Proof.
  intros Ha Hn Hl. unfold zlen at 1. rewrite length_map.
  destruct (@slice_inside A l a (a + n) ltac:(lia) Hl) as [Hs _].
  rewrite Hs. lia.
Qed.

Lemma In_firstn {A : Type} (n : nat) (l : list A) (x : A) :
  In x (firstn n l) -> In x l.
Proof.
  revert l. induction n as [| n IH]; intros [| a l] H; simpl in *; try tauto.
  destruct H as [H | H]; [left; exact H | right; apply IH; exact H].
Qed.

Lemma In_skipn {A : Type} (n : nat) (l : list A) (x : A) :
  In x (skipn n l) -> In x l.
Proof.
  revert l. induction n as [| n IH]; intros [| a l] H; simpl in *; try tauto.
  right. apply IH. exact H.
Qed.

Lemma In_slice {A : Type} (l : list A) (a b : Z) (x : A) :
  In x (slice l a b) -> In x l.
Proof.
  unfold slice. intros H. apply In_firstn in H.
  apply (In_skipn _ _ _ H).
Qed.

Lemma py_index_3 {A : Type} (a b c : A) :
  py_index [a; b; c] 0 = Ok a /\ py_index [a; b; c] 1 = Ok b /\
  py_index [a; b; c] 2 = Ok c.
Proof. repeat split; reflexivity. Qed.

Lemma treat_array_crop :
  forall data C D H W d h w,
    fits4 [C; D; H; W] data = true ->
    0 < C -> 0 < D -> 0 < H -> 0 < W ->
    0 <= d <= D -> 0 <= h <= H -> 0 <= w <= W ->
    exists out,
      treat_array [d; h; w] "crop" 3 data = Ok out /\
      fits4 [C; d; h; w] out = true /\
      forall c z y x,
        Z.of_nat z < d -> Z.of_nat y < h -> Z.of_nat x < w ->
        voxel4 out c z y x
        = voxel4 data c (Z.to_nat ((D - d) / 2) + z)
                        (Z.to_nat ((H - h) / 2) + y)
                        (Z.to_nat ((W - w) / 2) + x).
Proof.
  intros data C D H W d h w Hf HC HD HH HW Hd Hh Hw.
  unfold treat_array. cbn [String.eqb Ascii.eqb Bool.eqb].
  rewrite (@shape4_fits C D H W data Hf HC HD HH). cbn [tl combine map fst snd].
  cbn [py_index zlen length Z.of_nat Z.ltb Z.leb Z.compare andb Z.to_nat
       nth_error Pos.to_nat Pos.iter_op Nat.add bind Z.eqb Pos.eqb
       Pos.of_succ_nat Pos.succ Pos.compare Pos.compare_cont].
  eexists. split; [reflexivity |].
  set (e0 := (D - d) / 2). set (e1 := (H - h) / 2). set (e2 := (W - w) / 2).
  assert (He0 : 0 <= e0 /\ e0 + d <= D).
  { subst e0. pose proof (Z.div_mod (D - d) 2 ltac:(lia)).
    pose proof (Z.mod_pos_bound (D - d) 2 ltac:(lia)). lia. }
  assert (He1 : 0 <= e1 /\ e1 + h <= H).
  { subst e1. pose proof (Z.div_mod (H - h) 2 ltac:(lia)).
    pose proof (Z.mod_pos_bound (H - h) 2 ltac:(lia)). lia. }
  assert (He2 : 0 <= e2 /\ e2 + w <= W).
  { subst e2. pose proof (Z.div_mod (W - w) 2 ltac:(lia)).
    pose proof (Z.mod_pos_bound (W - w) 2 ltac:(lia)). lia. }
  apply fits4_spec in Hf. destruct Hf as [Hlen Hch].
  rewrite Forall_forall in Hch.
  split.
  - apply fits4_spec. unfold crop3. split.
    + unfold zlen. rewrite length_map. exact Hlen.
    + apply Forall_forall. intros ch' Hin. apply in_map_iff in Hin.
      destruct Hin as (ch & <- & Hin).
      pose proof (proj1 (@fits_spec _ _ _ _ _) (Hch ch Hin)) as [Hlc Hp].
      rewrite Forall_forall in Hp.
      apply fits_spec. split.
      * apply length_map_slice; lia.
      * apply Forall_forall. intros p' Hin'. apply in_map_iff in Hin'.
        destruct Hin' as (p & <- & Hin'). apply In_slice in Hin'.
        destruct (Hp p Hin') as [Hlp Hr]. rewrite Forall_forall in Hr.
        split.
        -- apply length_map_slice; lia.
        -- apply Forall_forall. intros r' Hin''. apply in_map_iff in Hin''.
           destruct Hin'' as (r & <- & Hin''). apply In_slice in Hin''.
           specialize (Hr r Hin'').
           rewrite <- (map_id (slice r e2 (e2 + w))).
           apply length_map_slice; lia.
  - intros c z y x Hz Hy Hx. unfold voxel4, crop3.
    rewrite nth_error_map.
    unfold arr4, arr3 in *.
    destruct (nth_error data c) as [ch |] eqn:Ec; [| reflexivity].
    cbn [option_map].
    pose proof (proj1 (@fits_spec _ _ _ _ _) (Hch ch (nth_error_In _ _ Ec)))
      as [Hlc Hp].
    rewrite Forall_forall in Hp.
    unfold voxel.
    rewrite nth_error_map_slice by lia.
    destruct (nth_error ch (Z.to_nat e0 + z)) as [p |] eqn:Ep; [| reflexivity].
    cbn [option_map].
    destruct (Hp p (nth_error_In _ _ Ep)) as [Hlp Hr].
    rewrite Forall_forall in Hr.
    rewrite nth_error_map_slice by lia.
    destruct (nth_error p (Z.to_nat e1 + y)) as [r |] eqn:Er; [| reflexivity].
    cbn [option_map].
    specialize (Hr r (nth_error_In _ _ Er)).
    destruct (@slice_inside Q r e2 (e2 + w) ltac:(lia) ltac:(lia)) as [_ Hs].
    apply Hs. lia.
Qed.

Lemma nonempty_zlen {A : Type} (l : list A) : 0 < zlen l -> l <> [].
Proof. intros H E. subst l. unfold zlen in H. simpl in H. lia. Qed.

Lemma zlen_map {A B : Type} (f : A -> B) (l : list A) :
  zlen (map f l) = zlen l.
Proof. unfold zlen. rewrite length_map. reflexivity. Qed.

Lemma pad_symmetric_map_nth {A B : Type} (f : A -> B) (w : Z * Z)
  (l : list A) (i : nat) :
  0 < zlen l -> 0 <= fst w -> 0 <= snd w ->
  Z.of_nat i < fst w + zlen l + snd w ->
  nth_error (pad_symmetric w (map f l)) i
  = option_map f
      (nth_error l (Z.to_nat (sym_index (zlen l) (Z.of_nat i - fst w)))).
Proof.
  intros Hl Hw0 Hw1 Hi.
  rewrite pad_symmetric_nth; rewrite ?zlen_map; try assumption.
  - apply nth_error_map.
  - apply nonempty_zlen. rewrite zlen_map. exact Hl.
Qed.

Lemma In_pad_symmetric {A : Type} (w : Z * Z) (l : list A) (x : A) :
  In x (pad_symmetric w l) -> In x l.
Proof.
  unfold pad_symmetric. intros H. apply in_flat_map in H.
  destruct H as (p & _ & H).
  destruct (nth_error l _) eqn:E; [| destruct H].
  destruct H as [<- | []]. apply (nth_error_In _ _ E).
Qed.

Lemma pad_symmetric_map_length {A B : Type} (f : A -> B) (w : Z * Z)
  (l : list A) :
  0 < zlen l -> 0 <= fst w -> 0 <= snd w ->
  zlen (pad_symmetric w (map f l)) = fst w + zlen l + snd w.
Proof.
  intros Hl Hw0 Hw1. rewrite pad_symmetric_length; rewrite ?zlen_map; auto.
  apply nonempty_zlen. rewrite zlen_map. exact Hl.
Qed.

Lemma pad_symmetric_length' {A : Type} (w : Z * Z) (l : list A) :
  0 < zlen l -> 0 <= fst w -> 0 <= snd w ->
  zlen (pad_symmetric w l) = fst w + zlen l + snd w.
Proof.
  intros Hl Hw0 Hw1. apply pad_symmetric_length; auto.
  apply nonempty_zlen. exact Hl.
Qed.

Ltac pyix :=
  cbn [py_index zlen length Z.of_nat Z.ltb Z.leb Z.compare andb Z.to_nat
       nth_error Pos.to_nat Pos.iter_op Nat.add bind Z.eqb Pos.eqb
       Pos.of_succ_nat Pos.succ Pos.compare Pos.compare_cont].

Lemma treat_array_mirror :
  forall data C D H W d h w,
    fits4 [C; D; H; W] data = true ->
    0 < C -> 0 < D -> 0 < H -> 0 < W ->
    D <= d -> H <= h -> W <= w ->
    exists out,
      treat_array [d; h; w] "mirror" 3 data = Ok out /\
      fits4 [C; d; h; w] out = true /\
      forall c z y x,
        Z.of_nat c < C ->
        Z.of_nat z < d -> Z.of_nat y < h -> Z.of_nat x < w ->
        voxel4 out c z y x
        = voxel4 data c
            (Z.to_nat (sym_index D (Z.of_nat z - pad_before d D)))
            (Z.to_nat (sym_index H (Z.of_nat y - pad_before h H)))
            (Z.to_nat (sym_index W (Z.of_nat x - pad_before w W))).
Proof.
  intros data C D H W d h w Hf HC HD HH HW Hd Hh Hw.
  unfold treat_array. cbn [String.eqb Ascii.eqb Bool.eqb].
  rewrite (@shape4_fits C D H W data Hf HC HD HH).
  cbn [tl combine map fst snd]. cbn [Z.eqb Pos.eqb].
  fold (pad_before d D) (pad_after d D) (pad_before h H) (pad_after h H)
       (pad_before w W) (pad_after w W).
  destruct (pad_widths d D) as (Sd & Bd & Ad & _ & _).
  destruct (pad_widths h H) as (Sh & Bh & Ah & _ & _).
  destruct (pad_widths w W) as (Sw & Bw & Aw & _ & _).
  specialize (Ad Hd). specialize (Ah Hh). specialize (Aw Hw).
  set (lz := pad_before d D) in *. set (rz := pad_after d D) in *.
  set (ly := pad_before h H) in *. set (ry := pad_after h H) in *.
  set (lx := pad_before w W) in *. set (rx := pad_after w W) in *.
  destruct (py_index_3 lz ly lx) as (L0 & L1 & L2).
  destruct (py_index_3 rz ry rx) as (R0 & R1 & R2).
  rewrite L0, L1, L2, R0, R1, R2. cbn [bind].
  unfold np_pad.
  assert (Elz : (lz <? 0) = false) by (apply Z.ltb_ge; lia).
  assert (Erz : (rz <? 0) = false) by (apply Z.ltb_ge; lia).
  assert (Ely : (ly <? 0) = false) by (apply Z.ltb_ge; lia).
  assert (Ery : (ry <? 0) = false) by (apply Z.ltb_ge; lia).
  assert (Elx : (lx <? 0) = false) by (apply Z.ltb_ge; lia).
  assert (Erx : (rx <? 0) = false) by (apply Z.ltb_ge; lia).
  assert (EC : (C =? 0) = false) by (apply Z.eqb_neq; lia).
  assert (ED : (D =? 0) = false) by (apply Z.eqb_neq; lia).
  assert (EH : (H =? 0) = false) by (apply Z.eqb_neq; lia).
  assert (EW : (W =? 0) = false) by (apply Z.eqb_neq; lia).
  cbn [existsb fst snd]. rewrite Elz, Erz, Ely, Ery, Elx, Erx.
  cbn [orb Z.ltb Z.compare].
  rewrite (@shape4_fits C D H W data Hf HC HD HH).
  cbn [existsb combine fst snd]. rewrite EC, ED, EH, EW.
  cbn [andb orb].
  cbn [bind String.eqb Ascii.eqb Bool.eqb pad_outer pad_inner].
  unfold pad3, pad2. cbn [pad_outer].
  eexists. split; [reflexivity |].
  apply fits4_spec in Hf. destruct Hf as [Hlen Hch].
  rewrite Forall_forall in Hch.
  assert (Hchs : forall ch, In ch data ->
            zlen ch = D /\
            forall p, In p ch -> zlen p = H /\ forall r, In r p -> zlen r = W).
  { intros ch Hin.
    pose proof (proj1 (@fits_spec _ _ _ _ _) (Hch ch Hin)) as [Hlc Hp].
    split; [exact Hlc |]. rewrite Forall_forall in Hp. intros p Hp'.
    destruct (Hp p Hp') as [Hlp Hr]. split; [exact Hlp |].
    rewrite Forall_forall in Hr. exact Hr. }
  clear Hch. unfold arr4, arr3 in *.
  split.
  - apply fits4_spec. split.
    + rewrite pad_symmetric_map_length; cbn [fst snd]; lia.
    + apply Forall_forall. intros ch' Hin. apply In_pad_symmetric in Hin.
      apply in_map_iff in Hin. destruct Hin as (ch & <- & Hin).
      destruct (Hchs ch Hin) as [Hlc Hp].
      apply fits_spec. split.
      * rewrite pad_symmetric_map_length; cbn [fst snd]; lia.
      * apply Forall_forall. intros p' Hin'. apply In_pad_symmetric in Hin'.
        apply in_map_iff in Hin'. destruct Hin' as (p & <- & Hin').
        destruct (Hp p Hin') as [Hlp Hr]. split.
        -- rewrite pad_symmetric_map_length; cbn [fst snd]; lia.
        -- apply Forall_forall. intros r' Hin''.
           apply In_pad_symmetric in Hin''.
           apply in_map_iff in Hin''. destruct Hin'' as (r & <- & Hin'').
           unfold pad_inner.
           rewrite pad_symmetric_length'; cbn [fst snd];
             rewrite ?(Hr r Hin''); lia.
  - intros c z y x Hc Hz Hy Hx. unfold voxel4. unfold arr4, arr3 in *.
    rewrite pad_symmetric_map_nth by (cbn [fst snd]; lia).
    cbn [fst]. rewrite Z.sub_0_r, Hlen, sym_index_inside by lia.
    rewrite Nat2Z.id.
    destruct (nth_error data c) as [ch |] eqn:Ec; [| reflexivity].
    cbn [option_map].
    destruct (Hchs ch (nth_error_In _ _ Ec)) as [Hlc Hp].
    unfold voxel.
    rewrite pad_symmetric_map_nth by (cbn [fst snd]; lia).
    cbn [fst]. rewrite Hlc.
    destruct (nth_error ch _) as [p |] eqn:Ep; [| reflexivity].
    cbn [option_map].
    destruct (Hp p (nth_error_In _ _ Ep)) as [Hlp Hr].
    rewrite pad_symmetric_map_nth by (cbn [fst snd]; lia).
    cbn [fst]. rewrite Hlp.
    destruct (nth_error p _) as [r |] eqn:Er; [| reflexivity].
    cbn [option_map].
    specialize (Hr r (nth_error_In _ _ Er)).
    unfold pad_inner.
    rewrite pad_symmetric_nth; cbn [fst snd]; rewrite ?Hr; try lia.
    + reflexivity.
    + apply nonempty_zlen. lia.
Qed.

Lemma inside_true (l n : Z) (i : nat) :
  inside l n i = true <-> l <= Z.of_nat i < l + n.
Proof.
  unfold inside. rewrite andb_true_iff, Z.leb_le, Z.ltb_lt. tauto.
Qed.

Lemma inside_false (l n : Z) (i : nat) :
  inside l n i = false <-> Z.of_nat i < l \/ l + n <= Z.of_nat i.
Proof.
  unfold inside. rewrite andb_false_iff, Z.leb_gt, Z.ltb_ge. tauto.
Qed.

Lemma pad_constant_inside {A : Type} (fill : A) (w : Z * Z) (l : list A)
  (i : nat) :
  0 <= fst w -> 0 <= snd w -> Z.of_nat i < fst w + zlen l + snd w ->
  nth_error (pad_constant fill w l) i
  = if inside (fst w) (zlen l) i
    then nth_error l (i - Z.to_nat (fst w))
    else Some fill.
Proof.
  intros Hw0 Hw1 Hi. rewrite pad_constant_nth. unfold zlen in *.
  destruct (Nat.ltb_spec i (Z.to_nat (fst w))) as [E1 | E1];
    destruct (Nat.ltb_spec i (Z.to_nat (fst w) + length l)) as [E2 | E2];
    destruct (Nat.ltb_spec i (Z.to_nat (fst w) + length l
                              + Z.to_nat (snd w))) as [E3 | E3];
    destruct (inside (fst w) (Z.of_nat (length l)) i) eqn:E;
    try reflexivity;
    try (apply inside_true in E; lia);
    try (apply inside_false in E; lia).
Qed.

Lemma zlen_pad_constant {A : Type} (fill : A) (w : Z * Z) (l : list A) :
  0 <= fst w -> 0 <= snd w ->
  zlen (pad_constant fill w l) = fst w + zlen l + snd w.
Proof.
  intros. unfold zlen. rewrite pad_constant_length. lia.
Qed.

Lemma In_pad_constant {A : Type} (fill : A) (w : Z * Z) (l : list A) (x : A) :
  In x (pad_constant fill w l) -> x = fill \/ In x l.
Proof.
  unfold pad_constant. intros H.
  apply in_app_or in H. destruct H as [H | H].
  - left. apply repeat_spec in H. exact H.
  - apply in_app_or in H. destruct H as [H | H]; [right; exact H |].
    left. apply repeat_spec in H. exact H.
Qed.

Lemma pad_outer_constant {A B : Type} (like : Q -> B -> B) (c : Q)
  (w : Z * Z) (f : A -> B) (l : list A) :
  0 < zlen l ->
  exists x0, In x0 l /\
    pad_outer like (Constant c) w (map f l)
    = pad_constant (like c (f x0)) w (map f l).
Proof.
  intros Hl. destruct l as [| x0 l']; [unfold zlen in Hl; simpl in Hl; lia |].
  exists x0. split; [left; reflexivity | reflexivity].
Qed.

Section ConstantPad.
Variables (c0 : Q) (D H W lz rz ly ry lx rx : Z).
Hypotheses (HD : 0 < D) (HH : 0 < H) (HW : 0 < W).
Hypotheses (Hlz : 0 <= lz) (Hrz : 0 <= rz) (Hly : 0 <= ly) (Hry : 0 <= ry)
           (Hlx : 0 <= lx) (Hrx : 0 <= rx).

Lemma pad_row_constant (r : list Q) :
  zlen r = W ->
  zlen (pad_inner (Constant c0) (lx, rx) r) = lx + W + rx /\
  forall x, Z.of_nat x < lx + W + rx ->
    nth_error (pad_inner (Constant c0) (lx, rx) r) x
    = if inside lx W x then nth_error r (x - Z.to_nat lx) else Some c0.
Proof.
  intros Hr. cbn [pad_inner]. split.
  - rewrite zlen_pad_constant; cbn [fst snd]; lia.
  - intros x Hx. rewrite pad_constant_inside; cbn [fst snd]; rewrite ?Hr;
      auto; lia.
Qed.

Lemma full1_nth (r : list Q) (x : nat) :
  Z.of_nat x < zlen r -> nth_error (full1 c0 r) x = Some c0.
Proof.
  intros Hx. unfold full1. rewrite nth_error_map.
  destruct (nth_error r x) eqn:E; [reflexivity |].
  apply nth_error_None in E. unfold zlen in Hx. lia.
Qed.

Lemma pad_plane_constant (p : list (list Q)) :
  zlen p = H -> (forall r, In r p -> zlen r = W) ->
  zlen (pad2 (Constant c0) (ly, ry) (lx, rx) p) = ly + H + ry /\
  (forall r', In r' (pad2 (Constant c0) (ly, ry) (lx, rx) p) ->
              zlen r' = lx + W + rx) /\
  forall y x, Z.of_nat y < ly + H + ry -> Z.of_nat x < lx + W + rx ->
    pixel (pad2 (Constant c0) (ly, ry) (lx, rx) p) y x
    = if inside ly H y && inside lx W x
      then pixel p (y - Z.to_nat ly) (x - Z.to_nat lx)
      else Some c0.
Proof.
  intros Hp Hr. unfold pad2.
  destruct (@pad_outer_constant _ _ full1 c0 (ly, ry)
              (pad_inner (Constant c0) (lx, rx)) p ltac:(lia))
    as (r0 & Hr0 & ->).
  pose proof (@pad_row_constant r0 (Hr r0 Hr0)) as [Hl0 _].
  split; [| split].
  - rewrite zlen_pad_constant, zlen_map; cbn [fst snd]; lia.
  - intros r' Hin. apply In_pad_constant in Hin. destruct Hin as [-> | Hin].
    + unfold full1. rewrite zlen_map. exact Hl0.
    + apply in_map_iff in Hin. destruct Hin as (r & <- & Hin).
      apply (@pad_row_constant r (Hr r Hin)).
  - intros y x Hy Hx. unfold pixel.
    rewrite pad_constant_inside; cbn [fst snd]; rewrite ?zlen_map, ?Hp;
      try lia.
    destruct (inside ly H y) eqn:Ey; cbn [andb].
    + rewrite nth_error_map.
      destruct (nth_error p (y - Z.to_nat ly)) as [r |] eqn:Er.
      * cbn [option_map].
        destruct (@pad_row_constant r (Hr r (nth_error_In _ _ Er))) as [_ Hx'].
        rewrite (Hx' x Hx). destruct (inside lx W x); reflexivity.
      * apply nth_error_None in Er. apply inside_true in Ey.
        unfold zlen in Hp. lia.
    + rewrite full1_nth by lia. reflexivity.
Qed.

Lemma full2_pixel (p : list (list Q)) (y x : nat) (h w : Z) :
  zlen p = h -> (forall r, In r p -> zlen r = w) ->
  Z.of_nat y < h -> Z.of_nat x < w ->
  pixel (full2 c0 p) y x = Some c0.
Proof.
  intros Hp Hr Hy Hx. unfold pixel, full2. rewrite nth_error_map.
  destruct (nth_error p y) as [r |] eqn:E.
  - cbn [option_map]. apply full1_nth.
    rewrite (Hr r (nth_error_In _ _ E)). exact Hx.
  - apply nth_error_None in E. unfold zlen in Hp. lia.
Qed.

Lemma voxel_pixel (ch : arr3) (z y x : nat) :
  voxel ch z y x
  = match nth_error ch z with Some p => pixel p y x | None => None end.
Proof. reflexivity. Qed.

Lemma pad_channel_constant (ch : arr3) :
  zlen ch = D ->
  (forall p, In p ch -> zlen p = H /\ forall r, In r p -> zlen r = W) ->
  fits [lz + D + rz; ly + H + ry; lx + W + rx]
       (pad3 (Constant c0) (lz, rz) (ly, ry) (lx, rx) ch) = true /\
  forall z y x,
    Z.of_nat z < lz + D + rz -> Z.of_nat y < ly + H + ry ->
    Z.of_nat x < lx + W + rx ->
    voxel (pad3 (Constant c0) (lz, rz) (ly, ry) (lx, rx) ch) z y x
    = if inside lz D z && inside ly H y && inside lx W x
      then voxel ch (z - Z.to_nat lz) (y - Z.to_nat ly) (x - Z.to_nat lx)
      else Some c0.
Proof.
  intros Hc Hp. unfold pad3.
  destruct (@pad_outer_constant _ _ full2 c0 (lz, rz)
              (pad2 (Constant c0) (ly, ry) (lx, rx)) ch ltac:(lia))
    as (p0 & Hp0 & ->).
  destruct (Hp p0 Hp0) as [Hlp0 Hr0].
  destruct (@pad_plane_constant p0 Hlp0 Hr0) as (Hl0 & Hrows0 & _).
  split.
  - apply fits_spec. split.
    + rewrite zlen_pad_constant, zlen_map; cbn [fst snd]; lia.
    + apply Forall_forall. intros p' Hin. apply In_pad_constant in Hin.
      destruct Hin as [-> | Hin].
      * split.
        -- unfold full2. rewrite zlen_map. exact Hl0.
        -- apply Forall_forall. intros r' Hin'. unfold full2 in Hin'.
           apply in_map_iff in Hin'. destruct Hin' as (r & <- & Hin').
           unfold full1. rewrite zlen_map. apply Hrows0. exact Hin'.
      * apply in_map_iff in Hin. destruct Hin as (p & <- & Hin).
        destruct (Hp p Hin) as [Hlp Hr].
        destruct (@pad_plane_constant p Hlp Hr) as (Hl & Hrows & _).
        split; [exact Hl |]. apply Forall_forall. exact Hrows.
  - intros z y x Hz Hy Hx. rewrite !voxel_pixel.
    rewrite pad_constant_inside; cbn [fst snd]; rewrite ?zlen_map, ?Hc;
      try lia.
    destruct (inside lz D z) eqn:Ez; cbn [andb].
    + rewrite nth_error_map.
      destruct (nth_error ch (z - Z.to_nat lz)) as [p |] eqn:Ep.
      * cbn [option_map].
        destruct (Hp p (nth_error_In _ _ Ep)) as [Hlp Hr].
        destruct (@pad_plane_constant p Hlp Hr) as (_ & _ & Hpix).
        apply Hpix; assumption.
      * apply nth_error_None in Ep. apply inside_true in Ez.
        unfold zlen in Hc. lia.
    + apply (@full2_pixel _ y x (ly + H + ry) (lx + W + rx)); assumption.
Qed.

End ConstantPad.

Lemma pad_outer_none {A B : Type} (like : Q -> B -> B) (mode : pad_mode)
  (f : A -> B) (l : list A) :
  0 < zlen l ->
  (forall i, nth_error (pad_outer like mode (0, 0) (map f l)) i
             = option_map f (nth_error l i)) /\
  zlen (pad_outer like mode (0, 0) (map f l)) = zlen l /\
  (forall x, In x (pad_outer like mode (0, 0) (map f l)) ->
             exists a, In a l /\ x = f a).
Proof.
  intros Hl. destruct mode as [| c].
  - cbn [pad_outer]. split; [| split].
    + intros i.
      destruct (Z_lt_ge_dec (Z.of_nat i) (zlen l)) as [Hi | Hi].
      * rewrite pad_symmetric_map_nth by (cbn [fst snd]; lia).
        cbn [fst]. rewrite Z.sub_0_r, sym_index_inside by lia.
        rewrite Nat2Z.id. reflexivity.
      * replace (nth_error l i) with (@None A)
          by (symmetry; apply nth_error_None; unfold zlen in Hi; lia).
        apply nth_error_None.
        pose proof (@pad_symmetric_map_length _ _ f (0, 0) l Hl
                      ltac:(cbn; lia) ltac:(cbn; lia)) as HL.
        cbn [fst snd] in HL. unfold zlen in *. lia.
    + rewrite pad_symmetric_map_length; cbn [fst snd]; lia.
    + intros x Hx. apply In_pad_symmetric in Hx. apply in_map_iff in Hx.
      destruct Hx as (a & <- & Ha). eauto.
  - destruct (@pad_outer_constant _ _ like c (0, 0) f l Hl) as (x0 & _ & ->).
    unfold pad_constant. cbn [fst snd Z.to_nat repeat app].
    rewrite app_nil_r. split; [| split].
    + intros i. apply nth_error_map.
    + apply zlen_map.
    + intros x Hx. apply in_map_iff in Hx.
      destruct Hx as (a & <- & Ha). eauto.
Qed.

Lemma treat_array_zero_pad :
  forall data C D H W d h w,
    fits4 [C; D; H; W] data = true ->
    0 < C -> 0 < D -> 0 < H -> 0 < W ->
    D <= d -> H <= h -> W <= w ->
    exists out,
      treat_array [d; h; w] "0-pad" 3 data = Ok out /\
      fits4 [C; d; h; w] out = true /\
      forall c z y x,
        Z.of_nat c < C ->
        Z.of_nat z < d -> Z.of_nat y < h -> Z.of_nat x < w ->
        voxel4 out c z y x
        = if inside (pad_before d D) D z && inside (pad_before h H) H y
             && inside (pad_before w W) W x
          then voxel4 data c (z - Z.to_nat (pad_before d D))
                             (y - Z.to_nat (pad_before h H))
                             (x - Z.to_nat (pad_before w W))
          else Some 0%Q.
Proof.
  intros data C D H W d h w Hf HC HD HH HW Hd Hh Hw.
  unfold treat_array. cbn [String.eqb Ascii.eqb Bool.eqb].
  rewrite (@shape4_fits C D H W data Hf HC HD HH).
  cbn [tl combine map fst snd]. cbn [Z.eqb Pos.eqb].
  fold (pad_before d D) (pad_after d D) (pad_before h H) (pad_after h H)
       (pad_before w W) (pad_after w W).
  destruct (pad_widths d D) as (Sd & Bd & Ad & _ & _).
  destruct (pad_widths h H) as (Sh & Bh & Ah & _ & _).
  destruct (pad_widths w W) as (Sw & Bw & Aw & _ & _).
  specialize (Ad Hd). specialize (Ah Hh). specialize (Aw Hw).
  set (lz := pad_before d D) in *. set (rz := pad_after d D) in *.
  set (ly := pad_before h H) in *. set (ry := pad_after h H) in *.
  set (lx := pad_before w W) in *. set (rx := pad_after w W) in *.
  destruct (py_index_3 lz ly lx) as (L0 & L1 & L2).
  destruct (py_index_3 rz ry rx) as (R0 & R1 & R2).
  rewrite L0, L1, L2, R0, R1, R2. cbn [bind].
  unfold np_pad.
  assert (Elz : (lz <? 0) = false) by (apply Z.ltb_ge; lia).
  assert (Erz : (rz <? 0) = false) by (apply Z.ltb_ge; lia).
  assert (Ely : (ly <? 0) = false) by (apply Z.ltb_ge; lia).
  assert (Ery : (ry <? 0) = false) by (apply Z.ltb_ge; lia).
  assert (Elx : (lx <? 0) = false) by (apply Z.ltb_ge; lia).
  assert (Erx : (rx <? 0) = false) by (apply Z.ltb_ge; lia).
  cbn [existsb fst snd]. rewrite Elz, Erz, Ely, Ery, Elx, Erx.
  cbn [orb Z.ltb Z.compare].
  eexists. split; [reflexivity |].
  apply fits4_spec in Hf. destruct Hf as [Hlen Hch].
  rewrite Forall_forall in Hch.
  assert (Hchs : forall ch, In ch data ->
            zlen ch = D /\
            forall p, In p ch -> zlen p = H /\ forall r, In r p -> zlen r = W).
  { intros ch Hin.
    pose proof (proj1 (@fits_spec _ _ _ _ _) (Hch ch Hin)) as [Hlc Hp].
    split; [exact Hlc |]. rewrite Forall_forall in Hp. intros p Hp'.
    destruct (Hp p Hp') as [Hlp Hr]. split; [exact Hlp |].
    rewrite Forall_forall in Hr. exact Hr. }
  clear Hch.
  destruct (@pad_outer_none _ _ full3 (Constant 0)
              (pad3 (Constant 0) (lz, rz) (ly, ry) (lx, rx)) data
              ltac:(lia)) as (Hn & Hl & Hin).
  replace d with (lz + D + rz) by lia.
  replace h with (ly + H + ry) by lia.
  replace w with (lx + W + rx) by lia.
  split.
  - apply fits4_spec. split; [lia |].
    apply Forall_forall. intros ch' Hch'.
    destruct (Hin ch' Hch') as (ch & Hch & ->).
    destruct (Hchs ch Hch) as [Hlc Hp].
    apply (@pad_channel_constant 0%Q D H W lz rz ly ry lx rx HD HH
             ltac:(lia) ltac:(lia) ltac:(lia) ltac:(lia) ltac:(lia) ltac:(lia)
             ch Hlc Hp).
  - intros c z y x Hc Hz Hy Hx. unfold voxel4. rewrite Hn.
    unfold arr4, arr3 in *.
    destruct (nth_error data c) as [ch |] eqn:Ec;
      [| apply nth_error_None in Ec; unfold zlen in Hlen; lia].
    cbn [option_map].
    destruct (Hchs ch (nth_error_In _ _ Ec)) as [Hlc Hp].
    apply (@pad_channel_constant 0%Q D H W lz rz ly ry lx rx HD HH
             ltac:(lia) ltac:(lia) ltac:(lia) ltac:(lia) ltac:(lia) ltac:(lia)
             ch Hlc Hp); assumption.
Qed.

Lemma treat_array_pad_smaller :
  forall data C D H W d h w border_mode,
    fits4 [C; D; H; W] data = true ->
    0 < C -> 0 < D -> 0 < H -> 0 < W ->
    d < D \/ h < H \/ w < W ->
    border_mode = "mirror"%string \/ border_mode = "0-pad"%string ->
    treat_array [d; h; w] border_mode 3 data
    = Raise (ValueError "index can't contain negative values").
Proof.
  intros data C D H W d h w mode Hf HC HD HH HW Hsmall Hmode.
  unfold treat_array.
  rewrite (@shape4_fits C D H W data Hf HC HD HH).
  cbn [tl combine map fst snd]. cbn [Z.eqb Pos.eqb].
  fold (pad_before d D) (pad_after d D) (pad_before h H) (pad_after h H)
       (pad_before w W) (pad_after w W).
  destruct (pad_widths d D) as (_ & _ & _ & Nd & _).
  destruct (pad_widths h H) as (_ & _ & _ & Nh & _).
  destruct (pad_widths w W) as (_ & _ & _ & Nw & _).
  set (lz := pad_before d D) in *. set (rz := pad_after d D) in *.
  set (ly := pad_before h H) in *. set (ry := pad_after h H) in *.
  set (lx := pad_before w W) in *. set (rx := pad_after w W) in *.
  destruct (py_index_3 lz ly lx) as (L0 & L1 & L2).
  destruct (py_index_3 rz ry rx) as (R0 & R1 & R2).
  assert (Hneg : existsb (fun w0 : Z * Z => (fst w0 <? 0) || (snd w0 <? 0))
                   [(0, 0); (lz, rz); (ly, ry); (lx, rx)] = true).
  { apply existsb_exists.
    destruct Hsmall as [Hs | [Hs | Hs]].
    - exists (lz, rz). split; [simpl; tauto |]. cbn [fst snd].
      apply orb_true_iff. right. apply Z.ltb_lt. auto.
    - exists (ly, ry). split; [simpl; tauto |]. cbn [fst snd].
      apply orb_true_iff. right. apply Z.ltb_lt. auto.
    - exists (lx, rx). split; [simpl; tauto |]. cbn [fst snd].
      apply orb_true_iff. right. apply Z.ltb_lt. auto. }
  destruct Hmode as [-> | ->]; cbn [String.eqb Ascii.eqb Bool.eqb];
    rewrite L0, L1, L2, R0, R1, R2; cbn [bind]; unfold np_pad;
    rewrite Hneg; reflexivity.
Qed.


Lemma py_index_head {A : Type} (a : A) (l : list A) : py_index (a :: l) 0 = Ok a.
Proof.
  apply py_index_nonneg; [lia | reflexivity].
Qed.

Lemma py_index_second {A : Type} (a b : A) (l : list A) :
  py_index (a :: b :: l) 1 = Ok b.
Proof.
  apply py_index_nonneg; [lia | reflexivity].
Qed.

Lemma py_index_third {A : Type} (a b c : A) (l : list A) :
  py_index (a :: b :: c :: l) 2 = Ok c.
Proof.
  apply py_index_nonneg; [lia | reflexivity].
Qed.

Lemma treat_array_other_modes :
  forall data ps border_mode ndim,
    (border_mode = "keep"%string -> treat_array ps border_mode ndim data = Ok data)
    /\
    (String.eqb border_mode "keep" = false ->
     String.eqb border_mode "crop" = false ->
     String.eqb border_mode "mirror" = false ->
     String.eqb border_mode "0-pad" = false ->
     ((3 <= length ps)%nat -> treat_array ps border_mode ndim data = Ok data)
     /\
     ((length ps < 2)%nat -> treat_array ps border_mode ndim data = Raise IndexError)).
Proof.
  intros data ps mode ndim. split.
  - intros ->. reflexivity.
  - intros Hk Hc Hm Hz. unfold treat_array. rewrite Hk, Hc, Hm, Hz.
    unfold shape4. cbn [tl]. split; intros Hps.
    + destruct ps as [| p0 [| p1 [| p2 ps']]]; try (simpl in Hps; lia).
      cbn [combine map].
      destruct (ndim =? 3);
        rewrite ?py_index_head, ?py_index_second, ?py_index_third;
        cbn [bind];
        rewrite ?py_index_head, ?py_index_second, ?py_index_third;
        reflexivity.
    + destruct ps as [| p0 [| p1 ps']]; try (simpl in Hps; lia);
        destruct (ndim =? 3); reflexivity.
Qed.
Lemma list_ext_zlen {A : Type} (n : Z) (a b : list A) :
  zlen a = n -> zlen b = n ->
  (forall i, Z.of_nat i < n -> nth_error a i = nth_error b i) -> a = b.
Proof.
  intros Ha Hb H. apply nth_error_ext. intros i.
  destruct (Z_lt_ge_dec (Z.of_nat i) n) as [Hi | Hi]; [apply H; exact Hi |].
  unfold zlen in *.
  rewrite (proj2 (nth_error_None a i)) by lia.
  rewrite (proj2 (nth_error_None b i)) by lia. reflexivity.
Qed.

Lemma nth_error_Some_lt {A : Type} (l : list A) (i : nat) (n : Z) :
  zlen l = n -> Z.of_nat i < n -> exists a, nth_error l i = Some a.
Proof.
  intros Hl Hi. destruct (nth_error l i) eqn:E; [eauto |].
  apply nth_error_None in E. unfold zlen in Hl. lia.
Qed.

(** Two arrays of one shape with the same value at every index are the
    same array. *)
Lemma arr4_ext (C D H W : Z) (a b : arr4) :
  fits4 [C; D; H; W] a = true -> fits4 [C; D; H; W] b = true ->
  (forall c z y x,
     Z.of_nat c < C -> Z.of_nat z < D -> Z.of_nat y < H -> Z.of_nat x < W ->
     voxel4 a c z y x = voxel4 b c z y x) ->
  a = b.
Proof.
  intros Ha Hb Hv.
  apply fits4_spec in Ha, Hb. destruct Ha as [La Fa], Hb as [Lb Fb].
  rewrite Forall_forall in Fa, Fb. unfold arr4, arr3 in *.
  apply (@list_ext_zlen _ C a b La Lb). intros c Hc.
  destruct (@nth_error_Some_lt _ a c C La Hc) as (ca & Eca).
  destruct (@nth_error_Some_lt _ b c C Lb Hc) as (cb & Ecb).
  rewrite Eca, Ecb. f_equal.
  pose proof (proj1 (@fits_spec _ _ _ _ _) (Fa ca (nth_error_In _ _ Eca)))
    as [Lca Pa].
  pose proof (proj1 (@fits_spec _ _ _ _ _) (Fb cb (nth_error_In _ _ Ecb)))
    as [Lcb Pb].
  rewrite Forall_forall in Pa, Pb.
  apply (@list_ext_zlen _ D ca cb Lca Lcb). intros z Hz.
  destruct (@nth_error_Some_lt _ ca z D Lca Hz) as (pa & Epa).
  destruct (@nth_error_Some_lt _ cb z D Lcb Hz) as (pb & Epb).
  rewrite Epa, Epb. f_equal.
  destruct (Pa pa (nth_error_In _ _ Epa)) as [Lpa Ra].
  destruct (Pb pb (nth_error_In _ _ Epb)) as [Lpb Rb].
  rewrite Forall_forall in Ra, Rb.
  apply (@list_ext_zlen _ H pa pb Lpa Lpb). intros y Hy.
  destruct (@nth_error_Some_lt _ pa y H Lpa Hy) as (ra & Era).
  destruct (@nth_error_Some_lt _ pb y H Lpb Hy) as (rb & Erb).
  rewrite Era, Erb. f_equal.
  apply (@list_ext_zlen _ W ra rb (Ra ra (nth_error_In _ _ Era))
                                  (Rb rb (nth_error_In _ _ Erb))).
  intros x Hx.
  specialize (Hv c z y x Hc Hz Hy Hx). unfold voxel4, voxel in Hv.
  unfold arr4, arr3 in *.
  rewrite Eca, Ecb, Epa, Epb, Era, Erb in Hv. exact Hv.
Qed.

Lemma treat_array_pad_crop :
  forall data C D H W d h w border_mode,
    fits4 [C; D; H; W] data = true ->
    0 < C -> 0 < D -> 0 < H -> 0 < W ->
    D <= d -> H <= h -> W <= w ->
    (d - D) mod 2 = 0 -> (h - H) mod 2 = 0 -> (w - W) mod 2 = 0 ->
    border_mode = "mirror"%string \/ border_mode = "0-pad"%string ->
    exists padded,
      treat_array [d; h; w] border_mode 3 data = Ok padded /\
      fits4 [C; d; h; w] padded = true /\
      treat_array [D; H; W] "crop" 3 padded = Ok data.
Proof.
  intros data C D H W d h w mode Hf HC HD HH HW Hd Hh Hw Ed Eh Ew Hmode.
  destruct (pad_widths d D) as (Sd & Bd & Ad & _ & Fd).
  destruct (pad_widths h H) as (Sh & Bh & Ah & _ & Fh).
  destruct (pad_widths w W) as (Sw & Bw & Aw & _ & Fw).
  specialize (Ad Hd). specialize (Ah Hh). specialize (Aw Hw).
  assert (Qd : (d - D) / 2 = pad_before d D).
  { pose proof (Z.div_mod (d - D) 2 ltac:(lia)). lia. }
  assert (Qh : (h - H) / 2 = pad_before h H).
  { pose proof (Z.div_mod (h - H) 2 ltac:(lia)). lia. }
  assert (Qw : (w - W) / 2 = pad_before w W).
  { pose proof (Z.div_mod (w - W) 2 ltac:(lia)). lia. }
  assert (Hpad : exists padded,
            treat_array [d; h; w] mode 3 data = Ok padded /\
            fits4 [C; d; h; w] padded = true /\
            forall c z y x,
              Z.of_nat c < C ->
              Z.of_nat z < D -> Z.of_nat y < H -> Z.of_nat x < W ->
              voxel4 padded c (Z.to_nat (pad_before d D) + z)
                              (Z.to_nat (pad_before h H) + y)
                              (Z.to_nat (pad_before w W) + x)
              = voxel4 data c z y x).
  { destruct Hmode as [-> | ->].
    - destruct (@treat_array_mirror data C D H W d h w
                  Hf HC HD HH HW Hd Hh Hw) as (padded & Hp & Hfp & Hv).
      exists padded. split; [exact Hp |]. split; [exact Hfp |].
      intros c z y x Hc Hz Hy Hx.
      rewrite Hv by lia.
      replace (Z.of_nat (Z.to_nat (pad_before d D) + z) - pad_before d D)
        with (Z.of_nat z) by lia.
      replace (Z.of_nat (Z.to_nat (pad_before h H) + y) - pad_before h H)
        with (Z.of_nat y) by lia.
      replace (Z.of_nat (Z.to_nat (pad_before w W) + x) - pad_before w W)
        with (Z.of_nat x) by lia.
      rewrite !sym_index_inside by lia. rewrite !Nat2Z.id. reflexivity.
    - destruct (@treat_array_zero_pad data C D H W d h w
                  Hf HC HD HH HW Hd Hh Hw) as (padded & Hp & Hfp & Hv).
      exists padded. split; [exact Hp |]. split; [exact Hfp |].
      intros c z y x Hc Hz Hy Hx.
      rewrite Hv by lia.
      rewrite (proj2 (inside_true (pad_before d D) D _)) by lia.
      rewrite (proj2 (inside_true (pad_before h H) H _)) by lia.
      rewrite (proj2 (inside_true (pad_before w W) W _)) by lia.
      cbn [andb]. f_equal; lia. }
  destruct Hpad as (padded & Hp & Hfp & Hv).
  exists padded. split; [exact Hp |]. split; [exact Hfp |].
  destruct (@treat_array_crop padded C d h w D H W Hfp HC
              ltac:(lia) ltac:(lia) ltac:(lia) ltac:(lia) ltac:(lia)
              ltac:(lia)) as (out & Ho & Hfo & Hvo).
  rewrite Ho. f_equal.
  apply (@arr4_ext C D H W out data Hfo Hf).
  intros c z y x Hc Hz Hy Hx.
  rewrite Hvo by assumption. rewrite Qd, Qh, Qw. apply Hv; assumption.
Qed.

Lemma mapM_Forall2 {A B : Type} (f : A -> result B) (R : A -> B -> Prop)
  (l : list A) :
  (forall a, In a l -> exists b, f a = Ok b /\ R a b) ->
  exists l', mapM f l = Ok l' /\ Forall2 R l l'.
Proof.
  induction l as [| a l IH]; intros H.
  - exists []. split; [reflexivity | constructor].
  - destruct (H a (or_introl eq_refl)) as (b & Hb & Rb).
    destruct (IH (fun x Hx => H x (or_intror Hx))) as (l' & Hl' & Rl').
    exists (b :: l'). cbn [mapM]. rewrite Hb. cbn [bind]. rewrite Hl'.
    split; [reflexivity | constructor; assumption].
Qed.

Lemma mapM_first_raise {A B : Type} (f : A -> result B) (e : exn)
  (l : list A) :
  l <> [] -> (forall a, In a l -> f a = Raise e) -> mapM f l = Raise e.
Proof.
  destruct l as [| a l]; [congruence |]. intros _ H.
  cbn [mapM]. rewrite (H a (or_introl eq_refl)). reflexivity.
Qed.

(** X9: With ['crop'] and [ndim = 3], arrays of spatial extents [(D, H, W)]
    and a patch size [(d, h, w)] not larger, every array comes back with
    the spatial shape [(d, h, w)], its voxel [(z, y, x)] being the input
    voxel at [((D-d)//2 + z, (H-h)//2 + y, (W-w)//2 + x)] (lines 46-52). *)
Theorem border_treatment_crop :
  forall data_list D H W d h w,
    0 < D -> 0 < H -> 0 < W ->
    0 <= d <= D -> 0 <= h <= H -> 0 <= w <= W ->
    Forall (spatial D H W) data_list ->
    exists outs,
      border_treatment data_list [d; h; w] "crop" 3 = Ok outs /\
      Forall2 (fun data out =>
                 fits4 [zlen data; d; h; w] out = true /\
                 forall c z y x,
                   Z.of_nat z < d -> Z.of_nat y < h -> Z.of_nat x < w ->
                   voxel4 out c z y x
                   = voxel4 data c (Z.to_nat ((D - d) / 2) + z)
                                   (Z.to_nat ((H - h) / 2) + y)
                                   (Z.to_nat ((W - w) / 2) + x))
              data_list outs.
Proof.
  intros data_list D H W d h w HD HH HW Hd Hh Hw Hall.
  unfold border_treatment. apply mapM_Forall2.
  intros data Hin. rewrite Forall_forall in Hall.
  destruct (Hall data Hin) as [HC Hf].
  apply (@treat_array_crop data (zlen data) D H W d h w); assumption.
Qed.

Lemma border_treatment_crop_witness :
  exists outs,
    border_treatment [ [ [ [ [1; 2; 3; 4]; [5; 6; 7; 8] ] ] ] ]%Q
                     [1; 2; 2] "crop" 3 = Ok outs /\
    Forall2 (fun data out =>
               fits4 [zlen data; 1; 2; 2] out = true /\
               forall c z y x,
                 Z.of_nat z < 1 -> Z.of_nat y < 2 -> Z.of_nat x < 2 ->
                 voxel4 out c z y x
                 = voxel4 data c (Z.to_nat ((1 - 1) / 2) + z)
                                 (Z.to_nat ((2 - 2) / 2) + y)
                                 (Z.to_nat ((4 - 2) / 2) + x))
            [ [ [ [ [1; 2; 3; 4]; [5; 6; 7; 8] ] ] ] ]%Q outs.
Proof.
  apply (@border_treatment_crop
           [ [ [ [ [1; 2; 3; 4]; [5; 6; 7; 8] ] ] ] ]%Q 1 2 4 1 2 2);
    try lia.
  repeat constructor.
Defined.

(** X10: With ['mirror'] and [ndim = 3], arrays of spatial extents [(D, H, W)]
    and a patch size [(d, h, w)] not smaller, every array comes back with
    the spatial shape [(d, h, w)], ceil((p-s)/2) entries added before each
    axis and floor((p-s)/2) after it, and its voxel at a position is the
    input voxel at the mirror image of that position, the edge included
    (lines 60-74). *)
Theorem border_treatment_mirror :
  forall data_list D H W d h w,
    0 < D -> 0 < H -> 0 < W -> D <= d -> H <= h -> W <= w ->
    Forall (spatial D H W) data_list ->
    exists outs,
      border_treatment data_list [d; h; w] "mirror" 3 = Ok outs /\
      Forall2 (fun data out =>
                 fits4 [zlen data; d; h; w] out = true /\
                 forall c z y x,
                   Z.of_nat c < zlen data ->
                   Z.of_nat z < d -> Z.of_nat y < h -> Z.of_nat x < w ->
                   voxel4 out c z y x
                   = voxel4 data c
                       (Z.to_nat (sym_index D (Z.of_nat z - pad_before d D)))
                       (Z.to_nat (sym_index H (Z.of_nat y - pad_before h H)))
                       (Z.to_nat (sym_index W (Z.of_nat x - pad_before w W))))
              data_list outs.
Proof.
  intros data_list D H W d h w HD HH HW Hd Hh Hw Hall.
  unfold border_treatment. apply mapM_Forall2.
  intros data Hin. rewrite Forall_forall in Hall.
  destruct (Hall data Hin) as [HC Hf].
  apply (@treat_array_mirror data (zlen data) D H W d h w); assumption.
Qed.

(** X11: With ['0-pad'] and [ndim = 3], arrays of spatial extents [(D, H, W)]
    and a patch size [(d, h, w)] not smaller, every array comes back with
    the spatial shape [(d, h, w)]: the input sits at the offsets
    ceil((p-s)/2) and every voxel outside it is 0 (lines 60-77). *)
Theorem border_treatment_zero_pad :
  forall data_list D H W d h w,
    0 < D -> 0 < H -> 0 < W -> D <= d -> H <= h -> W <= w ->
    Forall (spatial D H W) data_list ->
    exists outs,
      border_treatment data_list [d; h; w] "0-pad" 3 = Ok outs /\
      Forall2 (fun data out =>
                 fits4 [zlen data; d; h; w] out = true /\
                 forall c z y x,
                   Z.of_nat c < zlen data ->
                   Z.of_nat z < d -> Z.of_nat y < h -> Z.of_nat x < w ->
                   voxel4 out c z y x
                   = if inside (pad_before d D) D z
                        && inside (pad_before h H) H y
                        && inside (pad_before w W) W x
                     then voxel4 data c (z - Z.to_nat (pad_before d D))
                                        (y - Z.to_nat (pad_before h H))
                                        (x - Z.to_nat (pad_before w W))
                     else Some 0%Q)
              data_list outs.
Proof.
  intros data_list D H W d h w HD HH HW Hd Hh Hw Hall.
  unfold border_treatment. apply mapM_Forall2.
  intros data Hin. rewrite Forall_forall in Hall.
  destruct (Hall data Hin) as [HC Hf].
  apply (@treat_array_zero_pad data (zlen data) D H W d h w); assumption.
Qed.

(** X12: ['mirror'] and ['0-pad'] do not crop: with a patch size smaller than
    the arrays along some axis the pad width is negative and [np.pad]
    raises [ValueError] (lines 60-77). *)
Theorem border_treatment_pad_smaller :
  forall data_list D H W d h w border_mode,
    0 < D -> 0 < H -> 0 < W ->
    d < D \/ h < H \/ w < W ->
    border_mode = "mirror"%string \/ border_mode = "0-pad"%string ->
    data_list <> [] -> Forall (spatial D H W) data_list ->
    border_treatment data_list [d; h; w] border_mode 3
    = Raise (ValueError "index can't contain negative values").
Proof.
  intros data_list D H W d h w mode HD HH HW Hs Hm Hne Hall.
  unfold border_treatment. apply mapM_first_raise; [exact Hne |].
  intros data Hin. rewrite Forall_forall in Hall.
  destruct (Hall data Hin) as [HC Hf].
  apply (@treat_array_pad_smaller data (zlen data) D H W d h w mode);
    assumption.
Qed.

(** X13: ['keep'] returns the list as it is, whatever [ps] and [ndim]; a
    [border_mode] that is none of the four names is not refused: the data
    come back unchanged when [ps] has three entries or more, and
    [IndexError] is raised on a non-empty list when [ps] has fewer than
    two (lines 39-40, 60-79). *)
Theorem border_treatment_other_modes :
  forall data_list ps border_mode ndim,
    (border_mode = "keep"%string ->
     border_treatment data_list ps border_mode ndim = Ok data_list)
    /\
    (String.eqb border_mode "keep" = false ->
     String.eqb border_mode "crop" = false ->
     String.eqb border_mode "mirror" = false ->
     String.eqb border_mode "0-pad" = false ->
     ((3 <= length ps)%nat ->
      border_treatment data_list ps border_mode ndim = Ok data_list)
     /\
     ((length ps < 2)%nat -> data_list <> [] ->
      border_treatment data_list ps border_mode ndim = Raise IndexError)).
Proof.
  intros data_list ps mode ndim. unfold border_treatment.
  split; [| intros Hk Hc Hm Hz; split].
  - intros Hmode. rewrite <- (map_id data_list) at 2. apply mapM_total.
    intros data _.
    apply (proj1 (treat_array_other_modes data ps mode ndim) Hmode).
  - intros Hps. rewrite <- (map_id data_list) at 2. apply mapM_total.
    intros data _.
    apply (proj1 (proj2 (treat_array_other_modes data ps mode ndim)
                    Hk Hc Hm Hz) Hps).
  - intros Hps Hne. apply mapM_first_raise; [exact Hne |].
    intros data _.
    apply (proj2 (proj2 (treat_array_other_modes data ps mode ndim)
                    Hk Hc Hm Hz) Hps).
Qed.

Lemma border_treatment_other_modes_witness :
  border_treatment [ [ [ [ [1; 2] ] ] ] ]%Q [1; 1; 2] "reflect" 3
  = Ok [ [ [ [ [1; 2] ] ] ] ]%Q.
Proof.
  apply (proj1 (proj2 (@border_treatment_other_modes
                         [ [ [ [ [1; 2] ] ] ] ]%Q [1; 1; 2] "reflect" 3)
                 eq_refl eq_refl eq_refl eq_refl)).
  simpl. lia.
Defined.

(** X14: Where the patch size exceeds the arrays by an even amount on every
    axis, padding with ['mirror'] or ['0-pad'] and then cropping to the
    original extents gives the original list back (lines 37-80). *)
Theorem border_treatment_pad_crop_round_trip :
  forall data_list D H W d h w border_mode,
    0 < D -> 0 < H -> 0 < W -> D <= d -> H <= h -> W <= w ->
    (d - D) mod 2 = 0 -> (h - H) mod 2 = 0 -> (w - W) mod 2 = 0 ->
    border_mode = "mirror"%string \/ border_mode = "0-pad"%string ->
    Forall (spatial D H W) data_list ->
    exists padded,
      border_treatment data_list [d; h; w] border_mode 3 = Ok padded /\
      border_treatment padded [D; H; W] "crop" 3 = Ok data_list.
Proof.
  intros data_list D H W d h w mode HD HH HW Hd Hh Hw Ed Eh Ew Hm Hall.
  unfold border_treatment.
  destruct (@mapM_Forall2 _ _ (treat_array [d; h; w] mode 3)
              (fun data padded => treat_array [D; H; W] "crop" 3 padded
                                  = Ok data) data_list)
    as (padded & Hp & HR).
  { intros data Hin. rewrite Forall_forall in Hall.
    destruct (Hall data Hin) as [HC Hf].
    destruct (@treat_array_pad_crop data (zlen data) D H W d h w mode
                Hf HC HD HH HW Hd Hh Hw Ed Eh Ew Hm) as (p & H1 & _ & H2).
    exists p. auto. }
  exists padded. split; [exact Hp |].
  clear Hp Hall. induction HR as [| data p l l' Hdp _ IH].
  - reflexivity.
  - cbn [mapM]. rewrite Hdp. cbn [bind]. rewrite IH. reflexivity.
Qed.
Lemma border_treatment_mirror_witness :
  exists outs,
    border_treatment [ [ [ [ [1; 2; 3]; [4; 5; 6] ] ] ] ]%Q
                     [1; 4; 7] "mirror" 3 = Ok outs /\
    Forall2 (fun data out =>
               fits4 [zlen data; 1; 4; 7] out = true /\
               forall c z y x,
                 Z.of_nat c < zlen data ->
                 Z.of_nat z < 1 -> Z.of_nat y < 4 -> Z.of_nat x < 7 ->
                 voxel4 out c z y x
                 = voxel4 data c
                     (Z.to_nat (sym_index 1 (Z.of_nat z - pad_before 1 1)))
                     (Z.to_nat (sym_index 2 (Z.of_nat y - pad_before 4 2)))
                     (Z.to_nat (sym_index 3 (Z.of_nat x - pad_before 7 3))))
            [ [ [ [ [1; 2; 3]; [4; 5; 6] ] ] ] ]%Q outs.
Proof.
  apply (@border_treatment_mirror
           [ [ [ [ [1; 2; 3]; [4; 5; 6] ] ] ] ]%Q 1 2 3 1 4 7);
    try lia.
  repeat constructor.
Defined.

Lemma border_treatment_zero_pad_witness :
  exists outs,
    border_treatment [ [ [ [ [1; 2; 3]; [4; 5; 6] ] ] ] ]%Q
                     [1; 4; 7] "0-pad" 3 = Ok outs /\
    Forall2 (fun data out =>
               fits4 [zlen data; 1; 4; 7] out = true /\
               forall c z y x,
                 Z.of_nat c < zlen data ->
                 Z.of_nat z < 1 -> Z.of_nat y < 4 -> Z.of_nat x < 7 ->
                 voxel4 out c z y x
                 = if inside (pad_before 1 1) 1 z
                      && inside (pad_before 4 2) 2 y
                      && inside (pad_before 7 3) 3 x
                   then voxel4 data c (z - Z.to_nat (pad_before 1 1))
                                      (y - Z.to_nat (pad_before 4 2))
                                      (x - Z.to_nat (pad_before 7 3))
                   else Some 0%Q)
            [ [ [ [ [1; 2; 3]; [4; 5; 6] ] ] ] ]%Q outs.
Proof.
  apply (@border_treatment_zero_pad
           [ [ [ [ [1; 2; 3]; [4; 5; 6] ] ] ] ]%Q 1 2 3 1 4 7);
    try lia.
  repeat constructor.
Defined.

Lemma border_treatment_pad_smaller_witness :
  border_treatment [ [ [ [ [1; 2; 3]; [4; 5; 6] ] ] ] ]%Q [1; 1; 3] "mirror" 3
  = Raise (ValueError "index can't contain negative values").
Proof.
  apply (@border_treatment_pad_smaller
           [ [ [ [ [1; 2; 3]; [4; 5; 6] ] ] ] ]%Q 1 2 3 1 1 3 "mirror");
    try lia.
  - left. reflexivity.
  - discriminate.
  - repeat constructor.
Defined.

Lemma border_treatment_pad_crop_round_trip_witness :
  exists padded,
    border_treatment [ [ [ [ [1; 2; 3]; [4; 5; 6] ] ] ] ]%Q
                     [1; 4; 7] "mirror" 3 = Ok padded /\
    border_treatment padded [1; 2; 3] "crop" 3
    = Ok [ [ [ [ [1; 2; 3]; [4; 5; 6] ] ] ] ]%Q.
Proof.
  apply (@border_treatment_pad_crop_round_trip
           [ [ [ [ [1; 2; 3]; [4; 5; 6] ] ] ] ]%Q 1 2 3 1 4 7 "mirror");
    try lia; try reflexivity.
  - left. reflexivity.
  - repeat constructor.
Defined.

(** With [ndim = 2] the windows along axes 2 and 3 are placed by the
    extents of axes 1 and 2. *)
Lemma treat_array_crop_2d (data : arr4) (C H W h w : Z) :
  fits4 [C; 1; H; W] data = true -> 0 < C -> 0 < H -> 0 < W ->
  2 <= h <= H ->
  exists out,
    treat_array [h; w] "crop" 2 data = Ok out /\
    fits4 [C; 1; 0; w] out = true.
Proof.
  intros Hf HC HH HW Hh.
  unfold treat_array. cbn [String.eqb Ascii.eqb Bool.eqb].
  rewrite (@shape4_fits C 1 H W data Hf HC ltac:(lia) HH).
  cbn [tl combine map fst snd Z.eqb Pos.eqb].
  repeat (progress (rewrite ?py_index_head, ?py_index_second; cbn [bind])).
  eexists. split; [reflexivity |].
  apply fits4_spec in Hf. destruct Hf as [Hlen Hch].
  rewrite Forall_forall in Hch.
  apply fits4_spec. unfold crop2. split.
  - rewrite zlen_map. exact Hlen.
  - apply Forall_forall. intros ch' Hin. apply in_map_iff in Hin.
    destruct Hin as (ch & <- & Hin).
    pose proof (proj1 (@fits_spec _ _ _ _ _) (Hch ch Hin)) as [Hlc Hp].
    rewrite Forall_forall in Hp.
    apply fits_spec. split; [rewrite zlen_map; exact Hlc |].
    apply Forall_forall. intros p' Hin'. apply in_map_iff in Hin'.
    destruct Hin' as (p & <- & Hin').
    destruct (Hp p Hin') as [Hlp _].
    assert (Hempty : slice p ((1 - h) / 2) ((1 - h) / 2 + h) = []).
    { unfold slice, slice_bound. rewrite Hlp.
      pose proof (Z.div_mod (1 - h) 2 ltac:(lia)).
      pose proof (Z.mod_pos_bound (1 - h) 2 ltac:(lia)).
      destruct ((1 - h) / 2 <? 0) eqn:E1; [| apply Z.ltb_ge in E1; lia].
      destruct ((1 - h) / 2 + h <? 0) eqn:E2; [apply Z.ltb_lt in E2; lia |].
      replace (Z.to_nat _) with 0%nat by lia. reflexivity. }
    rewrite Hempty. split; [reflexivity | constructor].
Qed.

(** X15: With ['crop'] and [ndim = 2] the offsets are computed from the array's
    axes 1 and 2 but applied to its axes 2 and 3: on arrays of shape [(C,
    1, H, W)] a patch size [(h, w)] with [2 <= h <= H] leaves axis 2 empty
    (lines 43-58). *)
Theorem border_treatment_crop_2d_offsets :
  forall data_list H W h w,
    0 < H -> 0 < W -> 2 <= h <= H ->
    Forall (spatial 1 H W) data_list ->
    exists outs,
      border_treatment data_list [h; w] "crop" 2 = Ok outs /\
      Forall2 (fun data out => fits4 [zlen data; 1; 0; w] out = true)
              data_list outs.
Proof.
  intros data_list H W h w HH HW Hh Hall.
  unfold border_treatment. apply mapM_Forall2.
  intros data Hin. rewrite Forall_forall in Hall.
  destruct (Hall data Hin) as [HC Hf].
  apply (@treat_array_crop_2d data (zlen data) H W h w); assumption.
Qed.

Lemma border_treatment_crop_2d_offsets_witness :
  exists outs,
    border_treatment
      [ [ [ [ [1; 2; 3]; [4; 5; 6]; [7; 8; 9] ] ] ] ]%Q [2; 2] "crop" 2
    = Ok outs /\
    Forall2 (fun data out => fits4 [zlen data; 1; 0; 2] out = true)
            [ [ [ [ [1; 2; 3]; [4; 5; 6]; [7; 8; 9] ] ] ] ]%Q outs.
Proof.
  apply (@border_treatment_crop_2d_offsets
           [ [ [ [ [1; 2; 3]; [4; 5; 6]; [7; 8; 9] ] ] ] ]%Q 3 3 2 2);
    try lia.
  repeat constructor.
Defined.

(** ** Swapping axes *)

Lemma flat_map_pick {A B : Type} (g : A -> option B) (l : list A) :
  (forall a, In a l -> g a <> None) ->
  length (flat_map (fun a => match g a with
                             | Some x => [x]
                             | None => []
                             end) l) = length l /\
  forall i,
    nth_error (flat_map (fun a => match g a with
                                  | Some x => [x]
                                  | None => []
                                  end) l) i
    = match nth_error l i with
      | Some a => g a
      | None => None
      end.
Proof.
  induction l as [| a l IH]; intros H.
  - split; [reflexivity |]. intros [| i]; reflexivity.
  - destruct (IH (fun x Hx => H x (or_intror Hx))) as [IHl IHn].
    cbn [flat_map].
    destruct (g a) as [x |] eqn:E;
      [| exfalso; exact (H a (or_introl eq_refl) E)].
    split.
    + cbn [app length]. rewrite IHl. reflexivity.
    + intros [| i]; cbn [app nth_error]; [symmetry; exact E | apply IHn].
Qed.

Lemma nth_error_Some_of_lt {A : Type} (l : list A) (i : nat) :
  (i < length l)%nat -> nth_error l i <> None.
Proof. intros H E. apply nth_error_None in E. lia. Qed.

Lemma nth_error_seq_map {B : Type} (f : nat -> B) (n i : nat) :
  nth_error (map f (seq 0 n)) i = if Nat.ltb i n then Some (f i) else None.
Proof.
  rewrite nth_error_map.
  destruct (Nat.ltb_spec i n) as [H | H].
  - rewrite nth_error_seq.
    destruct (Nat.ltb_spec i n); [reflexivity | lia].
  - replace (nth_error (seq 0 n) i) with (@None nat); [reflexivity |].
    symmetry. apply nth_error_None. rewrite length_seq. exact H.
Qed.

Section Swap.
Variable A : Type.

Lemma swapaxes01_rect (n0 n1 : nat) (a : list (list A)) :
  rect2 n0 n1 a -> (0 < n0)%nat ->
  rect2 n1 n0 (swapaxes01 a) /\
  forall i j, (i < n0)%nat -> (j < n1)%nat ->
    match nth_error (swapaxes01 a) j with
    | Some c => nth_error c i
    | None => None
    end
    = match nth_error a i with
      | Some r => nth_error r j
      | None => None
      end.
Proof.
  intros [Ha Hr] H0. unfold swapaxes01.
  assert (Hhd : length (hd [] a) = n1).
  { destruct a as [| r a']; [simpl in Ha; lia |]. apply Hr. left. reflexivity. }
  rewrite Hhd.
  assert (Hpick : forall j, (j < n1)%nat ->
            forall r, In r a -> nth_error r j <> None).
  { intros j Hj r Hin. apply nth_error_Some_of_lt. rewrite (Hr r Hin). exact Hj. }
  split.
  - split; [rewrite length_map, length_seq; reflexivity |].
    intros c Hc. apply in_map_iff in Hc. destruct Hc as (j & <- & Hj).
    apply in_seq in Hj.
    rewrite (proj1 (flat_map_pick (fun r => nth_error r j) a
                      (Hpick j ltac:(lia)))).
    exact Ha.
  - intros i j Hi Hj. rewrite nth_error_seq_map.
    destruct (Nat.ltb_spec j n1); [| lia].
    apply (proj2 (flat_map_pick (fun r => nth_error r j) a (Hpick j Hj))).
Qed.

Lemma swapaxes02_rect (n0 n1 n2 : nat) (a : list (list (list A))) :
  rect3 n0 n1 n2 a -> (0 < n0)%nat -> (0 < n1)%nat ->
  rect3 n2 n1 n0 (swapaxes02 a) /\
  forall i j k, (i < n0)%nat -> (j < n1)%nat -> (k < n2)%nat ->
    cell (swapaxes02 a) k j i = cell a i j k.
Proof.
  intros [Ha Hp] H0 H1. unfold swapaxes02.
  assert (Hhd : length (hd [] a) = n1 /\ length (hd [] (hd [] a)) = n2).
  { destruct a as [| p a']; [simpl in Ha; lia |].
    destruct (Hp p (or_introl eq_refl)) as [Hlp Hr]. cbn [hd].
    split; [exact Hlp |].
    destruct p as [| r p']; [simpl in Hlp; lia |].
    apply Hr. left. reflexivity. }
  destruct Hhd as [Hhd1 Hhd2]. rewrite Hhd1, Hhd2.
  set (pick := fun (j k : nat) (p : list (list A)) =>
                 match nth_error p j with
                 | Some r => nth_error r k
                 | None => None
                 end).
  assert (Hpick : forall j k, (j < n1)%nat -> (k < n2)%nat ->
            forall p, In p a -> pick j k p <> None).
  { intros j k Hj Hk p Hin. unfold pick.
    destruct (Hp p Hin) as [Hlp Hr].
    destruct (nth_error p j) as [r |] eqn:E.
    - apply nth_error_Some_of_lt. rewrite (Hr r (nth_error_In _ _ E)). exact Hk.
    - apply nth_error_None in E. lia. }
  assert (Hflat : forall j k,
            flat_map (fun p : list (list A) =>
                        match nth_error p j with
                        | Some r => match nth_error r k with
                                    | Some x => [x]
                                    | None => []
                                    end
                        | None => []
                        end) a
            = flat_map (fun p => match pick j k p with
                                 | Some x => [x]
                                 | None => []
                                 end) a).
  { intros j k. apply flat_map_ext. intros p. unfold pick.
    destruct (nth_error p j); reflexivity. }
  split.
  - split; [rewrite length_map, length_seq; reflexivity |].
    intros q Hq. apply in_map_iff in Hq. destruct Hq as (k & <- & Hk).
    apply in_seq in Hk.
    split; [rewrite length_map, length_seq; reflexivity |].
    intros c Hc. apply in_map_iff in Hc. destruct Hc as (j & <- & Hj).
    apply in_seq in Hj. rewrite Hflat.
    rewrite (proj1 (flat_map_pick (pick j k) a
                      (Hpick j k ltac:(lia) ltac:(lia)))).
    exact Ha.
  - intros i j k Hi Hj Hk. unfold cell at 1.
    rewrite nth_error_seq_map.
    destruct (Nat.ltb_spec k n2); [| lia].
    rewrite nth_error_seq_map.
    destruct (Nat.ltb_spec j n1); [| lia].
    rewrite Hflat.
    rewrite (proj2 (flat_map_pick (pick j k) a (Hpick j k Hj Hk))).
    unfold cell, pick. destruct (nth_error a i); reflexivity.
Qed.

Lemma rect3_ext (n0 n1 n2 : nat) (a b : list (list (list A))) :
  rect3 n0 n1 n2 a -> rect3 n0 n1 n2 b ->
  (forall i j k, (i < n0)%nat -> (j < n1)%nat -> (k < n2)%nat ->
                 cell a i j k = cell b i j k) ->
  a = b.
Proof.
  intros [La Pa] [Lb Pb] Hc.
  assert (Hext : forall (T : Type) (n : nat) (l l' : list T),
            length l = n -> length l' = n ->
            (forall i, (i < n)%nat -> nth_error l i = nth_error l' i) ->
            l = l').
  { intros T n l l' Hl Hl' H. apply nth_error_ext. intros i.
    destruct (Nat.lt_ge_cases i n) as [Hi | Hi]; [apply H; exact Hi |].
    rewrite (proj2 (nth_error_None l i)) by lia.
    rewrite (proj2 (nth_error_None l' i)) by lia. reflexivity. }
  apply (Hext _ n0 a b La Lb). intros i Hi.
  destruct (nth_error a i) as [pa |] eqn:Ea;
    [| apply nth_error_None in Ea; lia].
  destruct (nth_error b i) as [pb |] eqn:Eb;
    [| apply nth_error_None in Eb; lia].
  f_equal.
  destruct (Pa pa (nth_error_In _ _ Ea)) as [Lpa Ra].
  destruct (Pb pb (nth_error_In _ _ Eb)) as [Lpb Rb].
  apply (Hext _ n1 pa pb Lpa Lpb). intros j Hj.
  destruct (nth_error pa j) as [ra |] eqn:Era;
    [| apply nth_error_None in Era; lia].
  destruct (nth_error pb j) as [rb |] eqn:Erb;
    [| apply nth_error_None in Erb; lia].
  f_equal.
  apply (Hext _ n2 ra rb (Ra ra (nth_error_In _ _ Era))
                         (Rb rb (nth_error_In _ _ Erb))).
  intros k Hk. specialize (Hc i j k Hi Hj Hk). unfold cell in Hc.
  rewrite Ea, Eb, Era, Erb in Hc. exact Hc.
Qed.

End Swap.

(** X16: On an array of extents [(X, Y, Z)], all positive, [xyz2zxy] returns an
    array of extents [(Z, X, Y)] whose entry [(z, x, y)] is the input's
    entry [(x, y, z)]; applied three times it gives the input back (lines
    740-755). *)
Theorem xyz2zxy_spec :
  forall (A : Type) (vol : list (list (list A))) (X Y Z : nat),
    rect3 X Y Z vol -> (0 < X)%nat -> (0 < Y)%nat -> (0 < Z)%nat ->
    rect3 Z X Y (xyz2zxy vol) /\
    (forall x y z, (x < X)%nat -> (y < Y)%nat -> (z < Z)%nat ->
                   cell (xyz2zxy vol) z x y = cell vol x y z) /\
    xyz2zxy (xyz2zxy (xyz2zxy vol)) = vol.
Proof.
  assert (Hone : forall (A : Type) (vol : list (list (list A))) (X Y Z : nat),
            rect3 X Y Z vol -> (0 < X)%nat -> (0 < Y)%nat -> (0 < Z)%nat ->
            rect3 Z X Y (xyz2zxy vol) /\
            (forall x y z, (x < X)%nat -> (y < Y)%nat -> (z < Z)%nat ->
                           cell (xyz2zxy vol) z x y = cell vol x y z)).
  { intros A vol X Y Z Hvol HX HY HZ. unfold xyz2zxy.
    destruct Hvol as [Lv Pv].
    assert (H2 : rect2 X Y vol).
    { split; [exact Lv |]. intros p Hp. apply (Pv p Hp). }
    destruct (@swapaxes01_rect _ X Y vol H2 HX) as [[L1 R1] C1].
    assert (H3 : rect3 Y X Z (swapaxes01 vol)).
    { split; [exact L1 |]. intros q Hq. split; [apply R1; exact Hq |].
      intros r Hr.
      destruct (In_nth_error _ _ Hq) as (y & Ey).
      destruct (In_nth_error _ _ Hr) as (x & Ex).
      assert (Hy : (y < Y)%nat).
      { rewrite <- L1. apply nth_error_Some. rewrite Ey. discriminate. }
      assert (Hx : (x < X)%nat).
      { rewrite <- (R1 q Hq). apply nth_error_Some. rewrite Ex. discriminate. }
      specialize (C1 x y Hx Hy). rewrite Ey, Ex in C1.
      destruct (nth_error vol x) as [p |] eqn:Ep;
        [| apply nth_error_None in Ep; lia].
      symmetry in C1.
      apply (proj2 (Pv p (nth_error_In _ _ Ep)) r (nth_error_In _ _ C1)). }
    destruct (@swapaxes02_rect _ Y X Z (swapaxes01 vol) H3 HY HX) as [R C].
    split; [exact R |].
    intros x y z Hx Hy Hz. rewrite (C y x z Hy Hx Hz).
    specialize (C1 x y Hx Hy).
    transitivity (match
                    match nth_error (swapaxes01 vol) y with
                    | Some c => nth_error c x
                    | None => None
                    end
                  with
                  | Some r => nth_error r z
                  | None => None
                  end).
    { unfold cell. destruct (nth_error (swapaxes01 vol) y); reflexivity. }
    rewrite C1. unfold cell. destruct (nth_error vol x); reflexivity. }
  intros A vol X Y Z Hvol HX HY HZ.
  destruct (Hone A vol X Y Z Hvol HX HY HZ) as [R1 C1].
  split; [exact R1 |]. split; [exact C1 |].
  destruct (Hone A _ Z X Y R1 HZ HX HY) as [R2 C2].
  destruct (Hone A _ Y Z X R2 HY HZ HX) as [R3 C3].
  apply (@rect3_ext A X Y Z _ _ R3 Hvol).
  intros x y z Hx Hy Hz.
  rewrite (C3 y z x Hy Hz Hx), (C2 z x y Hz Hx Hy). apply C1; assumption.
Qed.

Lemma xyz2zxy_spec_witness :
  rect3 3 1 2 (xyz2zxy [ [ [1; 2; 3]; [4; 5; 6] ] ]) /\
  xyz2zxy (xyz2zxy (xyz2zxy [ [ [1; 2; 3]; [4; 5; 6] ] ]))
  = [ [ [1; 2; 3]; [4; 5; 6] ] ].
Proof.
  assert (H : rect3 1 2 3 [ [ [1; 2; 3]; [4; 5; 6] ] ]).
  { split; [reflexivity |]. intros p [<- | []].
    split; [reflexivity |]. intros r [<- | [<- | []]]; reflexivity. }
  destruct (@xyz2zxy_spec Z [ [ [1; 2; 3]; [4; 5; 6] ] ] 1 2 3 H
              ltac:(lia) ltac:(lia) ltac:(lia)) as (H1 & _ & H3).
  split; assumption.
Defined.

(** ** Grey-value augmentation *)

Lemma qpow_pos (x : Q) (n : nat) : (0 < x)%Q -> (0 < Steps.qpow x n)%Q.
Proof.
  intros Hx. induction n as [| n IH]; simpl; [reflexivity |].
  apply Qmult_lt_0_compat; assumption.
Qed.

Lemma qpow_unit (x : Q) (n : nat) :
  (0 <= x <= 1)%Q -> (0 <= Steps.qpow x n <= 1)%Q.
Proof.
  intros [H0 H1]. induction n as [| n [IH0 IH1]]; simpl.
  - split; discriminate.
  - split.
    + apply Qmult_le_0_compat; assumption.
    + apply Qle_trans with (1 * Steps.qpow x n)%Q.
      * apply Qmult_le_compat_r; assumption.
      * rewrite Qmult_1_l. exact IH1.
Qed.

Lemma steps_laws : @PowerLaws Steps.steps.
Proof.
  split.
  - intros y. cbn [pow Steps.steps]. unfold Steps.pow_q.
    destruct (Qle_bool 0 y).
    + apply qpow_pos. reflexivity.
    + apply Qinv_lt_0_compat. apply qpow_pos. reflexivity.
  - intros x g Hx Hg. cbn [pow Steps.steps]. unfold Steps.pow_q.
    destruct (Qle_bool 0 g) eqn:E.
    + apply qpow_unit. exact Hx.
    + exfalso. apply Qlt_le_weak in Hg. apply Qle_bool_iff in Hg. congruence.
Qed.

Section GreyLemmas.
Context {power : Power} {random : RandomSource}.

Lemma rand_n_app (a b : nat) (s : rng_state) :
  rand_n (a + b) s
  = let '(xs, s1) := rand_n a s in
    let '(ys, s2) := rand_n b s1 in
    (xs ++ ys, s2).
Proof.
  revert s. induction a as [| a IH]; intros s; cbn [rand_n Nat.add].
  - destruct (rand_n b s). reflexivity.
  - destruct (rand s) as [x s0]. rewrite IH.
    destruct (rand_n a s0) as [xs s1]. destruct (rand_n b s1) as [ys s2].
    reflexivity.
Qed.

Lemma rand_n_length (k : nat) (s : rng_state) :
  length (fst (rand_n k s)) = k.
Proof.
  revert s. induction k as [| k IH]; intros s; cbn [rand_n]; [reflexivity |].
  destruct (rand s) as [x s0]. specialize (IH s0).
  destruct (rand_n k s0) as [xs s1]. simpl in *. lia.
Qed.

Lemma set_nth_length {A : Type} (i : nat) (v : A) (l : list A) :
  (i < length l)%nat -> length (set_nth i v l) = length l.
Proof. intros H. unfold set_nth. apply length_set. exact H. Qed.

Lemma set_nth_nth {A : Type} (i : nat) (v : A) (l : list A) (k : nat) :
  (i < length l)%nat ->
  nth_error (set_nth i v l) k = if Nat.eqb k i then Some v else nth_error l k.
Proof. intros H. unfold set_nth. apply nth_error_set. exact H. Qed.

Lemma assign_channels_spec {A : Type} (channels : list Z) :
  forall (vals : list A) (d d1 : list A),
    length vals = length channels ->
    assign_channels d channels vals = Ok d1 ->
    length d1 = length d /\
    forall c,
      (selects (zlen d) channels c ->
       exists i ci, nth_error channels i = Some ci /\
                    norm_index (zlen d) ci = Z.of_nat c /\
                    nth_error vals i <> None /\
                    nth_error d1 c = nth_error vals i) /\
      (~ selects (zlen d) channels c -> nth_error d1 c = nth_error d c).
Proof.
  induction channels as [| ci channels IH]; intros vals d d1 Hlen H.
  - destruct vals; [| discriminate]. simpl in H. injection H as <-.
    split; [reflexivity |]. intros c. split.
    + intros (i & [] & _).
    + reflexivity.
  - destruct vals as [| v vals]; [discriminate |].
    cbn [assign_channels] in H. fold (norm_index (zlen d) ci) in H.
    set (j := norm_index (zlen d) ci) in *.
    destruct ((0 <=? j) && (j <? zlen d)) eqn:Ej; [| discriminate].
    apply andb_true_iff in Ej. destruct Ej as [Ej0 Ej1].
    apply Z.leb_le in Ej0. apply Z.ltb_lt in Ej1.
    assert (Hj : (Z.to_nat j < length d)%nat) by (unfold zlen in Ej1; lia).
    assert (Hz : zlen (set_nth (Z.to_nat j) v d) = zlen d).
    { unfold zlen. rewrite set_nth_length by exact Hj. reflexivity. }
    destruct (IH vals _ d1 ltac:(simpl in Hlen; lia) H) as [Hl Hc].
    rewrite Hz in Hc.
    split; [rewrite Hl; apply set_nth_length; exact Hj |].
    intros c.
    assert (Hdec : selects (zlen d) channels c \/ ~ selects (zlen d) channels c).
    { unfold selects. clear. induction channels as [| a l IHl].
      - right. intros (i & [] & _).
      - destruct IHl as [(i & Hi & E) | Hn].
        + left. exists i. split; [right; exact Hi | exact E].
        + destruct (Z.eq_dec (norm_index (zlen d) a) (Z.of_nat c))
            as [E | E].
          * left. exists a. split; [left; reflexivity | exact E].
          * right. intros (i & [<- | Hi] & E'); [exact (E E') |].
            apply Hn. exists i. split; assumption. }
    split.
    + intros Hsel. destruct Hdec as [Hs | Hn].
      * destruct (proj1 (Hc c) Hs) as (i & ci' & E1 & E2 & E3 & E4).
        exists (S i), ci'. cbn [nth_error]. auto.
      * destruct Hsel as (i & [<- | Hi] & E).
        -- exists 0%nat, ci. cbn [nth_error]. split; [reflexivity |].
           split; [exact E |]. split; [discriminate |].
           rewrite (proj2 (Hc c) Hn). rewrite set_nth_nth by exact Hj.
           fold j in E.
           replace (Nat.eqb c (Z.to_nat j)) with true; [reflexivity |].
           symmetry. apply Nat.eqb_eq. lia.
        -- exfalso. apply Hn. exists i. split; assumption.
    + intros Hn.
      assert (Hn' : ~ selects (zlen d) channels c).
      { intros (i & Hi & E). apply Hn. exists i. split; [right; exact Hi | exact E]. }
      rewrite (proj2 (Hc c) Hn'). rewrite set_nth_nth by exact Hj.
      destruct (Nat.eqb c (Z.to_nat j)) eqn:E; [| reflexivity].
      apply Nat.eqb_eq in E. exfalso. apply Hn. exists ci.
      split; [left; reflexivity |].
      fold j. lia.
Qed.

End GreyLemmas.

Section GreySpec.
Context {power : Power} {random : RandomSource}.

Lemma py_index_norm {A : Type} (l : list A) (i : Z) (a : A) :
  py_index l i = Ok a ->
  0 <= norm_index (zlen l) i < zlen l /\
  nth_error l (Z.to_nat (norm_index (zlen l) i)) = Some a.
Proof.
  unfold py_index. fold (norm_index (zlen l) i).
  set (j := norm_index (zlen l) i).
  destruct ((0 <=? j) && (j <? zlen l)) eqn:E; [| discriminate].
  apply andb_true_iff in E. destruct E as [E0 E1].
  apply Z.leb_le in E0. apply Z.ltb_lt in E1.
  destruct (nth_error l (Z.to_nat j)) eqn:En; [| discriminate].
  intros H. injection H as <-. auto.
Qed.

Lemma update_channels_spec {P : Type} (f : P -> Q -> Q) (a : list P)
  (channels : list Z) (d d1 : arr3) :
  length a = length channels ->
  update_channels f a channels d = Ok d1 ->
  length d1 = length d /\
  forall c ch, nth_error d c = Some ch ->
    (selects (zlen d) channels c ->
     exists p, In p a /\ nth_error d1 c = Some (map (map (f p)) ch)) /\
    (~ selects (zlen d) channels c -> nth_error d1 c = Some ch).
Proof.
  intros Hla H. unfold update_channels in H.
  apply bind_Ok in H. destruct H as (sel & Hsel & H).
  pose proof (mapM_length _ _ Hsel) as Hls.
  apply mapM_Ok in Hsel.
  assert (Hlv : length (map (fun p : list (list Q) * P =>
                              map (map (f (snd p))) (fst p)) (combine sel a))
                = length channels).
  { rewrite length_map, length_combine. lia. }
  destruct (@assign_channels_spec _ channels _ d d1 Hlv H) as [Hl Hc].
  split; [exact Hl |]. intros c ch Ech. split.
  - intros Hs. destruct (proj1 (Hc c) Hs) as (i & ci & E1 & E2 & _ & E4).
    rewrite E4. rewrite nth_error_map, nth_error_combine.
    destruct (Forall2_nth_error i Hsel E1) as (s & Es & Hpy).
    rewrite Es.
    destruct (nth_error a i) as [p |] eqn:Ep.
    + exists p. split; [apply (nth_error_In _ _ Ep) |].
      cbn [option_map fst snd]. f_equal. f_equal.
      apply py_index_norm in Hpy. destruct Hpy as [_ Hpy].
      rewrite E2, Nat2Z.id in Hpy. unfold arr3 in *. congruence.
    + apply nth_error_None in Ep.
      assert (i < length channels)%nat
        by (apply nth_error_Some; rewrite E1; discriminate).
      lia.
  - intros Hn. rewrite (proj2 (Hc c) Hn). exact Ech.
Qed.

Lemma rand_n_3 (k : nat) (s : rng_state) :
  snd (rand_n (3 * k) s)
  = snd (rand_n k (snd (rand_n k (snd (rand_n k s))))).
Proof.
  replace (3 * k)%nat with (k + (k + k))%nat by lia.
  rewrite rand_n_app. destruct (rand_n k s) as [xs s1]. cbn [snd].
  rewrite rand_n_app. destruct (rand_n k s1) as [ys s2]. cbn [snd].
  destruct (rand_n k s2) as [zs s3]. reflexivity.
Qed.

Lemma selects_dec (n : Z) (channels : list Z) (c : nat) :
  selects n channels c \/ ~ selects n channels c.
Proof.
  unfold selects. induction channels as [| a l IHl].
  - right. intros (i & [] & _).
  - destruct IHl as [(i & Hi & E) | Hn].
    + left. exists i. split; [right; exact Hi | exact E].
    + destruct (Z.eq_dec (norm_index n a) (Z.of_nat c)) as [E | E].
      * left. exists a. split; [left; reflexivity | exact E].
      * right. intros (i & [<- | Hi] & E'); [exact (E E') |].
        apply Hn. exists i. split; assumption.
Qed.

(** One step on a 4-D array: the selected channels are replaced by what
    [g] makes of them, whenever the values to write are [g] of the
    selection. *)
Lemma assign_selected (g : arr3 -> arr3) (channels : list Z) (d d1 : arr4)
  (sel : list arr3) :
  mapM (py_index d) channels = Ok sel ->
  assign_channels d channels (map g sel) = Ok d1 ->
  length d1 = length d /\
  forall c ch, nth_error d c = Some ch ->
    (selects (zlen d) channels c -> nth_error d1 c = Some (g ch)) /\
    (~ selects (zlen d) channels c -> nth_error d1 c = Some ch).
Proof.
  intros Hsel H.
  pose proof (mapM_length _ _ Hsel) as Hls.
  apply mapM_Ok in Hsel.
  assert (Hlv : length (map g sel) = length channels)
    by (rewrite length_map; exact Hls).
  destruct (@assign_channels_spec _ channels _ d d1 Hlv H) as [Hl Hc].
  split; [exact Hl |]. intros c ch Ech. split.
  - intros Hs. destruct (proj1 (Hc c) Hs) as (i & ci & E1 & E2 & _ & E4).
    rewrite E4, nth_error_map.
    destruct (Forall2_nth_error i Hsel E1) as (s & Es & Hpy).
    rewrite Es. cbn [option_map]. f_equal. f_equal.
    apply py_index_norm in Hpy. destruct Hpy as [_ Hpy].
    rewrite E2, Nat2Z.id in Hpy. congruence.
  - intros Hn. rewrite (proj2 (Hc c) Hn). exact Ech.
Qed.

Lemma selected_In (channels : list Z) (d : arr4) (sel : list arr3)
  (c : nat) (ch : arr3) :
  mapM (py_index d) channels = Ok sel ->
  nth_error d c = Some ch -> selects (zlen d) channels c -> In ch sel.
Proof.
  intros Hsel Ech (i & Hi & E).
  apply mapM_Ok in Hsel.
  apply In_nth_error in Hi. destruct Hi as (n & Hn).
  destruct (Forall2_nth_error n Hsel Hn) as (s & Es & Hpy).
  apply py_index_norm in Hpy. destruct Hpy as [_ Hpy].
  rewrite E, Nat2Z.id in Hpy.
  assert (s = ch) by congruence. subst s.
  exact (nth_error_In _ _ Es).
Qed.

(** With one parameter, it is spread over the selected channels. *)
Lemma update_channels4_one {P : Type} (f : P -> Q -> Q) (p : P)
  (channels : list Z) (d d1 : arr4) :
  update_channels4 f [p] channels d = Ok d1 ->
  length d1 = length d /\
  forall c ch, nth_error d c = Some ch ->
    (selects (zlen d) channels c ->
     nth_error d1 c = Some (map (map (map (f p))) ch)) /\
    (~ selects (zlen d) channels c -> nth_error d1 c = Some ch).
Proof.
  unfold update_channels4. intros H.
  apply bind_Ok in H. destruct H as (sel & Hsel & H).
  cbn [spread4 bind] in H.
  exact (@assign_selected (map (map (map (f p)))) _ _ _ _ Hsel H).
Qed.

(** With two or more parameters, the selected channels have as many
    planes as there are parameters and plane [z] gets parameter [z]. *)
Lemma update_channels4_many {P : Type} (f : P -> Q -> Q) (a : list P)
  (channels : list Z) (d d1 : arr4) :
  (2 <= length a)%nat ->
  update_channels4 f a channels d = Ok d1 ->
  length d1 = length d /\
  forall c ch, nth_error d c = Some ch ->
    (selects (zlen d) channels c ->
     length ch = length a /\ nth_error d1 c = Some (spread f a ch)) /\
    (~ selects (zlen d) channels c -> nth_error d1 c = Some ch).
Proof.
  unfold update_channels4. intros Ha H.
  apply bind_Ok in H. destruct H as (sel & Hsel & H).
  apply bind_Ok in H. destruct H as (vals & Hv & H).
  assert (Hall : forallb (fun ch : arr3 => Nat.eqb (length ch) (length a)) sel
                 = true /\ vals = map (spread f a) sel).
  { unfold spread4 in Hv.
    destruct a as [| p [| q a']]; [simpl in Ha; lia | simpl in Ha; lia |].
    destruct (forallb _ sel); [now injection Hv as <- |].
    destruct (forallb _ sel); discriminate Hv. }
  destruct Hall as [Hall ->].
  destruct (@assign_selected (spread f a) _ _ _ _ Hsel H) as [Hl Hc].
  split; [exact Hl |]. intros c ch Ech.
  destruct (Hc c ch Ech) as [Hs Hn]. split; [| exact Hn].
  intros Hsl. split; [| exact (Hs Hsl)].
  rewrite forallb_forall in Hall.
  apply Nat.eqb_eq. apply Hall. exact (@selected_In _ _ _ _ _ Hsel Ech Hsl).
Qed.

Lemma clip_channels4_spec (channels : list Z) (d d1 : arr4) :
  clip_channels4 channels d = Ok d1 ->
  length d1 = length d /\
  forall c ch, nth_error d c = Some ch ->
    (selects (zlen d) channels c ->
     nth_error d1 c = Some (map (map (map (clip 0 1))) ch)) /\
    (~ selects (zlen d) channels c -> nth_error d1 c = Some ch).
Proof.
  unfold clip_channels4. intros H.
  apply bind_Ok in H. destruct H as (sel & Hsel & H).
  exact (@assign_selected (map (map (map (clip 0 1)))) _ _ _ _ Hsel H).
Qed.

End GreySpec.

Lemma spread_three {power : Power} (ab : list (Q * Q)) (g : list Q)
  (ch : arr3) :
  spread (fun g x => pow x g) g
    (map (map (map (clip 0 1)))
       (spread (fun ac x => (x * fst ac + snd ac)%Q) ab ch))
  = spread grey_value (combine ab g) ch.
Proof.
  unfold spread. revert ab g.
  induction ch as [| pl ch IH]; intros [| ab0 ab] [| g0 g]; simpl;
    try reflexivity.
  f_equal; [| apply IH].
  rewrite !map_map. apply map_ext. intros r.
  rewrite !map_map. reflexivity.
Qed.

(** X17: Where [2 ** y] is positive and a positive power maps [[0, 1]] into
    itself.  On a 3-D array (channel, x, y): when [grey_augment] returns,
    the generator has advanced by three draws per entry of [channels] and
    the number of channels is kept; a channel named in [channels],
    negative indices counted from the end, holds
    [clip(x * alpha + beta, 0, 1) ** gamma] with [gamma > 0] and all its
    values lie in [[0, 1]]; every other channel is unchanged.  On a 4-D
    array (channel, z, x, y) the parameters are laid along the depth, not
    along the channels: with one entry in [channels] the named channel
    holds [clip(x * alpha + beta, 0, 1) ** gamma] and the others are
    unchanged; with two or more entries the call returns only if every
    named channel has as many planes as [channels] has entries, and then
    plane [z] of every named channel holds
    [clip(x * alpha_z + beta_z, 0, 1) ** gamma_z], the parameters being
    those of position [z] of the draws, the same for every named channel
    (lines 16-34). *)
Theorem grey_augment_spec :
  forall (power : Power) (laws : PowerLaws) (random : RandomSource)
         (channels : list Z) (rng : rng_state)
         (img' : image) (rng' : rng_state),
    (forall d : arr3,
       grey_augment (Image3 d) channels rng = Ok (img', rng') ->
       exists d',
         img' = Image3 d' /\
         rng' = snd (rand_n (3 * length channels) rng) /\
         length d' = length d /\
         forall c ch, nth_error d c = Some ch ->
           (selects (zlen d) channels c ->
            exists alpha beta gamma ch',
              (0 < gamma)%Q /\
              nth_error d' c = Some ch' /\
              ch' = map (map (fun x => pow (clip 0 1 (x * alpha + beta)) gamma))
                        ch /\
              forall r v, In r ch' -> In v r -> (0 <= v <= 1)%Q)
           /\
           (~ selects (zlen d) channels c -> nth_error d' c = Some ch))
    /\
    (forall d : arr4,
       length channels = 1%nat ->
       grey_augment (Image4 d) channels rng = Ok (img', rng') ->
       exists d',
         img' = Image4 d' /\
         rng' = snd (rand_n 3 rng) /\
         length d' = length d /\
         forall c ch, nth_error d c = Some ch ->
           (selects (zlen d) channels c ->
            exists alpha beta gamma,
              (0 < gamma)%Q /\
              nth_error d' c
              = Some (map (map (map
                    (fun x => pow (clip 0 1 (x * alpha + beta)) gamma))) ch))
           /\
           (~ selects (zlen d) channels c -> nth_error d' c = Some ch))
    /\
    (forall d : arr4,
       (2 <= length channels)%nat ->
       grey_augment (Image4 d) channels rng = Ok (img', rng') ->
       exists d' params,
         img' = Image4 d' /\
         rng' = snd (rand_n (3 * length channels) rng) /\
         length d' = length d /\
         length params = length channels /\
         (forall p, In p params -> (0 < snd p)%Q) /\
         forall c ch, nth_error d c = Some ch ->
           (selects (zlen d) channels c ->
            length ch = length channels /\
            nth_error d' c = Some (spread grey_value params ch))
           /\
           (~ selects (zlen d) channels c -> nth_error d' c = Some ch)).
Proof.
  intros power laws random channels rng img' rng'.
  split; [| split].
  - intros d H.
    unfold grey_augment in H.
    destruct channels as [| c0 channels0] eqn:Ech.
    + injection H as <- <-. exists d.
      split; [reflexivity |]. split; [reflexivity |]. split; [reflexivity |].
      intros c ch Hc. split.
      * intros (i & [] & _).
      * intros _. exact Hc.
    + rewrite <- Ech in *. clear Ech c0 channels0.
      set (k := length channels) in *.
      rewrite rand_n_3. fold k.
      pose proof (rand_n_length k rng) as L1.
      destruct (rand_n k rng) as [r1 s1]. cbn [snd fst] in *.
      pose proof (rand_n_length k s1) as L2.
      destruct (rand_n k s1) as [r2 s2]. cbn [snd fst] in *.
      pose proof (rand_n_length k s2) as L3.
      destruct (rand_n k s2) as [r3 s3]. cbn [snd fst] in *.
      apply bind_Ok in H. destruct H as (d1 & H1 & H).
      apply bind_Ok in H. destruct H as (d2 & H2 & H).
      apply bind_Ok in H. destruct H as (d3 & H3 & H).
      injection H as <- <-. exists d3.
      apply update_channels_spec in H1;
        [| rewrite length_combine, !length_map; lia].
      apply update_channels_spec in H2; [| rewrite length_map; reflexivity].
      apply update_channels_spec in H3; [| rewrite length_map; lia].
      destruct H1 as [Hl1 Hc1], H2 as [Hl2 Hc2], H3 as [Hl3 Hc3].
      assert (Z1 : zlen d1 = zlen d) by (unfold zlen; lia).
      assert (Z2 : zlen d2 = zlen d) by (unfold zlen; lia).
      rewrite Z2 in Hc3. rewrite Z1 in Hc2.
      split; [reflexivity |]. split; [reflexivity |]. split; [lia |].
      intros c ch Hc. split.
      * intros Hs.
        destruct (proj1 (Hc1 c ch Hc) Hs) as ([alpha beta] & _ & E1).
        destruct (proj1 (Hc2 c _ E1) Hs) as ([] & _ & E2).
        destruct (proj1 (Hc3 c _ E2) Hs) as (gamma & Hg & E3).
        apply in_map_iff in Hg. destruct Hg as (x & <- & _).
        exists alpha, beta, (pow 2 (x * 2 - 1)). eexists.
        split; [apply pow_two_pos |]. split; [exact E3 |].
        split.
        -- rewrite !map_map. apply map_ext. intros r.
           rewrite !map_map. reflexivity.
        -- intros r v Hr Hv.
           apply in_map_iff in Hr. destruct Hr as (r' & <- & Hr).
           apply in_map_iff in Hv. destruct Hv as (v' & <- & Hv).
           apply in_map_iff in Hr. destruct Hr as (r'' & <- & Hr).
           apply in_map_iff in Hv. destruct Hv as (v'' & <- & Hv).
           apply pow_unit; [| apply pow_two_pos].
           apply clip_range. discriminate.
      * intros Hn.
        pose proof (proj2 (Hc1 c ch Hc) Hn) as E1.
        pose proof (proj2 (Hc2 c ch E1) Hn) as E2.
        exact (proj2 (Hc3 c ch E2) Hn).
  - intros d Hk H.
    destruct channels as [| i [| ? ?]]; try discriminate Hk. clear Hk.
    unfold grey_augment in H. cbn [length rand_n] in H.
    change (3 * length [i])%nat with 3%nat. cbn [rand_n].
    destruct (rand rng) as [x1 s1].
    destruct (rand s1) as [x2 s2].
    destruct (rand s2) as [x3 s3]. cbn [map combine snd] in *.
    apply bind_Ok in H. destruct H as (d1 & H1 & H).
    apply bind_Ok in H. destruct H as (d2 & H2 & H).
    apply bind_Ok in H. destruct H as (d3 & H3 & H).
    injection H as <- <-. exists d3.
    apply update_channels4_one in H1, H3.
    apply clip_channels4_spec in H2.
    destruct H1 as [Hl1 Hc1], H2 as [Hl2 Hc2], H3 as [Hl3 Hc3].
    assert (Z1 : zlen d1 = zlen d) by (unfold zlen; lia).
    assert (Z2 : zlen d2 = zlen d) by (unfold zlen; lia).
    rewrite Z2 in Hc3. rewrite Z1 in Hc2.
    split; [reflexivity |]. split; [reflexivity |]. split; [lia |].
    intros c ch Hc. split.
    + intros Hs.
      pose proof (proj1 (Hc1 c ch Hc) Hs) as E1.
      pose proof (proj1 (Hc2 c _ E1) Hs) as E2.
      pose proof (proj1 (Hc3 c _ E2) Hs) as E3.
      exists (1 + (x1 - (1 # 2)) * (3 # 10))%Q, ((x2 - (1 # 2)) * (3 # 10))%Q,
             (pow 2 (x3 * 2 - 1)).
      split; [apply pow_two_pos |].
      rewrite E3. f_equal.
      rewrite !map_map. apply map_ext. intros pl.
      rewrite !map_map. apply map_ext. intros r.
      rewrite !map_map. reflexivity.
    + intros Hn.
      pose proof (proj2 (Hc1 c ch Hc) Hn) as E1.
      pose proof (proj2 (Hc2 c ch E1) Hn) as E2.
      exact (proj2 (Hc3 c ch E2) Hn).
  - intros d Hk H.
    unfold grey_augment in H.
    destruct channels as [| c0 channels0] eqn:Ech; [simpl in Hk; lia |].
    rewrite <- Ech in *. clear Ech c0 channels0.
    set (k := length channels) in *.
    rewrite rand_n_3. fold k.
    pose proof (rand_n_length k rng) as L1.
    destruct (rand_n k rng) as [r1 s1]. cbn [snd fst] in *.
    pose proof (rand_n_length k s1) as L2.
    destruct (rand_n k s1) as [r2 s2]. cbn [snd fst] in *.
    pose proof (rand_n_length k s2) as L3.
    destruct (rand_n k s2) as [r3 s3]. cbn [snd fst] in *.
    apply bind_Ok in H. destruct H as (d1 & H1 & H).
    apply bind_Ok in H. destruct H as (d2 & H2 & H).
    apply bind_Ok in H. destruct H as (d3 & H3 & H).
    injection H as <- <-.
    set (alpha := map (fun x => (1 + (x - (1 # 2)) * (3 # 10))%Q) r1) in *.
    set (beta := map (fun x => ((x - (1 # 2)) * (3 # 10))%Q) r2) in *.
    set (gamma := map (fun x => pow 2 (x * 2 - 1)) r3) in *.
    assert (La : length (combine alpha beta) = k)
      by (unfold alpha, beta; rewrite length_combine, !length_map; lia).
    assert (Lg : length gamma = k) by (unfold gamma; rewrite length_map; lia).
    apply update_channels4_many in H1; [| lia].
    apply clip_channels4_spec in H2.
    apply update_channels4_many in H3; [| lia].
    destruct H1 as [Hl1 Hc1], H2 as [Hl2 Hc2], H3 as [Hl3 Hc3].
    assert (Z1 : zlen d1 = zlen d) by (unfold zlen; lia).
    assert (Z2 : zlen d2 = zlen d) by (unfold zlen; lia).
    rewrite Z2 in Hc3. rewrite Z1 in Hc2.
    exists d3, (combine (combine alpha beta) gamma).
    split; [reflexivity |]. split; [reflexivity |]. split; [lia |].
    split; [rewrite length_combine; lia |].
    split.
    { intros [ab g] Hin. apply in_combine_r in Hin. cbn [snd].
      unfold gamma in Hin. apply in_map_iff in Hin.
      destruct Hin as (x & <- & _). apply pow_two_pos. }
    intros c ch Hc. split.
    + intros Hs.
      destruct (proj1 (Hc1 c ch Hc) Hs) as [Lch E1].
      pose proof (proj1 (Hc2 c _ E1) Hs) as E2.
      destruct (proj1 (Hc3 c _ E2) Hs) as [_ E3].
      split; [lia |]. rewrite E3. f_equal.
      apply spread_three.
    + intros Hn.
      pose proof (proj2 (Hc1 c ch Hc) Hn) as E1.
      pose proof (proj2 (Hc2 c ch E1) Hn) as E2.
      exact (proj2 (Hc3 c ch E2) Hn).
Qed.
(** A 3-D array whose first channel is named from the end, and a 4-D
    array of two channels and two planes with both channels named. *)
Lemma grey_augment_spec_witness :
  match @grey_augment Steps.steps Tape.tape
          (Image3 [ [ [1 # 2; 2] ]; [ [3] ] ]%Q) [-2]
          (tape_state [1 # 2; 1 # 4; 3 # 4]%Q) with
  | Ok (Image3 d', _) =>
      length d' = 2%nat /\ nth_error d' 1 = Some [ [3] ]%Q /\
      exists ch', nth_error d' 0 = Some ch' /\
                  forall r v, In r ch' -> In v r -> (0 <= v <= 1)%Q
  | _ => False
  end
  /\
  match @grey_augment Steps.steps Tape.tape
          (Image4 [ [ [[1 # 2]]; [[1 # 4]] ]; [ [[1]]; [[0]] ] ]%Q) [0; 1]
          (tape_state [1 # 2; 1 # 4; 3 # 4; 1; 0; 1 # 3]%Q) with
  | Ok (Image4 d', _) =>
      exists params,
        length params = 2%nat /\
        nth_error d' 0
        = Some (spread (@grey_value Steps.steps) params
                  [ [[1 # 2]]; [[1 # 4]] ]%Q) /\
        nth_error d' 1
        = Some (spread (@grey_value Steps.steps) params [ [[1]]; [[0]] ]%Q)
  | _ => False
  end.
Proof.
  split.
  - destruct (@grey_augment Steps.steps Tape.tape
                (Image3 [ [ [1 # 2; 2] ]; [ [3] ] ]%Q) [-2]
                (tape_state [1 # 2; 1 # 4; 3 # 4]%Q))
      as [[img' rng'] | e] eqn:E; [| vm_compute in E; discriminate E].
    destruct (proj1 (@grey_augment_spec Steps.steps steps_laws Tape.tape
                       _ _ _ _) _ E)
      as (d' & -> & _ & Hl & Hc).
    split; [exact Hl |]. split.
    + apply (proj2 (Hc 1%nat _ eq_refl)).
      intros (i & [<- | []] & Hi). vm_compute in Hi. discriminate Hi.
    + destruct (proj1 (Hc 0%nat _ eq_refl))
        as (a & b & g & ch' & _ & H1 & _ & H2).
      * exists (-2). split; [left; reflexivity | reflexivity].
      * exists ch'. split; assumption.
  - destruct (@grey_augment Steps.steps Tape.tape
                (Image4 [ [ [[1 # 2]]; [[1 # 4]] ]; [ [[1]]; [[0]] ] ]%Q)
                [0; 1] (tape_state [1 # 2; 1 # 4; 3 # 4; 1; 0; 1 # 3]%Q))
      as [[img' rng'] | e] eqn:E; [| vm_compute in E; discriminate E].
    destruct (proj2 (proj2 (@grey_augment_spec Steps.steps steps_laws
                              Tape.tape [0; 1] _ _ _)) _
                ltac:(simpl; lia) E)
      as (d' & params & -> & _ & _ & Lp & _ & Hc).
    exists params. split; [exact Lp |]. split.
    + apply (proj1 (Hc 0%nat _ eq_refl)).
      exists 0. split; [left; reflexivity | reflexivity].
    + apply (proj1 (Hc 1%nat _ eq_refl)).
      exists 1. split; [right; left; reflexivity | reflexivity].
Defined.

(** Two named channels of three planes each: the two parameters cannot
    be laid along the depth. *)
Example grey_augment_depth_mismatch :
  @grey_augment Steps.steps Tape.tape
    (Image4 [ [ [[1]]; [[1]]; [[1]] ]; [ [[0]]; [[0]]; [[0]] ] ]%Q) [0; 1]
    (tape_state [])
  = Raise (ValueError "operands could not be broadcast together").
Proof. reflexivity. Qed.

(** ** Products of 4x4 matrices *)

Ltac dot44 :=
  cbv [dot identity eye column ncols map seq length vdot combine qsum
       fold_left fst snd nth Nat.eqb].

Lemma dot_4_4 (A B : matrix) :
  is_shape 4 4 A = true -> is_shape 4 4 B = true ->
  is_shape 4 4 (dot A B) = true.
Proof.
  intros HA HB.
  destruct (is_shape_4_4 A HA)
    as (a00 & a01 & a02 & a03 & a10 & a11 & a12 & a13 &
        a20 & a21 & a22 & a23 & a30 & a31 & a32 & a33 & ->).
  destruct (is_shape_4_4 B HB)
    as (b00 & b01 & b02 & b03 & b10 & b11 & b12 & b13 &
        b20 & b21 & b22 & b23 & b30 & b31 & b32 & b33 & ->).
  reflexivity.
Qed.

Lemma dot_assoc_4_4 (A B C : matrix) :
  is_shape 4 4 A = true -> is_shape 4 4 B = true -> is_shape 4 4 C = true ->
  meq (dot (dot A B) C) (dot A (dot B C)).
Proof.
  intros HA HB HC.
  destruct (is_shape_4_4 A HA)
    as (a00 & a01 & a02 & a03 & a10 & a11 & a12 & a13 &
        a20 & a21 & a22 & a23 & a30 & a31 & a32 & a33 & ->).
  destruct (is_shape_4_4 B HB)
    as (b00 & b01 & b02 & b03 & b10 & b11 & b12 & b13 &
        b20 & b21 & b22 & b23 & b30 & b31 & b32 & b33 & ->).
  destruct (is_shape_4_4 C HC)
    as (c00 & c01 & c02 & c03 & c10 & c11 & c12 & c13 &
        c20 & c21 & c22 & c23 & c30 & c31 & c32 & c33 & ->).
  unfold meq, veq. dot44. entrywise; ring.
Qed.

Lemma dot_identity_l_4_4 (A : matrix) :
  is_shape 4 4 A = true -> meq (dot identity A) A.
Proof.
  intros HA.
  destruct (is_shape_4_4 A HA)
    as (a00 & a01 & a02 & a03 & a10 & a11 & a12 & a13 &
        a20 & a21 & a22 & a23 & a30 & a31 & a32 & a33 & ->).
  unfold meq, veq. dot44. entrywise; ring.
Qed.

Lemma dot_identity_r_4_4 (A : matrix) :
  is_shape 4 4 A = true -> meq (dot A identity) A.
Proof.
  intros HA.
  destruct (is_shape_4_4 A HA)
    as (a00 & a01 & a02 & a03 & a10 & a11 & a12 & a13 &
        a20 & a21 & a22 & a23 & a30 & a31 & a32 & a33 & ->).
  unfold meq, veq. dot44. entrywise; ring.
Qed.

Lemma meq_shape (A B : matrix) :
  meq A B -> is_shape 4 4 A = true -> is_shape 4 4 B = true.
Proof.
  intros H HA.
  destruct (is_shape_4_4 A HA)
    as (a00 & a01 & a02 & a03 & a10 & a11 & a12 & a13 &
        a20 & a21 & a22 & a23 & a30 & a31 & a32 & a33 & ->).
  unfold meq, veq in H.
  repeat match goal with
         | H : Forall2 _ (_ :: _) _ |- _ => inversion H; clear H; subst
         | H : Forall2 _ [] _ |- _ => inversion H; clear H; subst
         end.
  reflexivity.
Qed.

Lemma dot_proper_r_4_4 (A B B' : matrix) :
  is_shape 4 4 A = true -> is_shape 4 4 B = true ->
  meq B B' -> meq (dot A B) (dot A B').
Proof.
  intros HA HB H.
  pose proof (meq_shape H HB) as HB'.
  assert (E : forall i j, (mget B i j == mget B' i j)%Q)
    by (intros; apply meq_entry; exact H).
  destruct (is_shape_4_4 A HA)
    as (a00 & a01 & a02 & a03 & a10 & a11 & a12 & a13 &
        a20 & a21 & a22 & a23 & a30 & a31 & a32 & a33 & ->).
  destruct (is_shape_4_4 B HB)
    as (b00 & b01 & b02 & b03 & b10 & b11 & b12 & b13 &
        b20 & b21 & b22 & b23 & b30 & b31 & b32 & b33 & ->).
  destruct (is_shape_4_4 B' HB')
    as (c00 & c01 & c02 & c03 & c10 & c11 & c12 & c13 &
        c20 & c21 & c22 & c23 & c30 & c31 & c32 & c33 & ->).
  pose proof (E 0 0)%nat as E00. pose proof (E 0 1)%nat as E01.
  pose proof (E 0 2)%nat as E02. pose proof (E 0 3)%nat as E03.
  pose proof (E 1 0)%nat as E10. pose proof (E 1 1)%nat as E11.
  pose proof (E 1 2)%nat as E12. pose proof (E 1 3)%nat as E13.
  pose proof (E 2 0)%nat as E20. pose proof (E 2 1)%nat as E21.
  pose proof (E 2 2)%nat as E22. pose proof (E 2 3)%nat as E23.
  pose proof (E 3 0)%nat as E30. pose proof (E 3 1)%nat as E31.
  pose proof (E 3 2)%nat as E32. pose proof (E 3 3)%nat as E33.
  cbv [mget nth] in E00, E01, E02, E03, E10, E11, E12, E13,
                    E20, E21, E22, E23, E30, E31, E32, E33.
  unfold meq, veq. dot44.
  entrywise;
    rewrite ?E00, ?E01, ?E02, ?E03, ?E10, ?E11, ?E12, ?E13,
            ?E20, ?E21, ?E22, ?E23, ?E30, ?E31, ?E32, ?E33; reflexivity.
Qed.

Lemma fold_dot_shape (l : list matrix) (X : matrix) :
  all_4_4 l -> is_shape 4 4 X = true -> is_shape 4 4 (fold_left dot l X) = true.
Proof.
  intros Hl. revert X. induction Hl as [| m l Hm _ IH]; intros X HX.
  - exact HX.
  - cbn [fold_left]. apply IH. apply dot_4_4; assumption.
Qed.

Lemma meq_sym (A B : matrix) : meq A B -> meq B A.
Proof.
  unfold meq, veq. intros H.
  induction H as [| a b A' B' Hab _ IH]; constructor; [| exact IH].
  clear - Hab. induction Hab; constructor; [symmetry; assumption | assumption].
Qed.

Lemma fold_dot_shift (l : list matrix) (X : matrix) :
  all_4_4 l -> is_shape 4 4 X = true ->
  meq (fold_left dot l X) (dot X (fold_left dot l identity)).
Proof.
  intros Hl. revert X. induction Hl as [| m l Hm Hl' IH]; intros X HX.
  - cbn [fold_left]. apply meq_sym. apply dot_identity_r_4_4. exact HX.
  - cbn [fold_left].
    assert (HF : is_shape 4 4 (fold_left dot l identity) = true)
      by (apply fold_dot_shape; [exact Hl' | reflexivity]).
    apply meq_trans with (dot (dot X m) (fold_left dot l identity)).
    { apply IH. apply dot_4_4; assumption. }
    apply meq_trans with (dot X (dot m (fold_left dot l identity))).
    { apply dot_assoc_4_4; assumption. }
    apply dot_proper_r_4_4; [exact HX | apply dot_4_4; assumption |].
    apply meq_trans with (dot (dot identity m) (fold_left dot l identity)).
    { apply meq_sym. apply dot_proper_l. apply dot_identity_l_4_4. exact Hm. }
    apply meq_sym. apply IH. apply dot_4_4; [reflexivity | exact Hm].
Qed.

(** X18: The chain of 4x4 matrices is a 4x4 matrix; the chain of two lists
    joined is the product of their chains; the chain of one matrix is that
    matrix (lines 203-204). *)
Theorem chain_matrices_app :
  forall l1 l2,
    all_4_4 l1 -> all_4_4 l2 ->
    is_shape 4 4 (chain_matrices (l1 ++ l2)) = true /\
    meq (chain_matrices (l1 ++ l2))
        (dot (chain_matrices l1) (chain_matrices l2)) /\
    (forall A, In A (l1 ++ l2) -> meq (chain_matrices [A]) A).
Proof.
  intros l1 l2 H1 H2. unfold chain_matrices.
  assert (H12 : all_4_4 (l1 ++ l2)) by (apply Forall_app; split; assumption).
  split; [| split].
  - apply fold_dot_shape; [exact H12 | reflexivity].
  - rewrite fold_left_app. apply fold_dot_shift; [exact H2 |].
    apply fold_dot_shape; [exact H1 | reflexivity].
  - intros A HA. cbn [fold_left]. apply dot_identity_l_4_4.
    unfold all_4_4 in H12. rewrite Forall_forall in H12. auto.
Qed.

Lemma chain_matrices_app_witness :
  meq (chain_matrices ([translate 1 2 3] ++ [scale 2 1 1; translate 0 1 0]))
      (dot (chain_matrices [translate 1 2 3])
           (chain_matrices [scale 2 1 1; translate 0 1 0])).
Proof.
  exact (proj1 (proj2 (@chain_matrices_app [translate 1 2 3]
                         [scale 2 1 1; translate 0 1 0]
                         ltac:(repeat constructor)
                         ltac:(repeat constructor)))).
Defined.

(** X19: Translations compose by adding their offsets, and the inverse
    [np.linalg.inv] computes of a translation is the translation by the
    opposite offsets (lines 148-154). *)
Theorem translate_compose_invert :
  forall a b c : Q,
    (forall a' b' c' : Q,
       meq (dot (translate a b c) (translate a' b' c'))
           (translate (a + a') (b + b') (c + c'))) /\
    (exists N, inv (translate a b c) = Ok N /\
               meq N (translate (- a) (- b) (- c))) /\
    meq (dot (translate a b c) (translate (- a) (- b) (- c))) identity.
Proof.
  intros a b c. split; [| split].
  - intros a' b' c'. unfold meq, veq, translate. dot44. entrywise; ring.
  - apply inv_translate.
  - unfold meq, veq, translate. dot44. entrywise; ring.
Qed.

Lemma inv_total (M : matrix) :
  is_shape 4 4 M = true -> ~ (det 4 M == 0)%Q -> exists N, inv M = Ok N.
Proof.
  intros HM Hd. unfold inv.
  assert (Hlen : length M = 4%nat).
  { unfold is_shape in HM. apply andb_true_iff in HM.
    destruct HM as [HM _]. apply Nat.eqb_eq in HM. exact HM. }
  rewrite Hlen. unfold is_square. rewrite HM. cbn [negb].
  destruct (Qeq_bool (det 4 M) 0) eqn:E.
  - apply Qeq_bool_iff in E. tauto.
  - eexists. reflexivity.
Qed.

Lemma det_scale (mz my mx : Q) : (det 4 (scale mz my mx) == mz * my * mx)%Q.
Proof.
  unfold scale.
  cbv [det minor remove_nth firstn skipn app map seq mget nth sign
       Nat.even qsum fold_left pred length Nat.add].
  ring.
Qed.

(** X20: On Python numbers [scale_inv] raises [ZeroDivisionError] when a factor
    is 0; otherwise it returns the inverse of [scale] with the same
    factors, on both sides, which is also what [np.linalg.inv] computes
    from [scale] (lines 184-200). *)
Theorem scale_inv_spec :
  forall mz my mx : Q,
    ((mz == 0)%Q \/ (my == 0)%Q \/ (mx == 0)%Q ->
     scale_inv mz my mx = Raise ZeroDivisionError) /\
    (~ (mz == 0)%Q -> ~ (my == 0)%Q -> ~ (mx == 0)%Q ->
     exists S,
       scale_inv mz my mx = Ok S /\
       meq (dot S (scale mz my mx)) identity /\
       meq (dot (scale mz my mx) S) identity /\
       exists N, inv (scale mz my mx) = Ok N /\ meq N S).
Proof.
  intros mz my mx. unfold scale_inv, py_div. split.
  - intros H.
    destruct (Qeq_bool mz 0) eqn:Ez; [reflexivity |].
    destruct (Qeq_bool my 0) eqn:Ey; [reflexivity |].
    destruct (Qeq_bool mx 0) eqn:Ex; [reflexivity |].
    apply Qeq_bool_false in Ez, Ey, Ex. tauto.
  - intros Hz Hy Hx.
    destruct (Qeq_bool mz 0) eqn:Ez; [apply Qeq_bool_iff in Ez; tauto |].
    destruct (Qeq_bool my 0) eqn:Ey; [apply Qeq_bool_iff in Ey; tauto |].
    destruct (Qeq_bool mx 0) eqn:Ex; [apply Qeq_bool_iff in Ex; tauto |].
    cbn [bind]. eexists. split; [reflexivity |].
    split; [| split].
    + unfold meq, veq, scale. dot44. entrywise; field; assumption.
    + unfold meq, veq, scale. dot44. entrywise; field; assumption.
    + set (S := [[1 / mz; 0; 0; 0]; [0; 1 / my; 0; 0]; [0; 0; 1 / mx; 0];
                 [0; 0; 0; 1]]%Q).
      assert (HS : meq (dot (scale mz my mx) S) identity).
      { subst S. unfold meq, veq, scale. dot44. entrywise; field; assumption. }
      destruct (inv (scale mz my mx)) as [N | e] eqn:HN.
      * exists N. split; [reflexivity |].
        destruct (@inv_4_4 (scale mz my mx) N eq_refl HN) as (HL & _ & HNs).
        apply meq_trans with (dot N identity).
        { apply meq_sym. apply dot_identity_r_4_4. exact HNs. }
        apply meq_trans with (dot N (dot (scale mz my mx) S)).
        { apply dot_proper_r_4_4; [exact HNs | reflexivity |].
          apply meq_sym. exact HS. }
        apply meq_trans with (dot (dot N (scale mz my mx)) S).
        { apply meq_sym. apply dot_assoc_4_4; [exact HNs | | ]; reflexivity. }
        apply meq_trans with (dot identity S).
        { apply dot_proper_l. exact HL. }
        apply dot_identity_l_4_4. reflexivity.
      * exfalso. destruct (@inv_total (scale mz my mx) eq_refl) as (N & HN').
        { rewrite det_scale. intro E.
          apply Qmult_integral in E. destruct E as [E | E]; [| tauto].
          apply Qmult_integral in E. tauto. }
        congruence.
Qed.

Lemma scale_inv_spec_witness :
  scale_inv 0 1 1 = Raise ZeroDivisionError /\
  exists S, scale_inv 2 1 1 = Ok S /\ meq (dot S (scale 2 1 1)) identity.
Proof.
  split.
  - apply (proj1 (@scale_inv_spec 0 1 1)). left. reflexivity.
  - destruct (proj2 (@scale_inv_spec 2 1 1)) as (S & H1 & H2 & _);
      try discriminate.
    exists S. split; assumption.
Defined.

(** ** Rotations *)

Lemma circle_pythagoras (a : Q) :
  (@cos Circle.circle a * @cos Circle.circle a
   + @sin Circle.circle a * @sin Circle.circle a == 1)%Q.
Proof.
  cbn [cos sin Circle.circle]. unfold Circle.cos_q, Circle.sin_q.
  rewrite !Qred_correct.
  assert (H : ~ (1 + a / 2 * (a / 2) == 0)%Q).
  { intro E.
    assert (H0 : (0 <= a / 2 * (a / 2))%Q).
    { destruct (Qlt_le_dec (a / 2) 0) as [Hn | Hp].
      - setoid_replace (a / 2 * (a / 2))%Q with ((- (a / 2)) * (- (a / 2)))%Q
          by ring.
        apply Qmult_le_0_compat; apply (Qopp_le_compat (a / 2) 0);
          apply Qlt_le_weak; exact Hn.
      - apply Qmult_le_0_compat; exact Hp. }
    assert (H1 : (0 < 1 + a / 2 * (a / 2))%Q).
    { apply Qlt_le_trans with (1 + 0)%Q; [reflexivity |].
      apply Qplus_le_r. exact H0. }
    rewrite E in H1. discriminate H1. }
  field. intro E. apply H.
  setoid_replace (1 + a / 2 * (a / 2))%Q with ((4 + a * a) / 4)%Q by field.
  rewrite E. reflexivity.
Qed.

Section Rotations.
Context {math : Math}.

Ltac rot :=
  unfold meq, veq, rotate_z, rotate_y, rotate_x;
  cbv [transpose dot identity eye column ncols map seq length vdot combine
       qsum fold_left fst snd nth Nat.eqb].

Lemma rotate_orthogonal (a : Q) :
  (cos a * cos a + sin a * sin a == 1)%Q ->
  orthogonal (rotate_z a) /\ orthogonal (rotate_y a) /\
  orthogonal (rotate_x a).
Proof.
  intros H. unfold orthogonal.
  repeat split; rot; entrywise;
    try ring;
    (transitivity (cos a * cos a + sin a * sin a)%Q; [ring | exact H]).
Qed.

Lemma rotate_det (a : Q) :
  (cos a * cos a + sin a * sin a == 1)%Q ->
  (det 4 (rotate_z a) == 1)%Q /\ (det 4 (rotate_y a) == 1)%Q /\
  (det 4 (rotate_x a) == 1)%Q.
Proof.
  intros H.
  repeat split; unfold rotate_z, rotate_y, rotate_x;
    cbv [det minor remove_nth firstn skipn app map seq mget nth sign
         Nat.even qsum fold_left pred length Nat.add];
    (transitivity (cos a * cos a + sin a * sin a)%Q; [ring | exact H]).
Qed.

Lemma fixes_axis_cases (k : nat) (R : matrix) :
  ((mget R k 0 == mget identity k 0)%Q /\ (mget R 0 k == mget identity 0 k)%Q) ->
  ((mget R k 1 == mget identity k 1)%Q /\ (mget R 1 k == mget identity 1 k)%Q) ->
  ((mget R k 2 == mget identity k 2)%Q /\ (mget R 2 k == mget identity 2 k)%Q) ->
  ((mget R k 3 == mget identity k 3)%Q /\ (mget R 3 k == mget identity 3 k)%Q) ->
  fixes_axis k R.
Proof.
  intros H0 H1 H2 H3 j Hj.
  destruct j as [| [| [| [| j]]]]; try assumption. lia.
Qed.

Lemma rotate_fixes (a : Q) :
  fixes_axis 0 (rotate_z a) /\ fixes_axis 3 (rotate_z a) /\
  fixes_axis 2 (rotate_y a) /\ fixes_axis 3 (rotate_y a) /\
  fixes_axis 1 (rotate_x a) /\ fixes_axis 3 (rotate_x a).
Proof.
  repeat match goal with |- _ /\ _ => split end;
    apply fixes_axis_cases; split; reflexivity.
Qed.

End Rotations.

Lemma transpose_4_4 (A : matrix) :
  is_shape 4 4 A = true -> is_shape 4 4 (transpose A) = true.
Proof.
  intros HA.
  destruct (is_shape_4_4 A HA)
    as (a00 & a01 & a02 & a03 & a10 & a11 & a12 & a13 &
        a20 & a21 & a22 & a23 & a30 & a31 & a32 & a33 & ->).
  reflexivity.
Qed.

Lemma transpose_dot_4_4 (A B : matrix) :
  is_shape 4 4 A = true -> is_shape 4 4 B = true ->
  meq (transpose (dot A B)) (dot (transpose B) (transpose A)).
Proof.
  intros HA HB.
  destruct (is_shape_4_4 A HA)
    as (a00 & a01 & a02 & a03 & a10 & a11 & a12 & a13 &
        a20 & a21 & a22 & a23 & a30 & a31 & a32 & a33 & ->).
  destruct (is_shape_4_4 B HB)
    as (b00 & b01 & b02 & b03 & b10 & b11 & b12 & b13 &
        b20 & b21 & b22 & b23 & b30 & b31 & b32 & b33 & ->).
  unfold meq, veq.
  cbv [transpose dot identity eye column ncols map seq length vdot combine
       qsum fold_left fst snd nth Nat.eqb].
  entrywise; ring.
Qed.

Lemma orthogonal_dot (A B : matrix) :
  is_shape 4 4 A = true -> is_shape 4 4 B = true ->
  orthogonal A -> orthogonal B -> orthogonal (dot A B).
Proof.
  intros HA HB [A1 A2] [B1 B2].
  pose proof (transpose_4_4 A HA) as HAt.
  pose proof (transpose_4_4 B HB) as HBt.
  pose proof (dot_4_4 A B HA HB) as HAB.
  pose proof (transpose_dot_4_4 A B HA HB) as HT.
  split.
  - apply meq_trans with (dot (dot A B) (dot (transpose B) (transpose A))).
    { apply dot_proper_r_4_4; [exact HAB | apply transpose_4_4; exact HAB |].
      exact HT. }
    apply meq_trans with (dot A (dot B (dot (transpose B) (transpose A)))).
    { apply dot_assoc_4_4; [exact HA | exact HB |].
      apply dot_4_4; assumption. }
    apply meq_trans with (dot A (transpose A)); [| exact A1].
    apply dot_proper_r_4_4;
      [exact HA | apply dot_4_4; [exact HB | apply dot_4_4; assumption] |].
    apply meq_trans with (dot (dot B (transpose B)) (transpose A)).
    { apply meq_sym. apply dot_assoc_4_4; assumption. }
    apply meq_trans with (dot identity (transpose A)).
    { apply dot_proper_l. exact B1. }
    apply dot_identity_l_4_4. exact HAt.
  - apply meq_trans with (dot (dot (transpose B) (transpose A)) (dot A B)).
    { apply dot_proper_l. exact HT. }
    apply meq_trans with (dot (transpose B) (dot (transpose A) (dot A B))).
    { apply dot_assoc_4_4; assumption. }
    apply meq_trans with (dot (transpose B) B); [| exact B2].
    apply dot_proper_r_4_4;
      [exact HBt | apply dot_4_4; [exact HAt | exact HAB] |].
    apply meq_trans with (dot (dot (transpose A) A) B).
    { apply meq_sym. apply dot_assoc_4_4; assumption. }
    apply meq_trans with (dot identity B).
    { apply dot_proper_l. exact A2. }
    apply dot_identity_l_4_4. exact HB.
Qed.

Lemma orthogonal_identity : orthogonal identity.
Proof.
  split; unfold meq, veq;
    cbv [transpose dot identity eye column ncols map seq length vdot combine
         qsum fold_left fst snd nth Nat.eqb];
    entrywise; ring.
Qed.

Lemma fixes_axis_identity (k : nat) : fixes_axis k identity.
Proof. intros j Hj. split; reflexivity. Qed.

(** Rows and columns of the identity survive products. *)
Lemma fixes_axis_dot (k : nat) (A B : matrix) :
  (k < 4)%nat ->
  is_shape 4 4 A = true -> is_shape 4 4 B = true ->
  fixes_axis k A -> fixes_axis k B -> fixes_axis k (dot A B).
Proof.
  intros Hk HA HB FA FB.
  destruct (is_shape_4_4 A HA)
    as (a00 & a01 & a02 & a03 & a10 & a11 & a12 & a13 &
        a20 & a21 & a22 & a23 & a30 & a31 & a32 & a33 & ->).
  destruct (is_shape_4_4 B HB)
    as (b00 & b01 & b02 & b03 & b10 & b11 & b12 & b13 &
        b20 & b21 & b22 & b23 & b30 & b31 & b32 & b33 & ->).
  destruct (FA 0%nat ltac:(lia)) as [A0 A0'].
  destruct (FA 1%nat ltac:(lia)) as [A1 A1'].
  destruct (FA 2%nat ltac:(lia)) as [A2 A2'].
  destruct (FA 3%nat ltac:(lia)) as [A3 A3'].
  destruct (FB 0%nat ltac:(lia)) as [B0 B0'].
  destruct (FB 1%nat ltac:(lia)) as [B1 B1'].
  destruct (FB 2%nat ltac:(lia)) as [B2 B2'].
  destruct (FB 3%nat ltac:(lia)) as [B3 B3'].
  destruct k as [| [| [| [| k]]]]; [| | | | lia];
    cbv [mget nth identity eye map seq Nat.eqb] in
      A0, A0', A1, A1', A2, A2', A3, A3', B0, B0', B1, B1', B2, B2', B3, B3';
    apply fixes_axis_cases; split;
    cbv [mget dot identity eye column ncols map seq length vdot combine
         qsum fold_left fst snd nth Nat.eqb];
    rewrite ?A0, ?A0', ?A1, ?A1', ?A2, ?A2', ?A3, ?A3',
            ?B0, ?B0', ?B1, ?B1', ?B2, ?B2', ?B3, ?B3'; ring.
Qed.

(** X21: Where [cos(a)^2 + sin(a)^2 = 1], each of [rotate_z], [rotate_y] and
    [rotate_x] is orthogonal with determinant 1, leaves the homogeneous
    coordinate alone, and leaves one spatial axis alone: axis 0, axis 2
    and axis 1 (lines 157-181). *)
Theorem rotation_matrices_spec :
  forall (math : Math) (a : Q),
    (cos a * cos a + sin a * sin a == 1)%Q ->
    (orthogonal (rotate_z a) /\ orthogonal (rotate_y a) /\
     orthogonal (rotate_x a)) /\
    ((det 4 (rotate_z a) == 1)%Q /\ (det 4 (rotate_y a) == 1)%Q /\
     (det 4 (rotate_x a) == 1)%Q) /\
    (fixes_axis 0 (rotate_z a) /\ fixes_axis 2 (rotate_y a) /\
     fixes_axis 1 (rotate_x a)) /\
    (fixes_axis 3 (rotate_z a) /\ fixes_axis 3 (rotate_y a) /\
     fixes_axis 3 (rotate_x a)).
Proof.
  intros math a H.
  destruct (rotate_fixes a) as (F1 & F2 & F3 & F4 & F5 & F6).
  split; [apply rotate_orthogonal; exact H |].
  split; [apply rotate_det; exact H |].
  repeat match goal with |- _ /\ _ => split end; assumption.
Qed.

Lemma rotation_matrices_spec_witness :
  orthogonal (@rotate_z Circle.circle (3 # 2)) /\
  (det 4 (@rotate_y Circle.circle (3 # 2)) == 1)%Q.
Proof.
  destruct (@rotation_matrices_spec Circle.circle (3 # 2)
              (circle_pythagoras (3 # 2)))
    as ((H1 & _ & _) & (_ & H2 & _) & _).
  split; assumption.
Defined.

Section SampledRotations.
Context {math : Math} {random : RandomSource}.
Hypothesis pythagoras : forall a, (cos a * cos a + sin a * sin a == 1)%Q.

Lemma chain3_rotation (g t p : Q) :
  let R := chain_matrices [rotate_z g; rotate_y t; rotate_z p] in
  is_shape 4 4 R = true /\ orthogonal R /\ fixes_axis 3 R.
Proof.
  cbv zeta. unfold chain_matrices. cbn [fold_left].
  destruct (rotate_orthogonal g (pythagoras g)) as (Og & _ & _).
  destruct (rotate_orthogonal t (pythagoras t)) as (_ & Ot & _).
  destruct (rotate_orthogonal p (pythagoras p)) as (Op & _ & _).
  destruct (rotate_fixes g) as (_ & Fg & _).
  destruct (rotate_fixes t) as (_ & _ & _ & Ft & _).
  destruct (rotate_fixes p) as (_ & Fp & _).
  assert (S1 : is_shape 4 4 (dot identity (rotate_z g)) = true)
    by reflexivity.
  assert (S2 : is_shape 4 4 (dot (dot identity (rotate_z g)) (rotate_y t))
               = true) by reflexivity.
  split; [reflexivity |]. split.
  - apply orthogonal_dot; [exact S2 | reflexivity | | exact Op].
    apply orthogonal_dot; [exact S1 | reflexivity | | exact Ot].
    apply orthogonal_dot; [reflexivity | reflexivity | | exact Og].
    apply orthogonal_identity.
  - apply fixes_axis_dot; [lia | exact S2 | reflexivity | | exact Fp].
    apply fixes_axis_dot; [lia | exact S1 | reflexivity | | exact Ft].
    apply fixes_axis_dot; [lia | reflexivity | reflexivity | | exact Fg].
    apply fixes_axis_identity.
Qed.

End SampledRotations.

(** X22: Where [cos^2 + sin^2 = 1], the matrix of [get_random_rotmat] is
    orthogonal, leaves the homogeneous coordinate alone and, with
    [lock_z], axis 0 too; every matrix [get_rotmat_from_direc] returns is
    orthogonal and leaves the homogeneous coordinate alone (lines
    220-251). *)
Theorem sampled_rotations_orthogonal :
  forall (math : Math) (random : RandomSource),
    (forall a, (cos a * cos a + sin a * sin a == 1)%Q) ->
    (forall lock_z amount rng (w : World),
       let R := fst (fst (get_random_rotmat lock_z amount rng w)) in
       orthogonal R /\ fixes_axis 3 R /\
       (lock_z = true -> fixes_axis 0 R))
    /\
    (forall direc gamma rng (w : World) R rng' w',
       get_rotmat_from_direc direc gamma rng w = Ok (R, rng', w') ->
       orthogonal R /\ fixes_axis 3 R).
Proof.
  intros math random Hp. split.
  - intros lock_z amount rng w. cbv zeta. unfold get_random_rotmat.
    destruct (default_rng rng w) as [s w0].
    destruct (rand s) as [r s1].
    destruct lock_z.
    + cbn [fst].
      destruct (rotate_orthogonal _ (Hp (r * 2 * pi * amount)%Q))
        as (Oz & _ & _).
      destruct (rotate_fixes (r * 2 * pi * amount)%Q) as (F0 & F3 & _).
      split; [exact Oz |]. split; [exact F3 |]. intros _. exact F0.
    + destruct (rand s1) as [r2 s2]. destruct (rand s2) as [r3 s3].
      cbn [fst].
      destruct (chain3_rotation Hp (r * 2 * pi * amount)%Q
                  (- (arcsin r3 * amount))%Q (- (r2 * 2 * pi * amount))%Q)
        as (_ & O & F).
      split; [exact O |]. split; [exact F |]. discriminate.
  - intros direc gamma rng w R rng' w' H.
    unfold get_rotmat_from_direc in H.
    destruct (resolve_gamma gamma rng w) as [[g rng1] w1].
    apply bind_Ok in H. destruct H as ([[phi theta] g'] & _ & H).
    injection H as <- _ _.
    destruct (chain3_rotation Hp g' (- theta)%Q (- phi)%Q) as (_ & O & F).
    split; assumption.
Qed.

Lemma sampled_rotations_orthogonal_witness :
  orthogonal
    (fst (fst (@get_random_rotmat Circle.circle Tape.tape false 1
                 (Some (tape_state [1 # 2; 1 # 3; 1 # 4]%Q))
                 (tape_world [])))).
Proof.
  exact (proj1 (proj1 (@sampled_rotations_orthogonal Circle.circle Tape.tape
                         circle_pythagoras)
                 false 1%Q (Some (tape_state [1 # 2; 1 # 3; 1 # 4]%Q))
                 (tape_world []))).
Defined.

(** X23: [warp_slice] looks at the number of axes of the input first: three
    axes give [NotImplementedError], any number other than three or four
    gives [ValueError], and with four axes a matrix that is not square
    gives [LinAlgError] (lines 447-460). *)
Theorem warp_slice_input_axes :
  forall inp ps M t tps tv td last ks,
    (length (shape inp) = 3%nat ->
     exists msg, warp_slice inp ps M t tps tv td last ks
                 = Raise (NotImplementedError msg))
    /\
    (length (shape inp) <> 3%nat -> length (shape inp) <> 4%nat ->
     warp_slice inp ps M t tps tv td last ks
     = Raise (ValueError "inp_src wrong dim/shape"))
    /\
    (length (shape inp) = 4%nat ->
     is_square (length M) M = false ->
     warp_slice inp ps M t tps tv td last ks = Raise LinAlgError).
Proof.
  intros inp ps M t tps tv td last ks. unfold warp_slice.
  destruct (shape inp) as [| n_f [| s0 [| s1 [| s2 [| ? ?]]]]]; simpl;
    (split; [| split]); intros; try discriminate; try lia; try reflexivity;
    try (eexists; reflexivity).
  unfold inv. rewrite H0. reflexivity.
Qed.

(** A volume without a channel axis, and a matrix of three rows. *)
Lemma warp_slice_input_axes_witness :
  (exists msg,
     warp_slice (ramp [4; 4; 4]) [2; 2; 2] identity None None None None
                false (1 # 2)
     = Raise (NotImplementedError msg))
  /\
  warp_slice (ramp [1; 4; 4; 4]) [2; 2; 2]
    [ [1; 0; 0; 0]; [0; 1; 0; 0]; [0; 0; 1; 0] ]%Q None None None None
    false (1 # 2)
  = Raise LinAlgError.
Proof.
  split.
  - apply (proj1 (@warp_slice_input_axes (ramp [4; 4; 4]) [2; 2; 2] identity
                    None None None None false (1 # 2))).
    reflexivity.
  - apply (proj2 (proj2 (@warp_slice_input_axes (ramp [1; 4; 4; 4]) [2; 2; 2]
                           [ [1; 0; 0; 0]; [0; 1; 0; 0]; [0; 0; 1; 0] ]%Q
                           None None None None false (1 # 2))));
      reflexivity.
Defined.

(** ** Flips and swaps *)

Lemma tape_binomial_laws : @BinomialLaws Tape.tape.
Proof.
  split.
  - intros n p size s. cbn [binomial Tape.tape]. unfold Tape.tape_binomial.
    pose proof (tape_draws_spec size s) as H.
    destruct (Tape.draws size s) as [us s']. cbn [fst].
    rewrite length_map. apply H.
  - intros n p size s x Hn. cbn [binomial Tape.tape].
    unfold Tape.tape_binomial.
    destruct (Tape.draws size s) as [us s']. cbn [fst].
    intros Hx. apply in_map_iff in Hx. destruct Hx as (u & <- & _).
    destruct (Qltb u p); lia.
Qed.

Lemma tape_randint_laws : @RandintLaws Tape.tape.
Proof.
  split. intros lo hi s Hlt. cbn [randint Tape.tape].
  unfold Tape.tape_randint, Tape.next. cbn [fst].
  unfold QofZ. rewrite !Qceiling_Z.
  pose proof (tape_unit_range (hd 0%Q s)) as [Hu0 Hu1].
  set (u := Tape.unit (hd 0%Q s)) in *.
  assert (H0 : 0 <= Qfloor (u * inject_Z (hi - lo))).
  { change 0 with (Qfloor 0). apply Qfloor_resp_le.
    apply Qmult_le_0_compat; [exact Hu0 |].
    change 0%Q with (inject_Z 0). rewrite <- Zle_Qle. lia. }
  lia.
Qed.

Section FlipSwap.
Context {random : RandomSource}.

Lemma set_nth_3 {A : Type} (a b c d v : A) (l : list A) :
  set_nth 3 v (a :: b :: c :: d :: l) = a :: b :: c :: v :: l.
Proof. reflexivity. Qed.

Lemma get_random_flipmat_diag {laws : BinomialLaws} (no_x_flip : bool)
  (rng : option rng_state) (w : World) :
  exists f0 f1 f2 : Z,
    fst (fst (get_random_flipmat no_x_flip rng w))
    = [ [QofZ f0; 0; 0; 0]; [0; QofZ f1; 0; 0]; [0; 0; QofZ f2; 0];
        [0; 0; 0; 1] ]%Q /\
    (f0 = 1 \/ f0 = -1) /\ (f1 = 1 \/ f1 = -1) /\ (f2 = 1 \/ f2 = -1) /\
    (no_x_flip = true -> f2 = 1).
Proof.
  unfold get_random_flipmat.
  destruct (default_rng rng w) as [s w0].
  pose proof (@binomial_length random laws 1 (1 # 2) 4%nat s) as Hl.
  pose proof (@binomial_range random laws 1 (1 # 2) 4%nat s) as Hr.
  destruct (binomial 1 (1 # 2) 4 s) as [b s1]. cbn [fst] in *.
  destruct b as [| b0 [| b1 [| b2 [| b3 [| ? ?]]]]]; try discriminate.
  assert (H0 : 0 <= b0 <= 1) by (apply Hr; [lia | simpl; tauto]).
  assert (H1 : 0 <= b1 <= 1) by (apply Hr; [lia | simpl; tauto]).
  assert (H2 : 0 <= b2 <= 1) by (apply Hr; [lia | simpl; tauto]).
  cbn [map]. rewrite set_nth_3.
  destruct no_x_flip.
  - exists (b0 * 2 - 1), (b1 * 2 - 1), 1.
    split; [reflexivity |]. split; [lia |]. split; [lia |]. split; [lia |]. reflexivity.
  - exists (b0 * 2 - 1), (b1 * 2 - 1), (b2 * 2 - 1).
    split; [reflexivity |]. split; [lia |]. split; [lia |]. split; [lia |]. discriminate.
Qed.

End FlipSwap.

(** X24: Where [binomial] returns [size] numbers between 0 and [n], the matrix
    of [get_random_flipmat] is diagonal with 1 or -1 in the first three
    places and 1 in the last, with 1 in the third place under [no_x_flip];
    it is its own inverse, orthogonal, and leaves the homogeneous
    coordinate alone (lines 254-263). *)
Theorem get_random_flipmat_spec :
  forall (random : RandomSource) (laws : BinomialLaws)
         (no_x_flip : bool) (rng : option rng_state) (w : World),
    let F := fst (fst (get_random_flipmat no_x_flip rng w)) in
    (exists f0 f1 f2 : Z,
       F = [ [QofZ f0; 0; 0; 0]; [0; QofZ f1; 0; 0]; [0; 0; QofZ f2; 0];
             [0; 0; 0; 1] ]%Q /\
       (f0 = 1 \/ f0 = -1) /\ (f1 = 1 \/ f1 = -1) /\ (f2 = 1 \/ f2 = -1) /\
       (no_x_flip = true -> f2 = 1)) /\
    meq (dot F F) identity /\ orthogonal F /\ fixes_axis 3 F.
Proof.
  intros random laws no_x_flip rng w. cbv zeta.
  destruct (get_random_flipmat_diag no_x_flip rng w)
    as (f0 & f1 & f2 & -> & H0 & H1 & H2 & Hx).
  split; [exists f0, f1, f2; auto |].
  assert (Hsq : forall f : Z, f = 1 \/ f = -1 ->
            (QofZ f * QofZ f == 1)%Q).
  { intros f [-> | ->]; reflexivity. }
  pose proof (Hsq f0 H0) as S0. pose proof (Hsq f1 H1) as S1.
  pose proof (Hsq f2 H2) as S2.
  assert (HFF : meq (dot [ [QofZ f0; 0; 0; 0]; [0; QofZ f1; 0; 0];
                           [0; 0; QofZ f2; 0]; [0; 0; 0; 1] ]%Q
                         [ [QofZ f0; 0; 0; 0]; [0; QofZ f1; 0; 0];
                           [0; 0; QofZ f2; 0]; [0; 0; 0; 1] ]%Q) identity).
  { unfold meq, veq. dot44. entrywise; try ring.
    - rewrite <- S0. ring.
    - rewrite <- S1. ring.
    - rewrite <- S2. ring. }
  split; [exact HFF |]. split.
  - split; exact HFF.
  - apply fixes_axis_cases; split; reflexivity.
Qed.

Lemma get_random_flipmat_spec_witness :
  meq (dot (fst (fst (@get_random_flipmat Tape.tape true None
                        (tape_world []))))
           (fst (fst (@get_random_flipmat Tape.tape true None
                        (tape_world [])))))
      identity.
Proof.
  exact (proj1 (proj2 (@get_random_flipmat_spec Tape.tape tape_binomial_laws
                         true None (tape_world [])))).
Defined.

(** X25: Where [randint] on integer bounds returns a number from [low] up to
    [high - 1], [get_random_swapmat] does not raise: it returns a 4x4
    matrix of zeros and ones that is orthogonal, leaves the homogeneous
    coordinate alone and, with [lock_z], axis 0 too (lines 266-282). *)
Theorem get_random_swapmat_spec :
  forall (random : RandomSource) (laws : RandintLaws)
         (lock_z : bool) (rng : option rng_state) (w : World),
    exists S r w',
      get_random_swapmat lock_z rng w = Ok (S, r, w') /\
      is_shape 4 4 S = true /\
      orthogonal S /\ fixes_axis 3 S /\
      (lock_z = true -> fixes_axis 0 S) /\
      (forall i j, (i < 4)%nat -> (j < 4)%nat ->
         mget S i j = 0%Q \/ mget S i j = 1%Q).
Proof.
  intros random laws lock_z rng w. unfold get_random_swapmat.
  destruct (default_rng rng w) as [s w0].
  assert (Hfin : forall S : matrix,
            In S [ [ [1; 0; 0; 0]; [0; 1; 0; 0]; [0; 0; 1; 0]; [0; 0; 0; 1] ];
                   [ [1; 0; 0; 0]; [0; 0; 1; 0]; [0; 1; 0; 0]; [0; 0; 0; 1] ];
                   [ [0; 1; 0; 0]; [1; 0; 0; 0]; [0; 0; 1; 0]; [0; 0; 0; 1] ];
                   [ [0; 1; 0; 0]; [0; 0; 1; 0]; [1; 0; 0; 0]; [0; 0; 0; 1] ];
                   [ [0; 0; 1; 0]; [1; 0; 0; 0]; [0; 1; 0; 0]; [0; 0; 0; 1] ];
                   [ [0; 0; 1; 0]; [0; 1; 0; 0]; [1; 0; 0; 0]; [0; 0; 0; 1] ]
                 ]%Q ->
            is_shape 4 4 S = true /\ orthogonal S /\ fixes_axis 3 S /\
            (forall i j, (i < 4)%nat -> (j < 4)%nat ->
               mget S i j = 0%Q \/ mget S i j = 1%Q)).
  { intros S HS. cbn [In] in HS.
    repeat (destruct HS as [<- | HS]); try contradiction;
      (split; [reflexivity |]; split;
       [ split; unfold meq, veq; vm_compute; entrywise; reflexivity
       | split;
         [ apply fixes_axis_cases; split; reflexivity
         | intros i j Hi Hj;
           destruct i as [| [| [| [| ?]]]]; try lia;
           destruct j as [| [| [| [| ?]]]]; try lia;
           cbv; auto ] ]). }
  destruct lock_z.
  - pose proof (@randint_range random laws 0 2 s ltac:(lia)) as Hi.
    change (QofZ (zlen swaps_locked)) with (QofZ 2).
    change (0%Q) with (QofZ 0) at 1.
    destruct (randint (QofZ 0) (QofZ 2) s) as [i s1]. cbn [fst] in Hi.
    assert (Hc : i = 0 \/ i = 1) by lia.
    destruct Hc as [-> | ->]; cbn;
      eexists; eexists; eexists; (split; [reflexivity |]);
      match goal with
      | |- is_shape 4 4 ?S = true /\ _ =>
          destruct (Hfin S) as (H1 & H2 & H3 & H4);
          [ cbn [In]; tauto |]
      end;
      (split; [exact H1 |]; split; [exact H2 |]; split; [exact H3 |];
       split; [| exact H4]; intros _;
       apply fixes_axis_cases; split; reflexivity).
  - pose proof (@randint_range random laws 0 6 s ltac:(lia)) as Hi.
    change (QofZ (zlen swaps_free)) with (QofZ 6).
    change (0%Q) with (QofZ 0) at 1.
    destruct (randint (QofZ 0) (QofZ 6) s) as [i s1]. cbn [fst] in Hi.
    assert (Hc : i = 0 \/ i = 1 \/ i = 2 \/ i = 3 \/ i = 4 \/ i = 5) by lia.
    destruct Hc as [-> | [-> | [-> | [-> | [-> | ->]]]]]; cbn;
      eexists; eexists; eexists; (split; [reflexivity |]);
      match goal with
      | |- is_shape 4 4 ?S = true /\ _ =>
          destruct (Hfin S) as (H1 & H2 & H3 & H4);
          [ cbn [In]; tauto |]
      end;
      (split; [exact H1 |]; split; [exact H2 |]; split; [exact H3 |];
       split; [| exact H4]; discriminate).
Qed.

Lemma get_random_swapmat_spec_witness :
  exists S r w',
    @get_random_swapmat Tape.tape true None (tape_world []) = Ok (S, r, w') /\
    orthogonal S /\ fixes_axis 0 S.
Proof.
  destruct (@get_random_swapmat_spec Tape.tape tape_randint_laws true None
              (tape_world []))
    as (S & r & w' & H & _ & Ho & _ & Hz & _).
  exists S, r, w'. split; [exact H |]. split; [exact Ho |].
  apply Hz. reflexivity.
Defined.

(** ** The range of patch centres *)

Lemma half_ge (p s : Z) :
  s <= p -> (QofZ s - QofZ p / 2 <= QofZ p / 2)%Q.
Proof.
  intros H. unfold QofZ. rewrite Zle_Qle in H.
  setoid_replace (inject_Z p / 2)%Q with ((1 # 2) * inject_Z p)%Q by field.
  lra.
Qed.

Section PatchRange.
Context {math : Math} {random : RandomSource}.

(** X26: Without a target, [get_warped_slice] fails with [AssertionError] as
    soon as the source is not larger than the patch along some axis, a 2-D
    patch size counting with depth 1: a patch as large as the source is
    refused, and so is every 2-D patch of a volume of one slice (lines
    664-679). *)
Theorem get_warped_slice_patch_too_large :
  forall (inp_src : Dataset) (ps ps3 : list Z) (aniso_factor : Q)
         (sample_aniso : bool) (warp_amount : Q)
         (lock_z no_x_flip perspective : bool)
         (target_vec_ix : option (list vec_index))
         (target_discrete_ix : option (list Z))
         (rng : option rng_state) (w : World) (i : nat),
    ps3 = (if Nat.eqb (length ps) 2 then 1 :: ps else ps) ->
    length ps3 = 3%nat ->
    length (shape inp_src) = 4%nat ->
    (i < 3)%nat ->
    nth (S i) (shape inp_src) 0 <= nth i ps3 0 ->
    get_warped_slice inp_src ps aniso_factor sample_aniso warp_amount
      lock_z no_x_flip perspective None None target_vec_ix
      target_discrete_ix rng w
    = Raise AssertionError.
Proof.
  intros inp_src ps ps3 af sa wa lock_z nxf persp tv td rng w i
         Hps3 Hlen Hsh Hi Hle.
  unfold get_warped_slice.
  destruct (default_rng rng w) as [s w0].
  cbn [bind]. rewrite <- Hps3.
  assert (Ht : (if Nat.eqb (length ps) 2
                then match @None Dataset, @None (list Z) with
                     | Some _, None => Raise TypeError
                     | Some _, Some tps => Ok (Some (1 :: tps))
                     | None, tps => Ok tps
                     end
                else Ok None) = Ok (@None (list Z))).
  { destruct (Nat.eqb (length ps) 2); reflexivity. }
  rewrite Ht. cbn [bind].
  assert (Hs : sample_warp inp_src ps3 af sa wa lock_z nxf persp None None
                 s w0 = Raise AssertionError).
  { unfold sample_warp, center_range. cbn [bind].
    destruct ps3 as [| p0 [| p1 [| p2 [| ? ?]]]]; try discriminate.
    destruct (shape inp_src) as [| c [| s0 [| s1 [| s2 [| ? ?]]]]];
      try discriminate.
    cbn [tl map combine sub_vec fst snd seq forallb coord nth].
    assert (Hf : (Qltb (QofZ p0 / 2) (QofZ s0 - QofZ p0 / 2)
                  && (Qltb (QofZ p1 / 2) (QofZ s1 - QofZ p1 / 2)
                  && (Qltb (QofZ p2 / 2) (QofZ s2 - QofZ p2 / 2) && true)))
                 = false).
    { destruct i as [| [| [| ?]]]; try lia; cbn [nth] in Hle;
        rewrite (Qltb_false (half_ge Hle));
        rewrite ?andb_false_r; reflexivity. }
    rewrite Hf. reflexivity. }
  rewrite Hs. reflexivity.
Qed.

End PatchRange.

(** A 2-D patch size gets depth 1, so a volume of one slice has no room
    for a patch of any size. *)
Lemma get_warped_slice_patch_too_large_witness :
  @get_warped_slice Coarse.coarse Tape.tape (ramp [1; 1; 8; 8]) [2; 2]
    2 true 1 true false false None None None None None (tape_world [])
  = Raise AssertionError.
Proof.
  apply (@get_warped_slice_patch_too_large Coarse.coarse Tape.tape
           (ramp [1; 1; 8; 8]) [2; 2] [1; 2; 2] 2 true 1 true false false
           None None None (tape_world []) 0%nat);
    [reflexivity | reflexivity | reflexivity | lia | simpl; lia].
Defined.

(** ** A transform that is the identity up to equality of numbers *)

Lemma near_identity_entries (M : matrix) :
  is_shape 4 4 M = true -> meq M identity ->
  exists a00 a01 a02 a03 a10 a11 a12 a13 a20 a21 a22 a23 a30 a31 a32 a33,
    M = [ [a00; a01; a02; a03]; [a10; a11; a12; a13];
          [a20; a21; a22; a23]; [a30; a31; a32; a33] ] /\
    ((a00 == 1) /\ (a01 == 0) /\ (a02 == 0) /\ (a03 == 0))%Q /\
    ((a10 == 0) /\ (a11 == 1) /\ (a12 == 0) /\ (a13 == 0))%Q /\
    ((a20 == 0) /\ (a21 == 0) /\ (a22 == 1) /\ (a23 == 0))%Q /\
    ((a30 == 0) /\ (a31 == 0) /\ (a32 == 0) /\ (a33 == 1))%Q.
Proof.
  intros HM H.
  destruct (is_shape_4_4 M HM)
    as (a00 & a01 & a02 & a03 & a10 & a11 & a12 & a13 &
        a20 & a21 & a22 & a23 & a30 & a31 & a32 & a33 & ->).
  exists a00, a01, a02, a03, a10, a11, a12, a13,
         a20, a21, a22, a23, a30, a31, a32, a33.
  split; [reflexivity |].
  unfold meq, veq in H. cbv [identity eye map seq Nat.eqb] in H.
  invert_Forall2. tauto.
Qed.

Lemma near_identity_inv (M : matrix) :
  is_shape 4 4 M = true -> meq M identity ->
  exists N, inv M = Ok N /\ is_shape 4 4 N = true /\ meq N identity /\
            needs_divide M = false.
Proof.
  intros HM H.
  assert (Hdet : (det 4 M == 1)%Q).
  { destruct (near_identity_entries HM H)
      as (a00 & a01 & a02 & a03 & a10 & a11 & a12 & a13 &
          a20 & a21 & a22 & a23 & a30 & a31 & a32 & a33 & -> &
          (H00 & H01 & H02 & H03) & (H10 & H11 & H12 & H13) &
          (H20 & H21 & H22 & H23) & (H30 & H31 & H32 & H33)).
    cbv [det minor remove_nth firstn skipn app map seq mget nth sign
         Nat.even qsum fold_left pred length Nat.add].
    rewrite H00, H01, H02, H03, H10, H11, H12, H13,
            H20, H21, H22, H23, H30, H31, H32, H33. ring. }
  destruct (@inv_total M HM) as (N & HN).
  { rewrite Hdet. discriminate. }
  destruct (@inv_4_4 M N HM HN) as (HNM & _ & HNs).
  exists N. split; [exact HN |]. split; [exact HNs |]. split.
  - apply meq_trans with (dot N identity).
    + apply meq_sym. apply dot_identity_r_4_4. exact HNs.
    + apply meq_trans with (dot N M); [| exact HNM].
      apply dot_proper_r_4_4; [exact HNs | reflexivity |].
      apply meq_sym. exact H.
  - destruct (near_identity_entries HM H)
      as (a00 & a01 & a02 & a03 & a10 & a11 & a12 & a13 &
          a20 & a21 & a22 & a23 & a30 & a31 & a32 & a33 & -> &
          _ & _ & _ & (H30 & H31 & H32 & _)).
    unfold needs_divide. cbn [existsb seq mget nth].
    apply Qeq_bool_iff in H30, H31, H32. rewrite H30, H31, H32. reflexivity.
Qed.


Lemma near_identity_coords (N : matrix) (z x y : Z) :
  is_shape 4 4 N = true -> meq N identity ->
  let c := firstn 3 (map (fun r => vdot [QofZ z; QofZ x; QofZ y; 1%Q] r) N) in
  (coord c 0 == QofZ z)%Q /\ (coord c 1 == QofZ x)%Q /\
  (coord c 2 == QofZ y)%Q.
Proof.
  intros HN H.
  destruct (near_identity_entries HN H)
    as (a00 & a01 & a02 & a03 & a10 & a11 & a12 & a13 &
        a20 & a21 & a22 & a23 & a30 & a31 & a32 & a33 & -> &
        (H00 & H01 & H02 & H03) & (H10 & H11 & H12 & H13) &
        (H20 & H21 & H22 & H23) & _).
  cbv [coord firstn map nth vdot combine qsum fold_left fst snd].
  rewrite H00, H01, H02, H03, H10, H11, H12, H13, H20, H21, H22, H23.
  repeat split; ring.
Qed.

(** With a transform equal to the identity entry by entry, the primary
    stage returns the leading block of the source. *)
Lemma warp_primary_near_identity (inp : Dataset) (M : matrix)
  (C D H W d h w : Z) (ks : Q) :
  shape inp = [C; D; H; W] ->
  is_shape 4 4 M = true -> meq M identity ->
  1 <= d < D -> 1 <= h < H -> 1 <= w < W ->
  exists coords inpv,
    warp_primary inp [d; h; w] M false ks = Ok ([D; H; W], coords, inpv) /\
    arr4_eq inpv (read_region inp [0; 0; 0] [d; h; w]).
Proof.
  intros Hsh HM HMI Hd Hh Hw.
  destruct (near_identity_inv HM HMI) as (N & HN & HNs & HNI & Hnd).
  assert (Hm : meq N (translate (- QofZ 0) (- QofZ 0) (- QofZ 0))).
  { eapply meq_trans; [exact HNI |].
    unfold meq, veq, identity, eye, translate. simpl.
    repeat constructor; reflexivity. }
  destruct (@translate_box N 0 0 0 d h w Hm) as (corners & Hc & Hbox);
    try lia.
  assert (Hc' : src_corners M N [d; h; w] = Ok corners).
  { rewrite <- Hc. unfold src_corners. rewrite Hnd. reflexivity. }
  unfold warp_primary. rewrite Hsh, HN. cbn [bind].
  rewrite Hc'. cbn [bind]. rewrite Hbox. cbn [bind].
  change [- 0; - 0; - 0] with [0; 0; 0].
  change [d - 0; h - 0; w - 0] with [d - 0; h - 0; w - 0].
  rewrite !Z.sub_0_r.
  rewrite out_of_bounds_inside by lia.
  unfold src_coords_of. rewrite Hnd.
  rewrite make_dest_coords_tabulate. cbn [bind].
  rewrite !grid_map_tabulate.
  change (map (fun h0 => h0 + 1) [d; h; w]) with [d + 1; h + 1; w + 1].
  rewrite (@read_region_prefix inp C D H W (d + 1) (h + 1) (w + 1)) by (auto; lia).
  rewrite (@read_region_prefix inp C D H W d h w) by (auto; lia).
  unfold resample_input.
  match goal with
  | |- context [mapM ?f (zrange 0 C)] =>
      destruct (@mapM_channels f
        (fun k => tabulate3 (fun z x y => read inp [k; z; x; y]) d h w) C)
        as (out & Hout & Heq)
  end.
  { intros k Hk. rewrite (py_index_zrange _ Hk). cbn [bind].
    rewrite andb_false_r. cbn [andb].
    apply gridM_tabulate. intros z x y Hz Hx Hy.
    destruct (@near_identity_coords N z x y HNs HNI) as (E0 & E1 & E2).
    apply (@linear_at_grid_point (fun z x y => read inp [k; z; x; y])
             (d + 1) (h + 1) (w + 1) _ _ z x y); try lia.
    - rewrite E0. change (coord (map QofZ [0; 0; 0]) 0) with 0%Q. ring.
    - rewrite E1. change (coord (map QofZ [0; 0; 0]) 1) with 0%Q. ring.
    - rewrite E2. change (coord (map QofZ [0; 0; 0]) 2) with 0%Q. ring. }
  rewrite Hout. cbn [bind]. eexists. exists out.
  split; [reflexivity | exact Heq].
Qed.

(** ** The traced position and the patch centre *)


(** A right factor whose last column is [(0, 0, 0, 1)] leaves the last
    column of a product alone. *)
Lemma column3_dot (X Y : matrix) :
  is_shape 4 4 X = true -> is_shape 4 4 Y = true ->
  veq (column Y 3) unit_w ->
  veq (column (dot X Y) 3) (column X 3).
Proof.
  intros HX HY Hc.
  destruct (is_shape_4_4 X HX)
    as (a00 & a01 & a02 & a03 & a10 & a11 & a12 & a13 &
        a20 & a21 & a22 & a23 & a30 & a31 & a32 & a33 & ->).
  destruct (is_shape_4_4 Y HY)
    as (b00 & b01 & b02 & b03 & b10 & b11 & b12 & b13 &
        b20 & b21 & b22 & b23 & b30 & b31 & b32 & b33 & ->).
  unfold veq, unit_w in *. cbv [column map nth] in Hc.
  inversion Hc as [| ? ? ? ? H0 Hc1]; subst.
  inversion Hc1 as [| ? ? ? ? H1 Hc2]; subst.
  inversion Hc2 as [| ? ? ? ? H2 Hc3]; subst.
  inversion Hc3 as [| ? ? ? ? H3 _]; subst.
  dot44. entrywise; rewrite H0, H1, H2, H3; ring.
Qed.

Lemma fold_dot_column3 (l : list matrix) (X : matrix) :
  is_shape 4 4 X = true ->
  Forall (fun Y => is_shape 4 4 Y = true /\ veq (column Y 3) unit_w) l ->
  is_shape 4 4 (fold_left dot l X) = true /\
  veq (column (fold_left dot l X) 3) (column X 3).
Proof.
  intros HX Hl. revert X HX.
  induction Hl as [| Y l [HY Hc] _ IH]; intros X HX; cbn [fold_left].
  - split; [exact HX | apply veq_refl].
  - destruct (IH (dot X Y) (dot_4_4 X Y HX HY)) as [Hs Hv].
    split; [exact Hs |].
    eapply veq_trans; [exact Hv |]. apply column3_dot; assumption.
Qed.

(** Behind a translation by [-p], the point [p] lands on the last
    column. *)
Lemma dot_translate_point (X : matrix) (p0 p1 p2 : Q) :
  is_shape 4 4 X = true ->
  exists v,
    dot_vec (dot X (translate (- p0) (- p1) (- p2))) [p0; p1; p2; 1%Q] = Ok v /\
    veq v (column X 3).
Proof.
  intros HX.
  destruct (is_shape_4_4 X HX)
    as (a00 & a01 & a02 & a03 & a10 & a11 & a12 & a13 &
        a20 & a21 & a22 & a23 & a30 & a31 & a32 & a33 & ->).
  eexists. split; [reflexivity |].
  unfold veq.
  cbv [dot translate column ncols map seq length vdot combine qsum
       fold_left fst snd nth].
  entrywise; ring.
Qed.

Section Tracing.
Context {math : Math} {random : RandomSource}.

Lemma rotate_column3 (a : Q) :
  (is_shape 4 4 (rotate_z a) = true /\ veq (column (rotate_z a) 3) unit_w) /\
  (is_shape 4 4 (rotate_y a) = true /\ veq (column (rotate_y a) 3) unit_w) /\
  (is_shape 4 4 (rotate_x a) = true /\ veq (column (rotate_x a) 3) unit_w).
Proof.
  repeat match goal with |- _ /\ _ => split end;
    try reflexivity; apply veq_refl.
Qed.

Lemma get_rotmat_from_direc_column3 direc gamma rng w R rng' w' :
  get_rotmat_from_direc direc gamma rng w = Ok (R, rng', w') ->
  is_shape 4 4 R = true /\ veq (column R 3) unit_w.
Proof.
  unfold get_rotmat_from_direc.
  destruct (resolve_gamma gamma rng w) as [[g r] w1].
  intros H. apply bind_Ok in H as ([[phi theta] g'] & _ & H).
  injection H as <- _ _. unfold chain_matrices.
  apply (@fold_dot_column3 _ identity eq_refl).
  repeat constructor;
    first [ apply (proj1 (rotate_column3 _))
          | apply (proj1 (proj2 (rotate_column3 _))) ].
Qed.

(** X27: Whenever [get_tracing_slice] returns, the matrix it returns takes the
    point [pos] to the centre [ps / 2] of the patch, moved back by
    [z_shift] along the first axis, whatever the direction, [gamma], the
    zoom and the anisotropy are (lines 594-617). *)
Theorem get_tracing_slice_centres_pos :
  forall (img : Dataset) (ps : list Z) (p0 p1 p2 z_shift aniso_factor : Q)
         (sample_aniso : bool) (gamma : gamma_arg) (scale_factor : Q)
         (direction_iso : Q * Q * Q)
         (target : option Dataset) (target_ps : option (list Z))
         (target_vec_ix : option (list vec_index))
         (target_discrete_ix : option (list Z))
         (rng : option rng_state) (last_ch_max_interp : bool) (w : World)
         (img_new : arr4) (target_new : option arr4) (M : matrix),
    get_tracing_slice img ps (p0, p1, p2) z_shift aniso_factor sample_aniso
      gamma scale_factor direction_iso target target_ps target_vec_ix
      target_discrete_ix rng last_ch_max_interp w
    = Ok (img_new, target_new, M) ->
    exists v,
      dot_vec M [p0; p1; p2; 1%Q] = Ok v /\
      veq v [ (QofZ (nth 0 ps 0%Z) / 2 - z_shift)%Q;
              (QofZ (nth 1 ps 0%Z) / 2)%Q;
              (QofZ (nth 2 ps 0%Z) / 2)%Q; 1%Q ].
Proof.
  intros img ps p0 p1 p2 z_shift af sa gamma sf dir target tps tv td rng
         last w img_new target_new M H.
  unfold get_tracing_slice in H.
  destruct (default_rng rng w) as [s w0].
  apply bind_Ok in H as ([[R r1] w1] & HR & H).
  apply bind_Ok in H as (S_dest & HS & H).
  apply bind_Ok in H as (ksize & _ & H).
  apply bind_Ok in H as ([img' tgt'] & Hw & H).
  injection H as _ _ <-.
  rewrite warp_slice_stages in Hw.
  apply bind_Ok in Hw as ([[sh coords] inpv] & Hp & _).
  apply warp_primary_shape in Hp as (_ & _ & Hps & _).
  destruct ps as [| q0 [| q1 [| q2 [| ? ?]]]]; try discriminate.
  cbn [map set_nth firstn skipn app coord nth].
  set (T := translate (QofZ q0 / 2 - z_shift) (QofZ q1 / 2) (QofZ q2 / 2)).
  destruct (get_rotmat_from_direc_column3 _ _ _ _ HR) as [HRs HRc].
  assert (HSd : is_shape 4 4 S_dest = true /\ veq (column S_dest 3) unit_w).
  { destruct sa.
    - unfold scale_inv in HS.
      apply bind_Ok in HS as (a & _ & HS).
      apply bind_Ok in HS as (b & _ & HS).
      apply bind_Ok in HS as (c & _ & HS). injection HS as <-.
      split; [reflexivity | apply veq_refl].
    - injection HS as <-. split; [reflexivity | apply veq_refl]. }
  unfold chain_matrices.
  change (fold_left dot
            [T; scale sf sf sf; S_dest; R; scale af 1 1;
             translate (- p0) (- p1) (- p2)] identity)
    with (dot (fold_left dot [scale sf sf sf; S_dest; R; scale af 1 1]
                 (dot identity T))
              (translate (- p0) (- p1) (- p2))).
  assert (HT : is_shape 4 4 (dot identity T) = true) by reflexivity.
  destruct (@fold_dot_column3 [scale sf sf sf; S_dest; R; scale af 1 1]
              (dot identity T) HT) as [Hs Hc].
  { repeat constructor; try (apply HSd); try assumption; apply veq_refl. }
  destruct (@dot_translate_point _ p0 p1 p2 Hs) as (v & Hv & Hvc).
  exists v. split; [exact Hv |].
  eapply veq_trans; [exact Hvc |]. eapply veq_trans; [exact Hc |].
  unfold veq, T. dot44. cbv [translate]. entrywise; ring.
Qed.

End Tracing.


Section TracingRuns.
Context {math : Math} {random : RandomSource}.

(** A run of [get_tracing_slice] whose transform is the identity up to
    equality of numbers returns. *)
Lemma get_tracing_slice_runs (img : Dataset) (C D H W d h w : Z)
  (p0 p1 p2 z_shift af : Q) (sa : bool) (gamma : gamma_arg) (sf : Q)
  (dir : Q * Q * Q) (s : rng_state) (wld : World)
  (R : matrix) (r1 : option rng_state) (w1 : World) (Sd : matrix) (k : Q) :
  shape img = [C; D; H; W] ->
  1 <= d < D -> 1 <= h < H -> 1 <= w < W ->
  get_rotmat_from_direc dir gamma (Some s) wld = Ok (R, r1, w1) ->
  (if sa then scale_inv af 1 1 else Ok identity) = Ok Sd ->
  tracing_ksize sf = Ok k ->
  is_shape 4 4 R = true -> is_shape 4 4 Sd = true ->
  meq (chain_matrices
         [translate (QofZ d / 2 - z_shift) (QofZ h / 2) (QofZ w / 2);
          scale sf sf sf; Sd; R; scale af 1 1;
          translate (- p0) (- p1) (- p2)]) identity ->
  exists r,
    get_tracing_slice img [d; h; w] (p0, p1, p2) z_shift af sa gamma sf dir
      None None None None (Some s) false wld = Ok r.
Proof.
  intros Hsh Hd Hh Hw HR HS Hk HRs HSs HMI.
  unfold get_tracing_slice. cbn [default_rng].
  rewrite HR. cbn [bind]. rewrite HS. cbn [bind]. rewrite Hk. cbn [bind].
  cbn [map set_nth firstn skipn app coord nth].
  set (M := chain_matrices _) in *.
  assert (HMs : is_shape 4 4 M = true).
  { unfold M, chain_matrices. apply fold_dot_shape; [| reflexivity].
    repeat constructor; assumption. }
  clearbody M.
  rewrite warp_slice_stages.
  destruct (@warp_primary_near_identity img M C D H W d h w k
              Hsh HMs HMI Hd Hh Hw) as (coords & inpv & Hp & _).
  rewrite Hp. cbn [bind]. eexists. reflexivity.
Qed.

End TracingRuns.

Lemma get_tracing_slice_centres_pos_witness :
  exists img_new target_new M v,
    @get_tracing_slice Coarse.coarse Tape.tape (ramp [1; 4; 4; 4])
      [2; 2; 2] (1, 1, 1)%Q 0 2 true (GammaVal 0) 1 (1, 0, 0)%Q
      None None None None (Some (tape_state [])) false (tape_world [])
    = Ok (img_new, target_new, M) /\
    dot_vec M [1; 1; 1; 1]%Q = Ok v /\ veq v [1; 1; 1; 1]%Q.
Proof.
  destruct (@get_tracing_slice_runs Coarse.coarse Tape.tape
              (ramp [1; 4; 4; 4]) 1 4 4 4 2 2 2 1 1 1 0 2 true (GammaVal 0) 1
              (1, 0, 0)%Q (tape_state []) (tape_world [])
              identity (Some (tape_state [])) (tape_world [])
              (scale (1 # 2) 1 1) (1 # 2))
    as ([[img_new target_new] M] & E);
    try reflexivity; try lia.
  - unfold meq, veq. vm_compute. entrywise; reflexivity.
  - destruct (@get_tracing_slice_centres_pos Coarse.coarse Tape.tape
                _ _ _ _ _ _ _ _ _ _ _ _ _ _ _ _ _ _ _ _ _ E)
      as (v & Hv & Hveq).
    exists img_new, target_new, M, v.
    split; [exact E |]. split; [exact Hv |].
    eapply veq_trans; [exact Hveq |].
    unfold veq. repeat constructor.
Defined.

(** ** Discrete target channels *)

Lemma mapM_In {A B : Type} (f : A -> result B) (l : list A) (l' : list B)
  (b : B) :
  mapM f l = Ok l' -> In b l' -> exists a, In a l /\ f a = Ok b.
Proof.
  intros H. apply mapM_Ok in H.
  induction H as [| a b' l l' Hab _ IH]; intros Hin.
  - destruct Hin.
  - destruct Hin as [<- | Hin].
    + exists a. split; [now left | exact Hab].
    + destruct (IH Hin) as (a' & Ha' & Hf). exists a'. split; [now right | exact Hf].
Qed.

Lemma gridM_In {A B : Type} (f : A -> result B) (g : list (list (list A)))
  (out : list (list (list B))) (b : B) :
  gridM f g = Ok out -> In b (grid_flat out) ->
  exists a, In a (grid_flat g) /\ f a = Ok b.
Proof.
  unfold gridM, grid_flat. intros H Hin.
  apply in_concat in Hin as (r & Hr & Hb).
  apply in_concat in Hr as (p & Hp & Hr).
  destruct (@mapM_In _ _ _ _ _ _ H Hp) as (p0 & Hp0 & Hfp).
  destruct (@mapM_In _ _ _ _ _ _ Hfp Hr) as (r0 & Hr0 & Hfr).
  destruct (@mapM_In _ _ _ _ _ _ Hfr Hb) as (a & Ha & Hfa).
  exists a. split; [| exact Hfa].
  apply in_concat. exists r0. split; [| exact Ha].
  apply in_concat. exists p0. split; assumption.
Qed.

Lemma nb_index_In {A : Type} (l : list A) (i : Z) (a : A) :
  nb_index l i = Ok a -> In a l.
Proof.
  unfold nb_index. destruct (_ && _); [| discriminate].
  destruct (nth_error l _) eqn:E; [| discriminate].
  intros H. injection H as <-. eapply nth_error_In; eauto.
Qed.

Lemma py_index_inv {A : Type} (l : list A) (i : Z) (a : A) :
  py_index l i = Ok a -> 0 <= i ->
  i < zlen l /\ nth_error l (Z.to_nat i) = Some a.
Proof.
  unfold py_index. intros H Hi.
  destruct (i <? 0) eqn:E; [lia |].
  destruct ((0 <=? i) && (i <? zlen l)) eqn:E2; [| discriminate].
  apply andb_true_iff in E2 as [_ E2]. apply Z.ltb_lt in E2.
  destruct (nth_error l (Z.to_nat i)) eqn:E3; [| discriminate].
  injection H as <-. auto.
Qed.

Lemma in_slice_indices (n a b z : Z) :
  0 <= n -> In z (slice_indices n a b) -> 0 <= z < n.
Proof.
  unfold slice_indices, slice_bound. intros Hn Hz.
  apply in_zrange in Hz.
  destruct (a <? 0) eqn:Ea; destruct (b <? 0) eqn:Eb; lia.
Qed.

(** X28: Without vector channels, and for a target dataset whose values
    [float32] holds exactly (the cut of the target is cast to [float32],
    line 560, which changes any other value, a label above 2^24 among
    them): every value of a discrete target channel [k] that [warp_slice]
    returns (no set of discrete indices given, or [k] in the set) is a
    value stored in channel [k] of the target dataset (its extents not
    negative), at an index inside it: resampling such a channel creates no
    new value (lines 494-573, 83-89). *)
Theorem warp_slice_discrete_target_values :
  forall (inp : Dataset) (ps : list Z) (M : matrix) (tgt : Dataset)
         (tp : list Z) (td : option (list Z)) (last : bool) (ks : Q)
         (inpv target : arr4) (k : Z) (ch : arr3) (v : Q),
    warp_slice inp ps M (Some tgt) (Some tp) None td last ks
    = Ok (inpv, Some target) ->
    float32_dataset tgt ->
    Forall (fun s => 0 <= s) (shape tgt) ->
    0 <= k -> is_discrete td k = true ->
    nth_error target (Z.to_nat k) = Some ch ->
    In v (grid_flat ch) ->
    exists c s0 s1 s2 z x y,
      shape tgt = [c; s0; s1; s2] /\ k < c /\
      0 <= z < s0 /\ 0 <= x < s1 /\ 0 <= y < s2 /\
      v = read tgt [k; z; x; y] /\ float32_exact v.
Proof.
  intros inp ps M tgt tp td last ks inpv target k ch v H Hf Hpos Hk Hd Hch Hv.
  rewrite warp_slice_stages in H.
  apply bind_Ok in H as ([[sh coords] inpv'] & _ & H).
  apply bind_Ok in H as (target' & Ht & H). injection H as _ <-.
  unfold warp_target in Ht.
  apply bind_Ok in Ht as (tw & _ & Ht).
  apply bind_Ok in Ht as (target'' & Hr & Ht). injection Ht as <-.
  rewrite resample_target_loop in Hr.
  pose proof (@mapM_length _ _ _ _ _ Hr) as Hlen.
  rewrite zrange_length in Hlen.
  assert (Hlt : (Z.to_nat k < length target'')%nat)
    by (apply nth_error_Some; congruence).
  assert (Hnth : nth_error (zrange 0 (hd 0 (shape tgt))) (Z.to_nat k) = Some k).
  { rewrite nth_error_zrange by lia. f_equal. lia. }
  apply mapM_Ok in Hr.
  destruct (@Forall2_nth_error _ _ _ _ _ _ _ Hr Hnth) as (ch' & Hch' & Hbody).
  rewrite Hch in Hch'. injection Hch' as <-.
  apply bind_Ok in Hbody as (src_k & Hsrc & Hbody).
  destruct (negb (fits tp (tw_coords tw))); [discriminate |].
  rewrite Hd in Hbody.
  destruct (@gridM_In _ _ _ _ _ _ Hbody Hv) as (c0 & _ & Hn).
  unfold nearest_at, nb_index3 in Hn.
  apply bind_Ok in Hn as (p & Hp & Hn).
  apply bind_Ok in Hn as (r & Hr' & Hn).
  apply nb_index_In in Hp, Hr', Hn.
  unfold read_region in Hsrc.
  destruct (shape tgt) as [| c [| s0 [| s1 [| s2 [| ? ?]]]]] eqn:Hsh;
    try (apply py_index_inv in Hsrc; [| exact Hk];
         destruct Hsrc as [Hsrc _]; unfold zlen in Hsrc; simpl in Hsrc; lia).
  apply py_index_inv in Hsrc; [| exact Hk].
  destruct Hsrc as [Hkc Hsrc].
  unfold zlen in Hkc. rewrite length_map, zrange_length in Hkc.
  rewrite nth_error_map, nth_error_zrange in Hsrc by lia.
  cbn [option_map] in Hsrc. injection Hsrc as <-.
  rewrite Z2Nat.id in Hp by lia.
  apply in_map_iff in Hp as (z & <- & Hz).
  apply in_map_iff in Hr' as (x & <- & Hx).
  apply in_map_iff in Hn as (y & <- & Hy).
  inversion Hpos as [| ? ? _ Hp1]; subst.
  inversion Hp1 as [| ? ? H0 Hp2]; subst.
  inversion Hp2 as [| ? ? H1 Hp3]; subst.
  inversion Hp3 as [| ? ? H2 _]; subst.
  exists c, s0, s1, s2, z, x, y.
  pose proof (@in_slice_indices _ _ _ _ H0 Hz) as Rz.
  pose proof (@in_slice_indices _ _ _ _ H1 Hx) as Rx.
  pose proof (@in_slice_indices _ _ _ _ H2 Hy) as Ry.
  split; [reflexivity |]. split; [lia |].
  split; [exact Rz |]. split; [exact Rx |]. split; [exact Ry |].
  split; [reflexivity |].
  apply Hf. rewrite Hsh. repeat constructor; lia.
Qed.

Lemma float32_exact_QofZ (z : Z) : Z.abs z < 2 ^ 24 -> float32_exact (QofZ z).
Proof.
  intros H. exists z, 0. split; [exact H |]. split; [lia |].
  change (2 ^ 0)%Q with 1%Q. unfold QofZ. ring.
Qed.

Lemma ramp_float32 (c s0 s1 s2 : Z) :
  c <= 10 -> s0 <= 10 -> s1 <= 10 -> s2 <= 10 ->
  float32_dataset (ramp [c; s0; s1; s2]).
Proof.
  intros Hc H0 H1 H2 ix Hix. cbn [shape ramp] in Hix.
  inversion Hix as [| a ? ix1 ? Ha Hix1]; subst.
  inversion Hix1 as [| b ? ix2 ? Hb Hix2]; subst.
  inversion Hix2 as [| e ? ix3 ? He Hix3]; subst.
  inversion Hix3 as [| f ? ix4 ? Hf Hix4]; subst.
  inversion Hix4; subst.
  cbn [read ramp fold_left]. apply float32_exact_QofZ. lia.
Qed.

Lemma warp_slice_discrete_target_values_witness :
  match warp_slice (ramp [2; 3; 3; 3]) [2; 2; 2] identity
          (Some (ramp [2; 3; 3; 3])) (Some [2; 2; 2]) None (Some [1])
          false (1 # 2) with
  | Ok (_, Some target) =>
      forall ch v,
        nth_error target 1 = Some ch -> In v (grid_flat ch) ->
        exists z x y,
          0 <= z < 3 /\ 0 <= x < 3 /\ 0 <= y < 3 /\
          v = read (ramp [2; 3; 3; 3]) [1; z; x; y]
  | _ => False
  end.
Proof.
  destruct (warp_slice (ramp [2; 3; 3; 3]) [2; 2; 2] identity
              (Some (ramp [2; 3; 3; 3])) (Some [2; 2; 2]) None (Some [1])
              false (1 # 2)) as [[inpv [target |]] | e] eqn:E.
  - intros ch v Hch Hv.
    destruct (@warp_slice_discrete_target_values _ _ _ _ _ _ _ _ _ _ 1 ch v E)
      as (c & s0 & s1 & s2 & z & x & y & Hsh & _ & Hz & Hx & Hy & Hval & _);
      [ apply ramp_float32; lia | repeat constructor; simpl; lia | lia
      | reflexivity | exact Hch | exact Hv | ].
    injection Hsh as <- <- <- <-.
    exists z, x, y. auto.
  - vm_compute in E. discriminate E.
  - vm_compute in E. discriminate E.
Defined.

(** ** The linear kernel stays within the data *)

Lemma lerp_range (a b x y t : Q) :
  (a <= x <= b)%Q -> (a <= y <= b)%Q -> (0 <= t <= 1)%Q ->
  (a <= x * (1 - t) + y * t <= b)%Q.
Proof.
  intros [Hx1 Hx2] [Hy1 Hy2] [Ht1 Ht2].
  assert (H1 : (0 <= (x - a) * (1 - t))%Q)
    by (apply Qmult_le_0_compat; lra).
  assert (H2 : (0 <= (y - a) * t)%Q) by (apply Qmult_le_0_compat; lra).
  assert (H3 : (0 <= (b - x) * (1 - t))%Q)
    by (apply Qmult_le_0_compat; lra).
  assert (H4 : (0 <= (b - y) * t)%Q) by (apply Qmult_le_0_compat; lra).
  split.
  - setoid_replace (x * (1 - t) + y * t)%Q
      with (a + ((x - a) * (1 - t) + (y - a) * t))%Q by ring.
    lra.
  - setoid_replace (x * (1 - t) + y * t)%Q
      with (b - ((b - x) * (1 - t) + (b - y) * t))%Q by ring.
    lra.
Qed.

Lemma Qtrunc_frac (u : Q) :
  (0 <= u)%Q -> (0 <= u - QofZ (Qtrunc u) <= 1)%Q.
Proof.
  intros H. unfold Qtrunc, QofZ.
  apply Qle_bool_iff in H. rewrite H.
  pose proof (Qfloor_le u) as H1. pose proof (Qlt_floor u) as H2.
  rewrite inject_Z_plus in H2. change (inject_Z 1) with 1%Q in H2.
  lra.
Qed.

Lemma nb_index3_In (src : arr3) (u v w : Z) (s : Q) :
  nb_index3 src u v w = Ok s -> In s (grid_flat src).
Proof.
  unfold nb_index3, grid_flat. intros H.
  apply bind_Ok in H as (p & Hp & H).
  apply bind_Ok in H as (r & Hr & H).
  apply nb_index_In in Hp, Hr, H.
  apply in_concat. exists r. split; [| exact H].
  apply in_concat. exists p. split; assumption.
Qed.

(** X29: Where no coordinate lies below [lo], every value
    [map_coordinates_linear] returns lies between any two bounds that hold
    of all values of the source array: the interpolation does not
    overshoot (lines 92-115). *)
Theorem map_coordinates_linear_range :
  forall (src : arr3) (coords : grid) (lo : vec) (out : arr3) (a b : Q),
    map_coordinates_linear src coords lo = Ok out ->
    (forall c, In c (grid_flat coords) ->
       (coord lo 0 <= coord c 0)%Q /\ (coord lo 1 <= coord c 1)%Q /\
       (coord lo 2 <= coord c 2)%Q) ->
    (forall s, In s (grid_flat src) -> (a <= s <= b)%Q) ->
    forall v, In v (grid_flat out) -> (a <= v <= b)%Q.
Proof.
  intros src coords lo out a b H Hc Hs v Hv.
  unfold map_coordinates_linear in H.
  destruct (@gridM_In _ _ _ _ _ _ H Hv) as (c & Hin & Hl).
  destruct (Hc c Hin) as (H0 & H1 & H2).
  unfold linear_at in Hl. cbv zeta in Hl.
  apply bind_Ok in Hl as (s000 & E000 & Hl).
  apply bind_Ok in Hl as (s100 & E100 & Hl).
  apply bind_Ok in Hl as (s010 & E010 & Hl).
  apply bind_Ok in Hl as (s001 & E001 & Hl).
  apply bind_Ok in Hl as (s101 & E101 & Hl).
  apply bind_Ok in Hl as (s011 & E011 & Hl).
  apply bind_Ok in Hl as (s110 & E110 & Hl).
  apply bind_Ok in Hl as (s111 & E111 & Hl).
  injection Hl as <-.
  apply nb_index3_In, Hs in E000, E100, E010, E001, E101, E011, E110, E111.
  assert (Hu : (0 <= coord c 0 - coord lo 0)%Q) by lra.
  assert (Hv' : (0 <= coord c 1 - coord lo 1)%Q) by lra.
  assert (Hw : (0 <= coord c 2 - coord lo 2)%Q) by lra.
  apply Qtrunc_frac in Hu, Hv', Hw.
  set (du := (coord c 0 - coord lo 0
              - QofZ (Qtrunc (coord c 0 - coord lo 0)))%Q) in *.
  set (dv := (coord c 1 - coord lo 1
              - QofZ (Qtrunc (coord c 1 - coord lo 1)))%Q) in *.
  set (dw := (coord c 2 - coord lo 2
              - QofZ (Qtrunc (coord c 2 - coord lo 2)))%Q) in *.
  pose proof (lerp_range E000 E100 Hu) as L00.
  pose proof (lerp_range E010 E110 Hu) as L10.
  pose proof (lerp_range E001 E101 Hu) as L01.
  pose proof (lerp_range E011 E111 Hu) as L11.
  pose proof (lerp_range L00 L10 Hv') as L0.
  pose proof (lerp_range L01 L11 Hv') as L1.
  pose proof (lerp_range L0 L1 Hw) as L.
  match goal with
  | |- (a <= ?e <= b)%Q =>
      setoid_replace e with
        (((s000 * (1 - du) + s100 * du) * (1 - dv)
          + (s010 * (1 - du) + s110 * du) * dv) * (1 - dw)
         + ((s001 * (1 - du) + s101 * du) * (1 - dv)
            + (s011 * (1 - du) + s111 * du) * dv) * dw)%Q by ring
  end.
  exact L.
Qed.


Lemma map_coordinates_linear_range_witness :
  match map_coordinates_linear
          [ [ [1; 2]; [3; 4] ]; [ [5; 6]; [7; 8] ] ]%Q
          [ [ [ [1 # 2; 1 # 3; 1 # 4] ] ] ]%Q [0; 0; 0]%Q with
  | Ok out => forall v, In v (grid_flat out) -> (1 <= v <= 8)%Q
  | Raise _ => False
  end.
Proof.
  destruct (map_coordinates_linear
              [ [ [1; 2]; [3; 4] ]; [ [5; 6]; [7; 8] ] ]%Q
              [ [ [ [1 # 2; 1 # 3; 1 # 4] ] ] ]%Q [0; 0; 0]%Q)
    as [out | e] eqn:E.
  - apply (@map_coordinates_linear_range _ _ _ _ 1%Q 8%Q E).
    + intros c [<- | []]. unfold Qle. simpl. lia.
    + intros s Hs. simpl in Hs.
      repeat (destruct Hs as [<- | Hs]; [unfold Qle; simpl; lia |]).
      destruct Hs.
  - vm_compute in E. discriminate E.
Defined.
